(* ===== verification/_CoqProject ===== *)
-Q . S2P
Prelude.v
BitArray.v
PageFrameAllocator.v
Storage.v
RingBuffer.v
Vector.v
MallocZone.v
PageEntries.v
Paging.v
BootMemory.v
PageMaps.v
PageMapLaws.v
TextDisplay.v
Terminal.v
LinkedList.v
LineEditor.v
Keyboard.v
Strings.v
Elf.v
Scheduler.v
Printf.v
Descriptors.v
Interrupts.v
Threads.v
SharedPointer.v
Either.v
KernelBoot.v
Locks.v
Symbolicator.v
Allocator.v
Logging.v
Panic.v
FloatingPoint.v
KernelRun.v
KernelReports.v
