(* ===== verification/Prelude.v ===== *)
(** * FlapjackOS: a verification development of the kernel

    FlapjackOS is a small x86 kernel in C++ (i386 and x86_64).  This library models its
    code as executable functions and proves what the code guarantees.  Every file of the
    library follows one part of the program; the definitions keep the names of the code.

    ** The program and its model

    *** Conventions (this file)

    An operation that can fail answers a [result]: a value, or the [fault] that stops the
    kernel.  A failed [assert] is [AssertionFailed], since the kernel's assertions are
    never compiled out; reading through null is [NullDereference]; touching memory or an
    object that is not there is [InvalidAccess]; and [OutOfFuel] is the outcome of a loop
    of the model whose fuel is used up, which the theorems exclude.  State is passed
    explicitly.  Machine integers are [Z] with [uwrap] and [swrap] where the code may
    leave the range; [W] is the width of a pointer where both platforms share the code.
    [run_all] and [refines] are the common form of the refinement theorems: a sequence of
    operations, compared one by one with a specification.

    *** Containers and values (src/Common/include/common)

    - BitArray.v: [BitArray], the bitmap of the page frame allocator.
    - Storage.v: raw memory with the lifetimes of the objects built in it; RingBuffer.v
      and Vector.v: [RingBuffer] and [Vector] over it; LinkedList.v: [LinkedList].
    - SharedPointer.v: [SharedPointer]; the [UniquePointer] is in Scheduler.v.
    - Either.v: [Either], [Optional] and [Expected] with their combinators.
    - Strings.v: src/Common/src/string.cpp and [StringToLongConverter]; Printf.v:
      [vsnprintf] and its helpers (stdio.cpp).

    *** Memory (src/Common/src/malloc_zone.cpp, src/Kernel/include)

    - MallocZone.v: the kernel heap; Allocator.v: malloc and its family over the interface
      [MemoryAllocator] (stdlib.cpp), which the heap implements, and the aligned new.
    - PageFrameAllocator.v: the interface of the page frame allocator, a class with its
      laws, and the implementation that satisfies them.
    - BootMemory.v: the enumerators of the boot loader's memory map and modules, and the
      operation that configures the page frame allocator with them.
    - PageEntries.v: the paging entries of both platforms behind the interface
      [PagingEntry]; Paging.v: the MMU, the resolvers behind [PagingResolver], the
      unmanaged physical memory map and the bootstrapper of the kernel's address space.
    - PageMaps.v and PageMapLaws.v: the controllers that own page tables and frames, the
      managed and the concrete physical memory maps.
    - Elf.v: the ELF parsers and loaders, over the interface [AddressSpace].
    - KernelBoot.v: the steps of the kernel's constructor (src/Kernel/src/kernel.cpp) that
      bring up memory, composed of the operations above.
    - KernelReports.v: the messages of the constructor and the test of the ELF loader;
      KernelRun.v: the demonstration of context switching and the console loop.

    *** Console and reports (src/Common/src, src/Kernel/src/drivers/pc)

    - TextDisplay.v: the display interface with its laws and the VGA driver; Terminal.v:
      [TextLine] and [TextTerminal]; LineEditor.v: [LineEditor]; Keyboard.v: the PS/2
      keyboard driver.
    - Logging.v: text output streams (serial port, Bochs port, terminal), the logger, the
      functions of stdio.cpp that print, and the terminal with its lock.
    - Panic.v: the report of [panic], and the handlers of page faults and of the other
      exceptions, which end in it.

    *** Processor and concurrency (src/Kernel/src, src/Kernel/include/platform)

    - Descriptors.v: interrupt gates, segment descriptors, task state segments.
    - Interrupts.v: the interrupt controller, the interrupt table (over [GatePolicy] with
      an instance for each platform), the dispatcher, the timer, the start of the drivers.
    - FloatingPoint.v: the control registers, and the initializer of the floating-point
      unit over the interface [ControlRegisters], which both platforms implement.
    - Scheduler.v: [InterruptLock], [UniquePointer], the round-robin scheduler; Threads.v:
      the stack of a new thread and the context switch.
    - Locks.v: [Mutex], [SpinLock], [LockGuard] and the pthread mutexes in interleaved
      threads, and the thread-specific data of the pthread stubs.
    - Symbolicator.v: the table of function names for reports and the factories that read
      it from the ELF sections of the kernel.

    ** What the theorems show

    - Refinement of an abstract specification: RingBuffer (a bounded deque), Vector (a list
      with a capacity), LinkedList (a list), SharedPointer (shared ownership), Either (a
      tagged sum), the terminal (lines of text), the scheduler (round robin), map_pages of
      the managed map (allocation on demand); the memory steps of the kernel's constructor
      lead from the page tables of the boot code to a heap and a managed map that satisfy
      the invariants which the other theorems start from.
    - Invariants over all reachable states: the heap's chain of blocks and the disjointness
      of its allocations, the free count of the page frame allocator, interrupts disabled
      until all handlers are installed.
    - Functional correctness of operations on all branches: malloc, free, realloc,
      memalign, allocate, map_page, configure, getline, dispatch, vsnprintf, strtol, strdup,
      calloc, the ELF loader, the keyboard driver, the symbolicator, the reports of panics
      and page faults, the console loop (the lines entered are the history kept).
    - Agreement with the hardware: both resolvers are the radix walk of the MMU; gates,
      segments and the task state segment are what the processor reads; exactly the bits of
      the control registers that the features of the processor ask for are changed; the
      interrupt table routes each vector to its routine; a context switch restores all registers.
    - Concurrency: mutual exclusion under every interleaving, and on the schedule of the
      kernel fairness of a mutex and absence of deadlock for locks nested in a fixed order;
      no thread starves under the scheduler.
    - Termination: the loops over the pages of a region visit each page once and stop,
      exactly when the region does not reach into the last page of the address space.
    - Error behaviour and defects the model made visible, stated as theorems (the swapped
      copy in realloc, the thread deleted while it runs, interrupts disabled after a
      preemption, the address of the task state segment truncated on x86_64, the heap
      allocated without a check, a spin lock that misses its release, interrupts enabled
      again by the report of a panic, a line of input that stops the console, and others).

    Theorems whose comment begins with C and a number are the principal properties; each
    one with hypotheses is followed by a witness that instantiates it.

    ** Fuel and bounds

    A loop over a structure in a store gets as fuel one more than the size of the store
    ([fuel_for]), which [store_size] shows is enough when no address is visited twice;
    loops over pages get the number of pages of the range ([page_fuel]); counting loops get
    their number of iterations; [configure] takes the fuel as a parameter, with the number
    of frames of the memory map as the bound its theorem asks for.  The round robin of
    Locks.v runs for a given number of steps, and its theorems say that some number is
    enough; the loop of the aligned new is bounded by its fuel, and never entered.  Where a theorem bounds a
    size (fewer than 2^30 elements, addresses below 2^W), the bound is what the width of
    the counters of the code needs.

    ** Parameters

    Code outside the repository or in assembly that C++ only calls is a parameter: the
    bytes that I/O ports answer, the addresses that [operator new] returns where a class
    only calls it, the addresses of the assembly stubs, the contents of the floating-point
    save area, the functions passed to the combinators, the comparison operators of
    element types, the demangler of libelftc, the handler of operator new, the answer of
    CPUID with the masks of cpuid.h, the program that the ELF loader starts, the frames that
    the unwinder walks.  The addresses of string literals and of local arrays are parameters
    too; the theorems ask that they do not overlap, as the compiler sees to.

    ** Not modelled

    The C++ runtime under src/Common/src/libcxxrt (its pthread stubs apart) and the test
    framework are third-party code.  The boot assembly runs before any C++ code; its tables are the initial state of
    the theorems on paging.  The unwinder itself is part of the compiler's runtime: exceptions
    appear as outcomes of the functions that throw them, and the frames of a back trace as a
    parameter; [Kernel::run], which catches them, and [kernel_main], which calls the global
    constructors, the constructor of [Kernel] and [run], are therefore left out.  A panic
    ends the kernel and is an outcome of the model.  Where TRACE is left out of a definition,
    or kept as a list of messages, Logging.v says what it writes.  The timer does not preempt
    the demonstration of KernelRun.v; Interrupts.v has preemption.  Two processors are not
    modelled: the kernel runs
    on one, and its locks disable interrupts. *)

From stdpp Require Export base tactics list list_numbers gmap numbers strings.
From Stdlib Require Export ZArith Lia.

#[global] Open Scope Z_scope.

(** ** Faults and results

    Every partial operation of the C++ code returns a [result]: either the value
    it computes or the fault that stops the kernel.  [assert] is never compiled
    out in this code base (flapjack_libc/assert.h calls [panic] in every build),
    so a failed assertion is an observable outcome, not undefined behaviour. *)
Inductive fault : Type :=
| AssertionFailed
| NullDereference
| InvalidAccess
| OutOfFuel.

Inductive result (A : Type) : Type :=
| Ok (a : A)
| Fault (f : fault).
Arguments Ok {A} _.
Arguments Fault {A} _.

#[global] Instance fault_eq_dec : EqDecision fault.
Proof. solve_decision. Defined.

#[global] Instance result_eq_dec `{EqDecision A} : EqDecision (result A).
Proof. solve_decision. Defined.

#[global] Instance result_ret : MRet result := @Ok.

#[global] Instance result_bind : MBind result := λ A B k c,
  match c with Ok a => k a | Fault f => Fault f end.

#[global] Instance result_fmap : FMap result := λ A B k c,
  match c with Ok a => Ok (k a) | Fault f => Fault f end.

(** [assert(b)] followed by the rest of the function. *)
Definition assert_then {A : Type} (b : bool) (k : result A) : result A :=
  if b then k else Fault AssertionFailed.

(** Reading through a pointer or reference that the store may not hold. *)
Definition deref {A : Type} (f : fault) (o : option A) : result A :=
  match o with Some a => Ok a | None => Fault f end.

Declare Scope cxx_scope.
Delimit Scope cxx_scope with cxx.
Notation "'assert!' b ; k" := (assert_then b%Z k)
  (at level 20, b at level 100, k at level 200, right associativity,
   format "'assert!'  b ;  '/' k") : cxx_scope.
#[global] Open Scope cxx_scope.

(** ** Machine integers

    An unsigned integer of width [w] is a [Z] in [0, 2^w); arithmetic that may
    leave that range is written with [uwrap].  A signed integer of width [w] is a
    [Z] in [-2^(w-1), 2^(w-1)). *)
Definition uwrap (w x : Z) : Z := x `mod` 2 ^ w.

Definition swrap (w x : Z) : Z := (x + 2 ^ (w - 1)) `mod` 2 ^ w - 2 ^ (w - 1).

(** Bitwise complement of an unsigned integer of width [w]. *)
Definition unot (w x : Z) : Z := 2 ^ w - 1 - x.

Definition fits (w x : Z) : Prop := 0 <= x < 2 ^ w.

(** ** Databases and tactics of the development *)
Create HintDb flapjack discriminated.
Create Rewrite HintDb bits.

(** Case analysis on the comparison a branch of the code tests. *)
Ltac case_Z :=
  match goal with
  | |- context [?a =? ?b] => destruct (Z.eqb_spec a b)
  | |- context [?a <? ?b] => destruct (Z.ltb_spec a b)
  | |- context [?a <=? ?b] => destruct (Z.leb_spec a b)
  | H : context [?a =? ?b] |- _ => destruct (Z.eqb_spec a b)
  | H : context [?a <? ?b] |- _ => destruct (Z.ltb_spec a b)
  | H : context [?a <=? ?b] |- _ => destruct (Z.leb_spec a b)
  end; simpl in *.

(** Discharge the comparisons that arithmetic already decides. *)
Ltac decide_Z :=
  repeat match goal with
  | |- context [?a =? ?b] =>
      first [ rewrite (proj2 (Z.eqb_eq a b)) by lia
            | rewrite (proj2 (Z.eqb_neq a b)) by lia ]
  | |- context [?a <? ?b] =>
      first [ rewrite (proj2 (Z.ltb_lt a b)) by lia
            | rewrite (proj2 (Z.ltb_ge a b)) by lia ]
  | |- context [?a <=? ?b] =>
      first [ rewrite (proj2 (Z.leb_le a b)) by lia
            | rewrite (proj2 (Z.leb_gt a b)) by lia ]
  end; cbn [assert_then negb andb orb].

(** Step through one bind whose computation is known to succeed. *)
Ltac ok_step H := rewrite H; cbn [mbind result_bind].

(** ** Results *)
Lemma bind_ok {A B} (c : result A) (k : A → result B) b :
  c ≫= k = Ok b ↔ ∃ a, c = Ok a ∧ k a = Ok b.
Proof. destruct c; naive_solver. Qed.

Lemma assert_ok {A} b (k : result A) a :
  assert_then b k = Ok a ↔ b = true ∧ k = Ok a.
Proof. destruct b; naive_solver. Qed.

Lemma deref_ok {A} f (o : option A) a : deref f o = Ok a ↔ o = Some a.
Proof. destruct o; naive_solver. Qed.

(** ** Sequences of operations

    [run_all step os s] performs the operations [os] from the state [s], collecting
    what each returns; the first fault stops it.  [refines] says that one operation
    of an implementation does what its specification says: the same result and
    related states, or the same fault. *)
Section Simulation.
Context {O R S A : Type}.

Fixpoint run_all {St : Type} (step : O → St → result (R * St)) (os : list O) (s : St)
  : result (list R * St) :=
  match os with
  | [] => mret ([], s)
  | o :: os =>
      '(r, s) ← step o s;
      '(rs, s) ← run_all step os s;
      mret (r :: rs, s)
  end.

Definition refines {X : Type} (rel : S → A → Prop) (spec : result (X * A))
    (impl : result (X * S)) : Prop :=
  match spec with
  | Ok (r, a) => ∃ s, impl = Ok (r, s) ∧ rel s a
  | Fault f => impl = Fault f
  end.

Lemma run_all_refines (step : O → S → result (R * S)) (spec : O → A → result (R * A))
    (rel : S → A → Prop) :
  (∀ o s a, rel s a → refines rel (spec o a) (step o s)) →
  ∀ os s a, rel s a → refines rel (run_all spec os a) (run_all step os s).
Proof.
  intros Hstep os. induction os as [|o os IH]; intros s a Hrel; cbn; [by exists s|].
  pose proof (Hstep o s a Hrel) as Ho. unfold refines in Ho.
  destruct (spec o a) as [[r a1]|f]; cbn; [|by rewrite Ho].
  destruct Ho as (s1 & -> & Hs1). cbn. specialize (IH s1 a1 Hs1). unfold refines in IH.
  destruct (run_all spec os a1) as [[rs a2]|f]; cbn; [|by rewrite IH].
  destruct IH as (s2 & -> & Hs2). by exists s2.
Qed.
End Simulation.

(** ** Stores *)

(** A store holds at least as many entries as there are distinct keys known in it: the
    fuel of a walk that never visits a key twice. *)
Lemma store_size {A} (m : gmap Z A) (keys : list Z) :
  NoDup keys → (∀ a, a ∈ keys → is_Some (m !! a)) → (length keys <= base.size m)%nat.
Proof.
  intros Hnd Hin. rewrite <-(size_dom (D := gset Z)), <-(size_list_to_set (C := gset Z)) by done.
  apply subseteq_size. intros a. rewrite elem_of_list_to_set, elem_of_dom. apply Hin.
Qed.

(** ** Unsigned arithmetic *)
Lemma uwrap_small w x : fits w x → uwrap w x = x.
Proof. apply Z.mod_small. Qed.

Lemma uwrap_fits w x : 0 <= w → fits w (uwrap w x).
Proof. intros. apply Z.mod_pos_bound, Z.pow_pos_nonneg; lia. Qed.

Lemma fits_mono w w' x : w <= w' → fits w x → fits w' x.
Proof.
  intros Hw [? ?]. split; [done|].
  eapply Z.lt_le_trans; [done|]. apply Z.pow_le_mono_r; lia.
Qed.

Lemma fits_testbit_high w x i : fits w x → w <= i → Z.testbit x i = false.
Proof.
  intros [H0 H1] Hi. destruct (decide (x = 0)) as [->|]; [apply Z.bits_0|].
  apply Z.bits_above_log2; [done|]. apply Z.log2_lt_pow2; [lia|].
  eapply Z.lt_le_trans; [done|]. apply Z.pow_le_mono_r; lia.
Qed.

(** A nonnegative number whose bits from [w] up are clear fits in [w] bits. *)
Lemma fits_of_bits w x :
  0 <= w → 0 <= x → (∀ i, w <= i → Z.testbit x i = false) → fits w x.
Proof.
  intros Hw Hx Hbits. split; [done|].
  destruct (decide (x = 0)) as [->|]; [apply Z.pow_pos_nonneg; lia|].
  apply Z.log2_lt_pow2; [lia|].
  destruct (Z.lt_ge_cases (Z.log2 x) w); [done|].
  pose proof (Hbits (Z.log2 x)) as Hb. rewrite Z.bit_log2 in Hb by lia.
  specialize (Hb ltac:(done)). done.
Qed.

Lemma fits_lor w x y : 0 <= w → fits w x → fits w y → fits w (Z.lor x y).
Proof.
  intros Hw Hx Hy. apply fits_of_bits; [done| |].
  - apply Z.lor_nonneg. unfold fits in *. lia.
  - intros. by rewrite Z.lor_spec, (fits_testbit_high w x), (fits_testbit_high w y).
Qed.

Lemma fits_land_l w x y : 0 <= w → fits w x → fits w (Z.land x y).
Proof.
  intros Hw Hx. apply fits_of_bits; [done| |].
  - apply Z.land_nonneg. unfold fits in *. lia.
  - intros. by rewrite Z.land_spec, (fits_testbit_high w x).
Qed.

Lemma unot_spec w x i :
  0 <= w → fits w x → 0 <= i →
  Z.testbit (unot w x) i = (i <? w) && negb (Z.testbit x i).
Proof.
  intros Hw Hx Hi.
  assert (unot w x = Z.lxor (Z.ones w) x) as ->.
  { unfold unot. replace (2 ^ w - 1) with (Z.ones w) by (rewrite Z.ones_equiv; lia).
    rewrite Z.sub_nocarry_ldiff.
    - apply Z.bits_inj'. intros n Hn. rewrite Z.ldiff_spec, Z.lxor_spec.
      destruct (Z.lt_ge_cases n w).
      + rewrite Z.ones_spec_low by lia. by destruct (Z.testbit x n).
      + rewrite Z.ones_spec_high by lia. by rewrite (fits_testbit_high w x).
    - apply Z.bits_inj'. intros n Hn. rewrite Z.ldiff_spec, Z.bits_0.
      destruct (Z.lt_ge_cases n w).
      + rewrite Z.ones_spec_low by lia. by rewrite andb_false_r.
      + by rewrite (fits_testbit_high w x). }
  rewrite Z.lxor_spec. case_Z.
  - rewrite Z.ones_spec_low by lia. done.
  - rewrite Z.ones_spec_high by lia. by rewrite (fits_testbit_high w x).
Qed.

Lemma unot_fits w x : fits w x → fits w (unot w x).
Proof. unfold fits, unot. lia. Qed.

Lemma testbit_shiftl_1 k i :
  0 <= k → 0 <= i → Z.testbit (Z.shiftl 1 k) i = (i =? k).
Proof.
  intros. rewrite Z.shiftl_1_l, Z.pow2_bits_eqb by done. apply Z.eqb_sym.
Qed.

(** [x & (1 << k)] is nonzero exactly when bit [k] of [x] is set. *)
Lemma land_bit_eqb x k :
  0 <= k → (Z.land x (Z.shiftl 1 k) =? 0) = negb (Z.testbit x k).
Proof.
  intros Hk. destruct (Z.testbit x k) eqn:Hb; simpl.
  - apply Z.eqb_neq. intros H0.
    assert (Z.testbit (Z.land x (Z.shiftl 1 k)) k = true) as H1.
    { by rewrite Z.land_spec, testbit_shiftl_1, Z.eqb_refl, Hb. }
    by rewrite H0, Z.bits_0 in H1.
  - apply Z.eqb_eq, Z.bits_inj'. intros i Hi.
    rewrite Z.land_spec, testbit_shiftl_1, Z.bits_0 by done.
    case_Z; subst; by rewrite ?Hb, ?andb_false_r.
Qed.

#[export] Hint Rewrite Z.lor_spec Z.land_spec Z.bits_0 : bits.
#[export] Hint Resolve uwrap_fits unot_fits fits_lor fits_land_l : flapjack.

(** ** Signed arithmetic: [swrap] depends on its argument modulo 2^w only *)
Lemma swrap_mod w x y : 0 < w → x `mod` 2 ^ w = y `mod` 2 ^ w → swrap w x = swrap w y.
Proof.
  intros Hw Hxy. unfold swrap. f_equal.
  by rewrite <-(Zplus_mod_idemp_l x), Hxy, Zplus_mod_idemp_l.
Qed.

Lemma swrap_repr w x : 0 < w → swrap w x `mod` 2 ^ w = x `mod` 2 ^ w.
Proof.
  intros Hw. unfold swrap. rewrite Zminus_mod_idemp_l. f_equal. lia.
Qed.

Lemma swrap_add_l w x y : 0 < w → swrap w (swrap w x + y) = swrap w (x + y).
Proof.
  intros Hw. apply swrap_mod; [done|].
  by rewrite <-Zplus_mod_idemp_l, swrap_repr, Zplus_mod_idemp_l.
Qed.

Lemma swrap_add_r w x y : 0 < w → swrap w (x + swrap w y) = swrap w (x + y).
Proof. intros. rewrite Z.add_comm, swrap_add_l by done. f_equal. lia. Qed.

Lemma swrap_mul_l w x y : 0 < w → swrap w (swrap w x * y) = swrap w (x * y).
Proof.
  intros Hw. apply swrap_mod; [done|].
  by rewrite <-Zmult_mod_idemp_l, swrap_repr, Zmult_mod_idemp_l.
Qed.

Lemma swrap_mul_r w x y : 0 < w → swrap w (x * swrap w y) = swrap w (x * y).
Proof. intros. rewrite Z.mul_comm, swrap_mul_l by done. f_equal. lia. Qed.

Lemma swrap_idem w x : 0 < w → swrap w (swrap w x) = swrap w x.
Proof. intros. apply swrap_mod; [done|]. by apply swrap_repr. Qed.

Lemma swrap_small w x : 0 < w → - 2 ^ (w - 1) <= x < 2 ^ (w - 1) → swrap w x = x.
Proof.
  intros Hw Hx. unfold swrap. rewrite Z.mod_small; [lia|].
  replace (2 ^ w) with (2 * 2 ^ (w - 1)); [lia|]. rewrite <-Z.pow_succ_r by lia. f_equal. lia.
Qed.

(** ** Memory filled with one value *)
Definition fill (b : gmap Z Z) (dst value n : Z) : gmap Z Z :=
  foldr (λ i b, <[dst + i := value]> b) b (seqZ 0 n).

Lemma lookup_fill b dst value n a :
  0 <= n → fill b dst value n !! a = if (dst <=? a) && (a <? dst + n) then Some value else b !! a.
Proof.
  intros Hn. unfold fill. assert (∀ l : list Z, foldr (λ i b, <[dst + i := value]> b) b l !! a
    = if bool_decide (a - dst ∈ l) then Some value else b !! a) as Hl.
  { induction l as [|i l IH]; [by rewrite bool_decide_false by (by intros ?%not_elem_of_nil)|]. cbn.
    destruct (decide (a = dst + i)) as [->|Hne].
    - rewrite lookup_insert_eq, bool_decide_true; [done|]. replace (dst + i - dst) with i by lia.
      apply list_elem_of_here.
    - rewrite lookup_insert_ne, IH by done. apply (f_equal (λ c : bool, if c then _ else _)).
      apply bool_decide_ext. rewrite elem_of_cons. split; [by right|]. intros [?|?]; [lia|done]. }
  rewrite Hl. apply (f_equal (λ c : bool, if c then _ else _)). apply eq_true_iff_eq.
  rewrite bool_decide_eq_true, elem_of_seqZ, andb_true_iff, Z.leb_le, Z.ltb_lt. lia.
Qed.
