(* ===== verification/BitArray.v ===== *)
(** * BitArray: the compact array of bits behind the page frame allocator

    Models [BitArray<CAPACITY>] of src/Common/include/common/bit_array.hpp.  The
    state is [storage_], the array of bytes; every method is a function on it.
    [bit] reads the abstract bit of an index, and the theorems say what each
    method does to the abstract bits. *)
From S2P Require Import Prelude.

Module BitArray.

Definition CHAR_BIT : Z := 8.
Definition sizeof_Word : Z := 4.
Definition NUMBER_OF_WORD_BITS : Z := sizeof_Word * 8.
Definition NOT_FOUND : Z := -1.

Definition calc_number_of_storage_bytes (number_of_bits : Z) : Z :=
  (number_of_bits + NUMBER_OF_WORD_BITS - 1) / NUMBER_OF_WORD_BITS * sizeof_Word.

Section Methods.
Context (CAPACITY : Z).

Definition sizeof_storage : Z := calc_number_of_storage_bytes CAPACITY.

(** [memset(storage_, value, sizeof(storage_))] overwrites every byte. *)
Definition clear_all (storage_ : list Z) : list Z :=
  replicate (Z.to_nat sizeof_storage) 0x00.

Definition set_all (storage_ : list Z) : list Z :=
  replicate (Z.to_nat sizeof_storage) 0xFF.

(** The constructor; the storage it starts from is indeterminate. *)
Definition init : list Z := clear_all [].

Definition get_mask (bit_index : Z) : Z := Z.shiftl 1 (bit_index `mod` CHAR_BIT).

(** The reference [get_byte] returns is the position of the byte in [storage_]. *)
Definition get_byte (bit_index : Z) : result nat :=
  assert! bit_index <? CAPACITY;
  assert! bit_index / CHAR_BIT <? sizeof_storage;
  mret (Z.to_nat (bit_index / CHAR_BIT)).

(** The compound assignments convert the [size_t] mask back to [uint8_t]. *)
Definition set (storage_ : list Z) (bit_index : Z) : result (list Z) :=
  b ← get_byte bit_index;
  byte ← deref InvalidAccess (storage_ !! b);
  mret (<[b := uwrap 8 (Z.lor byte (get_mask bit_index))]> storage_).

Definition clear (storage_ : list Z) (bit_index : Z) : result (list Z) :=
  b ← get_byte bit_index;
  byte ← deref InvalidAccess (storage_ !! b);
  mret (<[b := uwrap 8 (Z.land byte (Z.lnot (get_mask bit_index)))]> storage_).

Definition test (storage_ : list Z) (bit_index : Z) : result bool :=
  b ← get_byte bit_index;
  byte ← deref InvalidAccess (storage_ !! b);
  mret (negb (Z.land byte (get_mask bit_index) =? 0)).

Definition get_number_of_bits : Z := CAPACITY.

(** The loops run while [i < length]; [n] counts the iterations left. *)
Fixpoint set_region_loop (n : nat) (i bit_index_begin : Z) (storage_ : list Z)
  : result (list Z) :=
  match n with
  | O => mret storage_
  | S n => s ← set storage_ (i + bit_index_begin);
           set_region_loop n (i + 1) bit_index_begin s
  end.

Definition set_region (storage_ : list Z) (bit_index_begin length : Z)
  : result (list Z) :=
  set_region_loop (Z.to_nat length) 0 bit_index_begin storage_.

Fixpoint clear_region_loop (n : nat) (i bit_index_begin : Z) (storage_ : list Z)
  : result (list Z) :=
  match n with
  | O => mret storage_
  | S n => s ← clear storage_ (i + bit_index_begin);
           clear_region_loop n (i + 1) bit_index_begin s
  end.

Definition clear_region (storage_ : list Z) (bit_index_begin length : Z)
  : result (list Z) :=
  clear_region_loop (Z.to_nat length) 0 bit_index_begin storage_.

(** [get_words()[i]]: four bytes of storage read as a little-endian [unsigned]. *)
Definition get_word (storage_ : list Z) (i : Z) : Z :=
  let b := λ k, default 0 (storage_ !! Z.to_nat (i * sizeof_Word + k)) in
  b 0 + b 1 * 2 ^ 8 + b 2 * 2 ^ 16 + b 3 * 2 ^ 24.

Definition get_number_of_words : Z := CAPACITY / NUMBER_OF_WORD_BITS.

Fixpoint matching_word_loop (n : nat) (i : Z) (storage_ : list Z)
    (desired_value : bool) : Z :=
  match n with
  | O => NOT_FOUND
  | S n =>
      if Bool.eqb (get_word storage_ i =? 0) desired_value
      then i * NUMBER_OF_WORD_BITS
      else matching_word_loop n (i + 1) storage_ desired_value
  end.

Definition scan_forwards_to_find_bit_index_of_matching_word
    (storage_ : list Z) (desired_value : bool) : Z :=
  matching_word_loop (Z.to_nat get_number_of_words) 0 storage_ desired_value.

Fixpoint slow_scan_forward_loop (n : nat) (i : Z) (storage_ : list Z)
    (desired_value : bool) : result Z :=
  match n with
  | O => mret NOT_FOUND
  | S n =>
      t ← test storage_ i;
      if Bool.eqb t desired_value then mret i
      else slow_scan_forward_loop n (i + 1) storage_ desired_value
  end.

Definition slow_scan_forward (storage_ : list Z) (begin : Z) (desired_value : bool)
  : result Z :=
  slow_scan_forward_loop (Z.to_nat (CAPACITY - begin)) begin storage_ desired_value.

Definition scan_forward (storage_ : list Z) (desired_value : bool) : result Z :=
  let begin :=
    scan_forwards_to_find_bit_index_of_matching_word storage_ desired_value in
  if begin =? NOT_FOUND then mret NOT_FOUND
  else slow_scan_forward storage_ begin desired_value.

Fixpoint slow_scan_backward_loop (n : nat) (i : Z) (storage_ : list Z)
    (desired_value : bool) : result Z :=
  match n with
  | O => mret NOT_FOUND
  | S n =>
      t ← test storage_ i;
      if Bool.eqb t desired_value then mret i
      else slow_scan_backward_loop n (i - 1) storage_ desired_value
  end.

Definition slow_scan_backward (storage_ : list Z) (begin : Z) (desired_value : bool)
  : result Z :=
  slow_scan_backward_loop (Z.to_nat (begin + 1)) begin storage_ desired_value.

Definition scan_backward (storage_ : list Z) (desired_value : bool) : result Z :=
  slow_scan_backward storage_ (CAPACITY - 1) desired_value.

(** ** Well-formedness and the abstract bits *)
Definition wf (storage_ : list Z) : Prop :=
  length storage_ = Z.to_nat sizeof_storage ∧ Forall (fits 8) storage_.

Definition bit (storage_ : list Z) (i : Z) : bool :=
  Z.testbit (default 0 (storage_ !! Z.to_nat (i / CHAR_BIT))) (i `mod` CHAR_BIT).

Definition in_range (i : Z) : Prop := 0 <= i < CAPACITY.

Lemma byte_index_bound i : in_range i → 0 <= i / CHAR_BIT < sizeof_storage.
Proof.
  unfold in_range, sizeof_storage, calc_number_of_storage_bytes, CHAR_BIT,
    NUMBER_OF_WORD_BITS, sizeof_Word. intros.
  pose proof (Z.div_mod (CAPACITY + 4 * 8 - 1) (4 * 8) ltac:(lia)).
  pose proof (Z.mod_pos_bound (CAPACITY + 4 * 8 - 1) (4 * 8) ltac:(lia)).
  split; [apply Z.div_pos; lia|]. apply Z.div_lt_upper_bound; lia.
Qed.

Lemma get_byte_ok i : in_range i → get_byte i = Ok (Z.to_nat (i / CHAR_BIT)).
Proof.
  intros Hi. pose proof (byte_index_bound i Hi). unfold get_byte, in_range in *.
  by decide_Z.
Qed.

Lemma wf_lookup s i :
  wf s → in_range i →
  ∃ byte, s !! Z.to_nat (i / CHAR_BIT) = Some byte ∧ fits 8 byte ∧
          bit s i = Z.testbit byte (i `mod` CHAR_BIT).
Proof.
  intros [Hlen Hf] Hi. pose proof (byte_index_bound i Hi).
  destruct (lookup_lt_is_Some_2 s (Z.to_nat (i / CHAR_BIT))) as [byte Hb]; [lia|].
  exists byte. split_and!; [done| |].
  - by eapply Forall_lookup_1 in Hf.
  - unfold bit. by rewrite Hb.
Qed.

Lemma test_ok s i : wf s → in_range i → test s i = Ok (bit s i).
Proof.
  intros Hs Hi. destruct (wf_lookup s i Hs Hi) as (byte & Hb & Hf & ->).
  unfold test. rewrite get_byte_ok by done. cbn. rewrite Hb. cbn.
  unfold get_mask. rewrite land_bit_eqb, negb_involutive; [done|].
  by apply Z.mod_pos_bound.
Qed.

Lemma mod_bits_8 i : 0 <= i `mod` CHAR_BIT < 8.
Proof. by apply Z.mod_pos_bound. Qed.

Lemma mod_bits_nonneg i : 0 <= i `mod` CHAR_BIT.
Proof. apply mod_bits_8. Qed.

(** Overwriting one byte changes the bits of that byte only. *)
Lemma bit_insert s i j byte :
  wf s → in_range i → in_range j →
  bit (<[Z.to_nat (i / CHAR_BIT) := byte]> s) j =
  if i / CHAR_BIT =? j / CHAR_BIT then Z.testbit byte (j `mod` CHAR_BIT) else bit s j.
Proof.
  intros [Hlen Hf] Hi Hj. unfold bit.
  pose proof (byte_index_bound i Hi). pose proof (byte_index_bound j Hj). case_Z.
  - rewrite <- e. rewrite list_lookup_insert_eq by lia. done.
  - rewrite list_lookup_insert_ne by lia. done.
Qed.

Lemma wf_insert s k byte : wf s → fits 8 byte → wf (<[k := byte]> s).
Proof.
  intros [Hlen Hf] Hb. split; [by rewrite length_insert|]. by apply Forall_insert.
Qed.

Lemma index_split i j :
  i / CHAR_BIT = j / CHAR_BIT →
  (j `mod` CHAR_BIT =? i `mod` CHAR_BIT) = (j =? i).
Proof.
  intros Hd. pose proof (Z.div_mod i CHAR_BIT ltac:(done)).
  pose proof (Z.div_mod j CHAR_BIT ltac:(done)). unfold CHAR_BIT in *.
  destruct (Z.eqb_spec (j `mod` 8) (i `mod` 8)); symmetry;
    [apply Z.eqb_eq|apply Z.eqb_neq]; lia.
Qed.

Lemma testbit_uwrap8 x k : 0 <= k < 8 → Z.testbit (uwrap 8 x) k = Z.testbit x k.
Proof. intros. unfold uwrap. apply Z.mod_pow2_bits_low. lia. Qed.

Lemma set_ok s i :
  wf s → in_range i →
  ∃ s', set s i = Ok s' ∧ wf s' ∧
        ∀ j, in_range j → bit s' j = (j =? i) || bit s j.
Proof.
  intros Hs Hi. destruct (wf_lookup s i Hs Hi) as (byte & Hb & Hf & Hbit).
  unfold set. rewrite get_byte_ok by done. cbn. rewrite Hb. cbn.
  eexists. split; [done|]. split; [apply wf_insert; [done|by apply uwrap_fits]|].
  intros j Hj. rewrite bit_insert by done. case_Z.
  - rewrite testbit_uwrap8 by apply mod_bits_8. unfold get_mask.
    rewrite Z.lor_spec, testbit_shiftl_1 by apply mod_bits_nonneg.
    rewrite index_split by done. unfold bit. rewrite <- e, Hb. apply orb_comm.
  - destruct (Z.eqb_spec j i); [congruence|done].
Qed.

Lemma clear_ok s i :
  wf s → in_range i →
  ∃ s', clear s i = Ok s' ∧ wf s' ∧
        ∀ j, in_range j → bit s' j = negb (j =? i) && bit s j.
Proof.
  intros Hs Hi. destruct (wf_lookup s i Hs Hi) as (byte & Hb & Hf & Hbit).
  unfold clear. rewrite get_byte_ok by done. cbn. rewrite Hb. cbn.
  eexists. split; [done|]. split; [apply wf_insert; [done|by apply uwrap_fits]|].
  intros j Hj. rewrite bit_insert by done. case_Z.
  - rewrite testbit_uwrap8 by apply mod_bits_8. unfold get_mask.
    rewrite Z.land_spec, Z.lnot_spec, testbit_shiftl_1 by apply mod_bits_nonneg.
    rewrite index_split by done. unfold bit. rewrite <- e, Hb. apply andb_comm.
  - destruct (Z.eqb_spec j i); [congruence|done].
Qed.

(** ** Whole-array operations *)
Lemma wf_replicate byte : fits 8 byte → wf (replicate (Z.to_nat sizeof_storage) byte).
Proof.
  intros Hb. split; [by rewrite length_replicate|]. by apply Forall_replicate.
Qed.

Lemma bit_replicate byte i :
  in_range i →
  bit (replicate (Z.to_nat sizeof_storage) byte) i = Z.testbit byte (i `mod` CHAR_BIT).
Proof.
  intros Hi. pose proof (byte_index_bound i Hi). unfold bit.
  by rewrite lookup_replicate_2 by lia.
Qed.

Lemma clear_all_wf s : wf (clear_all s).
Proof. apply wf_replicate. unfold fits; lia. Qed.

Lemma set_all_wf s : wf (set_all s).
Proof. apply wf_replicate. unfold fits; lia. Qed.

Lemma bit_clear_all s i : in_range i → bit (clear_all s) i = false.
Proof. intros Hi. unfold clear_all. rewrite bit_replicate by done. apply Z.bits_0. Qed.

Lemma bit_set_all s i : in_range i → bit (set_all s) i = true.
Proof.
  intros Hi. unfold set_all. rewrite bit_replicate by done.
  change 0xFF with (Z.ones 8). apply Z.ones_spec_low, mod_bits_8.
Qed.

(** ** Regions *)
Lemma set_region_loop_ok n i b s :
  wf s → 0 <= i + b → i + b + Z.of_nat n <= CAPACITY →
  ∃ s', set_region_loop n i b s = Ok s' ∧ wf s' ∧
        ∀ j, in_range j →
             bit s' j = ((i + b <=? j) && (j <? i + b + Z.of_nat n)) || bit s j.
Proof.
  revert i s. induction n as [|n IH]; intros i s Hs H0 H1; simpl.
  { exists s. split_and!; [done..|]. intros j Hj. case_Z; case_Z; (done || lia). }
  destruct (set_ok s (i + b) Hs) as (s1 & -> & Hs1 & Hb1); [unfold in_range; lia|].
  cbn. destruct (IH (i + 1) s1 Hs1) as (s2 & -> & Hs2 & Hb2); [lia..|].
  exists s2. split_and!; [done..|]. intros j Hj. rewrite Hb2, Hb1 by done.
  repeat case_Z; destruct (bit s j); (done || lia).
Qed.

Lemma clear_region_loop_ok n i b s :
  wf s → 0 <= i + b → i + b + Z.of_nat n <= CAPACITY →
  ∃ s', clear_region_loop n i b s = Ok s' ∧ wf s' ∧
        ∀ j, in_range j →
             bit s' j = negb ((i + b <=? j) && (j <? i + b + Z.of_nat n)) && bit s j.
Proof.
  revert i s. induction n as [|n IH]; intros i s Hs H0 H1; simpl.
  { exists s. split_and!; [done..|]. intros j Hj. case_Z; case_Z; (done || lia). }
  destruct (clear_ok s (i + b) Hs) as (s1 & -> & Hs1 & Hb1); [unfold in_range; lia|].
  cbn. destruct (IH (i + 1) s1 Hs1) as (s2 & -> & Hs2 & Hb2); [lia..|].
  exists s2. split_and!; [done..|]. intros j Hj. rewrite Hb2, Hb1 by done.
  repeat case_Z; destruct (bit s j); (done || lia).
Qed.

(** ** Scans *)

(** [first_index_from b v r]: [r] is the least index of [b, CAPACITY) whose bit is
    [v], or [NOT_FOUND] when there is none. *)
Definition first_index_from (s : list Z) (b : Z) (v : bool) (r : Z) : Prop :=
  (r = NOT_FOUND ∧ ∀ j, b <= j < CAPACITY → bit s j = negb v) ∨
  (b <= r < CAPACITY ∧ bit s r = v ∧ ∀ j, b <= j < r → bit s j = negb v).

Definition last_index_below (s : list Z) (b : Z) (v : bool) (r : Z) : Prop :=
  (r = NOT_FOUND ∧ ∀ j, 0 <= j <= b → bit s j = negb v) ∨
  (0 <= r <= b ∧ bit s r = v ∧ ∀ j, r < j <= b → bit s j = negb v).

Lemma eqb_false_negb a b : Bool.eqb a b = false → a = negb b.
Proof. by destruct a, b. Qed.

Lemma slow_scan_forward_loop_ok n i s v :
  wf s → 0 <= i → CAPACITY - i = Z.of_nat n →
  ∃ r, slow_scan_forward_loop n i s v = Ok r ∧ first_index_from s i v r.
Proof.
  intros Hs. revert i. induction n as [|n IH]; intros i H0 H1; simpl.
  { exists NOT_FOUND. split; [done|]. left. split; [done|]. intros. lia. }
  rewrite test_ok by (done || unfold in_range; lia). cbn.
  destruct (Bool.eqb (bit s i) v) eqn:He.
  { apply Bool.eqb_prop in He. exists i. split; [done|]. right.
    split_and!; [lia|lia|done|]. intros. lia. }
  apply eqb_false_negb in He.
  destruct (IH (i + 1)) as (r & -> & Hr); [lia..|]. exists r. split; [done|].
  destruct Hr as [[-> Hr]|(Hr & Hv & Hb)]; [left|right]; split_and!; try done; try lia;
    intros j Hj; destruct (decide (j = i)) as [->|]; try done;
    (apply Hr || apply Hb); lia.
Qed.

Lemma slow_scan_backward_loop_ok n i s v :
  wf s → i < CAPACITY → i + 1 = Z.of_nat n →
  ∃ r, slow_scan_backward_loop n i s v = Ok r ∧ last_index_below s i v r.
Proof.
  intros Hs. revert i. induction n as [|n IH]; intros i H0 H1; simpl.
  { exists NOT_FOUND. split; [done|]. left. split; [done|]. intros. lia. }
  rewrite test_ok by (done || unfold in_range; lia). cbn.
  destruct (Bool.eqb (bit s i) v) eqn:He.
  { apply Bool.eqb_prop in He. exists i. split; [done|]. right.
    split_and!; [lia|lia|done|]. intros. lia. }
  apply eqb_false_negb in He.
  destruct (IH (i - 1)) as (r & -> & Hr); [lia..|]. exists r. split; [done|].
  destruct Hr as [[-> Hr]|(Hr & Hv & Hb)]; [left|right]; split_and!; try done; try lia;
    intros j Hj; destruct (decide (j = i)) as [->|]; try done;
    (apply Hr || apply Hb); lia.
Qed.

Lemma get_word_set_all s i :
  0 <= i < get_number_of_words → get_word (set_all s) i = 2 ^ 32 - 1.
Proof.
  unfold get_number_of_words, NUMBER_OF_WORD_BITS, get_word, set_all, sizeof_storage,
    calc_number_of_storage_bytes, NUMBER_OF_WORD_BITS, sizeof_Word. intros Hi.
  assert (i * 4 + 3 < (CAPACITY + 4 * 8 - 1) / (4 * 8) * 4).
  { pose proof (Z.div_le_mono CAPACITY (CAPACITY + 4 * 8 - 1) (4 * 8)). lia. }
  rewrite !lookup_replicate_2 by lia. done.
Qed.

Lemma matching_word_loop_set_all n i s :
  0 <= i → i + Z.of_nat n <= get_number_of_words →
  matching_word_loop n i (set_all s) true = NOT_FOUND.
Proof.
  revert i. induction n as [|n IH]; intros i H0 H1; simpl; [done|].
  rewrite get_word_set_all by lia. simpl. apply IH; lia.
Qed.

(** A region that reaches past the end stops in the assertion. *)
Lemma set_past_end s i : CAPACITY <= i → set s i = Fault AssertionFailed.
Proof. intros. unfold set, get_byte. by decide_Z. Qed.

Lemma clear_past_end s i : CAPACITY <= i → clear s i = Fault AssertionFailed.
Proof. intros. unfold clear, get_byte. by decide_Z. Qed.

Lemma region_loop_overrun n i b s :
  wf s → 0 <= i + b → i + b <= CAPACITY < i + b + Z.of_nat n →
  set_region_loop n i b s = Fault AssertionFailed ∧
  clear_region_loop n i b s = Fault AssertionFailed.
Proof.
  intros Hs H0 H1. split; revert i s Hs H0 H1;
    induction n as [|n IH]; intros i s Hs H0 H1; simpl; try lia;
    destruct (decide (i + b = CAPACITY)).
  - by rewrite set_past_end by lia.
  - destruct (set_ok s (i + b) Hs) as (s1 & -> & Hs1 & _); [unfold in_range; lia|].
    cbn. apply IH; [done|lia..].
  - by rewrite clear_past_end by lia.
  - destruct (clear_ok s (i + b) Hs) as (s1 & -> & Hs1 & _); [unfold in_range; lia|].
    cbn. apply IH; [done|lia..].
Qed.

Lemma region_overrun s b len :
  wf s → 0 <= b → 0 <= len → b <= CAPACITY < b + len →
  set_region_loop (Z.to_nat len) 0 b s = Fault AssertionFailed ∧
  clear_region_loop (Z.to_nat len) 0 b s = Fault AssertionFailed.
Proof. intros. apply region_loop_overrun; [done|lia..]. Qed.

End Methods.

(** ** Properties *)

(** [set] and [clear] never fault on an index below CAPACITY, keep the storage
    well formed, and change exactly one bit: afterwards [test] answers [true]
    (resp. [false]) at that index and its old answer at every other index. *)
Theorem set_clear_test CAPACITY s i :
  wf CAPACITY s → in_range CAPACITY i →
  ∃ s1 s0, set CAPACITY s i = Ok s1 ∧ clear CAPACITY s i = Ok s0 ∧
    wf CAPACITY s1 ∧ wf CAPACITY s0 ∧
    ∀ j, in_range CAPACITY j →
      test CAPACITY s1 j = (if j =? i then Ok true else test CAPACITY s j) ∧
      test CAPACITY s0 j = (if j =? i then Ok false else test CAPACITY s j).
Proof.
  intros Hs Hi.
  destruct (set_ok CAPACITY s i Hs Hi) as (s1 & H1 & Hw1 & Hb1).
  destruct (clear_ok CAPACITY s i Hs Hi) as (s0 & H0 & Hw0 & Hb0).
  exists s1, s0. split_and!; [done..|]. intros j Hj.
  rewrite !test_ok, Hb1, Hb0 by done. by destruct (j =? i).
Qed.

Lemma set_clear_test_witness :
  ∃ s1 s0, set 10 (init 10) 9 = Ok s1 ∧ clear 10 (init 10) 9 = Ok s0 ∧
    wf 10 s1 ∧ wf 10 s0 ∧
    ∀ j, in_range 10 j →
      test 10 s1 j = (if j =? 9 then Ok true else test 10 (init 10) j) ∧
      test 10 s0 j = (if j =? 9 then Ok false else test 10 (init 10) j).
Proof.
  apply (set_clear_test 10 (init 10) 9); [apply clear_all_wf|unfold in_range; lia].
Defined.

(** [set_region] and [clear_region] on a region inside the array succeed, keep
    the storage well formed, and set (resp. clear) exactly the bits of
    [b, b + length); a region that runs past CAPACITY stops in the assertion of
    [get_byte]. *)
Theorem region_updates CAPACITY s b len :
  wf CAPACITY s → 0 <= b → 0 <= len →
  (b + len <= CAPACITY →
   ∃ s1 s0, set_region CAPACITY s b len = Ok s1 ∧
     clear_region CAPACITY s b len = Ok s0 ∧ wf CAPACITY s1 ∧ wf CAPACITY s0 ∧
     ∀ j, in_range CAPACITY j →
       bit s1 j = ((b <=? j) && (j <? b + len)) || bit s j ∧
       bit s0 j = negb ((b <=? j) && (j <? b + len)) && bit s j) ∧
  (b <= CAPACITY < b + len →
   set_region CAPACITY s b len = Fault AssertionFailed ∧
   clear_region CAPACITY s b len = Fault AssertionFailed).
Proof.
  intros Hs Hb Hl. unfold set_region, clear_region. split.
  - intros Hle.
    destruct (set_region_loop_ok CAPACITY (Z.to_nat len) 0 b s Hs)
      as (s1 & -> & Hw1 & H1); [lia..|].
    destruct (clear_region_loop_ok CAPACITY (Z.to_nat len) 0 b s Hs)
      as (s0 & -> & Hw0 & H0); [lia..|].
    exists s1, s0. split_and!; [done..|]. intros j Hj. rewrite H1, H0 by done.
    by rewrite Z.add_0_l, Z2Nat.id.
  - intros Hle. by apply region_overrun.
Qed.

Lemma region_updates_witness :
  ∃ s1 s0, set_region 40 (init 40) 10 3 = Ok s1 ∧
     clear_region 40 (init 40) 10 3 = Ok s0 ∧ wf 40 s1 ∧ wf 40 s0 ∧
     ∀ j, in_range 40 j →
       bit s1 j = ((10 <=? j) && (j <? 10 + 3)) || bit (init 40) j ∧
       bit s0 j = negb ((10 <=? j) && (j <? 10 + 3)) && bit (init 40) j.
Proof.
  apply (region_updates 40 (init 40) 10 3); [apply clear_all_wf|lia..].
Defined.

(** [scan_backward] returns the greatest index whose bit has the desired value,
    or NOT_FOUND when no bit has it, and [slow_scan_forward] returns the least such
    index from its starting point; neither ever faults. *)
Theorem scans_find_extreme_index CAPACITY s v begin :
  0 < CAPACITY → wf CAPACITY s → in_range CAPACITY begin →
  (∃ r, scan_backward CAPACITY s v = Ok r ∧ last_index_below s (CAPACITY - 1) v r) ∧
  (∃ r, slow_scan_forward CAPACITY s begin v = Ok r ∧
        first_index_from CAPACITY s begin v r).
Proof.
  unfold in_range. intros Hc Hs Hb. split.
  - apply slow_scan_backward_loop_ok; [done|lia..].
  - apply slow_scan_forward_loop_ok; [done|lia..].
Qed.

Lemma scans_find_extreme_index_witness :
  (∃ r, scan_backward 40 (init 40) false = Ok r ∧
        last_index_below (init 40) (40 - 1) false r) ∧
  (∃ r, slow_scan_forward 40 (init 40) 3 false = Ok r ∧
        first_index_from 40 (init 40) 3 false r).
Proof.
  apply scans_find_extreme_index; [lia|apply clear_all_wf|unfold in_range; lia].
Defined.

(** [scan_forward] looks for the first word that equals zero exactly when the
    desired value is [true], which is the wrong way round: with every bit of the
    array set, [scan_forward(true)] answers NOT_FOUND although bit 0 is set. *)
Theorem scan_forward_misses_set_bits CAPACITY s :
  0 < CAPACITY →
  test CAPACITY (set_all CAPACITY s) 0 = Ok true ∧
  scan_forward CAPACITY (set_all CAPACITY s) true = Ok NOT_FOUND.
Proof.
  intros Hc. assert (in_range CAPACITY 0) by (unfold in_range; lia). split.
  - rewrite test_ok by (done || apply set_all_wf). by rewrite bit_set_all.
  - unfold scan_forward, scan_forwards_to_find_bit_index_of_matching_word.
    rewrite matching_word_loop_set_all; [done|lia|].
    unfold get_number_of_words, NUMBER_OF_WORD_BITS, sizeof_Word.
    pose proof (Z.div_pos CAPACITY (4 * 8)). lia.
Qed.

Lemma scan_forward_misses_set_bits_witness :
  test 64 (set_all 64 []) 0 = Ok true ∧
  scan_forward 64 (set_all 64 []) true = Ok NOT_FOUND.
Proof. apply (scan_forward_misses_set_bits 64 []). lia. Defined.


End BitArray.
