(* ===== verification/PageFrameAllocator.v ===== *)
(** * PageFrameAllocator: allocation of physical page frames

    Models [PageFrameAllocator] (the interface) of
    src/Kernel/include/page_frame_allocator.hpp and
    [GenericConcretePageFrameAllocator<NUMBER_OF_PAGE_FRAMES>] of
    src/Kernel/include/concrete_page_frame_allocator.hpp, on top of [BitArray].
    [W] is the width of [uintptr_t] and [size_t] (32 on i386, 64 on x86_64). *)
From S2P Require Import Prelude BitArray.

Definition PAGE_SIZE : Z := 4096.

Definition KERNEL_MEMORY_REGION_SIZE : Z := 32 * 1024 * 1024.

(** [assert_is_page_aligned(address)]. *)
Definition is_page_aligned (address : Z) : bool :=
  Z.land address (PAGE_SIZE - 1) =? 0.

Definition round_address_up_to_next_page (W address : Z) : Z :=
  uwrap W (Z.land address (unot W (PAGE_SIZE - 1)) + PAGE_SIZE).

(** ** The interface

    What a client of the allocator may rely on: the operations and, for the
    abstract set of free frames [pfa_free], what each operation does to it. *)
Class PageFrameAllocator (S : Type) := {
  pfa_capacity : Z;
  pfa_inv : S → Prop;
  pfa_free : S → Z → bool;
  pfa_deallocate : S → Z → result S;
  pfa_allocate_specific_page_frame : S → Z → result (bool * S);
  pfa_allocate : S → Z → result (Z * S);
  pfa_mark_all_as_used : S → S;
}.

Class PageFrameAllocatorLaws (S : Type) `{PageFrameAllocator S} := {
  pfa_mark_all_ok s :
    pfa_inv (pfa_mark_all_as_used s) ∧
    ∀ f, 0 <= f < pfa_capacity → pfa_free (pfa_mark_all_as_used s) f = false;
  pfa_deallocate_ok s a :
    pfa_inv s → 0 <= a / PAGE_SIZE < pfa_capacity →
    ∃ s', pfa_deallocate s a = Ok s' ∧ pfa_inv s' ∧
      ∀ f, 0 <= f < pfa_capacity →
        pfa_free s' f = (f =? a / PAGE_SIZE) || pfa_free s f;
  pfa_allocate_specific_ok s a :
    pfa_inv s → 0 <= a / PAGE_SIZE < pfa_capacity →
    ∃ s', pfa_allocate_specific_page_frame s a
            = Ok (pfa_free s (a / PAGE_SIZE), s') ∧ pfa_inv s' ∧
      ∀ f, 0 <= f < pfa_capacity →
        pfa_free s' f = negb (f =? a / PAGE_SIZE) && pfa_free s f;
}.

Module ConcretePageFrameAllocator.

Record t := mk { count_ : Z; bitmap_ : list Z }.

#[global] Instance t_eq_dec : EqDecision t.
Proof. solve_decision. Defined.

Section Methods.
Context (W NUMBER_OF_PAGE_FRAMES : Z).

Definition get_capacity : Z := NUMBER_OF_PAGE_FRAMES.

Definition get_number_of_free_page_frames (a : t) : Z := count_ a.

Definition mark_all_as_used (a : t) : t :=
  mk 0 (BitArray.set_all NUMBER_OF_PAGE_FRAMES (bitmap_ a)).

(** The constructor: the bitmap's own constructor runs first. *)
Definition init : t :=
  mark_all_as_used (mk 0 (BitArray.init NUMBER_OF_PAGE_FRAMES)).

Definition is_free (a : t) (page_frame : Z) : result bool :=
  let bit_index := page_frame / PAGE_SIZE in
  if bit_index <? get_capacity then
    b ← BitArray.test NUMBER_OF_PAGE_FRAMES (bitmap_ a) bit_index;
    mret (negb b)
  else mret false.

Fixpoint is_span_free_loop (fuel : nat) (a : t) (page_frame limit : Z) : result bool :=
  if page_frame <? limit then
    match fuel with
    | O => Fault OutOfFuel
    | S fuel =>
        free ← is_free a page_frame;
        if free : bool
        then is_span_free_loop fuel a (uwrap W (page_frame + PAGE_SIZE)) limit
        else mret false
    end
  else mret true.

(** A frame past the capacity is never free, so the loop leaves after at most
    NUMBER_OF_PAGE_FRAMES + 1 iterations: the fuel below always suffices. *)
Definition is_span_free (a : t) (begin_page_frame length : Z) : result bool :=
  assert! is_page_aligned begin_page_frame;
  if length =? 0 then is_free a begin_page_frame
  else is_span_free_loop (Z.to_nat NUMBER_OF_PAGE_FRAMES + 1) a begin_page_frame
         (uwrap W (begin_page_frame + length)).

Definition allocate_specific_page_frame (a : t) (page_frame : Z) : result (bool * t) :=
  let bit_index := page_frame / PAGE_SIZE in
  b ← BitArray.test NUMBER_OF_PAGE_FRAMES (bitmap_ a) bit_index;
  if b : bool then mret (false, a)
  else
    assert! 0 <? count_ a;
    bitmap ← BitArray.set NUMBER_OF_PAGE_FRAMES (bitmap_ a) bit_index;
    mret (true, mk (count_ a - 1) bitmap).

Definition deallocate (a : t) (page_frame : Z) : result t :=
  let bit_index := page_frame / PAGE_SIZE in
  b ← BitArray.test NUMBER_OF_PAGE_FRAMES (bitmap_ a) bit_index;
  if b : bool then
    bitmap ← BitArray.clear NUMBER_OF_PAGE_FRAMES (bitmap_ a) bit_index;
    mret (mk (count_ a + 1) bitmap)
  else mret a.

(** [for (; length >= PAGE_SIZE; length -= PAGE_SIZE) ...]: [n] is the number of
    iterations, [length / PAGE_SIZE]; the result of each allocation is ignored. *)
Fixpoint allocate_frames (n : nat) (a : t) (page_frame : Z) : result t :=
  match n with
  | O => mret a
  | S n =>
      '(_, a) ← allocate_specific_page_frame a page_frame;
      allocate_frames n a (uwrap W (page_frame + PAGE_SIZE))
  end.

(** The search of [allocate]; the loop visits the frames
    1 .. NUMBER_OF_PAGE_FRAMES - 1, [n] of which are left. *)
Fixpoint allocate_loop (n : nat) (a : t) (page_frame length : Z) : result (Z * t) :=
  match n with
  | O => mret (0, a)
  | S n =>
      free ← is_span_free a page_frame length;
      if free : bool then
        a ← allocate_frames (Z.to_nat (length / PAGE_SIZE)) a page_frame;
        mret (page_frame, a)
      else allocate_loop n a (page_frame + PAGE_SIZE) length
  end.

Definition allocate (a : t) (length : Z) : result (Z * t) :=
  allocate_loop (Z.to_nat (NUMBER_OF_PAGE_FRAMES - 1)) a PAGE_SIZE length.

(** ** The abstract state: which frames are free, and how many *)
Definition free (a : t) (frame : Z) : bool := negb (BitArray.bit (bitmap_ a) frame).

Fixpoint count_free (n : nat) (f : Z → bool) : Z :=
  match n with
  | O => 0
  | S n => count_free n f + (if f (Z.of_nat n) then 1 else 0)
  end.

Definition inv (a : t) : Prop :=
  BitArray.wf NUMBER_OF_PAGE_FRAMES (bitmap_ a) ∧
  count_ a = count_free (Z.to_nat NUMBER_OF_PAGE_FRAMES) (free a).

(** The frames a request of [length] bytes spans; [length = 0] asks for one. *)
Definition pages_spanned (length : Z) : Z :=
  if length =? 0 then 1 else (length + PAGE_SIZE - 1) / PAGE_SIZE.

Definition span_is_free (a : t) (k length : Z) : Prop :=
  ∀ i, k <= i < k + pages_spanned length →
       i < NUMBER_OF_PAGE_FRAMES ∧ free a i = true.

Definition params_ok : Prop :=
  0 < NUMBER_OF_PAGE_FRAMES ∧ NUMBER_OF_PAGE_FRAMES * PAGE_SIZE < 2 ^ W.

(** ** Counting *)
Lemma count_free_ext n f g :
  (∀ i, 0 <= i < Z.of_nat n → f i = g i) → count_free n f = count_free n g.
Proof.
  induction n as [|n IH]; intros H; simpl; [done|].
  rewrite (H (Z.of_nat n)) by lia. rewrite IH; [done|]. intros; apply H; lia.
Qed.

Lemma count_free_range n f : 0 <= count_free n f <= Z.of_nat n.
Proof. induction n; simpl; [lia|]. destruct (f _); lia. Qed.

Lemma count_free_update n f g k :
  0 <= k < Z.of_nat n → (∀ i, 0 <= i < Z.of_nat n → i ≠ k → g i = f i) →
  count_free n g = count_free n f + (if g k then 1 else 0) - (if f k then 1 else 0).
Proof.
  induction n as [|n IH]; intros Hk H; [lia|]. simpl.
  destruct (decide (k = Z.of_nat n)) as [->|].
  - rewrite (count_free_ext n g f); [lia|]. intros; apply H; lia.
  - rewrite IH, (H (Z.of_nat n)); [lia|lia|lia|lia|]. intros; apply H; lia.
Qed.

Lemma count_free_false n f :
  (∀ i, 0 <= i < Z.of_nat n → f i = false) → count_free n f = 0.
Proof.
  induction n as [|n IH]; intros H; simpl; [done|].
  rewrite (H (Z.of_nat n)) by lia. rewrite IH; [done|]. intros; apply H; lia.
Qed.

Lemma count_free_pos n f k : 0 <= k < Z.of_nat n → f k = true → 0 < count_free n f.
Proof.
  induction n as [|n IH]; intros Hk Hf; [lia|]. simpl.
  pose proof (count_free_range n f). destruct (decide (k = Z.of_nat n)) as [->|].
  - rewrite Hf. lia.
  - specialize (IH ltac:(lia) Hf). destruct (f (Z.of_nat n)); lia.
Qed.

(** ** Single frames *)
Lemma is_free_ok a pf :
  inv a → 0 <= pf →
  is_free a pf = Ok (if pf / PAGE_SIZE <? NUMBER_OF_PAGE_FRAMES
                     then free a (pf / PAGE_SIZE) else false).
Proof.
  intros [Hwf _] Hpf. unfold is_free, get_capacity. case_Z; [|done].
  rewrite BitArray.test_ok; [done|done|].
  split; [by apply Z.div_pos|done].
Qed.

Lemma allocate_specific_ok a pf :
  inv a → 0 <= pf / PAGE_SIZE < NUMBER_OF_PAGE_FRAMES →
  ∃ a', allocate_specific_page_frame a pf = Ok (free a (pf / PAGE_SIZE), a') ∧ inv a' ∧
    (∀ f, 0 <= f < NUMBER_OF_PAGE_FRAMES →
          free a' f = negb (f =? pf / PAGE_SIZE) && free a f) ∧
    count_ a' = count_ a - (if free a (pf / PAGE_SIZE) then 1 else 0).
Proof.
  intros [Hwf Hc] Hk. set (k := pf / PAGE_SIZE) in *.
  unfold allocate_specific_page_frame. fold k.
  rewrite BitArray.test_ok by done. cbn.
  destruct (BitArray.bit (bitmap_ a) k) eqn:Hb.
  - exists a. unfold free at 1 4. rewrite Hb. split_and!; [done..| |simpl; lia].
    intros f Hf. destruct (Z.eqb_spec f k) as [->|]; [|done].
    unfold free. by rewrite Hb.
  - assert (free a k = true) as Hfree by (unfold free; by rewrite Hb).
    pose proof (count_free_pos (Z.to_nat NUMBER_OF_PAGE_FRAMES) (free a) k
                  ltac:(lia) Hfree).
    decide_Z.
    destruct (BitArray.set_ok _ (bitmap_ a) k Hwf) as (bm & -> & Hwf' & Hbm); [done|].
    cbn. exists (mk (count_ a - 1) bm). rewrite Hfree.
    assert (∀ f, 0 <= f < NUMBER_OF_PAGE_FRAMES →
                 free (mk (count_ a - 1) bm) f = negb (f =? k) && free a f) as Hfr.
    { intros f Hf. unfold free; simpl. rewrite Hbm by done.
      by destruct (f =? k), (BitArray.bit _ f). }
    split_and!; [done| |done|done]. split; [done|]. simpl.
    rewrite (count_free_update _ (free a) (free (mk (count_ a - 1) bm)) k).
    + rewrite Hfr, Z.eqb_refl, Hfree by done. simpl. lia.
    + lia.
    + intros i Hi Hne. rewrite Hfr by lia.
      by destruct (Z.eqb_spec i k).
Qed.

Lemma deallocate_ok a pf :
  inv a → 0 <= pf / PAGE_SIZE < NUMBER_OF_PAGE_FRAMES →
  ∃ a', deallocate a pf = Ok a' ∧ inv a' ∧
    (∀ f, 0 <= f < NUMBER_OF_PAGE_FRAMES →
          free a' f = (f =? pf / PAGE_SIZE) || free a f) ∧
    count_ a' = count_ a + (if free a (pf / PAGE_SIZE) then 0 else 1).
Proof.
  intros [Hwf Hc] Hk. set (k := pf / PAGE_SIZE) in *. unfold deallocate. fold k.
  rewrite BitArray.test_ok by done. cbn.
  destruct (BitArray.bit (bitmap_ a) k) eqn:Hb.
  - assert (free a k = false) as Hfree by (unfold free; by rewrite Hb).
    destruct (BitArray.clear_ok _ (bitmap_ a) k Hwf) as (bm & -> & Hwf' & Hbm); [done|].
    cbn. exists (mk (count_ a + 1) bm). rewrite Hfree.
    assert (∀ f, 0 <= f < NUMBER_OF_PAGE_FRAMES →
                 free (mk (count_ a + 1) bm) f = (f =? k) || free a f) as Hfr.
    { intros f Hf. unfold free; simpl. rewrite Hbm by done.
      by destruct (f =? k), (BitArray.bit _ f). }
    split_and!; [done| |done|done]. split; [done|]. simpl.
    rewrite (count_free_update _ (free a) (free (mk (count_ a + 1) bm)) k).
    + rewrite Hfr, Z.eqb_refl, Hfree by done. simpl. lia.
    + lia.
    + intros i Hi Hne. rewrite Hfr by lia. by destruct (Z.eqb_spec i k).
  - exists a. unfold free at 3. rewrite Hb. split_and!; [done..| |simpl; lia].
    intros f Hf. destruct (Z.eqb_spec f k) as [->|]; [|done].
    unfold free. by rewrite Hb.
Qed.

Lemma mark_all_inv a :
  inv (mark_all_as_used a) ∧
  ∀ f, 0 <= f < NUMBER_OF_PAGE_FRAMES → free (mark_all_as_used a) f = false.
Proof.
  assert (∀ f, 0 <= f < NUMBER_OF_PAGE_FRAMES →
               free (mark_all_as_used a) f = false) as Hf.
  { intros f Hf. unfold free; simpl. by rewrite BitArray.bit_set_all. }
  split; [|done]. split; [apply BitArray.set_all_wf|]. simpl.
  symmetry. apply count_free_false. intros. apply Hf. lia.
Qed.

(** ** Spans *)
Lemma page_aligned_mul k : is_page_aligned (PAGE_SIZE * k) = true.
Proof.
  unfold is_page_aligned, PAGE_SIZE. apply Z.eqb_eq.
  change (4096 - 1) with (Z.ones 12). rewrite Z.land_ones by done.
  change (2 ^ 12) with 4096. rewrite Z.mul_comm. by apply Z.mod_mul.
Qed.

Lemma page_div k : PAGE_SIZE * k / PAGE_SIZE = k.
Proof. rewrite Z.mul_comm. by apply Z.div_mul. Qed.

Lemma page_step k :
  params_ok → 0 <= k < NUMBER_OF_PAGE_FRAMES →
  uwrap W (PAGE_SIZE * k + PAGE_SIZE) = PAGE_SIZE * (k + 1).
Proof.
  unfold params_ok, PAGE_SIZE. intros. rewrite uwrap_small; [lia|].
  unfold fits. nia.
Qed.

Lemma is_span_free_loop_ok fuel a k limit :
  params_ok → inv a → 0 <= k <= NUMBER_OF_PAGE_FRAMES →
  NUMBER_OF_PAGE_FRAMES + 1 - k <= Z.of_nat fuel →
  ∃ b, is_span_free_loop fuel a (PAGE_SIZE * k) limit = Ok b ∧
    (b = true ↔ ∀ i, k <= i → PAGE_SIZE * i < limit →
                     i < NUMBER_OF_PAGE_FRAMES ∧ free a i = true).
Proof.
  intros Hp Ha. revert k. induction fuel as [|fuel IH]; intros k Hk Hf; [lia|].
  simpl. case_Z.
  2: { exists true. split; [done|]. split; [|done]. unfold PAGE_SIZE in *. lia. }
  rewrite is_free_ok, page_div by (done || unfold PAGE_SIZE; lia). cbn. case_Z.
  2: { exists false. split; [done|]. split; [done|]. intros Hall.
       specialize (Hall k ltac:(lia) ltac:(done)). lia. }
  destruct (free a k) eqn:Hfk.
  2: { exists false. split; [done|]. split; [done|]. intros Hall.
       destruct (Hall k ltac:(lia) ltac:(done)). congruence. }
  rewrite page_step by (done || lia).
  destruct (IH (k + 1)) as (b & -> & Hb); [lia..|]. exists b. split; [done|].
  rewrite Hb. split; intros Hall i Hi Hlt; [|apply Hall; [lia|done]].
  destruct (decide (i = k)) as [->|]; [done|]. apply Hall; [lia|done].
Qed.

Lemma is_span_free_ok a k length :
  params_ok → inv a → 0 <= k < NUMBER_OF_PAGE_FRAMES → 0 <= length →
  PAGE_SIZE * k + length < 2 ^ W →
  ∃ b, is_span_free a (PAGE_SIZE * k) length = Ok b ∧
       (b = true ↔ span_is_free a k length).
Proof.
  intros Hp Ha Hk Hl Hw. unfold is_span_free, span_is_free, pages_spanned.
  rewrite page_aligned_mul. cbn [assert_then]. case_Z.
  - rewrite is_free_ok, page_div by (done || unfold PAGE_SIZE; lia).
    decide_Z. eexists. split; [done|].
    split; [|intros Hall; apply Hall; lia].
    intros Hfree i Hi. replace i with k by lia. split; [lia|done].
  - rewrite uwrap_small by (unfold fits, PAGE_SIZE in *; lia).
    destruct (is_span_free_loop_ok (Z.to_nat NUMBER_OF_PAGE_FRAMES + 1) a k
                (PAGE_SIZE * k + length)) as (b & -> & Hb); [done..|lia|lia|].
    exists b. split; [done|]. rewrite Hb.
    assert (∀ i, PAGE_SIZE * i < PAGE_SIZE * k + length ↔
                 i < k + (length + PAGE_SIZE - 1) / PAGE_SIZE) as Hiff.
    { intros i. unfold PAGE_SIZE.
      pose proof (Z.div_mod (length + 4096 - 1) 4096 ltac:(lia)).
      pose proof (Z.mod_pos_bound (length + 4096 - 1) 4096 ltac:(lia)). lia. }
    split; intros Hall i Hi; [|intros Hlt]; apply Hall; try lia.
    + apply Hiff. lia.
    + apply Hiff in Hlt. lia.
Qed.

Lemma pages_spanned_ge length : 0 <= length → length / PAGE_SIZE <= pages_spanned length.
Proof.
  intros. unfold pages_spanned. case_Z; [subst; done|].
  apply Z.div_le_mono; unfold PAGE_SIZE; lia.
Qed.

Lemma allocate_frames_ok n a k :
  params_ok → inv a → 0 <= k → k + Z.of_nat n <= NUMBER_OF_PAGE_FRAMES →
  (∀ i, k <= i < k + Z.of_nat n → free a i = true) →
  ∃ a', allocate_frames n a (PAGE_SIZE * k) = Ok a' ∧ inv a' ∧
    (∀ f, 0 <= f < NUMBER_OF_PAGE_FRAMES →
       free a' f = negb ((k <=? f) && (f <? k + Z.of_nat n)) && free a f) ∧
    count_ a' = count_ a - Z.of_nat n.
Proof.
  intros Hp. revert a k. induction n as [|n IH]; intros a k Ha Hk Hle Hfree; simpl.
  { exists a. split_and!; [done..| |lia]. intros f Hf. case_Z; case_Z; (done || lia). }
  destruct (allocate_specific_ok a (PAGE_SIZE * k) Ha) as (a1 & H1 & Hi1 & Hf1 & Hc1).
  { rewrite page_div. lia. }
  rewrite page_div in *. rewrite H1. cbn. rewrite page_step by (done || lia).
  rewrite (Hfree k) in Hc1 by lia.
  destruct (IH a1 (k + 1)) as (a2 & -> & Hi2 & Hf2 & Hc2); [done|lia|lia| |].
  { intros i Hi. rewrite Hf1, Hfree by lia. by decide_Z. }
  exists a2. split_and!; [done..| |lia]. intros f Hf. rewrite Hf2, Hf1 by done.
  repeat case_Z; destruct (free a f); (done || lia).
Qed.

(** What [allocate] promises, as a relation between its arguments and results. *)
Definition allocate_spec (a : t) (length r : Z) (a' : t) : Prop :=
  (r = 0 ∧ a' = a ∧ ∀ k, 1 <= k < NUMBER_OF_PAGE_FRAMES → ¬ span_is_free a k length) ∨
  (∃ k, r = PAGE_SIZE * k ∧ 1 <= k < NUMBER_OF_PAGE_FRAMES ∧
     span_is_free a k length ∧
     (∀ k', 1 <= k' < k → ¬ span_is_free a k' length) ∧
     (∀ f, 0 <= f < NUMBER_OF_PAGE_FRAMES →
        free a' f = negb ((k <=? f) && (f <? k + length / PAGE_SIZE)) && free a f) ∧
     count_ a' = count_ a - length / PAGE_SIZE).

Lemma span_free_bound a k length :
  0 <= length → span_is_free a k length → 0 <= k < NUMBER_OF_PAGE_FRAMES →
  k + length / PAGE_SIZE <= NUMBER_OF_PAGE_FRAMES ∧
  ∀ i, k <= i < k + length / PAGE_SIZE → free a i = true.
Proof.
  intros Hl Hspan Hk. pose proof (pages_spanned_ge length Hl). split.
  - destruct (Z.le_gt_cases (length / PAGE_SIZE) 0); [lia|].
    destruct (Hspan (k + length / PAGE_SIZE - 1)); lia.
  - intros i Hi. apply Hspan. lia.
Qed.

Lemma allocate_loop_ok n a k length :
  params_ok → inv a → 1 <= k → k + Z.of_nat n = NUMBER_OF_PAGE_FRAMES →
  0 <= length → PAGE_SIZE * NUMBER_OF_PAGE_FRAMES + length <= 2 ^ W →
  (∀ k', 1 <= k' < k → ¬ span_is_free a k' length) →
  ∃ r a', allocate_loop n a (PAGE_SIZE * k) length = Ok (r, a') ∧ inv a' ∧
          allocate_spec a length r a'.
Proof.
  intros Hp Ha. revert k. induction n as [|n IH]; intros k Hk Hn Hl Hw Hno; simpl.
  { exists 0, a. split_and!; [done..|]. left. split_and!; [done..|].
    intros k' Hk'. apply Hno. lia. }
  destruct (is_span_free_ok a k length Hp Ha) as (b & -> & Hb);
    [lia|lia|unfold PAGE_SIZE in *; lia|].
  cbn. destruct b.
  - destruct (Hb) as [Hspan _]. specialize (Hspan eq_refl).
    destruct (span_free_bound a k length Hl Hspan) as [Hle Hfree]; [lia|].
    assert (0 <= length / PAGE_SIZE) by (by apply Z.div_pos).
    destruct (allocate_frames_ok (Z.to_nat (length / PAGE_SIZE)) a k)
      as (a' & -> & Hi & Hf & Hc); rewrite ?Z2Nat.id by done; [done|done|lia|lia|done|].
    cbn. exists (PAGE_SIZE * k), a'. split_and!; [done..|]. right. exists k.
    rewrite Z2Nat.id in Hf, Hc by done. split_and!; [done|lia|lia|done..].
  - replace (PAGE_SIZE * k + PAGE_SIZE) with (PAGE_SIZE * (k + 1)) by lia.
    apply IH; [lia|lia|done|done|]. intros k' Hk'.
    destruct (decide (k' = k)) as [->|]; [|apply Hno; lia].
    intros Hspan. apply Hb in Hspan. done.
Qed.

(** ** Reachable states

    One step is one call of a public method that returns; requests are bounded so
    that the address arithmetic of [is_span_free] stays below [2^W]. *)
Inductive step (a : t) : t → Prop :=
| step_mark_all : step a (mark_all_as_used a)
| step_deallocate pf a' :
    0 <= pf → deallocate a pf = Ok a' → step a a'
| step_allocate_specific pf b a' :
    0 <= pf → allocate_specific_page_frame a pf = Ok (b, a') → step a a'
| step_allocate length r a' :
    0 <= length → PAGE_SIZE * NUMBER_OF_PAGE_FRAMES + length <= 2 ^ W →
    allocate a length = Ok (r, a') → step a a'.

(** A call that returns was given a frame inside the bitmap: the others stop in the
    assertion of [BitArray::get_byte]. *)
Lemma test_returns_in_range a pf b :
  0 <= pf →
  BitArray.test NUMBER_OF_PAGE_FRAMES (bitmap_ a) (pf / PAGE_SIZE) = Ok b →
  0 <= pf / PAGE_SIZE < NUMBER_OF_PAGE_FRAMES.
Proof.
  unfold BitArray.test, BitArray.get_byte. intros Hpf.
  assert (0 <= pf / PAGE_SIZE) by (by apply Z.div_pos).
  case_Z; [lia|done].
Qed.

Lemma allocate_ok a length :
  params_ok → inv a → 0 <= length →
  PAGE_SIZE * NUMBER_OF_PAGE_FRAMES + length <= 2 ^ W →
  ∃ r a', allocate a length = Ok (r, a') ∧ inv a' ∧ allocate_spec a length r a'.
Proof.
  intros Hp Ha Hl Hw. unfold allocate.
  pose proof (allocate_loop_ok (Z.to_nat (NUMBER_OF_PAGE_FRAMES - 1)) a 1 length) as H.
  rewrite Z.mul_1_r in H. apply H; [done|done|lia| |done|done|lia].
  destruct Hp. lia.
Qed.

Lemma step_inv a a' : params_ok → inv a → step a a' → inv a'.
Proof.
  intros Hp Ha Hstep. inversion Hstep as [|pf ? Hpf Hd|pf b ? Hpf Hs|len r ? Hl Hw Hal];
    subst; clear Hstep.
  - apply mark_all_inv.
  - assert (0 <= pf / PAGE_SIZE < NUMBER_OF_PAGE_FRAMES) as Hr.
    { unfold deallocate in Hd. apply bind_ok in Hd as (b & Hb & _).
      by eapply test_returns_in_range. }
    destruct (deallocate_ok a pf Ha Hr) as (? & ? & ? & _). congruence.
  - assert (0 <= pf / PAGE_SIZE < NUMBER_OF_PAGE_FRAMES) as Hr.
    { unfold allocate_specific_page_frame in Hs. apply bind_ok in Hs as (? & Hb & _).
      by eapply test_returns_in_range. }
    destruct (allocate_specific_ok a pf Ha Hr) as (? & ? & ? & _). congruence.
  - destruct (allocate_ok a len Hp Ha Hl Hw) as (? & ? & ? & ? & _). congruence.
Qed.

End Methods.

(** ** The implementation satisfies the interface *)
#[global] Instance concrete_pfa (W N : Z) : PageFrameAllocator t := {|
  pfa_capacity := N;
  pfa_inv := inv N;
  pfa_free := free;
  pfa_deallocate := deallocate N;
  pfa_allocate_specific_page_frame := allocate_specific_page_frame N;
  pfa_allocate := allocate W N;
  pfa_mark_all_as_used := mark_all_as_used N;
|}.

#[global] Instance concrete_pfa_laws (W N : Z) :
  @PageFrameAllocatorLaws t (concrete_pfa W N).
Proof.
  constructor; simpl.
  - intros s. apply mark_all_inv.
  - intros s a Hs Ha. destruct (deallocate_ok N s a Hs Ha) as (s' & ? & ? & ? & _).
    by exists s'.
  - intros s a Hs Ha.
    destruct (allocate_specific_ok N s a Hs Ha) as (s' & ? & ? & ? & _). by exists s'.
Qed.

(** ** Properties *)

(** C12: In every state reachable from the constructor by any sequence of calls, the
    bitmap is well formed and [get_number_of_free_page_frames] is exactly the number
    of frames whose bit is clear. *)
Theorem free_count_exact W N a :
  params_ok W N → rtc (step W N) (init N) a →
  BitArray.wf N (bitmap_ a) ∧
  get_number_of_free_page_frames a = count_free (Z.to_nat N) (free a).
Proof.
  intros Hp Hr. change (inv N a).
  remember (init N) as a0 eqn:Ha0. assert (inv N a0) as Hi.
  { subst. apply mark_all_inv. }
  clear Ha0. induction Hr as [|x y z Hxy Hyz IH]; [done|]. apply IH.
  by eapply step_inv.
Qed.

Lemma free_count_exact_witness :
  ∃ a, rtc (step 32 10) (init 10) a ∧ get_number_of_free_page_frames a = 1 ∧
       get_number_of_free_page_frames a = count_free (Z.to_nat 10) (free a).
Proof.
  set (a := mk 1 [0xFB; 0xFF; 0xFF; 0xFF]).
  assert (rtc (step 32 10) (init 10) a) as Hr.
  { apply rtc_once. eapply (step_deallocate _ _ _ (2 * PAGE_SIZE)); [done|].
    vm_compute. reflexivity. }
  exists a. split; [exact Hr|]. split; [vm_compute; reflexivity|].
  apply (free_count_exact 32 10 a); [unfold params_ok, PAGE_SIZE; lia|exact Hr].
Defined.

(** C11: [allocate] always returns. Either it answers 0, changes nothing, and no span
    of the requested size starts at any frame but frame zero; or it answers the
    address of the lowest free span of the size requested, never frame zero,
    marks exactly its first [length / PAGE_SIZE] frames used, leaves every other
    frame alone, and lowers the free count by that many. *)
Theorem allocate_first_fit W N a length :
  params_ok W N → inv N a → 0 <= length → PAGE_SIZE * N + length <= 2 ^ W →
  ∃ r a', allocate W N a length = Ok (r, a') ∧ inv N a' ∧
          allocate_spec N a length r a'.
Proof. intros. by apply allocate_ok. Qed.

Lemma allocate_first_fit_witness :
  ∃ r a', allocate 32 10 (init 10) 8192 = Ok (r, a') ∧ inv 10 a' ∧
          allocate_spec 10 (init 10) 8192 r a'.
Proof.
  apply (allocate_first_fit 32 10 (init 10) 8192);
    [unfold params_ok, PAGE_SIZE; lia|apply mark_all_inv|lia|unfold PAGE_SIZE; lia].
Defined.

(** When the length is not a multiple of the page size, [allocate] checks that the
    frame holding the tail of the span is free but does not mark it: that frame is
    still free afterwards, so a later allocation may hand it out again although the
    interface promises a span of at least the requested length. *)
Theorem allocate_leaves_tail_frame_free W N a length r a' :
  params_ok W N → inv N a → 0 < length → length `mod` PAGE_SIZE ≠ 0 →
  PAGE_SIZE * N + length <= 2 ^ W →
  allocate W N a length = Ok (r, a') → r ≠ 0 →
  ∃ tail, r <= PAGE_SIZE * tail < r + length ∧ free a' tail = true.
Proof.
  intros Hp Ha Hl Hm Hw Hal Hr.
  destruct (allocate_ok W N a length Hp Ha) as (r1 & a1 & Heq & _ & Hspec); [lia|lia|].
  rewrite Hal in Heq. injection Heq as <- <-.
  destruct Hspec as [[? _]|(k & -> & Hk & Hspan & _ & Hfree & _)]; [done|].
  exists (k + length / PAGE_SIZE).
  pose proof (Z.div_mod length PAGE_SIZE ltac:(done)).
  pose proof (Z.mod_pos_bound length PAGE_SIZE ltac:(done)).
  assert (0 <= length / PAGE_SIZE) by (apply Z.div_pos; [lia|done]).
  assert (length / PAGE_SIZE < pages_spanned length) as Hps.
  { unfold pages_spanned. case_Z; [lia|]. unfold PAGE_SIZE in *.
    pose proof (Z.div_mod (length + 4096 - 1) 4096 ltac:(lia)).
    pose proof (Z.mod_pos_bound (length + 4096 - 1) 4096 ltac:(lia)). lia. }
  split; [unfold PAGE_SIZE in *; lia|].
  destruct (Hspan (k + length / PAGE_SIZE) ltac:(lia)) as [Hlt Hfr].
  rewrite Hfree, Hfr by lia. by decide_Z; rewrite ?andb_false_r.
Qed.

Lemma allocate_leaves_tail_frame_free_witness :
  ∃ a a', allocate 32 10 a 5000 = Ok (PAGE_SIZE, a') ∧
    ∃ tail, PAGE_SIZE <= PAGE_SIZE * tail < PAGE_SIZE + 5000 ∧ free a' tail = true.
Proof.
  set (d := λ a pf, match deallocate 10 a pf with Ok a => a | _ => a end).
  set (a := d (d (init 10) PAGE_SIZE) (2 * PAGE_SIZE)).
  eexists a, _. split; [vm_compute; reflexivity|].
  eapply (allocate_leaves_tail_frame_free 32 10 a 5000 PAGE_SIZE);
    [unfold params_ok, PAGE_SIZE; lia| |lia|done|unfold PAGE_SIZE; lia
    |vm_compute; reflexivity|done].
  split; [|vm_compute; reflexivity]. split; [reflexivity|].
  repeat constructor; unfold fits; vm_compute; done.
Defined.

(** The limit of [is_span_free] is computed in [uintptr_t] and may wrap: a span
    whose end is the top of the address space has limit 0, and the method reports it
    free whatever the bitmap says, even when every frame is in use. *)
Theorem is_span_free_wraps W N a k :
  params_ok W N → 1 <= k < N →
  is_span_free W N a (PAGE_SIZE * k) (2 ^ W - PAGE_SIZE * k) = Ok true.
Proof.
  intros [HN HW] Hk. unfold is_span_free. rewrite page_aligned_mul. cbn [assert_then].
  unfold PAGE_SIZE in *. decide_Z.
  replace (4096 * k + (2 ^ W - 4096 * k)) with (2 ^ W) by lia.
  unfold uwrap. rewrite Z.mod_same by lia.
  rewrite Nat.add_1_r. cbn [is_span_free_loop]. by decide_Z.
Qed.

Lemma is_span_free_wraps_witness :
  is_span_free 32 10 (init 10) (PAGE_SIZE * 1) (2 ^ 32 - PAGE_SIZE * 1) = Ok true.
Proof.
  apply (is_span_free_wraps 32 10 (init 10) 1); unfold params_ok, PAGE_SIZE; lia.
Defined.

End ConcretePageFrameAllocator.
