(* ===== verification/Storage.v ===== *)
(** * Storage: raw memory in which the containers build their objects

    [RingBuffer] and [Vector] (src/Common/include/common/ring_buffer.hpp and
    vector.hpp) keep their elements in arrays of [std::aligned_storage]: the
    container itself decides when an object's lifetime starts (placement new) and
    ends (an explicit destructor call).  A slot of that memory is [Raw] before the
    first and after the last of these, [Live v] while it holds an object of value
    [v], and [MovedFrom] once the object has been the source of a [std::move].
    Reading a slot that is not live, or destroying a raw one, is a fault.

    The two element-shifting loops of the containers are the same code up to how an
    index is turned into an address, which is the parameter [addr] here. *)
From S2P Require Import Prelude.

Module Storage.

Inductive slot (T : Type) : Type :=
| Raw
| Live (v : T)
| MovedFrom.
Arguments Raw {T}.
Arguments Live {T} _.
Arguments MovedFrom {T}.

#[global] Instance slot_eq_dec `{EqDecision T} : EqDecision (slot T).
Proof. solve_decision. Defined.

Section Operations.
Context {T : Type}.
Implicit Types (buf : list (slot T)) (i : Z) (v : T).

Definition slot_at buf i : option (slot T) :=
  if 0 <=? i then buf !! Z.to_nat i else None.

Definition put buf i (s : slot T) : result (list (slot T)) :=
  match slot_at buf i with
  | Some _ => mret (<[Z.to_nat i := s]> buf)
  | None => Fault InvalidAccess
  end.

(** Reading [*((value_type * )buffer + i)]. *)
Definition read buf i : result T :=
  match slot_at buf i with Some (Live v) => mret v | _ => Fault InvalidAccess end.

(** [new ((value_type * )buffer + i) value_type(std::move(value))]. *)
Definition construct buf i v : result (list (slot T)) := put buf i (Live v).

(** [ptr->~value_type()]. *)
Definition destroy buf i : result (list (slot T)) :=
  match slot_at buf i with
  | Some Raw | None => Fault InvalidAccess
  | Some _ => put buf i Raw
  end.

(** [std::move( *ptr)] handed to a constructor or parameter. *)
Definition move_from buf i : result (T * list (slot T)) :=
  v ← read buf i;
  buf ← put buf i MovedFrom;
  mret (v, buf).

(** The body of [insert]'s loop,
    [for (i = count_; i > index; --i) { new (curr) value_type(std::move( *prev));
    prev->~value_type(); }]; [n] is the number of iterations left. *)
Fixpoint shift_back (addr : Z → result Z) (n : nat) (i : Z) buf
  : result (list (slot T)) :=
  match n with
  | O => mret buf
  | S n =>
      prev ← addr (i - 1);
      curr ← addr i;
      '(v, buf) ← move_from buf prev;
      buf ← construct buf curr v;
      buf ← destroy buf prev;
      shift_back addr n (i - 1) buf
  end.

(** The body of [remove]'s loop,
    [for (i = index; i < count_-1; ++i) { curr->~value_type();
    new (curr) value_type(std::move( *next)); }]. *)
Fixpoint shift_front (addr : Z → result Z) (n : nat) (i : Z) buf
  : result (list (slot T)) :=
  match n with
  | O => mret buf
  | S n =>
      curr ← addr i;
      next ← addr (i + 1);
      buf ← destroy buf curr;
      '(v, buf) ← move_from buf next;
      buf ← construct buf curr v;
      shift_front addr n (i + 1) buf
  end.

(** ** What a buffer holds

    [holds p m buf g]: the element of logical index [j < m], kept at position [p j],
    is the live object [g j], or no live object when [g j] is [None]. *)
Definition slot_ok (o : option T) (s : slot T) : Prop :=
  match o with Some v => s = Live v | None => ∀ v, s ≠ Live v end.

Definition holds (p : Z → Z) (m : Z) buf (g : Z → option T) : Prop :=
  ∀ j, 0 <= j < m → ∃ s, slot_at buf (p j) = Some s ∧ slot_ok (g j) s.

Definition inj_below (p : Z → Z) (m : Z) : Prop :=
  ∀ i j, 0 <= i < m → 0 <= j < m → p i = p j → i = j.

(** Element [i] of a list, for an index of the code's signed type. *)
Definition nthZ (xs : list T) (i : Z) : option T :=
  if 0 <=? i then xs !! Z.to_nat i else None.

(** [g] with the element [v] (or a hole) at [i]. *)
Definition upd (g : Z → option T) (i : Z) (o : option T) : Z → option T :=
  λ j, if j =? i then o else g j.

Lemma slot_at_put buf i s buf' j :
  put buf i s = Ok buf' →
  slot_at buf' j = if j =? i then Some s else slot_at buf j.
Proof.
  unfold put, slot_at. destruct (Z.leb_spec 0 i); [|done].
  destruct (buf !! Z.to_nat i) eqn:Hi; intros Heq; [|done]. injection Heq as <-.
  apply lookup_lt_Some in Hi. destruct (Z.eqb_spec j i) as [->|].
  - decide_Z. by rewrite list_lookup_insert_eq.
  - destruct (Z.leb_spec 0 j); [|done]. rewrite list_lookup_insert_ne; [done|lia].
Qed.

Lemma put_ok buf i s s0 :
  slot_at buf i = Some s0 → ∃ buf', put buf i s = Ok buf' ∧ length buf' = length buf.
Proof.
  unfold put. intros ->. eexists. split; [done|]. by rewrite length_insert.
Qed.

Lemma destroy_ok buf i s :
  slot_at buf i = Some s → s ≠ Raw →
  ∃ buf', destroy buf i = Ok buf' ∧
          ∀ j, slot_at buf' j = if j =? i then Some Raw else slot_at buf j.
Proof.
  intros Hs Hr. unfold destroy. rewrite Hs.
  destruct (put_ok buf i Raw s Hs) as (buf' & Hput & _). exists buf'.
  split; [by destruct s|]. intros j. by apply slot_at_put.
Qed.

Section Holding.
Context (p : Z → Z) (m : Z) (Hinj : inj_below p m).
Implicit Types (g : Z → option T).

Lemma holds_ext buf g g' :
  (∀ j, 0 <= j < m → g j = g' j) → holds p m buf g → holds p m buf g'.
Proof. intros Hg H j Hj. rewrite <-Hg by done. by apply H. Qed.

Lemma holds_put buf g i s o :
  holds p m buf g → 0 <= i < m → slot_ok o s →
  ∃ buf', put buf (p i) s = Ok buf' ∧ length buf' = length buf ∧
          slot_at buf' (p i) = Some s ∧ holds p m buf' (upd g i o).
Proof.
  intros H Hi Ho. destruct (H i Hi) as (s0 & Hs0 & _).
  destruct (put_ok buf (p i) s s0 Hs0) as (buf' & Hput & Hlen).
  exists buf'. split_and!; [done..| |].
  { by rewrite (slot_at_put _ _ _ _ _ Hput), Z.eqb_refl. }
  intros j Hj. rewrite (slot_at_put _ _ _ _ _ Hput). unfold upd.
  destruct (Z.eqb_spec j i) as [->|Hne].
  - rewrite Z.eqb_refl. eauto.
  - rewrite (proj2 (Z.eqb_neq _ _)); [by apply H|].
    intros Heq. by apply Hne, Hinj.
Qed.

Lemma read_holds buf g i v :
  holds p m buf g → 0 <= i < m → g i = Some v → read buf (p i) = Ok v.
Proof.
  intros H Hi Hg. destruct (H i Hi) as (s & Hs & Hok). rewrite Hg in Hok.
  simpl in Hok. subst. unfold read. by rewrite Hs.
Qed.

Lemma read_hole buf g i :
  holds p m buf g → 0 <= i < m → g i = None → read buf (p i) = Fault InvalidAccess.
Proof.
  intros H Hi Hg. destruct (H i Hi) as (s & Hs & Hok). rewrite Hg in Hok.
  unfold read. rewrite Hs. destruct s; naive_solver.
Qed.

Lemma construct_holds buf g i v :
  holds p m buf g → 0 <= i < m →
  ∃ buf', construct buf (p i) v = Ok buf' ∧ length buf' = length buf ∧
          holds p m buf' (upd g i (Some v)).
Proof.
  intros H Hi. destruct (holds_put buf g i (Live v) (Some v)) as (b & ? & ? & _ & ?);
    naive_solver.
Qed.

Lemma destroy_holds buf g i s :
  holds p m buf g → 0 <= i < m → slot_at buf (p i) = Some s → s ≠ Raw →
  ∃ buf', destroy buf (p i) = Ok buf' ∧ length buf' = length buf ∧
          holds p m buf' (upd g i None).
Proof.
  intros H Hi Hs Hne. unfold destroy. rewrite Hs.
  destruct (holds_put buf g i Raw None) as (b & ? & ? & _ & ?); [done..|].
  destruct s; naive_solver.
Qed.

Lemma holds_live buf g i v :
  holds p m buf g → 0 <= i < m → g i = Some v → slot_at buf (p i) = Some (Live v).
Proof.
  intros H Hi Hg. destruct (H i Hi) as (s & Hs & Hok).
  rewrite Hg in Hok. simpl in Hok. by subst.
Qed.

Lemma move_from_holds buf g i v :
  holds p m buf g → 0 <= i < m → g i = Some v →
  ∃ buf', move_from buf (p i) = Ok (v, buf') ∧ length buf' = length buf ∧
          slot_at buf' (p i) = Some MovedFrom ∧ holds p m buf' (upd g i None).
Proof.
  intros H Hi Hg. unfold move_from. rewrite (read_holds buf g i v) by done.
  destruct (holds_put buf g i MovedFrom None) as (b & Hb & ? & ? & ?); [done..|].
  cbn. rewrite Hb. naive_solver.
Qed.

(** [moved_up g index i g']: [g'] is [g] with the elements of [index, i) moved up by
    one; [index] itself is left open.  [moved_down g index i g']: the element at
    [index] is dropped and those above it, up to [i], moved down; [i] is left open. *)
Definition moved_up g (index i : Z) (g' : Z → option T) : Prop :=
  ∀ j, j ≠ index → g' j = if (index <? j) && (j <=? i) then g (j - 1) else g j.

Definition moved_down g (index i : Z) (g' : Z → option T) : Prop :=
  ∀ j, j ≠ i → g' j = if (index <=? j) && (j <? i) then g (j + 1) else g j.

Lemma shift_back_ok addr n i buf g :
  (∀ j, 0 <= j <= i → addr j = Ok (p j)) → Z.of_nat n <= i < m →
  holds p m buf g → (∀ j, 0 <= j < i → is_Some (g j)) →
  ∃ buf' g', shift_back addr n i buf = Ok buf' ∧ length buf' = length buf ∧
             holds p m buf' g' ∧ moved_up g (i - Z.of_nat n) i g'.
Proof.
  revert i buf g. induction n as [|n IH]; intros i buf g Ha Hi H Hall; cbn [shift_back].
  { exists buf, g. split_and!; [done..|]. intros j Hj. repeat case_Z; (lia || done). }
  rewrite !Ha by lia. cbn. destruct (Hall (i - 1)) as [v Hv]; [lia|].
  destruct (move_from_holds buf g (i - 1) v) as (b1 & -> & L1 & S1 & H1); [done|lia|done|].
  cbn. destruct (construct_holds b1 (upd g (i - 1) None) i v) as (b2 & E2 & L2 & H2);
    [done|lia|]. rewrite E2. cbn.
  destruct (destroy_holds b2 (upd (upd g (i - 1) None) i (Some v)) (i - 1) MovedFrom)
    as (b3 & -> & L3 & H3); [done|lia| |done|].
  { rewrite (slot_at_put _ _ _ _ _ E2), (proj2 (Z.eqb_neq _ _)); [done|].
    intros Heq%Hinj; lia. }
  cbn. destruct (IH (i - 1) b3 (upd (upd (upd g (i - 1) None) i (Some v)) (i - 1) None))
    as (b4 & g4 & -> & L4 & H4 & G4); [intros; apply Ha; lia|lia|done| |].
  { intros j Hj. unfold upd. decide_Z. apply Hall. lia. }
  exists b4, g4. split_and!; [done|congruence|done|]. intros j Hj. rewrite G4 by lia.
  unfold upd. repeat case_Z; try lia; try done; congruence.
Qed.

Lemma shift_front_ok addr n i buf g s0 :
  (∀ j, 0 <= j <= i + Z.of_nat n → addr j = Ok (p j)) →
  0 <= i → i + Z.of_nat n < m →
  holds p m buf g → (∀ j, i < j <= i + Z.of_nat n → is_Some (g j)) →
  slot_at buf (p i) = Some s0 → s0 ≠ Raw →
  ∃ buf' g', shift_front addr n i buf = Ok buf' ∧ length buf' = length buf ∧
          slot_at buf' (p (i + Z.of_nat n))
          = Some (if bool_decide (n = O) then s0 else MovedFrom) ∧
          holds p m buf' g' ∧ moved_down g i (i + Z.of_nat n) g'.
Proof.
  revert i buf g s0. induction n as [|n IH]; intros i buf g s0 Ha Hi Hm H Hall Hs0 Hr;
    cbn [shift_front].
  { exists buf, g. rewrite Z.add_0_r. split_and!; [done..|].
    intros j Hj. repeat case_Z; (lia || done). }
  rewrite !Ha by lia. cbn. destruct (Hall (i + 1)) as [v1 Hv1]; [lia|].
  destruct (destroy_holds buf g i s0) as (b1 & -> & L1 & H1); [done|lia|done..|]. cbn.
  destruct (move_from_holds b1 (upd g i None) (i + 1) v1) as (b2 & -> & L2 & S2 & H2);
    [done|lia|unfold upd; by decide_Z|]. cbn.
  destruct (construct_holds b2 (upd (upd g i None) (i + 1) None) i v1)
    as (b3 & E3 & L3 & H3); [done|lia|]. rewrite E3. cbn.
  destruct (IH (i + 1) b3 (upd (upd (upd g i None) (i + 1) None) i (Some v1)) MovedFrom)
    as (b4 & g4 & -> & L4 & S4 & H4 & G4); [intros; apply Ha; lia|lia|lia|done| | |done|].
  { intros j Hj. unfold upd. decide_Z. apply Hall. lia. }
  { rewrite (slot_at_put _ _ _ _ _ E3), (proj2 (Z.eqb_neq _ _)); [done|].
    intros Heq%Hinj; lia. }
  replace (i + Z.of_nat (S n)) with (i + 1 + Z.of_nat n) by lia.
  exists b4, g4. split_and!; [done|congruence| |done|].
  { rewrite S4. by case_bool_decide. }
  intros j Hj. rewrite G4 by lia.
  unfold upd. repeat case_Z; try lia; try done; congruence.
Qed.

Lemma holds_dead buf g i s :
  holds p m buf g → 0 <= i < m → slot_at buf (p i) = Some s → (∀ v, s ≠ Live v) →
  g i = None.
Proof.
  intros H Hi Hs Hd. destruct (H i Hi) as (s' & Hs' & Hok). rewrite Hs in Hs'.
  injection Hs' as <-. destruct (g i); [|done]. by destruct (Hd _ Hok).
Qed.

End Holding.

(** ** Lists as element functions *)
Lemma nthZ_Some xs i : is_Some (nthZ xs i) ↔ 0 <= i < Z.of_nat (length xs).
Proof.
  unfold nthZ. case_Z; [rewrite lookup_lt_is_Some; lia|].
  split; [by intros [? ?]|lia].
Qed.

Lemma nthZ_None xs i : nthZ xs i = None ↔ ¬ 0 <= i < Z.of_nat (length xs).
Proof. rewrite eq_None_not_Some, nthZ_Some. done. Qed.

Lemma nthZ_insert xs i v j :
  0 <= i <= Z.of_nat (length xs) →
  nthZ (take (Z.to_nat i) xs ++ v :: drop (Z.to_nat i) xs) j
  = if j =? i then Some v else if i <? j then nthZ xs (j - 1) else nthZ xs j.
Proof.
  intros Hi. unfold nthZ. destruct (Z.leb_spec 0 j).
  2: { decide_Z. done. }
  rewrite lookup_app. destruct (Z.eqb_spec j i) as [->|].
  - rewrite lookup_take_ge by lia. rewrite length_take.
    rewrite Nat.min_l by lia. by rewrite Nat.sub_diag.
  - case_Z.
    + rewrite lookup_take_ge by lia. rewrite length_take, Nat.min_l by lia.
      replace (Z.to_nat j - Z.to_nat i)%nat with (S (Z.to_nat (j - 1) - Z.to_nat i)) by lia.
      simpl. rewrite lookup_drop. decide_Z. f_equal. lia.
    + rewrite lookup_take_lt by lia.
      destruct (xs !! Z.to_nat j) eqn:Hj; [done|].
      apply lookup_ge_None in Hj. lia.
Qed.

Lemma nthZ_delete xs i j :
  0 <= i →
  nthZ (delete (Z.to_nat i) xs) j = if i <=? j then nthZ xs (j + 1) else nthZ xs j.
Proof.
  intros Hi. unfold nthZ. repeat case_Z; try lia; try done.
  - rewrite list_lookup_delete_ge by lia. f_equal. lia.
  - rewrite list_lookup_delete_lt by lia. done.
Qed.

Lemma drop_nthZ xs i v :
  nthZ xs i = Some v → drop (Z.to_nat i) xs = v :: drop (Z.to_nat (i + 1)) xs.
Proof.
  unfold nthZ. case_Z; [|done]. intros Hv. rewrite (drop_S xs v) by done.
  by replace (Z.to_nat (i + 1)) with (S (Z.to_nat i)) by lia.
Qed.

Lemma nthZ_ext xs ys : (∀ i, 0 <= i → nthZ xs i = nthZ ys i) → xs = ys.
Proof.
  intros H. apply list_eq. intros i. specialize (H (Z.of_nat i) ltac:(lia)).
  unfold nthZ in H. revert H. decide_Z. by rewrite Nat2Z.id.
Qed.

End Operations.
End Storage.
