(* ===== verification/RingBuffer.v ===== *)
(** * RingBuffer: the statically allocated double-ended queue

    Models [RingBuffer<TYPE, CAPACITY>] of src/Common/include/common/ring_buffer.hpp:
    every method, over the slots of [Storage].  [rep b xs] is the representation
    invariant: the buffer [b] holds exactly the elements [xs], front first, and no
    live object outside them.  [spec_op] is the bounded-deque specification the class
    comment promises, on plain lists; every method refines it. *)
From S2P Require Import Prelude Storage.
Import Storage.

Module RingBuffer.

Record t (T : Type) := mk {
  buffer_ : list (slot T);
  front_pos_ : Z;
  back_pos_ : Z;
  count_ : Z;
}.
Arguments mk {T} _ _ _ _.
Arguments buffer_ {T} _.
Arguments front_pos_ {T} _.
Arguments back_pos_ {T} _.
Arguments count_ {T} _.

Section Methods.
Context {T : Type} `{EqDecision T} (CAPACITY : Z).
Implicit Types (b : t T) (v : T) (xs : list T).

(** ** CircularIndex *)
Definition incr (value_ : Z) : Z := (value_ + 1) `mod` CAPACITY.

Definition decr (value_ : Z) : Z :=
  if value_ =? 0 then CAPACITY - 1 else Z.rem (value_ - 1) CAPACITY.

Fixpoint advance (n : nat) (cursor : Z) : Z :=
  match n with O => cursor | S n => advance n (incr cursor) end.

Definition index_at b (index : Z) : result Z :=
  assert! (0 <=? index) && (index <=? count_ b);
  mret (advance (Z.to_nat index) (front_pos_ b)).

(** ** Methods *)
Definition init : t T := mk (replicate (Z.to_nat CAPACITY) Raw) 0 0 0.

Definition empty b : bool := count_ b =? 0.
Definition full b : bool := CAPACITY <=? count_ b.
Definition size b : Z := count_ b.
Definition capacity : Z := CAPACITY.

Definition front b : result T :=
  assert! negb (empty b);
  read (buffer_ b) (front_pos_ b).

Definition back b : result T :=
  assert! negb (empty b);
  read (buffer_ b) (back_pos_ b).

Definition at_ b (index : Z) : result T :=
  cursor ← index_at b index;
  read (buffer_ b) cursor.

(** Assignment through the reference [at] returns. *)
Definition at_assign b (index : Z) v : result (t T) :=
  cursor ← index_at b index;
  _ ← read (buffer_ b) cursor;
  buf ← put (buffer_ b) cursor (Live v);
  mret (mk buf (front_pos_ b) (back_pos_ b) (count_ b)).

Definition push_back b v : result (bool * t T) :=
  if full b then mret (false, b)
  else
    let back_pos := if empty b then back_pos_ b else incr (back_pos_ b) in
    buf ← construct (buffer_ b) back_pos v;
    mret (true, mk buf (front_pos_ b) back_pos (count_ b + 1)).

Definition push_front b v : result (bool * t T) :=
  if full b then mret (false, b)
  else
    let front_pos := if empty b then front_pos_ b else decr (front_pos_ b) in
    buf ← construct (buffer_ b) front_pos v;
    mret (true, mk buf front_pos (back_pos_ b) (count_ b + 1)).

Definition pop_back b : result (t T) :=
  assert! negb (empty b);
  buf ← destroy (buffer_ b) (back_pos_ b);
  let back_pos := if size b =? 1 then back_pos_ b else decr (back_pos_ b) in
  mret (mk buf (front_pos_ b) back_pos (count_ b - 1)).

Definition pop_front b : result (t T) :=
  assert! negb (empty b);
  buf ← destroy (buffer_ b) (front_pos_ b);
  let front_pos := if size b =? 1 then front_pos_ b else incr (front_pos_ b) in
  mret (mk buf front_pos (back_pos_ b) (count_ b - 1)).

(** [while (!empty()) pop_front();] *)
Fixpoint clear_loop (fuel : nat) b : result (t T) :=
  if empty b then mret b
  else match fuel with
       | O => Fault OutOfFuel
       | S fuel => b ← pop_front b; clear_loop fuel b
       end.

Definition clear b : result (t T) := clear_loop (Z.to_nat (count_ b)) b.

Definition insert b (index : Z) v : result (bool * t T) :=
  assert! (0 <=? index) && (index <=? size b);
  if full b then mret (false, b)
  else if index =? 0 then push_front b v
  else if index =? size b then push_back b v
  else
    let back_pos := incr (back_pos_ b) in
    buf ← shift_back (index_at b) (Z.to_nat (count_ b - index)) (count_ b) (buffer_ b);
    pos ← index_at b index;
    buf ← construct buf pos v;
    mret (true, mk buf (front_pos_ b) back_pos (count_ b + 1)).

Definition remove b (index : Z) : result (t T) :=
  assert! negb (empty b);
  assert! (0 <=? index) && (index <? size b);
  if index =? 0 then pop_front b
  else if index =? size b - 1 then pop_back b
  else
    buf ← shift_front (index_at b) (Z.to_nat (count_ b - 1 - index)) index (buffer_ b);
    let back_pos := if size b =? 1 then back_pos_ b else decr (back_pos_ b) in
    mret (mk buf (front_pos_ b) back_pos (count_ b - 1)).

(** The copying loop of the copy constructor and the copy assignment. *)
Fixpoint copy_loop (n : nat) (i : Z) b (other : t T) : result (t T) :=
  match n with
  | O => mret b
  | S n =>
      v ← at_ other i;
      '(_, b) ← push_back b v;
      copy_loop n (i + 1) b other
  end.

(** The moving loop of the move constructor and the move assignment. *)
Fixpoint move_loop (n : nat) (i : Z) b (other : t T) : result (t T * t T) :=
  match n with
  | O => mret (b, other)
  | S n =>
      cursor ← index_at other i;
      '(v, buf) ← move_from (buffer_ other) cursor;
      '(_, b) ← push_back b v;
      move_loop n (i + 1) b (mk buf (front_pos_ other) (back_pos_ other) (count_ other))
  end.

Definition copy_construct (other : t T) : result (t T) :=
  copy_loop (Z.to_nat (size other)) 0 init other.

Definition move_construct (other : t T) : result (t T * t T) :=
  '(b, other) ← move_loop (Z.to_nat (size other)) 0 init other;
  other ← clear other;
  mret (b, other).

(** The assignments for [this != &other]; the other case returns at once. *)
Definition copy_assign b (other : t T) : result (t T) :=
  b ← clear b;
  copy_loop (Z.to_nat (size other)) 0 b other.

Definition move_assign b (other : t T) : result (t T * t T) :=
  b ← clear b;
  '(b, other) ← move_loop (Z.to_nat (size other)) 0 b other;
  other ← clear other;
  mret (b, other).

Fixpoint equal_loop (n : nat) (i : Z) b (other : t T) : result bool :=
  match n with
  | O => mret true
  | S n =>
      x ← at_ other i;
      y ← at_ b i;
      if bool_decide (x = y) then equal_loop n (i + 1) b other else mret false
  end.

Definition equal b (other : t T) : result bool :=
  if negb (size other =? size b) then mret false
  else equal_loop (Z.to_nat (size b)) 0 b other.

(** ** Representation *)
Definition pos (front i : Z) : Z := (front + i) `mod` CAPACITY.

Definition rep b xs : Prop :=
  0 <= front_pos_ b < CAPACITY ∧
  count_ b = Z.of_nat (length xs) ∧ count_ b <= CAPACITY ∧
  back_pos_ b = pos (front_pos_ b) (Z.max 0 (count_ b - 1)) ∧
  holds (pos (front_pos_ b)) CAPACITY (buffer_ b) (nthZ xs).

(** ** The specification: a bounded deque on lists *)
Inductive op :=
| PushBack (v : T)
| PushFront (v : T)
| PopBack
| PopFront
| Insert (index : Z) (v : T)
| Remove (index : Z)
| Clear.

Definition run_op (o : op) b : result (bool * t T) :=
  match o with
  | PushBack v => push_back b v
  | PushFront v => push_front b v
  | PopBack => pair true <$> pop_back b
  | PopFront => pair true <$> pop_front b
  | Insert i v => insert b i v
  | Remove i => pair true <$> remove b i
  | Clear => pair true <$> clear b
  end.

Definition list_insert (index : Z) v xs : list T :=
  take (Z.to_nat index) xs ++ v :: drop (Z.to_nat index) xs.

Definition spec_op (o : op) xs : result (bool * list T) :=
  let room := Z.of_nat (length xs) <? CAPACITY in
  match o with
  | PushBack v => mret (room, if room then xs ++ [v] else xs)
  | PushFront v => mret (room, if room then v :: xs else xs)
  | PopBack => match xs with
               | [] => Fault AssertionFailed
               | _ => mret (true, removelast xs)
               end
  | PopFront => match xs with
                | [] => Fault AssertionFailed
                | _ :: xs => mret (true, xs)
                end
  | Insert i v =>
      if (0 <=? i) && (i <=? Z.of_nat (length xs))
      then mret (room, if room then list_insert i v xs else xs)
      else Fault AssertionFailed
  | Remove i =>
      if (0 <=? i) && (i <? Z.of_nat (length xs))
      then mret (true, delete (Z.to_nat i) xs)
      else Fault AssertionFailed
  | Clear => mret (true, [])
  end.

(** ** Index arithmetic *)
Hypothesis Hcap : 0 < CAPACITY.

Lemma pos_range f i : 0 <= pos f i < CAPACITY.
Proof. by apply Z.mod_pos_bound. Qed.

Lemma pos_0 f : 0 <= f < CAPACITY → pos f 0 = f.
Proof. intros. unfold pos. rewrite Z.add_0_r. by apply Z.mod_small. Qed.

Lemma pos_incr f i : incr (pos f i) = pos f (i + 1).
Proof.
  unfold incr, pos. rewrite Zplus_mod_idemp_l. f_equal. lia.
Qed.

Lemma pos_incr_front f i : pos (incr f) i = pos f (i + 1).
Proof. unfold incr, pos. rewrite Zplus_mod_idemp_l. f_equal. lia. Qed.

Lemma decr_incr f : 0 <= f < CAPACITY → decr f = (f - 1) `mod` CAPACITY.
Proof.
  intros. unfold decr. case_Z.
  - subst. replace (0 - 1) with (CAPACITY - 1 + (-1) * CAPACITY) by lia.
    rewrite Z_mod_plus_full, Z.mod_small; lia.
  - rewrite Z.rem_mod_nonneg; lia.
Qed.

Lemma decr_range f : 0 <= f < CAPACITY → 0 <= decr f < CAPACITY.
Proof. intros. rewrite decr_incr by done. by apply Z.mod_pos_bound. Qed.

Lemma pos_decr f i : decr (pos f i) = pos f (i - 1).
Proof.
  rewrite decr_incr by apply pos_range. unfold pos.
  rewrite Zminus_mod_idemp_l. f_equal. lia.
Qed.

Lemma pos_decr_front f i : 0 <= f < CAPACITY → pos (decr f) i = pos f (i - 1).
Proof.
  intros. rewrite decr_incr by done. unfold pos.
  rewrite Zplus_mod_idemp_l. f_equal. lia.
Qed.

Lemma pos_wrap f i : pos f (i + CAPACITY) = pos f i.
Proof.
  unfold pos. replace (f + (i + CAPACITY)) with (f + i + 1 * CAPACITY) by lia.
  apply Z_mod_plus_full.
Qed.

Lemma pos_inj f : inj_below (pos f) CAPACITY.
Proof.
  intros i j Hi Hj Heq. unfold pos in Heq.
  pose proof (Z.div_mod (f + i) CAPACITY ltac:(lia)).
  pose proof (Z.div_mod (f + j) CAPACITY ltac:(lia)). rewrite Heq in *.
  set (q1 := (f + i) / CAPACITY) in *. set (q2 := (f + j) / CAPACITY) in *.
  assert (i - j = CAPACITY * (q1 - q2)) as Hd by lia.
  assert (q1 - q2 = 0) as Hq; [|rewrite Hq in Hd; lia].
  clearbody q1 q2. clear - Hi Hj Hd Hcap. nia.
Qed.

Lemma advance_pos n f i : advance n (pos f i) = pos f (i + Z.of_nat n).
Proof.
  revert i. induction n as [|n IH]; intros i; simpl advance; [f_equal; lia|].
  rewrite pos_incr, IH. f_equal. lia.
Qed.

Lemma index_at_ok b i :
  0 <= front_pos_ b < CAPACITY → 0 <= i <= count_ b →
  index_at b i = Ok (pos (front_pos_ b) i).
Proof.
  intros Hf Hi. unfold index_at. decide_Z.
  rewrite <-(pos_0 (front_pos_ b)) at 1 by done. rewrite advance_pos.
  do 2 f_equal. lia.
Qed.

(** ** Representation lemmas *)
Lemma rep_init : rep init [].
Proof.
  unfold rep, init. simpl. split_and!; [lia..| |].
  - by rewrite pos_0 by lia.
  - intros j Hj. exists Raw. split; [|by rewrite (proj2 (nthZ_None _ _)) by (simpl; lia)].
    unfold slot_at. pose proof (pos_range 0 j). decide_Z.
    apply lookup_replicate. split; [done|lia].
Qed.

(** Change of front: the elements seen from the new front. *)
Lemma holds_rotate f f' (buf : list (slot T)) g g' :
  (∀ j, 0 <= j < CAPACITY → ∃ i, 0 <= i < CAPACITY ∧ pos f' j = pos f i ∧ g' j = g i) →
  holds (pos f) CAPACITY buf g → holds (pos f') CAPACITY buf g'.
Proof.
  intros Hr H j Hj. destruct (Hr j Hj) as (i & Hi & -> & ->). by apply H.
Qed.

Lemma push_back_ok b xs v :
  rep b xs →
  ∃ b', push_back b v
          = Ok (Z.of_nat (length xs) <? CAPACITY, b') ∧
        rep b' (if Z.of_nat (length xs) <? CAPACITY then xs ++ [v] else xs).
Proof.
  intros (Hf & Hc & Hle & Hb & Hh). unfold push_back, full, empty.
  rewrite Hc. destruct (Z.ltb_spec (Z.of_nat (length xs)) CAPACITY) as [Hlt|]; decide_Z.
  2: { exists b. split; [done|]. unfold rep. by rewrite Hc in *. }
  set (n := Z.of_nat (length xs)) in *.
  assert ((if n =? 0 then back_pos_ b else incr (back_pos_ b)) = pos (front_pos_ b) n) as ->.
  { rewrite Hb, Hc. case_Z; [f_equal; lia|]. rewrite pos_incr. f_equal. lia. }
  destruct (construct_holds _ _ (pos_inj (front_pos_ b)) (buffer_ b) (nthZ xs) n v)
    as (buf & -> & _ & Hh'); [done|lia|].
  eexists. split; [done|]. unfold rep. cbn. rewrite length_app. simpl.
  split_and!; [lia..| |].
  - f_equal. lia.
  - eapply holds_ext, Hh'. intros j Hj. unfold upd, n, nthZ. repeat case_Z; try lia.
    + rewrite lookup_app_r by lia. by replace (_ - _)%nat with O by lia.
    + destruct (Z.lt_ge_cases j (Z.of_nat (length xs))).
      * by rewrite lookup_app_l by lia.
      * rewrite !lookup_ge_None_2; [done| |lia]. rewrite length_app. simpl. lia.
Qed.

Lemma push_front_ok b xs v :
  rep b xs →
  ∃ b', push_front b v = Ok (Z.of_nat (length xs) <? CAPACITY, b') ∧
        rep b' (if Z.of_nat (length xs) <? CAPACITY then v :: xs else xs).
Proof.
  intros (Hf & Hc & Hle & Hb & Hh). unfold push_front, full, empty.
  rewrite Hc. destruct (Z.ltb_spec (Z.of_nat (length xs)) CAPACITY) as [Hlt|]; decide_Z.
  2: { exists b. split; [done|]. unfold rep. by rewrite Hc in *. }
  set (n := Z.of_nat (length xs)) in *.
  set (f' := if n =? 0 then front_pos_ b else decr (front_pos_ b)).
  assert (0 <= f' < CAPACITY) as Hf'.
  { unfold f'. case_Z; [done|by apply decr_range]. }
  assert (holds (pos f') CAPACITY (buffer_ b) (λ j, if j =? 0 then None else nthZ xs (j - 1)))
    as Hh0.
  { eapply holds_rotate, Hh. intros j Hj. unfold f'. destruct (Z.eqb_spec n 0).
    - exists j. split_and!; [lia..|done|].
      rewrite (proj2 (nthZ_None xs j)) by lia. case_Z; [done|]. apply nthZ_None. lia.
    - rewrite pos_decr_front by done. destruct (Z.eqb_spec j 0).
      + exists (CAPACITY - 1). split_and!; [lia|lia| |].
        * rewrite <-(pos_wrap _ (j - 1)). f_equal. lia.
        * symmetry. apply nthZ_None. lia.
      + exists (j - 1). split_and!; (lia || done). }
  destruct (construct_holds _ _ (pos_inj f') (buffer_ b) _ 0 v Hh0)
    as (buf & E & _ & Hh'); [lia|].
  rewrite pos_0 in E by done. rewrite E. eexists. split; [done|].
  unfold rep. cbn. split_and!; [lia..| |].
  - unfold f'. rewrite Hb. case_Z; [by f_equal; lia|].
    rewrite pos_decr_front by done. f_equal. lia.
  - eapply holds_ext, Hh'. intros j Hj. unfold upd. case_Z; [by subst|].
    unfold nthZ. decide_Z. by replace (Z.to_nat j) with (S (Z.to_nat (j - 1))) by lia.
Qed.

Lemma pop_back_ok b xs :
  rep b xs → xs ≠ [] → ∃ b', pop_back b = Ok b' ∧ rep b' (removelast xs).
Proof.
  intros (Hf & Hc & Hle & Hb & Hh) Hne.
  destruct xs as [|x xs' _] using rev_ind; [done|]. rewrite removelast_last.
  rewrite length_app in Hc. simpl in Hc. unfold pop_back, empty, size. decide_Z.
  set (n := Z.of_nat (length xs')) in *.
  replace (Z.max 0 (count_ b - 1)) with n in Hb by lia. rewrite Hb.
  destruct (nthZ_Some (xs' ++ [x]) n) as [_ [y Hy]].
  { rewrite length_app. simpl. lia. }
  destruct (destroy_holds _ _ (pos_inj (front_pos_ b)) (buffer_ b) _ n (Live y) Hh)
    as (buf & -> & _ & Hh'); [lia|by eapply holds_live; [exact Hh|lia|]|done|].
  eexists. split; [done|]. unfold rep. cbn. split_and!; [lia..| |].
  - case_Z; [f_equal; lia|]. rewrite pos_decr. f_equal. lia.
  - eapply holds_ext, Hh'. intros j Hj. unfold upd. case_Z.
    + symmetry. apply nthZ_None. lia.
    + unfold nthZ. decide_Z. destruct (Z.lt_ge_cases j n).
      * by rewrite lookup_app_l by lia.
      * rewrite !lookup_ge_None_2; [done|lia|]. rewrite length_app. simpl. lia.
Qed.

Lemma pop_front_ok b x xs :
  rep b (x :: xs) → ∃ b', pop_front b = Ok b' ∧ rep b' xs.
Proof.
  intros (Hf & Hc & Hle & Hb & Hh). simpl in Hc. unfold pop_front, empty, size. decide_Z.
  destruct (destroy_holds _ _ (pos_inj (front_pos_ b)) (buffer_ b) _ 0 (Live x) Hh)
    as (buf & E & _ & Hh'); [lia|by eapply holds_live; [exact Hh|lia|]|done|].
  rewrite pos_0 in E by done. rewrite E.
  eexists. split; [done|]. unfold rep. cbn.
  set (f' := if count_ b =? 1 then front_pos_ b else incr (front_pos_ b)).
  split_and!; [unfold f', incr; case_Z; [lia|by apply Z.mod_pos_bound]..|lia|lia| |].
  - rewrite Hb. unfold f'. case_Z; [f_equal; lia|]. rewrite pos_incr_front. f_equal. lia.
  - eapply holds_rotate, Hh'. intros j Hj. unfold f', upd.
    destruct (Z.eqb_spec (count_ b) 1).
    + exists j. split_and!; [lia..|done|]. rewrite (proj2 (nthZ_None xs j)) by lia.
      case_Z; [done|]. symmetry. apply nthZ_None. simpl. lia.
    + rewrite pos_incr_front. destruct (decide (j + 1 = CAPACITY)) as [Hj1|].
      * exists 0. rewrite Hj1, <-(pos_wrap _ 0). split_and!; [lia..|done|].
        rewrite (proj2 (nthZ_None _ _)) by lia. done.
      * exists (j + 1). split_and!; [lia..|done|]. decide_Z. unfold nthZ. decide_Z.
        by replace (Z.to_nat (j + 1)) with (S (Z.to_nat j)) by lia.
Qed.

Lemma insert_ok b xs i v :
  rep b xs → 0 <= i <= Z.of_nat (length xs) →
  ∃ b', insert b i v = Ok (Z.of_nat (length xs) <? CAPACITY, b') ∧
        rep b' (if Z.of_nat (length xs) <? CAPACITY then list_insert i v xs else xs).
Proof.
  intros Hrep Hi. pose proof Hrep as (Hf & Hc & Hle & Hb & Hh).
  unfold insert, size, full. rewrite Hc. decide_Z.
  destruct (Z.ltb_spec (Z.of_nat (length xs)) CAPACITY) as [Hlt|]; decide_Z.
  2: { exists b. split; [done|]. done. }
  set (n := Z.of_nat (length xs)) in *.
  destruct (Z.eqb_spec i 0) as [->|].
  { destruct (push_front_ok b xs v Hrep) as (b' & -> & Hb'). fold n in Hb'.
    fold n. revert Hb'. decide_Z. eauto. }
  destruct (Z.eqb_spec i n) as [->|].
  { destruct (push_back_ok b xs v Hrep) as (b' & -> & Hb'). fold n in Hb'. fold n.
    revert Hb'. decide_Z. exists b'. split; [done|]. unfold list_insert, n.
    by rewrite Nat2Z.id, firstn_all, drop_all. }
  destruct (shift_back_ok _ _ (pos_inj (front_pos_ b)) (index_at b) (Z.to_nat (n - i)) n
              (buffer_ b) (nthZ xs)) as (buf & g' & -> & _ & Hh1 & Hg').
  { intros j Hj. apply index_at_ok; [done|lia]. }
  { lia. }
  { done. }
  { intros j Hj. apply nthZ_Some. lia. }
  cbn. rewrite index_at_ok by lia. cbn.
  destruct (construct_holds _ _ (pos_inj (front_pos_ b)) buf _ i v Hh1)
    as (buf' & -> & _ & Hh2); [lia|].
  eexists. split; [done|]. unfold rep, list_insert. cbn.
  rewrite length_app, length_take. cbn. rewrite length_drop. split_and!; [lia..| |].
  - rewrite Hb, pos_incr. f_equal. lia.
  - eapply holds_ext, Hh2. intros j Hj. rewrite nthZ_insert by lia.
    replace (n - Z.of_nat (Z.to_nat (n - i))) with i in Hg' by lia.
    unfold upd. case_Z; [done|]. rewrite Hg' by done. repeat case_Z; try lia; try done.
    rewrite !(proj2 (nthZ_None _ _)) by lia. done.
Qed.

Lemma remove_ok b xs i :
  rep b xs → 0 <= i < Z.of_nat (length xs) →
  ∃ b', remove b i = Ok b' ∧ rep b' (delete (Z.to_nat i) xs).
Proof.
  intros Hrep Hi. pose proof Hrep as (Hf & Hc & Hle & Hb & Hh).
  unfold remove, size, empty. decide_Z.
  destruct (Z.eqb_spec i 0) as [->|].
  { destruct xs as [|x xs]; [simpl in *; lia|]. by apply (pop_front_ok b x). }
  destruct (Z.eqb_spec i (count_ b - 1)) as [->|].
  { destruct xs as [|x xs' _] using rev_ind; [simpl in *; lia|].
    destruct (pop_back_ok b (xs' ++ [x]) Hrep) as (b' & -> & Hb'); [by destruct xs'|].
    exists b'. split; [done|]. rewrite removelast_last in Hb'.
    rewrite length_app in Hc. simpl in Hc.
    replace (Z.to_nat (count_ b - 1)) with (length xs') by lia.
    rewrite delete_take_drop, take_app_length.
    rewrite drop_ge, app_nil_r by (rewrite length_app; simpl; lia). done. }
  destruct (nthZ_Some xs i) as [_ [y Hy]]; [lia|].
  destruct (shift_front_ok _ _ (pos_inj (front_pos_ b)) (index_at b)
              (Z.to_nat (count_ b - 1 - i)) i (buffer_ b) (nthZ xs) (Live y))
    as (buf & g' & -> & _ & Hlast & Hh1 & Hg').
  { intros j Hj. apply index_at_ok; [done|lia]. }
  { lia. }
  { lia. }
  { done. }
  { intros j Hj. apply nthZ_Some. lia. }
  { eapply holds_live; [exact Hh|lia|done]. }
  { done. }
  replace (i + Z.of_nat (Z.to_nat (count_ b - 1 - i))) with (count_ b - 1) in * by lia.
  rewrite bool_decide_false in Hlast by lia.
  cbn. decide_Z. eexists. split; [done|]. unfold rep. cbn.
  assert (length (delete (Z.to_nat i) xs) = (length xs - 1)%nat) as ->.
  { apply length_delete, lookup_lt_is_Some. lia. }
  split_and!; [lia..| |].
  - rewrite Hb, pos_decr. f_equal. lia.
  - eapply holds_ext, Hh1. intros j Hj. rewrite nthZ_delete by lia.
    destruct (decide (j = count_ b - 1)) as [->|].
    + rewrite (holds_dead _ _ _ _ _ _ Hh1 Hj Hlast) by done. decide_Z. symmetry.
      apply nthZ_None. lia.
    + rewrite Hg' by done. repeat case_Z; try lia; try done.
      rewrite !(proj2 (nthZ_None _ _)) by lia. done.
Qed.

(** ** Clearing, also after the elements have been moved out *)
Definition drainable b : Prop :=
  0 <= front_pos_ b < CAPACITY ∧ 0 <= count_ b <= CAPACITY ∧
  back_pos_ b = pos (front_pos_ b) (Z.max 0 (count_ b - 1)) ∧
  ∀ j, 0 <= j < CAPACITY →
    ∃ s, slot_at (buffer_ b) (pos (front_pos_ b) j) = Some s ∧
         (j < count_ b → s ≠ Raw) ∧ (count_ b <= j → ∀ v, s ≠ Live v).

Lemma rep_drainable b xs : rep b xs → drainable b.
Proof.
  intros (Hf & Hc & Hle & Hb & Hh). split_and!; [lia..|done|].
  intros j Hj. destruct (Hh j Hj) as (s & Hs & Hok). exists s. split; [done|].
  destruct (nthZ xs j) eqn:Hx; simpl in Hok.
  - subst. split; [done|]. intros. rewrite (proj2 (nthZ_None _ _)) in Hx by lia. done.
  - apply nthZ_None in Hx. split; [lia|done].
Qed.

Lemma drained_rep b : drainable b → count_ b = 0 → rep b [].
Proof.
  intros (Hf & Hc & Hb & Hs) H0. unfold rep. cbn. split_and!; [lia..|done|].
  intros j Hj. destruct (Hs j Hj) as (s & Hat & _ & Hl). exists s. split; [done|].
  rewrite (proj2 (nthZ_None _ _)) by (simpl; lia).
  simpl. apply Hl. lia.
Qed.

Lemma pop_front_drains b :
  drainable b → 0 < count_ b →
  ∃ b', pop_front b = Ok b' ∧ drainable b' ∧ count_ b' = count_ b - 1.
Proof.
  intros (Hf & Hc & Hb & Hs) H0. unfold pop_front, empty, size. decide_Z.
  destruct (Hs 0) as (s & Hat & Hnr & _); [lia|].
  rewrite pos_0 in Hat by done.
  destruct (destroy_ok _ _ _ Hat (Hnr H0)) as (buf & -> & Hbuf). cbn.
  eexists; split; [done|split; [|done]].
  set (f' := if count_ b =? 1 then front_pos_ b else incr (front_pos_ b)).
  assert (0 <= f' < CAPACITY) as Hf'.
  { unfold f', incr. case_Z; [lia|by apply Z.mod_pos_bound]. }
  unfold drainable; cbn. split_and!; [lia..| |].
  { rewrite Hb. unfold f'. case_Z; [f_equal; lia|]. rewrite pos_incr_front. f_equal. lia. }
  intros j Hj. rewrite Hbuf.
  replace (pos f' j =? front_pos_ b) with (pos f' j =? pos (front_pos_ b) 0)
    by (by rewrite pos_0).
  unfold f'. destruct (Z.eqb_spec (count_ b) 1).
  - destruct (Hs j Hj) as (s' & Hs' & _ & Hl). case_Z; [by exists Raw; split_and!; [|lia|]|].
    exists s'. split_and!; [done|lia|]. intros _. apply Hl.
    destruct (decide (j = 0)) as [->|]; [done|lia].
  - rewrite pos_incr_front. destruct (decide (j + 1 = CAPACITY)) as [Hj1|].
    + rewrite Hj1, <-(pos_wrap _ 0), Z.eqb_refl. exists Raw. split_and!; [done|lia|done].
    + destruct (Hs (j + 1)) as (s' & Hs' & Hr & Hl); [lia|].
      rewrite (proj2 (Z.eqb_neq _ _)).
      * exists s'. split_and!; [done|intros; apply Hr; lia|intros; apply Hl; lia].
      * intros Heq%pos_inj; lia.
Qed.

Lemma ring_clear_ok b : drainable b → ∃ b', clear b = Ok b' ∧ rep b' [].
Proof.
  unfold clear. remember (Z.to_nat (count_ b)) as n eqn:Hn. revert b Hn.
  induction n as [|n IH]; intros b Hn Hd; simpl; unfold empty.
  - assert (count_ b = 0) as H0 by (destruct Hd as (_ & ? & _); lia).
    rewrite H0. exists b. split; [done|by apply drained_rep].
  - decide_Z. destruct (pop_front_drains b Hd) as (b1 & -> & Hd1 & Hc1); [lia|].
    cbn. apply IH; [lia|done].
Qed.

(** ** Queries *)
Lemma at_ok b xs i x : rep b xs → nthZ xs i = Some x → at_ b i = Ok x.
Proof.
  intros (Hf & Hc & Hle & Hb & Hh) Hx.
  assert (0 <= i < Z.of_nat (length xs)) by (apply nthZ_Some; eauto).
  unfold at_. rewrite index_at_ok by lia. cbn.
  by eapply read_holds; [exact Hh|lia|].
Qed.

Lemma at_out b xs i :
  rep b xs → ¬ 0 <= i <= Z.of_nat (length xs) → at_ b i = Fault AssertionFailed.
Proof.
  intros (Hf & Hc & _) Hi. unfold at_, index_at. rewrite Hc.
  by destruct (Z.leb_spec 0 i), (Z.leb_spec i (Z.of_nat (length xs))); try lia.
Qed.

Lemma at_assign_ok b xs i v :
  rep b xs → 0 <= i < Z.of_nat (length xs) →
  ∃ b', at_assign b i v = Ok b' ∧ rep b' (<[Z.to_nat i := v]> xs).
Proof.
  intros Hrep Hi. destruct (nthZ_Some xs i) as [_ [x Hx]]; [done|].
  destruct Hrep as (Hf & Hc & Hle & Hb & Hh). unfold at_assign.
  rewrite index_at_ok by lia. cbn.
  rewrite (read_holds _ _ _ _ _ x Hh) by (lia || done). cbn.
  destruct (construct_holds _ _ (pos_inj (front_pos_ b)) (buffer_ b) _ i v Hh)
    as (buf & E & _ & Hh'); [lia|]. unfold construct in E. rewrite E. cbn.
  eexists. split; [done|]. unfold rep. cbn. rewrite length_insert.
  split_and!; [lia..|done|]. eapply holds_ext, Hh'. intros j Hj. unfold upd, nthZ.
  decide_Z. case_Z; [subst; by rewrite list_lookup_insert_eq by lia|].
  by rewrite list_lookup_insert_ne by lia.
Qed.

(** On a full buffer the index one past the end is the front again. *)
Lemma index_at_wraps b xs :
  rep b xs → Z.of_nat (length xs) = CAPACITY → index_at b CAPACITY = index_at b 0.
Proof.
  intros (Hf & Hc & Hle & _ & _) Hlen.
  rewrite !index_at_ok by lia. f_equal.
  rewrite <-(Z.add_0_l CAPACITY) at 1. apply pos_wrap.
Qed.

Lemma equal_loop_ok n i b other xs ys :
  rep b xs → rep other ys → length xs = length ys → 0 <= i →
  i + Z.of_nat n = Z.of_nat (length xs) →
  equal_loop n i b other
  = Ok (bool_decide (drop (Z.to_nat i) xs = drop (Z.to_nat i) ys)).
Proof.
  intros Hx Hy Hlen. revert i. induction n as [|n IH]; intros i Hi Hn; cbn [equal_loop].
  { rewrite !drop_ge by lia. by rewrite bool_decide_true. }
  destruct (nthZ_Some xs i) as [_ [x Ex]]; [lia|].
  destruct (nthZ_Some ys i) as [_ [y Ey]]; [lia|].
  rewrite (at_ok b xs i x), (at_ok other ys i y) by done. cbn.
  unfold nthZ in Ex, Ey. revert Ex Ey. decide_Z. intros Ex Ey.
  rewrite (drop_S xs x), (drop_S ys y) by done.
  case_bool_decide as Hxy.
  - subst. rewrite IH by lia. replace (Z.to_nat (i + 1)) with (S (Z.to_nat i)) by lia.
    f_equal. apply bool_decide_ext. split; [by intros ->|by intros [=]].
  - f_equal. rewrite bool_decide_false; [done|]. intros [=]. done.
Qed.

Lemma equal_ok b other xs ys :
  rep b xs → rep other ys → equal b other = Ok (bool_decide (xs = ys)).
Proof.
  intros Hx Hy. unfold equal, size.
  pose proof Hx as (_ & Hcx & _). pose proof Hy as (_ & Hcy & _). rewrite Hcx, Hcy.
  destruct (Z.eqb_spec (Z.of_nat (length ys)) (Z.of_nat (length xs))); cbn [negb].
  - rewrite (equal_loop_ok _ 0 b other xs ys) by (done || lia). done.
  - f_equal. rewrite bool_decide_false; [done|]. intros ->. lia.
Qed.

(** ** Copies and moves *)
Lemma copy_loop_ok n i b other xs ys :
  rep b ys → rep other xs → 0 <= i → i + Z.of_nat n = Z.of_nat (length xs) →
  Z.of_nat (length ys) + Z.of_nat n <= CAPACITY →
  ∃ b', copy_loop n i b other = Ok b' ∧ rep b' (ys ++ drop (Z.to_nat i) xs).
Proof.
  intros Hb Hx. revert b ys i Hb. induction n as [|n IH]; intros b ys i Hb Hi Hn Hle;
    cbn [copy_loop].
  { exists b. split; [done|]. by rewrite drop_ge, app_nil_r by lia. }
  destruct (nthZ_Some xs i) as [_ [x Ex]]; [lia|].
  rewrite (at_ok other xs i x) by done. cbn.
  destruct (push_back_ok b ys x Hb) as (b1 & -> & Hb1). revert Hb1. decide_Z.
  intros Hb1. cbn. destruct (IH b1 (ys ++ [x]) (i + 1) Hb1) as (b2 & -> & Hb2);
    [lia|lia|rewrite length_app; simpl; lia|].
  exists b2. split; [done|]. unfold nthZ in Ex. revert Ex. decide_Z. intros Ex.
  rewrite (drop_S xs x) by done.
  replace (Z.to_nat (i + 1)) with (S (Z.to_nat i)) in Hb2 by lia. by rewrite <-app_assoc in Hb2.
Qed.

Lemma copy_assign_ok b other xs ys :
  rep b ys → rep other xs → ∃ b', copy_assign b other = Ok b' ∧ rep b' xs.
Proof.
  intros Hb Hx. pose proof Hx as (_ & Hc & Hle & _). unfold copy_assign, size.
  destruct (ring_clear_ok b) as (b0 & -> & Hb0); [by eapply rep_drainable|]. cbn.
  by apply (copy_loop_ok (Z.to_nat (count_ other)) 0 b0 other xs []); [..|lia|simpl; lia].
Qed.

(** [other] once its first [i] elements have been moved out. *)
Definition half_moved other xs (i : Z) : Prop :=
  0 <= front_pos_ other < CAPACITY ∧
  count_ other = Z.of_nat (length xs) ∧ count_ other <= CAPACITY ∧
  back_pos_ other = pos (front_pos_ other) (Z.max 0 (count_ other - 1)) ∧
  holds (pos (front_pos_ other)) CAPACITY (buffer_ other)
    (λ j, if j <? i then None else nthZ xs j) ∧
  ∀ j, 0 <= j < i →
    slot_at (buffer_ other) (pos (front_pos_ other) j) = Some MovedFrom.

Lemma half_moved_drainable other xs i :
  half_moved other xs i → i <= Z.of_nat (length xs) → drainable other.
Proof.
  intros (Hf & Hc & Hle & Hb & Hh & Hm) Hi. split_and!; [lia..|done|].
  intros j Hj. destruct (Hh j Hj) as (s & Hs & Hok). exists s. split; [done|].
  destruct (Z.ltb_spec j i).
  - split; [|lia]. rewrite Hm in Hs by lia. by injection Hs as <-.
  - destruct (nthZ xs j) eqn:Hx; simpl in Hok.
    + subst. split; [done|]. intros. rewrite (proj2 (nthZ_None _ _)) in Hx by lia. done.
    + apply nthZ_None in Hx. split; [lia|done].
Qed.

Lemma half_moved_step other xs i x :
  half_moved other xs i → nthZ xs i = Some x →
  ∃ buf, index_at other i = Ok (pos (front_pos_ other) i) ∧
    move_from (buffer_ other) (pos (front_pos_ other) i) = Ok (x, buf) ∧
    half_moved (mk buf (front_pos_ other) (back_pos_ other) (count_ other)) xs (i + 1).
Proof.
  intros (Hf & Hc & Hle & Hb & Hh & Hm) Hx.
  assert (0 <= i < Z.of_nat (length xs)) by (apply nthZ_Some; eauto).
  rewrite index_at_ok by lia.
  destruct (move_from_holds _ _ (pos_inj (front_pos_ other)) _ _ i x Hh)
    as (buf & E & _ & Hs & Hh'); [lia|by decide_Z|].
  exists buf. split; [done|]. split; [done|]. unfold half_moved. cbn.
  split_and!; [lia..|done| |].
  - eapply holds_ext, Hh'. intros j Hj. unfold upd. repeat case_Z; (lia || done).
  - intros j Hj. destruct (decide (j = i)) as [->|]; [done|].
    unfold move_from in E. apply bind_ok in E as (v & Hv & E).
    apply bind_ok in E as (buf0 & Hput & E). injection E as -> ->.
    rewrite (slot_at_put _ _ _ _ _ Hput), (proj2 (Z.eqb_neq _ _)); [apply Hm; lia|].
    intros Heq%pos_inj; lia.
Qed.

Lemma move_loop_ok n i b other xs ys :
  rep b ys → half_moved other xs i → 0 <= i → i + Z.of_nat n = Z.of_nat (length xs) →
  Z.of_nat (length ys) + Z.of_nat n <= CAPACITY →
  ∃ b' other', move_loop n i b other = Ok (b', other') ∧
    rep b' (ys ++ drop (Z.to_nat i) xs) ∧ drainable other'.
Proof.
  revert b other ys i. induction n as [|n IH]; intros b other ys i Hb Hm Hi Hn Hle;
    cbn [move_loop].
  { exists b, other. split; [done|]. rewrite drop_ge, app_nil_r by lia. split; [done|].
    eapply half_moved_drainable; [done|lia]. }
  destruct (nthZ_Some xs i) as [_ [x Ex]]; [lia|].
  destruct (half_moved_step other xs i x Hm Ex) as (buf & -> & Hmv & Hm'). cbn.
  rewrite Hmv. cbn.
  destruct (push_back_ok b ys x Hb) as (b1 & -> & Hb1). revert Hb1. decide_Z.
  intros Hb1. cbn. destruct (IH b1 _ (ys ++ [x]) (i + 1) Hb1 Hm') as (b2 & o2 & -> & Hb2 & Ho2);
    [lia|lia|rewrite length_app; simpl; lia|].
  exists b2, o2. split; [done|]. split; [|done].
  unfold nthZ in Ex. revert Ex. decide_Z. intros Ex. rewrite (drop_S xs x) by done.
  replace (Z.to_nat (i + 1)) with (S (Z.to_nat i)) in Hb2 by lia. by rewrite <-app_assoc in Hb2.
Qed.

Lemma rep_half_moved b xs : rep b xs → half_moved b xs 0.
Proof.
  intros (Hf & Hc & Hle & Hb & Hh). split_and!; [lia..|done| |lia].
  eapply holds_ext, Hh. intros. by decide_Z.
Qed.

(** ** Each operation refines the specification *)
Lemma run_op_refines o b xs :
  rep b xs → refines rep (spec_op o xs) (run_op o b).
Proof.
  intros Hrep. pose proof Hrep as (_ & Hc & _). destruct o; simpl.
  - by apply push_back_ok.
  - by apply push_front_ok.
  - destruct xs as [|x xs].
    { unfold pop_back, empty. by rewrite Hc. }
    destruct (pop_back_ok b (x :: xs) Hrep) as (b' & -> & Hb'); [done|]. by exists b'.
  - destruct xs as [|x xs].
    { unfold pop_front, empty. by rewrite Hc. }
    destruct (pop_front_ok b x xs Hrep) as (b' & -> & Hb'). by exists b'.
  - destruct (Z.leb_spec 0 index), (Z.leb_spec index (Z.of_nat (length xs))); simpl;
      try lia; try (unfold insert, size; rewrite Hc; by decide_Z).
    apply insert_ok; [done|lia].
  - destruct (Z.leb_spec 0 index), (Z.ltb_spec index (Z.of_nat (length xs))); simpl;
      try lia.
    { destruct (remove_ok b xs index Hrep) as (b' & -> & Hb'); [lia|]. by exists b'. }
    all: unfold remove, size, empty; rewrite Hc;
      by destruct (Z.of_nat (length xs) =? 0); decide_Z.
  - destruct (ring_clear_ok b) as (b' & -> & Hb'); [by eapply rep_drainable|]. by exists b'.
Qed.

End Methods.

(** ** Properties *)

(** C19: Any sequence of pushes, pops, inserts, removes and clears on a freshly
    constructed buffer behaves exactly like the same sequence on a bounded list: the
    same values are returned, the same operation (if any) stops in an assertion, and
    the buffer ends up holding exactly the list's elements in order. *)
Theorem ring_buffer_refines_deque {T} `{EqDecision T} CAPACITY (os : list (@op T)) :
  0 < CAPACITY →
  refines (rep CAPACITY) (run_all (spec_op CAPACITY) os [])
    (run_all (run_op CAPACITY) os (init CAPACITY)).
Proof.
  intros Hcap. apply run_all_refines; [|by apply rep_init].
  intros o b xs. by apply run_op_refines.
Qed.

Lemma ring_buffer_refines_deque_witness :
  ∃ b, run_all (run_op 3) [PushBack 1; PushFront 0; PushBack 2; PushBack 9; PopFront;
                       Insert 1 7; Remove 0] (init 3)
       = Ok ([true; true; true; false; true; true; true], b) ∧ rep 3 b [7; 2].
Proof.
  apply (ring_buffer_refines_deque 3 [PushBack 1; PushFront 0; PushBack 2; PushBack 9;
           PopFront; Insert 1 7; Remove 0]). lia.
Defined.

(** The copy and move constructors and assignments: a copy holds the same
    elements and compares equal to its source, and a move leaves the source empty
    with every one of its objects destroyed, whatever the target held before. *)
Theorem ring_buffer_copy_move {T} `{EqDecision T} CAPACITY (b other : t T) xs ys :
  0 < CAPACITY → rep CAPACITY b ys → rep CAPACITY other xs →
  (∃ b1, copy_construct CAPACITY other = Ok b1 ∧ rep CAPACITY b1 xs ∧
         equal CAPACITY b1 other = Ok true) ∧
  (∃ b2, copy_assign CAPACITY b other = Ok b2 ∧ rep CAPACITY b2 xs) ∧
  (∃ b3 o3, move_construct CAPACITY other = Ok (b3, o3) ∧
            rep CAPACITY b3 xs ∧ rep CAPACITY o3 []) ∧
  (∃ b4 o4, move_assign CAPACITY b other = Ok (b4, o4) ∧
            rep CAPACITY b4 xs ∧ rep CAPACITY o4 []).
Proof.
  intros Hcap Hb Hx. pose proof Hx as (_ & Hc & Hle & _).
  pose proof (rep_half_moved CAPACITY other xs Hx) as Hm.
  unfold copy_construct, move_construct, move_assign, size.
  destruct (ring_clear_ok CAPACITY Hcap b) as (b0 & Hcl & Hb0); [by eapply rep_drainable|].
  pose proof (rep_init (T := T) CAPACITY Hcap) as Hinit.
  split_and!.
  - destruct (copy_loop_ok CAPACITY Hcap (Z.to_nat (count_ other)) 0 _ other xs [] Hinit Hx)
      as (b1 & -> & Hb1); [lia|lia|simpl; lia|].
    exists b1. split_and!; [done..|]. rewrite (equal_ok CAPACITY Hcap b1 other xs xs) by done.
    by rewrite bool_decide_true.
  - by eapply (copy_assign_ok CAPACITY Hcap).
  - destruct (move_loop_ok CAPACITY Hcap (Z.to_nat (count_ other)) 0 _ other xs [] Hinit Hm)
      as (b3 & o3 & -> & Hb3 & Ho3); [lia|lia|simpl; lia|]. cbn.
    destruct (ring_clear_ok CAPACITY Hcap o3 Ho3) as (o3' & -> & ?). cbn. eauto.
  - rewrite Hcl. cbn.
    destruct (move_loop_ok CAPACITY Hcap (Z.to_nat (count_ other)) 0 b0 other xs [] Hb0 Hm)
      as (b3 & o3 & -> & Hb3 & Ho3); [lia|lia|simpl; lia|]. cbn.
    destruct (ring_clear_ok CAPACITY Hcap o3 Ho3) as (o3' & -> & ?). cbn. eauto.
Qed.

(** [at] answers element [i] for every [i] below the size, but its bounds check
    also lets [i = size()] through: on a full buffer that wraps around to the front
    element, otherwise it reads a slot that holds no object.  Only an index past the
    size, or a negative one, stops in the assertion. *)
Theorem at_bounds {T} `{EqDecision T} CAPACITY (b : t T) xs i :
  0 < CAPACITY → rep CAPACITY b xs →
  at_ CAPACITY b i =
    if (0 <=? i) && (i <? size b) then deref InvalidAccess (nthZ xs i)
    else if i =? size b then (if full CAPACITY b then front b else Fault InvalidAccess)
    else Fault AssertionFailed.
Proof.
  intros Hcap Hrep. pose proof Hrep as (Hf & Hc & Hle & Hb & Hh). unfold size.
  destruct (decide (0 <= i < count_ b)) as [Hin|Hout].
  - decide_Z. destruct (nthZ_Some xs i) as [_ [x Ex]]; [lia|].
    rewrite (at_ok CAPACITY Hcap b xs i x) by done. by rewrite Ex.
  - replace ((0 <=? i) && (i <? count_ b)) with false by (repeat case_Z; (done || lia)).
    case_Z; [|apply (at_out CAPACITY b xs); [done|lia]].
    subst i. unfold at_. rewrite index_at_ok by lia. cbn. unfold full, front, empty.
    destruct (Z.leb_spec CAPACITY (count_ b)).
    + decide_Z. f_equal. rewrite <-(pos_0 CAPACITY (front_pos_ b)) at 2 by done.
      rewrite <-(pos_wrap CAPACITY (front_pos_ b) 0). f_equal. lia.
    + eapply read_hole; [exact Hh|lia|]. apply nthZ_None. lia.
Qed.

Lemma at_bounds_witness :
  at_ 2 (mk [Live 5; Live 6] 1 0 2) 2 = front (mk [Live 5; Live 6] 1 0 2).
Proof.
  rewrite (at_bounds 2 (mk [Live 5; Live 6] 1 0 2) [6; 5] 2); [reflexivity|lia|].
  unfold rep. cbn. split_and!; [lia..|reflexivity|]. intros j Hj.
  assert (j = 0 ∨ j = 1) as [-> | ->] by lia; eexists; split; reflexivity.
Defined.

Lemma ring_buffer_copy_move_witness :
  ∃ b3 o3, move_construct 2 (mk [Live 5; Raw] 0 0 1) = Ok (b3, o3) ∧
           rep 2 b3 [5] ∧ rep 2 o3 [].
Proof.
  apply (ring_buffer_copy_move 2 (init 2) (mk [Live 5; Raw] 0 0 1) [5] []);
    [lia|apply rep_init; lia|].
  unfold rep. cbn. split_and!; [lia..|reflexivity|]. intros j Hj.
  assert (j = 0 ∨ j = 1) as [-> | ->] by lia; eexists; split; done.
Defined.

End RingBuffer.
