(* ===== verification/Vector.v ===== *)
(** * Vector: the growable array

    Models [Vector<T>] of src/Common/include/common/vector.hpp over the slots of
    [Storage].  [data_] is [None] for [nullptr] and otherwise the array that
    [new internal_type[capacity_]] returned, all of whose slots start [Raw];
    [size_type] is a 32-bit [int].  Deleting an array just drops it: the code does
    not destroy the elements.  The specification [spec_op] works on a list together
    with the capacity, so that the growth policy is part of what is refined. *)
From S2P Require Import Prelude Storage.
Import Storage.

Module Vector.

Record t (T : Type) := mk {
  data_ : option (list (slot T));
  count_ : Z;
  capacity_ : Z;
}.
Arguments mk {T} _ _ _.
Arguments data_ {T} _.
Arguments count_ {T} _.
Arguments capacity_ {T} _.

Definition GROWTH_FACTOR : Z := 2.

Section Methods.
Context {T : Type} `{EqDecision T}.
Implicit Types (x : t T) (v : T) (xs : list T).

(** [new internal_type[n]]. *)
Definition new_array (n : Z) : result (list (slot T)) :=
  if n <? 0 then Fault InvalidAccess else mret (replicate (Z.to_nat n) Raw).

(** What [data()] points to, for an access through it. *)
Definition data x : result (list (slot T)) := deref NullDereference (data_ x).

Definition init : t T := mk None 0 0.

Definition size x : Z := count_ x.
Definition empty x : bool := count_ x =? 0.
Definition capacity x : Z := capacity_ x.

Fixpoint fill_loop (n : nat) (i : Z) (buf : list (slot T)) (value : Z → result T)
  : result (list (slot T)) :=
  match n with
  | O => mret buf
  | S n =>
      v ← value i;
      buf ← put buf i (Live v);
      fill_loop n (i + 1) buf value
  end.

(** [Vector(size)]; [value_type()] is the parameter [dflt]. *)
Definition init_size (dflt : T) (size : Z) : result (t T) :=
  buf ← new_array size;
  buf ← fill_loop (Z.to_nat size) 0 buf (λ _, mret dflt);
  mret (mk (Some buf) size size).

(** [Vector(size, src)]: the elements are assigned to raw storage, which overwrites
    it; [src i] reads element [i] of the source array. *)
Definition init_array (size : Z) (src : Z → result T) : result (t T) :=
  buf ← new_array size;
  buf ← fill_loop (Z.to_nat size) 0 buf src;
  mret (mk (Some buf) size size).

Definition elem x (i : Z) : result T := buf ← data x; read buf i.

Definition copy_construct (other : t T) : result (t T) :=
  init_array (count_ other) (elem other).

Definition move_construct (other : t T) : t T * t T :=
  (mk (data_ other) (count_ other) (capacity_ other), mk None 0 0).

(** The assignments for [this != &other]. *)
Definition copy_assign x (other : t T) : result (t T) :=
  let count := count_ other in
  buf ← new_array count;
  buf ← fill_loop (Z.to_nat count) 0 buf (elem other);
  mret (mk (Some buf) count count).

Definition move_assign x (other : t T) : t T * t T :=
  (mk (data_ other) (count_ other) (capacity_ other), mk None 0 0).

Definition at_ x (i : Z) : result T :=
  assert! (0 <=? i) && (i <? count_ x);
  elem x i.

(** Assignment through the reference [at] returns. *)
Definition at_assign x (i : Z) v : result (t T) :=
  assert! (0 <=? i) && (i <? count_ x);
  _ ← elem x i;
  buf ← data x;
  buf ← put buf i (Live v);
  mret (mk (Some buf) (count_ x) (capacity_ x)).

Definition front x : result T := assert! negb (empty x); at_ x 0.
(** [std::move(front())] used as a source: the object at the front is moved from. *)
Definition move_front x : result (T * t T) :=
  _ ← front x;
  buf ← data x;
  '(v, buf) ← move_from buf 0;
  mret (v, mk (Some buf) (count_ x) (capacity_ x)).

Definition back x : result T := assert! negb (empty x); at_ x (size x - 1).

Fixpoint equal_loop (n : nat) (i : Z) x (other : t T) : result bool :=
  match n with
  | O => mret true
  | S n =>
      a ← at_ other i;
      b ← at_ x i;
      if bool_decide (a = b) then equal_loop n (i + 1) x other else mret false
  end.

Definition equal x (other : t T) : result bool :=
  if negb (size other =? size x) then mret false
  else equal_loop (Z.to_nat (size x)) 0 x other.

(** [new (new_data + i) value_type(std::move(data()[i]))] for each element. *)
Fixpoint reserve_loop (n : nat) (i : Z) (old : option (list (slot T)))
    (new_data : list (slot T)) : result (list (slot T)) :=
  match n with
  | O => mret new_data
  | S n =>
      buf ← deref NullDereference old;
      '(v, buf) ← move_from buf i;
      new_data ← construct new_data i v;
      reserve_loop n (i + 1) (Some buf) new_data
  end.

Definition reserve x (new_capacity : Z) : result (t T) :=
  assert! 0 <=? new_capacity;
  if capacity_ x <? new_capacity then
    new_data ← new_array new_capacity;
    new_data ← reserve_loop (Z.to_nat (count_ x)) 0 (data_ x) new_data;
    mret (mk (Some new_data) (count_ x) new_capacity)
  else mret x.

(** [count_ * GROWTH_FACTOR] is an unsigned product converted back to [int]. *)
Definition increase_capacity_for_insertion x : result (t T) :=
  if capacity_ x =? 0 then reserve x 1
  else if count_ x =? capacity_ x
  then reserve x (swrap 32 (uwrap 32 (count_ x * GROWTH_FACTOR)))
  else mret x.

Definition insert x (index : Z) v : result (t T) :=
  assert! (0 <=? index) && (index <=? count_ x);
  x ← increase_capacity_for_insertion x;
  buf ← data x;
  buf ← shift_back mret (Z.to_nat (count_ x - index)) (count_ x) buf;
  buf ← construct buf index v;
  mret (mk (Some buf) (count_ x + 1) (capacity_ x)).

Definition push_back x v : result (t T) := insert x (count_ x) v.
Definition push_front x v : result (t T) := insert x 0 v.

Definition remove x (index : Z) : result (t T) :=
  assert! (0 <=? index) && (index <? count_ x);
  buf ← data x;
  buf ← shift_front mret (Z.to_nat (count_ x - 1 - index)) index buf;
  mret (mk (Some buf) (count_ x - 1) (capacity_ x)).

Definition pop_back x : result (t T) := remove x (size x - 1).
Definition pop_front x : result (t T) := remove x 0.

(** ** Representation *)
Definition live_prefix xs (buf : list (slot T)) : Prop :=
  ∀ j, 0 <= j < Z.of_nat (length xs) →
       slot_at buf j = Live <$> nthZ xs j.

Definition rep x (a : list T * Z) : Prop :=
  count_ x = Z.of_nat (length a.1) ∧ capacity_ x = a.2 ∧
  Z.of_nat (length a.1) <= a.2 < 2 ^ 31 ∧
  match data_ x with
  | None => a.2 = 0
  | Some buf => Z.of_nat (length buf) = a.2 ∧ live_prefix a.1 buf
  end.

(** ** The specification: a list and its capacity *)
Inductive op :=
| PushBack (v : T)
| PushFront (v : T)
| Insert (index : Z) (v : T)
| Remove (index : Z)
| PopBack
| PopFront
| Reserve (n : Z).

(** [Reserve n] passes [n] as an [int]. *)
Definition run_op (o : op) x : result (unit * t T) :=
  pair tt <$> match o with
  | PushBack v => push_back x v
  | PushFront v => push_front x v
  | Insert i v => insert x i v
  | Remove i => remove x i
  | PopBack => pop_back x
  | PopFront => pop_front x
  | Reserve n => reserve x (swrap 32 n)
  end.

(** The capacity after making room for one more element: it doubles when the vector
    is full, and an insertion that would need 2^31 slots or more does not happen. *)
Definition spec_grow (n cap : Z) : result Z :=
  if cap =? 0 then mret 1
  else if n =? cap then
    (if 2 * n <? 2 ^ 31 then mret (2 * n) else Fault AssertionFailed)
  else mret cap.

Definition spec_insert (i : Z) v (a : list T * Z) : result (list T * Z) :=
  let '(xs, cap) := a in
  if (0 <=? i) && (i <=? Z.of_nat (length xs)) then
    cap ← spec_grow (Z.of_nat (length xs)) cap;
    mret (take (Z.to_nat i) xs ++ v :: drop (Z.to_nat i) xs, cap)
  else Fault AssertionFailed.

Definition spec_remove (i : Z) (a : list T * Z) : result (list T * Z) :=
  let '(xs, cap) := a in
  if (0 <=? i) && (i <? Z.of_nat (length xs))
  then mret (delete (Z.to_nat i) xs, cap) else Fault AssertionFailed.

Definition spec_op (o : op) (a : list T * Z) : result (unit * (list T * Z)) :=
  let n := Z.of_nat (length a.1) in
  pair tt <$> match o with
  | PushBack v => spec_insert n v a
  | PushFront v => spec_insert 0 v a
  | Insert i v => spec_insert i v a
  | Remove i => spec_remove i a
  | PopBack => spec_remove (n - 1) a
  | PopFront => spec_remove 0 a
  | Reserve m => if swrap 32 m <? 0 then Fault AssertionFailed
                 else mret (a.1, Z.max (swrap 32 m) a.2)
  end.

(** ** Buffers *)
Definition view (buf : list (slot T)) (j : Z) : option T :=
  match slot_at buf j with Some (Live v) => Some v | _ => None end.

Lemma holds_view buf : holds id (Z.of_nat (length buf)) buf (view buf).
Proof.
  intros j Hj. unfold view, slot_at, id. decide_Z.
  destruct (lookup_lt_is_Some_2 buf (Z.to_nat j)) as [s Hs]; [lia|].
  exists s. split; [done|]. rewrite Hs. by destruct s.
Qed.

Lemma id_inj m : inj_below id m.
Proof. by intros i j _ _. Qed.

Lemma live_prefix_view xs buf :
  live_prefix xs buf ↔ ∀ j, 0 <= j < Z.of_nat (length xs) → view buf j = nthZ xs j.
Proof.
  unfold live_prefix, view.
  split; intros H j Hj; specialize (H j Hj);
    destruct (proj2 (nthZ_Some xs j) Hj) as [v Hv]; rewrite Hv in *; simpl in *.
  - by rewrite H.
  - destruct (slot_at buf j) as [[| |]|]; naive_solver.
Qed.

Lemma holds_live_prefix m g xs buf :
  holds id m buf g → Z.of_nat (length xs) <= m →
  (∀ j, 0 <= j < Z.of_nat (length xs) → g j = nthZ xs j) → live_prefix xs buf.
Proof.
  intros Hh Hm Hg j Hj. destruct (proj2 (nthZ_Some xs j) Hj) as [v Hv].
  rewrite Hv. simpl. eapply (holds_live id); [exact Hh|lia|]. by rewrite Hg.
Qed.

Lemma fill_loop_ok n i buf value ys :
  0 <= i → i + Z.of_nat n <= Z.of_nat (length buf) →
  i + Z.of_nat n = Z.of_nat (length ys) →
  (∀ j, i <= j < i + Z.of_nat n → value j = deref InvalidAccess (nthZ ys j)) →
  (∀ j, 0 <= j < i → slot_at buf j = Live <$> nthZ ys j) →
  ∃ buf', fill_loop n i buf value = Ok buf' ∧ length buf' = length buf ∧
          live_prefix ys buf'.
Proof.
  revert i buf. induction n as [|n IH]; intros i buf Hi Hlen Hys Hv Hpre;
    cbn [fill_loop].
  { exists buf. split_and!; [done..|]. intros j Hj. apply Hpre. lia. }
  destruct (proj2 (nthZ_Some ys i) ltac:(lia)) as [y Hy].
  rewrite Hv, Hy by lia. cbn.
  assert (∃ s, slot_at buf i = Some s) as [s Hs].
  { unfold slot_at. decide_Z. apply lookup_lt_is_Some_2. lia. }
  destruct (put_ok buf i (Live y) s Hs) as (b1 & Hput & Hl1). rewrite Hput. cbn.
  destruct (IH (i + 1) b1) as (b2 & -> & Hl2 & Hp2); [lia|lia|lia| | |].
  { intros j Hj. apply Hv. lia. }
  { intros j Hj. rewrite (slot_at_put _ _ _ _ _ Hput). case_Z; [by subst; rewrite Hy|].
    apply Hpre. lia. }
  exists b2. split_and!; [done|congruence|done].
Qed.

Lemma new_array_ok n :
  0 <= n → ∃ buf, new_array n = Ok buf ∧ Z.of_nat (length buf) = n.
Proof.
  intros. unfold new_array. decide_Z. eexists. split; [done|].
  rewrite length_replicate. lia.
Qed.

Lemma reserve_loop_ok n i old new xs :
  0 <= i → i + Z.of_nat n = Z.of_nat (length xs) →
  Z.of_nat (length xs) <= Z.of_nat (length new) →
  (n = O ∨ ∃ buf, old = Some buf ∧ ∀ j, i <= j < Z.of_nat (length xs) →
                  slot_at buf j = Live <$> nthZ xs j) →
  (∀ j, 0 <= j < i → slot_at new j = Live <$> nthZ xs j) →
  ∃ new', reserve_loop n i old new = Ok new' ∧ length new' = length new ∧
          live_prefix xs new'.
Proof.
  revert i old new. induction n as [|n IH]; intros i old new Hi Hn Hlen Hold Hpre;
    cbn [reserve_loop].
  { exists new. split_and!; [done..|]. intros j Hj. apply Hpre. lia. }
  destruct Hold as [?|(buf & -> & Hbuf)]; [done|]. cbn.
  destruct (proj2 (nthZ_Some xs i) ltac:(lia)) as [y Hy].
  pose proof (Hbuf i ltac:(lia)) as Hsi. rewrite Hy in Hsi. simpl in Hsi.
  unfold move_from, read. rewrite Hsi. cbn.
  destruct (put_ok buf i MovedFrom _ Hsi) as (b1 & Hput & _). rewrite Hput. cbn.
  assert (∃ s, slot_at new i = Some s) as [s Hs].
  { unfold slot_at. decide_Z. apply lookup_lt_is_Some_2. lia. }
  unfold construct. destruct (put_ok new i (Live y) s Hs) as (n1 & Hnew & Hl1).
  rewrite Hnew. cbn.
  destruct (IH (i + 1) (Some b1) n1) as (n2 & -> & Hl2 & Hp2); [lia|lia|lia| | |].
  { right. exists b1. split; [done|]. intros j Hj.
    rewrite (slot_at_put _ _ _ _ _ Hput). decide_Z. apply Hbuf. lia. }
  { intros j Hj. rewrite (slot_at_put _ _ _ _ _ Hnew). case_Z; [by subst; rewrite Hy|].
    apply Hpre. lia. }
  exists n2. split_and!; [done|congruence|done].
Qed.

(** ** Operations *)
Lemma vec_rep_init : rep init ([], 0).
Proof. unfold rep. cbn. lia. Qed.

Lemma reserve_ok x xs cap n :
  rep x (xs, cap) → 0 <= n < 2 ^ 31 →
  ∃ x', reserve x n = Ok x' ∧ rep x' (xs, Z.max n cap).
Proof.
  intros Hrep Hn. pose proof Hrep as (Hc & Hcap & Hle & Hd). cbn in *.
  unfold reserve. decide_Z. rewrite Hcap. case_Z.
  2: { exists x. split; [done|]. by rewrite Z.max_r by lia. }
  destruct (new_array_ok n) as (buf & -> & Hl); [lia|]. cbn.
  destruct (reserve_loop_ok (Z.to_nat (count_ x)) 0 (data_ x) buf xs)
    as (buf' & -> & Hl' & Hp); [lia|lia|lia| |lia|].
  { destruct (data_ x) as [d|]; [right|left; lia].
    exists d. split; [done|]. intros j Hj. apply Hd. lia. }
  cbn. eexists. split; [done|]. rewrite Z.max_l by lia.
  unfold rep. cbn. split_and!; (lia || done).
Qed.

Lemma swrap_double n :
  0 <= n < 2 ^ 31 →
  swrap 32 (uwrap 32 (n * GROWTH_FACTOR)) = if 2 * n <? 2 ^ 31 then 2 * n else 2 * n - 2 ^ 32.
Proof.
  intros Hn. unfold swrap, uwrap, GROWTH_FACTOR. change (32 - 1) with 31.
  rewrite (Z.mod_small (n * 2)) by lia. case_Z.
  - rewrite Z.mod_small by lia. lia.
  - replace (n * 2 + 2 ^ 31) with (n * 2 - 2 ^ 31 + 1 * 2 ^ 32) by lia.
    rewrite Z_mod_plus_full, Z.mod_small by lia. lia.
Qed.

Lemma increase_capacity_ok x xs cap :
  rep x (xs, cap) →
  match spec_grow (Z.of_nat (length xs)) cap with
  | Ok cap' => ∃ x' buf, increase_capacity_for_insertion x = Ok x' ∧
      rep x' (xs, cap') ∧ data_ x' = Some buf ∧ Z.of_nat (length xs) < cap'
  | Fault f => increase_capacity_for_insertion x = Fault f
  end.
Proof.
  intros Hrep. pose proof Hrep as (Hc & Hcap & Hle & Hd). cbn in *.
  unfold spec_grow, increase_capacity_for_insertion. rewrite Hcap, Hc.
  assert (∀ n x', rep x' (xs, n) → 0 < n → ∃ buf, data_ x' = Some buf) as Hsome.
  { intros n x' (_ & _ & _ & Hd') Hn. destruct (data_ x'); [eauto|]. cbn in Hd'. lia. }
  destruct (Z.eqb_spec cap 0) as [->|].
  { destruct (reserve_ok x xs 0 1 Hrep) as (x' & -> & Hx'); [lia|].
    destruct (Hsome _ _ Hx') as [buf Hbuf]; [lia|]. exists x', buf. split_and!; (lia || done). }
  destruct (Z.eqb_spec (Z.of_nat (length xs)) cap) as [Heq|].
  2: { destruct (Hsome _ _ Hrep) as [buf Hbuf]; [lia|].
       exists x, buf. split_and!; (lia || done). }
  rewrite swrap_double by lia. case_Z.
  - destruct (reserve_ok x xs cap (2 * Z.of_nat (length xs)) Hrep) as (x' & -> & Hx'); [lia|].
    rewrite Z.max_l in Hx' by lia.
    destruct (Hsome _ _ Hx') as [buf Hbuf]; [lia|]. exists x', buf. split_and!; (lia || done).
  - unfold reserve. by decide_Z.
Qed.

Lemma vec_insert_ok x a i v :
  rep x a →
  match spec_insert i v a with
  | Ok a' => ∃ x', insert x i v = Ok x' ∧ rep x' a'
  | Fault f => insert x i v = Fault f
  end.
Proof.
  destruct a as [xs cap]. intros Hrep. pose proof Hrep as (Hc & _). cbn in *.
  unfold insert. rewrite Hc. destruct (_ && _) eqn:Hin; cbn; [|done].
  apply andb_true_iff in Hin as [H0%Z.leb_le H1%Z.leb_le].
  pose proof (increase_capacity_ok x xs cap Hrep) as Hg.
  destruct (spec_grow _ cap) as [cap'|f]; cbn; [|by rewrite Hg].
  destruct Hg as (x1 & buf & -> & (Hc1 & Hcap1 & Hle1 & Hd1) & Hbuf & Hlt). cbn in *.
  unfold data. rewrite Hbuf in *. cbn. destruct Hd1 as [Hl Hp].
  rewrite Hc1. set (n := Z.of_nat (length xs)) in *.
  destruct (shift_back_ok id (Z.of_nat (length buf)) (id_inj _) mret (Z.to_nat (n - i)) n buf (view buf))
    as (b1 & g1 & -> & L1 & Hh1 & Hg1); [done|lia|apply holds_view| |].
  { intros j Hj. rewrite (proj1 (live_prefix_view xs buf) Hp) by done.
    apply nthZ_Some. lia. }
  cbn. destruct (construct_holds id _ (id_inj _) b1 g1 i v Hh1) as (b2 & E2 & L2 & Hh2); [lia|].
  unfold id in E2. rewrite E2. cbn. eexists. split; [done|].
  unfold rep. cbn. rewrite length_app, length_take. cbn. rewrite length_drop.
  split_and!; [lia..|].
  eapply holds_live_prefix; [exact Hh2| |]; rewrite length_app, length_take; cbn;
    rewrite length_drop; [lia|].
  intros j Hj. rewrite nthZ_insert by lia. unfold upd. case_Z; [done|].
  replace (n - Z.of_nat (Z.to_nat (n - i))) with i in Hg1 by lia. rewrite Hg1 by done.
  repeat case_Z; try lia; apply (proj1 (live_prefix_view xs buf) Hp); lia.
Qed.

(** Below 2^30 elements there is always room for one more. *)
Lemma vec_push_back_ok x xs cap v :
  rep x (xs, cap) → Z.of_nat (length xs) < 2 ^ 30 →
  ∃ x' cap', push_back x v = Ok x' ∧ rep x' (xs ++ [v], cap').
Proof.
  intros Hrep Hn. pose proof Hrep as (Hc & _ & Hle & _). cbn in Hc, Hle.
  pose proof (vec_insert_ok x (xs, cap) (count_ x) v Hrep) as H. unfold push_back.
  rewrite Hc in *. unfold spec_insert in H. revert H. decide_Z.
  rewrite Nat2Z.id, firstn_all, skipn_all. unfold spec_grow.
  destruct (Z.eqb_spec cap 0); [|destruct (Z.eqb_spec (Z.of_nat (length xs)) cap)];
    [| |]; decide_Z; cbn; intros (x' & -> & ?); eauto.
Qed.

Lemma vec_empty_ok x xs cap : rep x (xs, cap) → empty x = bool_decide (xs = []).
Proof.
  intros (Hc & _). cbn in Hc. unfold empty. rewrite Hc. destruct xs; [done|].
  rewrite bool_decide_false by done. cbn. by decide_Z.
Qed.

(** [remove] does not look at the object it removes, which may have been moved from. *)
Lemma vec_remove_slot x xs cap i buf s0 :
  count_ x = Z.of_nat (length xs) → capacity_ x = cap →
  Z.of_nat (length xs) <= cap < 2 ^ 31 → data_ x = Some buf → Z.of_nat (length buf) = cap →
  0 <= i < Z.of_nat (length xs) → slot_at buf i = Some s0 → s0 ≠ Raw →
  (∀ j, 0 <= j < Z.of_nat (length xs) → j ≠ i → view buf j = nthZ xs j) →
  ∃ x', remove x i = Ok x' ∧ rep x' (delete (Z.to_nat i) xs, cap).
Proof.
  intros Hc Hcap Hle Hd Hl Hi Hs0 Hraw Hv. unfold remove, data. rewrite Hc, Hd. decide_Z. cbn.
  set (n := Z.of_nat (length xs)) in *.
  destruct (shift_front_ok id (Z.of_nat (length buf)) (id_inj _) mret (Z.to_nat (n - 1 - i)) i buf (view buf) s0)
    as (b1 & g1 & -> & L1 & _ & Hh1 & Hg1); [done|lia|lia|apply holds_view| |done|done|].
  { intros j Hj. rewrite Hv by lia. apply nthZ_Some. lia. }
  replace (i + Z.of_nat (Z.to_nat (n - 1 - i))) with (n - 1) in Hg1 by lia.
  cbn. eexists. split; [done|].
  assert (length (delete (Z.to_nat i) xs) = (length xs - 1)%nat) as Hdl.
  { apply length_delete, lookup_lt_is_Some. lia. }
  unfold rep. cbn. rewrite Hdl. split_and!; [lia..|].
  eapply holds_live_prefix; [exact Hh1|rewrite Hdl; lia|]. rewrite Hdl. intros j Hj.
  rewrite nthZ_delete by lia. rewrite Hg1 by lia.
  repeat case_Z; try lia; apply Hv; lia.
Qed.

Lemma vec_remove_ok x a i :
  rep x a →
  match spec_remove i a with
  | Ok a' => ∃ x', remove x i = Ok x' ∧ rep x' a'
  | Fault f => remove x i = Fault f
  end.
Proof.
  destruct a as [xs cap]. intros (Hc & Hcap & Hle & Hd). cbn in *.
  destruct (_ && _) eqn:Hin; cbn; [|unfold remove; by rewrite Hc, Hin].
  apply andb_true_iff in Hin as [H0%Z.leb_le H1%Z.ltb_lt].
  destruct (data_ x) as [buf|] eqn:Ed; [|lia]. destruct Hd as [Hl Hp].
  destruct (proj2 (nthZ_Some xs i) ltac:(lia)) as [y Hy].
  apply (vec_remove_slot x xs cap i buf (Live y)); try done; try lia.
  - rewrite Hp by lia. by rewrite Hy.
  - intros j Hj _. by apply (proj1 (live_prefix_view xs buf) Hp).
Qed.

(** Taking the front object out of a queue. *)
Lemma vec_take_front_ok x y ys cap :
  rep x (y :: ys, cap) →
  ∃ x1 x2, move_front x = Ok (y, x1) ∧ pop_front x1 = Ok x2 ∧ rep x2 (ys, cap).
Proof.
  intros (Hc & Hcap & Hle & Hd). cbn [fst snd] in *. cbn [length] in *.
  destruct (data_ x) as [buf|] eqn:Ed; [|lia]. destruct Hd as [Hl Hp].
  pose proof (Hp 0 ltac:(cbn; lia)) as H0. change (Live <$> nthZ (y :: ys) 0) with (Some (Live y)) in H0.
  destruct (put_ok buf 0 MovedFrom _ H0) as (b1 & Eput & L1).
  exists (mk (Some b1) (count_ x) (capacity_ x)).
  destruct (vec_remove_slot (mk (Some b1) (count_ x) (capacity_ x)) (y :: ys) cap 0 b1 MovedFrom)
    as (x2 & E2 & Hx2); try done; cbn [length] in *; try lia.
  { by rewrite (slot_at_put _ _ _ _ 0 Eput). }
  { intros j Hj Hne. unfold view. rewrite (slot_at_put _ _ _ _ j Eput). decide_Z.
    rewrite Hp by done. by destruct (nthZ (y :: ys) j). }
  exists x2. split; [|done].
  unfold move_front, front, empty, size, at_, elem, data, move_from, read. rewrite Ed, Hc. decide_Z.
  cbn [negb andb assert_then deref mbind result_bind mret result_ret]. rewrite H0.
  cbn [mbind result_bind mret result_ret]. by rewrite Eput.
Qed.

Lemma swrap_range (z : Z) : - 2 ^ 31 <= swrap 32 z < 2 ^ 31.
Proof.
  unfold swrap. change (32 - 1) with 31.
  pose proof (Z.mod_pos_bound (z + 2 ^ 31) (2 ^ 32)). lia.
Qed.

Lemma vec_run_op_refines o x a : rep x a → refines rep (spec_op o a) (run_op o x).
Proof.
  intros Hrep. pose proof Hrep as (Hc & _).
  assert (∀ i v, refines rep (pair tt <$> spec_insert i v a) (pair tt <$> insert x i v)) as Hi.
  { intros i v. pose proof (vec_insert_ok x a i v Hrep) as H.
    destruct (spec_insert i v a); cbn; [destruct H as (x' & -> & ?); by exists x'|by rewrite H]. }
  assert (∀ i, refines rep (pair tt <$> spec_remove i a) (pair tt <$> remove x i)) as Hr.
  { intros i. pose proof (vec_remove_ok x a i Hrep) as H.
    destruct (spec_remove i a); cbn; [destruct H as (x' & -> & ?); by exists x'|by rewrite H]. }
  destruct o; unfold run_op, spec_op, push_back, push_front, pop_back, pop_front, size;
    rewrite ?Hc; try apply Hi; try apply Hr.
  pose proof (swrap_range n). destruct (Z.ltb_spec (swrap 32 n) 0); cbn.
  - unfold reserve. by decide_Z.
  - destruct a as [xs cap]. destruct (reserve_ok x xs cap (swrap 32 n) Hrep)
      as (x' & -> & Hx'); [lia|]. by exists x'.
Qed.

(** ** Queries, copies *)
Lemma elem_ok x xs cap i :
  rep x (xs, cap) → 0 <= i < Z.of_nat (length xs) →
  elem x i = deref InvalidAccess (nthZ xs i).
Proof.
  intros (Hc & Hcap & Hle & Hd) Hi. cbn in *. unfold elem, data.
  destruct (data_ x) as [buf|]; [|lia]. destruct Hd as [_ Hp]. cbn. unfold read.
  rewrite Hp by done. destruct (proj2 (nthZ_Some xs i) Hi) as [v ->]. done.
Qed.

Lemma vec_at_ok x xs cap i :
  rep x (xs, cap) →
  at_ x i = if (0 <=? i) && (i <? Z.of_nat (length xs))
            then deref InvalidAccess (nthZ xs i) else Fault AssertionFailed.
Proof.
  intros Hrep. pose proof Hrep as (Hc & _). cbn in Hc. unfold at_. rewrite Hc.
  destruct (_ && _) eqn:Hin; cbn; [|done].
  apply andb_true_iff in Hin as [?%Z.leb_le ?%Z.ltb_lt].
  by apply (elem_ok x xs cap).
Qed.

Lemma vec_at_assign_ok x xs cap i v :
  rep x (xs, cap) → 0 <= i < Z.of_nat (length xs) →
  ∃ x', at_assign x i v = Ok x' ∧ rep x' (<[Z.to_nat i := v]> xs, cap).
Proof.
  intros Hrep Hi. pose proof Hrep as (Hc & Hcap & Hle & Hd). cbn in Hc, Hcap, Hle, Hd.
  unfold at_assign. rewrite Hc. decide_Z. cbn [andb assert_then].
  rewrite (elem_ok x xs cap) by done. destruct (proj2 (nthZ_Some xs i) Hi) as [v0 Hv0].
  rewrite Hv0. cbn [deref mbind result_bind]. unfold data. destruct (data_ x) as [buf|]; [|lia].
  destruct Hd as [Hl Hp]. cbn [deref mbind result_bind].
  destruct (put_ok buf i (Live v) (Live v0)) as (buf' & E & Hl'); [by rewrite Hp, Hv0|].
  rewrite E. cbn [mbind result_bind mret result_ret]. eexists. split; [done|]. unfold rep. cbn.
  rewrite length_insert. split_and!; [done|done|lia..|by rewrite Hl'|].
  intros j Hj. rewrite length_insert in Hj. rewrite (slot_at_put _ _ _ _ _ E), Hp by done.
  unfold nthZ. decide_Z. destruct (Z.eqb_spec j i) as [->|Hne].
  - by rewrite list_lookup_insert_eq by lia.
  - by rewrite list_lookup_insert_ne by lia.
Qed.

Lemma vec_equal_loop_ok n i x other xs ys cap cap' :
  rep x (xs, cap) → rep other (ys, cap') → length xs = length ys → 0 <= i →
  i + Z.of_nat n = Z.of_nat (length xs) →
  equal_loop n i x other
  = Ok (bool_decide (drop (Z.to_nat i) xs = drop (Z.to_nat i) ys)).
Proof.
  intros Hx Hy Hlen. revert i. induction n as [|n IH]; intros i Hi Hn; cbn [equal_loop].
  { rewrite !drop_ge by lia. by rewrite bool_decide_true. }
  destruct (proj2 (nthZ_Some xs i)) as [u Eu]; [lia|].
  destruct (proj2 (nthZ_Some ys i)) as [w Ew]; [lia|].
  rewrite (vec_at_ok x xs cap), (vec_at_ok other ys cap') by done. decide_Z.
  rewrite Eu, Ew. cbn.
  unfold nthZ in Eu, Ew. revert Eu Ew. decide_Z. intros Eu Ew.
  rewrite (drop_S xs u), (drop_S ys w) by done.
  case_bool_decide as Hxy.
  - subst. rewrite IH by lia. replace (Z.to_nat (i + 1)) with (S (Z.to_nat i)) by lia.
    f_equal. apply bool_decide_ext. split; [by intros ->|by intros [=]].
  - f_equal. rewrite bool_decide_false; [done|]. intros [=]. done.
Qed.

Lemma init_array_ok src xs :
  Z.of_nat (length xs) < 2 ^ 31 →
  (∀ j, 0 <= j < Z.of_nat (length xs) → src j = deref InvalidAccess (nthZ xs j)) →
  ∃ x, init_array (Z.of_nat (length xs)) src = Ok x ∧
       rep x (xs, Z.of_nat (length xs)).
Proof.
  intros Hlt Hsrc. unfold init_array.
  destruct (new_array_ok (Z.of_nat (length xs))) as (buf & -> & Hl); [lia|]. cbn.
  destruct (fill_loop_ok (Z.to_nat (Z.of_nat (length xs))) 0 buf src xs)
    as (b1 & -> & L1 & Hp); [lia|lia|lia| |lia|].
  { intros j Hj. apply Hsrc. lia. }
  cbn. eexists. split; [done|]. unfold rep. cbn. split_and!; (lia || done).
Qed.

End Methods.

(** ** Properties *)

(** C20: Any sequence of insertions, removals and reservations on a new vector behaves
    like the same sequence on a list with a capacity: the elements are those of the
    list in order, the capacity is 1, then doubles whenever a full vector grows and
    never shrinks, and an operation stops in an assertion exactly when its index is
    out of range or the doubled capacity no longer fits an [int]. *)
Theorem vector_refines_list {T} `{EqDecision T} (os : list (@op T)) :
  refines rep (run_all spec_op os ([], 0)) (run_all run_op os (init : t T)).
Proof.
  apply run_all_refines; [|by apply vec_rep_init].
  intros o x a. by apply vec_run_op_refines.
Qed.

(** A copy (constructed or assigned) holds the elements of its source in an array
    of exactly that size and compares equal to it; a move hands over the array and
    leaves the source empty; [==] decides equality of the element lists. *)
Theorem vector_copy_move_equal {T} `{EqDecision T} (x other : t T) xs ys cap cap' :
  rep x (ys, cap') → rep other (xs, cap) →
  (∃ x1, copy_construct other = Ok x1 ∧ rep x1 (xs, Z.of_nat (length xs)) ∧
         equal x1 other = Ok true) ∧
  (∃ x2, copy_assign x other = Ok x2 ∧ rep x2 (xs, Z.of_nat (length xs))) ∧
  rep (move_construct other).1 (xs, cap) ∧ rep (move_construct other).2 ([], 0) ∧
  move_assign x other = move_construct other ∧
  equal x other = Ok (bool_decide (ys = xs)).
Proof.
  intros Hx Ho. pose proof Ho as (Hc & Hcap & Hle & Hd). pose proof Hx as (Hcx & _).
  cbn in Hc, Hcap, Hle, Hcx. unfold copy_construct, copy_assign. rewrite Hc.
  destruct (init_array_ok (elem other) xs) as (x1 & E1 & H1); [lia| |].
  { intros. by apply (elem_ok other xs cap). }
  assert (∀ z zs cz, rep z (zs, cz) → equal z other = Ok (bool_decide (zs = xs))) as Heq.
  { intros z zs cz Hz. pose proof Hz as (Hcz & _). cbn in Hcz. unfold equal, size.
    rewrite Hcz, Hc.
    destruct (Z.eqb_spec (Z.of_nat (length xs)) (Z.of_nat (length zs))); cbn [negb].
    - rewrite (vec_equal_loop_ok _ 0 z other zs xs cz cap) by (done || lia). done.
    - f_equal. rewrite bool_decide_false; [done|]. intros ->. lia. }
  split_and!.
  - exists x1. split_and!; [done..|]. rewrite (Heq x1 xs _ H1). by rewrite bool_decide_true.
  - exists x1. by split.
  - exact Ho.
  - apply vec_rep_init.
  - done.
  - by apply (Heq x ys cap').
Qed.

Lemma vector_copy_move_equal_witness :
  equal (mk (Some [Live 4; Live 5]) 2 2) (mk (Some [Live 4; Live 5; Raw]) 2 3) = Ok true.
Proof.
  destruct (vector_copy_move_equal (mk (Some [Live 4; Live 5]) 2 2)
           (mk (Some [Live 4; Live 5; Raw]) 2 3) [4; 5] [4; 5] 3 2)
    as (_ & _ & _ & _ & _ & ->); [| |reflexivity].
  all: unfold rep; cbn; split_and!; try lia; intros j Hj; cbn in Hj;
    assert (j = 0 ∨ j = 1) as [-> | ->] by lia; reflexivity.
Defined.

(** Removing the last element (and hence [pop_back]) only lowers the count: the
    object is never destroyed and stays live in the slot past the end. *)
Theorem pop_back_does_not_destroy {T} `{EqDecision T} (x : t T) xs v cap :
  rep x (xs ++ [v], cap) →
  ∃ x' buf, pop_back x = Ok x' ∧ size x' = size x - 1 ∧ data_ x' = Some buf ∧
            slot_at buf (size x') = Some (Live v).
Proof.
  intros (Hc & Hcap & Hle & Hd). cbn in Hc, Hcap, Hle, Hd.
  rewrite length_app in *. cbn in *. unfold pop_back, remove, size, data.
  destruct (data_ x) as [buf|]; [|lia]. destruct Hd as [Hl Hp]. decide_Z. cbn.
  replace (Z.to_nat (count_ x - 1 - (count_ x - 1))) with O by lia. cbn.
  exists (mk (Some buf) (count_ x - 1) (capacity_ x)), buf. split_and!; [done..|]. cbn.
  rewrite Hp by (rewrite length_app; cbn; lia). unfold nthZ. decide_Z.
  rewrite lookup_app_r by lia. by replace (_ - _)%nat with O by lia.
Qed.

Lemma pop_back_does_not_destroy_witness :
  ∃ x' buf, pop_back (mk (Some [Live 4; Live 5]) 2 2) = Ok x' ∧ size x' = 2 - 1 ∧
            data_ x' = Some buf ∧ slot_at buf (size x') = Some (Live 5).
Proof.
  apply (pop_back_does_not_destroy (mk (Some [Live 4; Live 5]) 2 2) [4] 5 2).
  unfold rep; cbn; split_and!; try lia. intros j Hj. cbn in Hj.
  assert (j = 0 ∨ j = 1) as [-> | ->] by lia; reflexivity.
Defined.

End Vector.
