(* ===== verification/MallocZone.v ===== *)
(** * MallocZone: the kernel heap

    Models src/Common/src/malloc_zone.cpp and
    src/Common/include/malloc/malloc_zone.hpp, the implementation of the
    [MemoryAllocator] interface (src/Common/include/common/memory_allocator.hpp).

    The heap is a chain of [MallocBlock] headers, each followed by its payload.  The
    store keeps the headers and the payload bytes of the memory the zone manages;
    a header a merge makes obsolete stays in memory, as in the code.  A pointer is an
    address, 0 is [nullptr], and [W] is the width of [size_t] and [uintptr_t] (32 on
    i386, 64 on x86_64).

    The abstract heap is the list of its blocks, (payload size, in use), in address
    order; [inv] ties it to the store. *)
From Stdlib Require Import Sorted.
From S2P Require Import Prelude.

Module MallocZone.

Record block := mkb { prev : Z; next : Z; size : Z; inuse : bool }.

#[global] Instance block_eq_dec : EqDecision block.
Proof. solve_decision. Defined.

Record zone := mkz {
  head_ : Z;
  heap : gmap Z block;
  bytes : gmap Z Z;
}.

Definition with_heap (z : zone) (h : gmap Z block) : zone := mkz (head_ z) h (bytes z).
Definition with_bytes (z : zone) (b : gmap Z Z) : zone := mkz (head_ z) (heap z) b.

Definition ALIGN : Z := 4.

Section Methods.
Context (W : Z).
Implicit Types (h : gmap Z block) (z : zone).

(** Three pointer-sized fields and a bool padded to one; a vtable pointer and
    [head_]. *)
Definition sizeof_MallocBlock : Z := 4 * (W / 8).
Definition sizeof_MallocZone : Z := 2 * (W / 8).
Definition MIN_SPLIT_SIZE : Z := sizeof_MallocBlock.
Definition SIZE_MAX : Z := 2 ^ W - 1.

(** ** Memory accesses *)
Definition load h (a : Z) : result block :=
  if a =? 0 then Fault NullDereference else deref InvalidAccess (h !! a).

Definition update h (a : Z) (f : block → block) : result (gmap Z block) :=
  b ← load h a; mret (<[a := f b]> h).

Definition set_prev h a p := update h a (λ b, mkb p (next b) (size b) (inuse b)).
Definition set_next h a n := update h a (λ b, mkb (prev b) n (size b) (inuse b)).
Definition set_size h a s := update h a (λ b, mkb (prev b) (next b) s (inuse b)).
Definition set_inuse h a u := update h a (λ b, mkb (prev b) (next b) (size b) u).

(** [if (a) { a->prev = p; }] *)
Definition link_prev h (a p : Z) : result (gmap Z block) :=
  if a =? 0 then mret h else set_prev h a p.

(** [block->size += following->size + sizeof(MallocBlock);
     block->next = following->next;
     if (following->next) { following->next->prev = block; }] *)
Definition absorb h (block following : Z) : result (gmap Z MallocZone.block) :=
  f ← load h following;
  b ← load h block;
  h ← set_size h block (uwrap W (size b + uwrap W (size f + sizeof_MallocBlock)));
  f ← load h following;
  h ← set_next h block (next f);
  f ← load h following;
  link_prev h (next f) block.

(** [if (following && !following->inuse)] merge it into [block]. *)
Definition merge_following h (block following : Z) : result (gmap Z MallocZone.block) :=
  if following =? 0 then mret h
  else
    f ← load h following;
    if inuse f then mret h else absorb h block following.

Definition round_up_block_size (size : Z) : result Z :=
  let new_size := uwrap W (uwrap W (size + ALIGN - 1) / ALIGN * ALIGN) in
  if new_size <? size then
    let new_size := SIZE_MAX - 3 in
    assert! new_size `mod` ALIGN =? 0;
    mret new_size
  else mret new_size.

(** The header of a new free block written inside [block], between it and the block
    that follows: the sequence of stores shared by [consider_splitting_block] and
    [memalign], which only differ in the sizes. *)
Definition insert_after h (block new_block new_size block_size : Z)
  : result (gmap Z MallocZone.block) :=
  b ← load h block;
  let h := <[new_block := mkb block (next b) new_size false]> h in
  h ← set_size h block block_size;
  b ← load h block;
  h ← link_prev h (next b) new_block;
  set_next h block new_block.

Definition consider_splitting_block h (block size : Z) : result (gmap Z MallocZone.block) :=
  b ← load h block;
  let remaining_space := uwrap W (MallocZone.size b - size) in
  if MIN_SPLIT_SIZE <? remaining_space then
    let new_block := uwrap W (block + sizeof_MallocBlock + size) in
    assert! new_block `mod` ALIGN =? 0;
    h ← insert_after h block new_block
          (uwrap W (remaining_space - sizeof_MallocBlock)) size;
    nb ← load h new_block;
    merge_following h new_block (next nb)
  else mret h.

(** The zone [create] puts at [start]: the memory there holds [h] and [b] before. *)
Definition create (h : gmap Z block) (b : gmap Z Z) (start size : Z) : result zone :=
  assert! negb (start =? 0);
  assert! sizeof_MallocZone <? size;
  let start := if start `mod` 4 =? 0 then start else uwrap W (start + (4 - start `mod` 4)) in
  let first := uwrap W (start + sizeof_MallocZone) in
  mret (mkz first
    (<[first := mkb 0 0 (uwrap W (size - sizeof_MallocZone - sizeof_MallocBlock)) false]> h)
    b).

(** ** Searching *)

(** The loop of [malloc] and of both [find_best_fit]s; [aligned] is the condition on
    the block's address, [best] the best block so far or 0. *)
Fixpoint find_loop (fuel : nat) h (aligned : Z → bool) (size block best : Z) : result Z :=
  if block =? 0 then mret best
  else match fuel with
       | O => Fault OutOfFuel
       | S fuel =>
           b ← load h block;
           best ← (if (size <=? MallocZone.size b) && aligned block && negb (inuse b) then
                     (if best =? 0 then mret block
                      else bb ← load h best;
                           mret (if MallocZone.size b <? MallocZone.size bb
                                 then block else best))
                   else mret best);
           find_loop fuel h aligned size (next b) best
       end.

(** A chain visits every header at most once. *)
Definition fuel_for h : nat := S (base.size h).

Definition find_best_fit z (size : Z) : result Z :=
  find_loop (fuel_for (heap z)) (heap z) (λ _, true) size (head_ z) 0.

Definition find_best_fit_aligned z (size align : Z) : result Z :=
  find_loop (fuel_for (heap z)) (heap z)
    (λ block, uwrap W (block + sizeof_MallocBlock) `mod` align =? 0) size (head_ z) 0.

(** [for (iter = head_; iter; iter = iter->next) if (iter == block) found_it = true;] *)
Fixpoint found_loop (fuel : nat) h (block iter : Z) (found_it : bool) : result bool :=
  if iter =? 0 then mret found_it
  else match fuel with
       | O => Fault OutOfFuel
       | S fuel =>
           b ← load h iter;
           found_loop fuel h block (next b) (found_it || (iter =? block))
       end.

(** ** The MemoryAllocator methods *)
Definition malloc z (size : Z) : result (Z * zone) :=
  size ← round_up_block_size size;
  best ← find_best_fit z size;
  if best =? 0 then mret (0, z)
  else
    h ← consider_splitting_block (heap z) best size;
    h ← set_inuse h best true;
    mret (uwrap W (best + sizeof_MallocBlock), with_heap z h).

Definition memalign z (size align : Z) : result (Z * zone) :=
  if align =? 0 then malloc z size
  else
    size ← round_up_block_size size;
    best ← find_best_fit_aligned z size align;
    if negb (best =? 0) then
      h ← consider_splitting_block (heap z) best size;
      h ← set_inuse h best true;
      mret (uwrap W (best + sizeof_MallocBlock), with_heap z h)
    else
      best ← find_best_fit z (uwrap W (size + MIN_SPLIT_SIZE + align));
      let request_block_address := uwrap W (best + sizeof_MallocBlock) in
      let delta := uwrap W (request_block_address + sizeof_MallocBlock) `mod` align in
      let request_block := uwrap W (request_block_address + (align - delta)) in
      b ← load (heap z) best;
      let old_size_for_best := MallocZone.size b in
      let new_size_for_best := uwrap W (request_block - best - sizeof_MallocBlock) in
      h ← insert_after (heap z) best request_block
            (uwrap W (old_size_for_best - new_size_for_best - sizeof_MallocBlock))
            new_size_for_best;
      h ← consider_splitting_block h request_block size;
      h ← set_inuse h request_block true;
      let result := uwrap W (request_block + sizeof_MallocBlock) in
      assert! result `mod` align =? 0;
      mret (result, with_heap z h).

Definition free z (ptr : Z) : result zone :=
  if ptr =? 0 then mret z
  else
    let h := heap z in
    let block := uwrap W (ptr - sizeof_MallocBlock) in
    found_it ← found_loop (fuel_for h) h block (head_ z) false;
    assert! found_it;
    b ← load h block;
    assert! inuse b;
    h ← set_inuse h block false;
    let preceding := prev b in
    let following := next b in
    '(h, block) ←
      (if preceding =? 0 then mret (h, block)
       else
         p ← load h preceding;
         if inuse p then mret (h, block)
         else h ← absorb h preceding block; mret (h, preceding));
    h ← merge_following h block following;
    mret (with_heap z h).

(** [memcpy(dst, src, n)] and [memmove(dst, src, n)] on the payload bytes. *)
Definition copy_bytes (m : gmap Z Z) (dst src n : Z) : gmap Z Z :=
  foldr (λ i acc, <[dst + i := default 0 (m !! (src + i))]> acc) m (seqZ 0 n).

(** The last part of [realloc]: the block cannot grow in place, so a new block is
    allocated, or the preceding free block is taken over.  [b] is the header of
    [block]. *)
Definition realloc_slide z (ptr block : Z) (b : MallocZone.block) (new_size : Z)
  : result (Z * zone) :=
  let following := next b in
  let preceding := prev b in
  h ← set_next (heap z) preceding following;
  h ← link_prev h following preceding;
  b ← load h block;
  p ← load h preceding;
  h ← set_size h preceding (uwrap W (size b + size p + sizeof_MallocBlock));
  h ← set_inuse h preceding true;
  let new_alloc := uwrap W (preceding + sizeof_MallocBlock) in
  b ← load h block;
  let m := copy_bytes (bytes z) ptr new_alloc (size b) in
  h ← consider_splitting_block h preceding new_size;
  mret (new_alloc, mkz (head_ z) h m).

Definition realloc_move z (ptr block : Z) (b : MallocZone.block) (new_size : Z)
  : result (Z * zone) :=
  '(new_alloc, z) ← malloc z new_size;
  if negb (new_alloc =? 0) then
    b ← load (heap z) block;
    let z := with_bytes z (copy_bytes (bytes z) ptr new_alloc (size b)) in
    z ← free z ptr;
    mret (new_alloc, z)
  else
    let preceding := prev b in
    slides ←
      (if preceding =? 0 then mret false
       else p ← load (heap z) preceding;
            mret (negb (inuse p) &&
                  (new_size <=? uwrap W (size b + size p + sizeof_MallocBlock))));
    if slides : bool then realloc_slide z ptr block b new_size else mret (0, z).

Definition realloc z (ptr new_size : Z) : result (Z * zone) :=
  if ptr =? 0 then malloc z new_size
  else
    let block := uwrap W (ptr - sizeof_MallocBlock) in
    b ← load (heap z) block;
    assert! inuse b;
    found_it ← found_loop (fuel_for (heap z)) (heap z) block (head_ z) false;
    assert! found_it;
    if new_size =? 0 then z ← free z ptr; malloc z 0
    else
      new_size ← round_up_block_size new_size;
      if new_size <=? size b then
        h ← consider_splitting_block (heap z) block new_size;
        mret (ptr, with_heap z h)
      else
        let following := next b in
        extends ←
          (if following =? 0 then mret false
           else f ← load (heap z) following;
                mret (negb (inuse f) &&
                      (new_size <=? uwrap W (size b + size f + sizeof_MallocBlock))));
        if extends : bool then
          h ← absorb (heap z) block following;
          h ← consider_splitting_block h block new_size;
          mret (ptr, with_heap z h)
        else realloc_move z ptr block b new_size.

(** ** The abstract heap

    [bs] lists the blocks as (payload size, in use).  [seg h p a bs n]: the headers of
    [bs] lie one after the other from address [a], correctly linked; the first one's
    [prev] is [p] and the last one's [next] is [n]. *)
Notation SB := sizeof_MallocBlock.
Definition blk : Type := Z * bool.
Implicit Types (bs l r : list blk).

Fixpoint end_addr (a : Z) bs : Z :=
  match bs with [] => a | (s, _) :: bs => end_addr (a + SB + s) bs end.

Definition first_or (n a : Z) bs : Z := match bs with [] => n | _ => a end.

Fixpoint last_or (p a : Z) bs : Z :=
  match bs with [] => p | (s, _) :: bs => last_or a (a + SB + s) bs end.

Fixpoint seg h (p a : Z) bs (n : Z) : Prop :=
  match bs with
  | [] => True
  | (s, u) :: bs =>
      h !! a = Some (mkb p (first_or n (a + SB + s) bs) s u) ∧
      seg h a (a + SB + s) bs n
  end.

(** Headers are 4-byte aligned and sizes are not negative. *)
Fixpoint addrs_ok (a : Z) bs : Prop :=
  match bs with
  | [] => True
  | (s, _) :: bs => a `mod` ALIGN = 0 ∧ 0 <= s ∧ addrs_ok (a + SB + s) bs
  end.

(** No two neighbouring blocks are both free; [pf]: the block before is free. *)
Fixpoint coalesced (pf : bool) bs : Prop :=
  match bs with
  | [] => True
  | (_, u) :: bs => (pf = true → u = true) ∧ coalesced (negb u) bs
  end.

Fixpoint last_free (pf : bool) bs : bool :=
  match bs with [] => pf | (_, u) :: bs => last_free (negb u) bs end.

(** The zone [z] manages the blocks [bs], which tile the memory from the first header
    to [limit]. *)
Record inv (limit : Z) z bs : Prop := {
  inv_head : 0 < head_ z;
  inv_addrs : addrs_ok (head_ z) bs;
  inv_coalesced : coalesced false bs;
  inv_limit : end_addr (head_ z) bs = limit;
  inv_range : limit < 2 ^ W;
  inv_nonempty : bs ≠ [];
  inv_seg : seg (heap z) 0 (head_ z) bs 0;
}.

(** What [consider_splitting_block] does to a block of size [s] followed by [r]. *)
Definition split_blocks (n s : Z) (u : bool) r : list blk :=
  if SB <? s - n then
    (n, u) :: match r with
              | (sf, false) :: r' => (s - n + sf, false) :: r'
              | _ => (s - n - SB, false) :: r
              end
  else (s, u) :: r.

(** ** Segments *)
Hypothesis HW : W = 32 ∨ W = 64.

Lemma SB_bounds : 16 <= SB <= 32 ∧ SB `mod` 4 = 0.
Proof. unfold SB. destruct HW as [-> | ->]; vm_compute; split_and!; congruence. Qed.

Lemma end_addr_ge a bs : addrs_ok a bs → a <= end_addr a bs.
Proof.
  pose proof SB_bounds. revert a. induction bs as [|[s u] bs IH]; intros a; simpl; [lia|].
  intros (_ & Hs & Hok). specialize (IH _ Hok). lia.
Qed.

Lemma end_addr_app a l r : end_addr a (l ++ r) = end_addr (end_addr a l) r.
Proof. revert a. induction l as [|[s u] l IH]; intros a; simpl; [done|apply IH]. Qed.

Lemma addrs_ok_app a l r : addrs_ok a (l ++ r) ↔ addrs_ok a l ∧ addrs_ok (end_addr a l) r.
Proof.
  revert a. induction l as [|[s u] l IH]; intros a; simpl; [tauto|]. rewrite IH. tauto.
Qed.

Lemma coalesced_app pf l r :
  coalesced pf (l ++ r) ↔ coalesced pf l ∧ coalesced (last_free pf l) r.
Proof.
  revert pf. induction l as [|[s u] l IH]; intros pf; simpl; [tauto|]. rewrite IH. tauto.
Qed.

Lemma seg_app h p a l r n :
  seg h p a (l ++ r) n ↔
  seg h p a l (first_or n (end_addr a l) r) ∧ seg h (last_or p a l) (end_addr a l) r n.
Proof.
  revert p a. induction l as [|[s u] l IH]; intros p a; simpl; [tauto|].
  rewrite IH. destruct l; simpl; tauto.
Qed.

Lemma seg_ext h h' p a bs n :
  addrs_ok a bs → (∀ k, a <= k < end_addr a bs → h' !! k = h !! k) →
  seg h p a bs n → seg h' p a bs n.
Proof.
  pose proof SB_bounds. revert p a.
  induction bs as [|[s u] bs IH]; intros p a; simpl; [done|].
  intros (_ & Hs & Hok) Hext [Hh Hseg]. pose proof (end_addr_ge _ _ Hok).
  split; [rewrite Hext by lia; done|]. apply IH; [done| |done].
  intros k Hk. apply Hext. lia.
Qed.

Lemma load_seg h p a s u bs n :
  seg h p a ((s, u) :: bs) n → 0 < a →
  load h a = Ok (mkb p (first_or n (a + SB + s) bs) s u).
Proof. intros [Hh _] Ha. unfold load. decide_Z. by rewrite Hh. Qed.

(** Changing one header leaves the others alone. *)
Lemma update_ok h a f b :
  load h a = Ok b → update h a f = Ok (<[a := f b]> h).
Proof. unfold update. by intros ->. Qed.

Lemma load_insert h a b : 0 < a → load (<[a := b]> h) a = Ok b.
Proof. intros. unfold load. decide_Z. by rewrite lookup_insert_eq. Qed.

Lemma load_insert_ne h a k b : a ≠ k → load (<[k := b]> h) a = load h a.
Proof. intros. unfold load. by rewrite lookup_insert_ne. Qed.

Lemma link_prev_seg h p p' a bs :
  seg h p a bs 0 → addrs_ok a bs → 0 < a →
  ∃ h', link_prev h (first_or 0 a bs) p' = Ok h' ∧ seg h' p' a bs 0 ∧
        ∀ k, k ≠ a → h' !! k = h !! k.
Proof.
  pose proof SB_bounds. intros Hseg Hok Ha. destruct bs as [|[s u] bs]; simpl first_or.
  { exists h. done. }
  unfold link_prev. decide_Z. unfold set_prev.
  erewrite update_ok by by eapply load_seg. simpl.
  eexists. split; [done|]. split; [|intros; by rewrite lookup_insert_ne].
  split; [by rewrite lookup_insert_eq|]. destruct Hseg as [_ Hseg], Hok as (_ & Hs & Hok).
  eapply seg_ext, Hseg; [done|]. intros k Hk. rewrite lookup_insert_ne; [done|lia].
Qed.

(** ** Merging and splitting *)
Lemma absorb_ok h p a s u sf uf r :
  seg h p a ((s, u) :: (sf, uf) :: r) 0 → addrs_ok a ((s, u) :: (sf, uf) :: r) →
  0 < a → end_addr a ((s, u) :: (sf, uf) :: r) < 2 ^ W →
  ∃ h', absorb h a (a + SB + s) = Ok h' ∧
        seg h' p a ((s + SB + sf, u) :: r) 0 ∧ ∀ k, k < a → h' !! k = h !! k.
Proof.
  pose proof SB_bounds as HSB. intros Hseg Hok Ha Hend. unfold absorb.
  destruct Hok as (_ & Hs & _ & Hsf & Hokr). pose proof (end_addr_ge _ _ Hokr) as Hge.
  pose proof Hseg as (Hb & Hf & Hr). simpl in Hend.
  set (f := a + SB + s) in *. assert (0 < f) by (unfold f; lia).
  rewrite (load_seg h a f sf uf r 0) by (done || by split).
  rewrite (load_seg h p a s u ((sf, uf) :: r) 0) by done. cbn.
  rewrite (uwrap_small W (sf + SB)) by (unfold fits; lia).
  rewrite uwrap_small by (unfold fits; lia).
  unfold set_size. erewrite update_ok by by eapply load_seg. cbn.
  rewrite load_insert_ne by lia.
  rewrite (load_seg h a f sf uf r 0) by (done || by split). cbn.
  unfold set_next. erewrite update_ok by by apply load_insert. cbn.
  rewrite insert_insert_eq, load_insert_ne by lia.
  rewrite (load_seg h a f sf uf r 0) by (done || by split). cbn.
  set (h2 := <[a := _]> h).
  destruct (link_prev_seg h2 f a (f + SB + sf) r) as (h3 & E3 & S3 & K3);
    [|done|lia|].
  { eapply seg_ext, Hr; [done|]. intros k Hk. unfold h2. rewrite lookup_insert_ne; [done|lia]. }
  exists h3. split; [done|]. split.
  - split.
    + rewrite K3 by lia. unfold h2. rewrite lookup_insert_eq.
      replace (a + SB + (s + SB + sf)) with (f + SB + sf) by (unfold f; lia).
      do 2 f_equal. lia.
    + by replace (a + SB + (s + SB + sf)) with (f + SB + sf) by (unfold f; lia).
  - intros k Hk. rewrite K3 by lia. unfold h2. rewrite lookup_insert_ne; [done|lia].
Qed.

(** The block [(s, _)] followed by [r], once a free follower has been merged. *)
Definition merge_next (s : Z) (u : bool) r : list blk :=
  match r with
  | (sf, false) :: r' => (s + SB + sf, u) :: r'
  | _ => (s, u) :: r
  end.

Lemma merge_following_ok h p a s u r :
  seg h p a ((s, u) :: r) 0 → addrs_ok a ((s, u) :: r) → 0 < a →
  end_addr a ((s, u) :: r) < 2 ^ W →
  ∃ h', merge_following h a (first_or 0 (a + SB + s) r) = Ok h' ∧
        seg h' p a (merge_next s u r) 0 ∧ ∀ k, k < a → h' !! k = h !! k.
Proof.
  pose proof SB_bounds as HSB. intros Hseg Hok Ha Hend. unfold merge_following.
  destruct r as [|[sf uf] r]; simpl first_or; [by exists h|].
  pose proof Hok as (_ & Hs & _). pose proof Hseg as [_ Hr]. decide_Z.
  rewrite (load_seg h a (a + SB + s) sf uf r 0) by (done || lia). cbn.
  destruct uf; [by exists h|]. by apply absorb_ok with (uf := false).
Qed.

Lemma insert_after_ok h p a s u n r :
  seg h p a ((s, u) :: r) 0 → addrs_ok a ((s, u) :: r) → 0 < a →
  0 <= n → SB <= s - n →
  ∃ h', insert_after h a (a + SB + n) (s - n - SB) n = Ok h' ∧
        seg h' p a ((n, u) :: (s - n - SB, false) :: r) 0 ∧
        ∀ k, k < a → h' !! k = h !! k.
Proof.
  pose proof SB_bounds as HSB. intros Hseg Hok Ha Hn Hs. unfold insert_after.
  rewrite (load_seg h p a s u r 0) by done. cbn.
  destruct Hseg as [Hb Hr], Hok as (Hal & _ & Hokr).
  set (nb := a + SB + n) in *. set (e := a + SB + s) in *.
  pose proof (end_addr_ge _ _ Hokr) as Hge.
  set (x := mkb a (first_or 0 e r) (s - n - SB) false).
  assert (load h a = Ok (mkb p (first_or 0 e r) s u)) as Hla.
  { unfold load. decide_Z. by rewrite Hb. }
  unfold set_size. erewrite update_ok by (rewrite load_insert_ne by (unfold nb; lia); done).
  cbn. rewrite load_insert by done. cbn.
  set (h2 := <[a := _]> _).
  destruct (link_prev_seg h2 a nb e r) as (h3 & -> & S3 & K3); [|done|unfold e; lia|].
  { eapply seg_ext, Hr; [done|]. intros k Hk. unfold h2.
    rewrite !lookup_insert_ne; [done|unfold nb, e in *; lia|unfold nb, e in *; lia]. }
  cbn. assert (load h3 a = Ok (mkb p (first_or 0 e r) n u)) as Hl3.
  { unfold load. decide_Z. rewrite K3 by (unfold e; lia). unfold h2. by rewrite lookup_insert_eq. }
  unfold set_next. erewrite update_ok by done. cbn. eexists. split; [done|].
  split; [split; [by rewrite lookup_insert_eq|]|].
  - fold nb. split.
    + rewrite lookup_insert_ne by (unfold nb; lia). rewrite K3 by (unfold nb, e; lia).
      unfold h2. rewrite lookup_insert_ne, lookup_insert_eq by (unfold nb; lia).
      by replace (nb + SB + (s - n - SB)) with e by (unfold nb, e; lia).
    + replace (nb + SB + (s - n - SB)) with e by (unfold nb, e; lia).
      eapply seg_ext, S3; [done|]. intros k Hk. rewrite lookup_insert_ne; [done|unfold e in *; lia].
  - intros k Hk. rewrite lookup_insert_ne by lia. rewrite K3 by (unfold e; lia).
    unfold h2. rewrite !lookup_insert_ne; [done|unfold nb; lia|lia].
Qed.

Lemma mod4_add x y : x `mod` 4 = 0 → y `mod` 4 = 0 → (x + y) `mod` 4 = 0.
Proof. intros. rewrite Z.add_mod, H, H0 by lia. done. Qed.

Lemma split_ok h p a s u n r :
  seg h p a ((s, u) :: r) 0 → addrs_ok a ((s, u) :: r) → 0 < a →
  0 <= n <= s → n `mod` 4 = 0 → end_addr a ((s, u) :: r) < 2 ^ W →
  ∃ h', consider_splitting_block h a n = Ok h' ∧
        seg h' p a (split_blocks n s u r) 0 ∧ ∀ k, k < a → h' !! k = h !! k.
Proof.
  pose proof SB_bounds as HSB. intros Hseg Hok Ha Hn Hn4 Hend.
  unfold consider_splitting_block, MIN_SPLIT_SIZE, split_blocks.
  rewrite (load_seg h p a s u r 0) by done. cbn.
  pose proof Hok as (Hal & _ & Hokr). pose proof (end_addr_ge _ _ Hokr) as Hge.
  simpl in Hend. rewrite (uwrap_small W (s - n)) by (unfold fits; lia).
  destruct (Z.ltb_spec SB (s - n)).
  2: { exists h. done. }
  rewrite (uwrap_small W (a + SB + n)) by (unfold fits; lia).
  assert ((a + SB + n) `mod` ALIGN = 0) as Hal'.
  { unfold ALIGN in *. apply mod4_add; [|done]. apply mod4_add; [done|apply HSB]. }
  rewrite Hal', Z.eqb_refl. cbn [assert_then].
  rewrite (uwrap_small W (s - n - SB)) by (unfold fits; lia).
  destruct (insert_after_ok h p a s u n r) as (h1 & -> & S1 & K1); [done..|lia|lia|].
  cbn [mbind result_bind]. pose proof S1 as (Hb1 & Hnb1).
  set (nb := a + SB + n) in *. assert (nb + SB + (s - n - SB) = a + SB + s) as He
    by (unfold nb; lia).
  rewrite (load_seg h1 a nb (s - n - SB) false r 0) by (done || (unfold nb; lia)).
  cbn [mbind result_bind next].
  destruct (merge_following_ok h1 a nb (s - n - SB) false r) as (h2 & -> & S2 & K2);
    [done| |unfold nb; lia| |].
  { split_and!; [done|lia|by rewrite He]. }
  { simpl. by rewrite He. }
  exists h2. split; [done|]. split.
  - assert (seg h2 p a ((n, u) :: merge_next (s - n - SB) false r) 0) as Hs2.
    { split; [rewrite K2 by (unfold nb; lia); rewrite Hb1|done].
      by destruct r as [|[? [|]] ?]. }
    destruct r as [|[sf [|]] r]; [done..|]. simpl merge_next in Hs2.
    by replace (s - n + sf) with (s - n - SB + SB + sf) by lia.
  - intros k Hk. rewrite K2 by (unfold nb; lia). by apply K1.
Qed.

Lemma split_end a n s u r : end_addr a (split_blocks n s u r) = end_addr a ((s, u) :: r).
Proof.
  unfold split_blocks. case_Z; [|done]. destruct r as [|[sf [|]] r]; simpl.
  - lia.
  - f_equal. lia.
  - f_equal. lia.
Qed.

Lemma split_addrs a n s u r :
  addrs_ok a ((s, u) :: r) → 0 <= n → n `mod` 4 = 0 →
  addrs_ok a (split_blocks n s u r).
Proof.
  pose proof SB_bounds as [HSB HSB4]. intros (Hal & Hs & Hr) Hn Hn4.
  unfold split_blocks. destruct (Z.ltb_spec SB (s - n)); [|by split_and!].
  assert ((a + SB + n) `mod` ALIGN = 0).
  { unfold ALIGN in *. apply mod4_add; [|done]. by apply mod4_add. }
  destruct r as [|[sf [|]] r]; simpl in *.
  - split_and!; (done || lia).
  - destruct Hr as (? & ? & ?).
    replace (a + SB + n + SB + (s - n - SB)) with (a + SB + s) by lia.
    split_and!; (done || lia).
  - destruct Hr as (? & ? & ?).
    replace (a + SB + n + SB + (s - n + sf)) with (a + SB + s + SB + sf) by lia.
    split_and!; (done || lia).
Qed.

Lemma split_coalesced pf n s r :
  coalesced pf ((s, true) :: r) → coalesced pf (split_blocks n s true r).
Proof.
  intros [Hpf Hr]. unfold split_blocks. case_Z; [|done].
  destruct r as [|[sf [|]] r]; simpl in *; tauto.
Qed.

(** ** Walking the chain *)
Lemma seg_size h p a bs n : seg h p a bs n → addrs_ok a bs → (length bs <= base.size h)%nat.
Proof.
  pose proof SB_bounds. revert h p a. induction bs as [|[s u] bs IH]; intros h p a; simpl; [lia|].
  intros [Hh Hseg] (_ & Hs & Hok).
  assert (seg (delete a h) a (a + SB + s) bs n) as Hseg'.
  { eapply seg_ext, Hseg; [done|]. intros k Hk. rewrite lookup_delete_ne; [done|lia]. }
  specialize (IH _ _ _ Hseg' Hok). rewrite map_size_delete, Hh in IH.
  assert (base.size h ≠ O); [|lia].
  intros ->%map_size_empty_inv. by rewrite lookup_empty in Hh.
Qed.

Lemma load_mid h p a l s u r :
  seg h p a (l ++ (s, u) :: r) 0 → addrs_ok a (l ++ (s, u) :: r) → 0 < a →
  load h (end_addr a l)
  = Ok (mkb (last_or p a l) (first_or 0 (end_addr a l + SB + s) r) s u).
Proof.
  intros [_ Hseg]%seg_app [Hok _]%addrs_ok_app Ha. pose proof (end_addr_ge _ _ Hok).
  eapply load_seg; [done|lia].
Qed.

Definition fits_at (aligned : Z → bool) (n a0 : Z) bs l (s : Z) r : Prop :=
  bs = l ++ (s, false) :: r ∧ n <= s ∧ aligned (end_addr a0 l) = true.

Definition no_fit aligned n a0 bs : Prop := ∀ l s r, ¬ fits_at aligned n a0 bs l s r.

(** The smallest block that fits, and the first of these. *)
Definition best_fit aligned n a0 bs l s r : Prop :=
  fits_at aligned n a0 bs l s r ∧
  ∀ l' s' r', fits_at aligned n a0 bs l' s' r' →
    s <= s' ∧ ((length l' < length l)%nat → s < s').

Definition found aligned n a0 bs (best : Z) : Prop :=
  (best = 0 ∧ no_fit aligned n a0 bs) ∨
  (∃ l s r, best_fit aligned n a0 bs l s r ∧ best = end_addr a0 l).

Lemma fits_at_snoc aligned n a0 bs s1 u1 l s r :
  fits_at aligned n a0 (bs ++ [(s1, u1)]) l s r ↔
  (∃ r', r = r' ++ [(s1, u1)] ∧ fits_at aligned n a0 bs l s r') ∨
  (l = bs ∧ r = [] ∧ s = s1 ∧ u1 = false ∧ n <= s1 ∧ aligned (end_addr a0 bs) = true).
Proof.
  unfold fits_at. split.
  - intros (Heq & Hn & Hal). destruct r as [|x r' _] using rev_ind.
    + apply app_inj_tail in Heq as [-> [= -> ->]]. right. done.
    + left. exists r'. rewrite app_comm_cons, app_assoc in Heq.
      apply app_inj_tail in Heq as [-> <-]. done.
  - intros [(r' & -> & -> & ? & ?)|(-> & -> & -> & -> & ? & ?)]; [|done].
    split; [|done]. by rewrite <-app_assoc.
Qed.

Lemma found_skip aligned n a0 bs s1 u1 best :
  found aligned n a0 bs best →
  ¬ (u1 = false ∧ n <= s1 ∧ aligned (end_addr a0 bs) = true) →
  found aligned n a0 (bs ++ [(s1, u1)]) best.
Proof.
  intros [[-> Hno]|(l & s & r & [Hfit Hmin] & ->)] Hsk; [left|right].
  - split; [done|]. intros l s r [(r' & _ & Hf)|H]%fits_at_snoc; [by eapply Hno|naive_solver].
  - exists l, s, (r ++ [(s1, u1)]). split; [|done]. split; [apply fits_at_snoc; eauto|].
    intros l' s' r' [(r2 & _ & Hf)|H]%fits_at_snoc; [by eapply Hmin|naive_solver].
Qed.

Lemma fits_at_length aligned n a0 bs l s r :
  fits_at aligned n a0 bs l s r → (length l < length bs)%nat.
Proof. intros (-> & _). rewrite length_app. simpl. lia. Qed.

Lemma found_take aligned n a0 bs s1 best :
  found aligned n a0 bs best → n <= s1 → aligned (end_addr a0 bs) = true →
  (∀ l s r, best_fit aligned n a0 bs l s r → s1 < s) →
  found aligned n a0 (bs ++ [(s1, false)]) (end_addr a0 bs).
Proof.
  intros Hf Hn Hal Hlt. right. exists bs, s1, []. split; [|done].
  split; [by apply fits_at_snoc; right|].
  intros l' s' r' [(r2 & _ & Hf')|(-> & _ & -> & _)]%fits_at_snoc; [|lia].
  destruct Hf as [[-> Hno]|(l & s & r & Hb & ->)]; [by destruct (Hno _ _ _ Hf')|].
  pose proof (Hlt _ _ _ Hb). apply Hb in Hf'. lia.
Qed.

Lemma found_keep aligned n a0 bs l s r s1 u1 :
  best_fit aligned n a0 bs l s r → s <= s1 →
  found aligned n a0 (bs ++ [(s1, u1)]) (end_addr a0 l).
Proof.
  intros [Hfit Hmin] Hle. right. exists l, s, (r ++ [(s1, u1)]). split; [|done].
  split; [apply fits_at_snoc; eauto|].
  intros l' s' r' [(r2 & _ & Hf)|(-> & _ & -> & _)]%fits_at_snoc; [by eapply Hmin|].
  apply fits_at_length in Hfit. split; [done|lia].
Qed.

Lemma find_loop_ok fuel h aligned n a0 bs todo best :
  seg h 0 a0 (bs ++ todo) 0 → addrs_ok a0 (bs ++ todo) → 0 < a0 →
  (length todo <= fuel)%nat → found aligned n a0 bs best →
  ∃ best', find_loop fuel h aligned n (first_or 0 (end_addr a0 bs) todo) best = Ok best' ∧
           found aligned n a0 (bs ++ todo) best'.
Proof.
  intros Hseg Hok Ha. revert fuel bs best Hseg Hok.
  induction todo as [|[s u] todo IH]; intros fuel bs best Hseg Hok Hfuel Hf; simpl first_or.
  { rewrite app_nil_r. exists best. by destruct fuel. }
  destruct fuel as [|fuel]; [simpl in Hfuel; lia|]. cbn [find_loop].
  pose proof (load_mid _ _ _ _ _ _ _ Hseg Hok Ha) as Hld.
  pose proof (proj1 (addrs_ok_app _ _ _) Hok) as [Hok1 _].
  pose proof (end_addr_ge _ _ Hok1). decide_Z. rewrite Hld. cbn [mbind result_bind].
  assert (bs ++ (s, u) :: todo = (bs ++ [(s, u)]) ++ todo) as Happ by (by rewrite <-app_assoc).
  assert (∀ b, found aligned n a0 (bs ++ [(s, u)]) b → ∃ best',
    find_loop fuel h aligned n (first_or 0 (end_addr a0 bs + SB + s) todo) b = Ok best' ∧
    found aligned n a0 (bs ++ (s, u) :: todo) best') as Hnext.
  { intros b Hb. rewrite Happ.
    replace (end_addr a0 bs + SB + s) with (end_addr a0 (bs ++ [(s, u)]))
      by (by rewrite end_addr_app).
    apply IH; [by rewrite <-Happ|by rewrite <-Happ|simpl in Hfuel; lia|done]. }
  cbn. destruct (_ && _ && _) eqn:Hc.
  2: { apply Hnext, found_skip; [done|]. intros (-> & Hn & Hal). rewrite Hal in Hc.
       revert Hc. by decide_Z. }
  apply andb_true_iff in Hc as [[Hn%Z.leb_le Hal]%andb_true_iff Hu%negb_true_iff]. subst u.
  pose proof Hf as [[-> Hno]|(l & sb & r & Hbest & ->)].
  - cbn. apply Hnext. eapply found_take; [done..|]. intros l s' r [Hfit _].
    by destruct (Hno _ _ _ Hfit).
  - pose proof Hbest as [(Hbs & _) _]. rewrite Hbs, <-app_assoc in Hseg, Hok.
    pose proof (load_mid _ _ _ _ _ _ _ Hseg Hok Ha) as Hlb.
    apply addrs_ok_app in Hok as [Hokl _]. pose proof (end_addr_ge _ _ Hokl).
    decide_Z. rewrite Hlb. cbn. apply Hnext. destruct (Z.ltb_spec s sb).
    + eapply found_take; [done..|]. intros l' s' r' Hb'.
      destruct (proj2 Hb' l sb r); [apply Hbest|]. destruct (proj2 Hbest l' s' r'); [apply Hb'|]. lia.
    + by eapply found_keep.
Qed.

Lemma find_ok limit z bs aligned n :
  inv limit z bs →
  ∃ best, find_loop (fuel_for (heap z)) (heap z) aligned n (head_ z) 0 = Ok best ∧
          found aligned n (head_ z) bs best.
Proof.
  intros [Hh Hok _ _ _ Hne Hseg]. pose proof (seg_size _ _ _ _ _ Hseg Hok).
  destruct (find_loop_ok (fuel_for (heap z)) (heap z) aligned n (head_ z) [] bs 0)
    as (best & E & F); [done..|unfold fuel_for; lia| |].
  { left. split; [done|]. intros l s r (Heq & _). by destruct l. }
  exists best. split; [|done]. by destruct bs.
Qed.

Lemma found_loop_ok fuel h block a0 bs todo b :
  seg h 0 a0 (bs ++ todo) 0 → addrs_ok a0 (bs ++ todo) → 0 < a0 →
  (length todo <= fuel)%nat →
  ∃ b', found_loop fuel h block (first_or 0 (end_addr a0 bs) todo) b = Ok b' ∧
        (b' = true ↔ b = true ∨ ∃ l x r, todo = l ++ x :: r ∧ block = end_addr a0 (bs ++ l)).
Proof.
  intros Hseg Hok Ha. revert fuel bs b Hseg Hok.
  induction todo as [|[s u] todo IH]; intros fuel bs b Hseg Hok Hfuel; simpl first_or.
  { exists b. split; [by destruct fuel|]. split; [by left|].
    intros [?|(l & x & r & Heq & _)]; [done|]. by destruct l. }
  destruct fuel as [|fuel]; [simpl in Hfuel; lia|]. cbn [found_loop].
  pose proof (load_mid _ _ _ _ _ _ _ Hseg Hok Ha) as Hld.
  pose proof (proj1 (addrs_ok_app _ _ _) Hok) as [Hok1 _].
  pose proof (end_addr_ge _ _ Hok1). decide_Z. rewrite Hld. cbn.
  assert (bs ++ (s, u) :: todo = (bs ++ [(s, u)]) ++ todo) as Happ by (by rewrite <-app_assoc).
  replace (end_addr a0 bs + SB + s) with (end_addr a0 (bs ++ [(s, u)]))
    by (by rewrite end_addr_app).
  destruct (IH fuel (bs ++ [(s, u)]) (b || (end_addr a0 bs =? block))) as (b' & -> & Hb');
    [by rewrite <-Happ|by rewrite <-Happ|simpl in Hfuel; lia|].
  exists b'. split; [done|]. rewrite Hb'. rewrite orb_true_iff, Z.eqb_eq. split.
  - intros [[?|<-]|(l & x & r & -> & ->)]; [by left| |]; right.
    + exists [], (s, u), todo. by rewrite app_nil_r.
    + exists ((s, u) :: l), x, r. by rewrite <-app_assoc.
  - intros [?|(l & x & r & Heq & ->)]; [by left; left|].
    destruct l as [|y l]; simplify_eq/=; [left; right; by rewrite app_nil_r|].
    right. exists l, x, r. by rewrite <-app_assoc.
Qed.

(** ** malloc *)
Definition rounded (n : Z) : Z :=
  if n <=? 2 ^ W - 4 then (n + 3) / 4 * 4 else 2 ^ W - 4.

Lemma pow2W_mod4 : 2 ^ W `mod` 4 = 0.
Proof. destruct HW as [-> | ->]; reflexivity. Qed.

Lemma round_up_ok n :
  fits W n →
  round_up_block_size n = Ok (rounded n) ∧ fits W (rounded n) ∧ rounded n `mod` 4 = 0 ∧
  (n <= 2 ^ W - 4 → n <= rounded n < n + 4).
Proof.
  unfold fits. intros Hn. pose proof pow2W_mod4 as H4.
  assert (2 ^ 32 <= 2 ^ W) by (apply Z.pow_le_mono_r; lia).
  unfold round_up_block_size, rounded, ALIGN, SIZE_MAX.
  pose proof (Z.div_mod (2 ^ W) 4 ltac:(lia)) as Hd4. rewrite H4 in Hd4.
  destruct (Z.leb_spec n (2 ^ W - 4)).
  - rewrite (uwrap_small W (n + 4 - 1)) by (unfold fits; lia).
    replace (n + 4 - 1) with (n + 3) by lia.
    pose proof (Z.div_mod (n + 3) 4 ltac:(lia)).
    pose proof (Z.mod_pos_bound (n + 3) 4 ltac:(lia)).
    rewrite uwrap_small by (unfold fits; lia). decide_Z.
    split_and!; try lia; [done|]. apply Z_mod_mult.
  - assert (uwrap W (n + 4 - 1) / 4 = 0) as ->.
    { unfold uwrap. replace (n + 4 - 1) with (n + 3 - 2 ^ W + 1 * 2 ^ W) by lia.
      rewrite Z_mod_plus_full, Z.mod_small by lia. apply Z.div_small. lia. }
    change (0 * 4) with 0. rewrite uwrap_small by (unfold fits; lia). decide_Z.
    assert ((2 ^ W - 4) `mod` 4 = 0) as Hm.
    { replace (2 ^ W - 4) with ((2 ^ W / 4 - 1) * 4) by lia. apply Z_mod_mult. }
    replace (2 ^ W - 1 - 3) with (2 ^ W - 4) by lia. rewrite Hm.
    split_and!; (done || lia).
Qed.

Lemma coalesced_weaken pf bs : coalesced true bs → coalesced pf bs.
Proof. destruct bs as [|[s u] bs]; simpl; [done|]. naive_solver. Qed.

(** Replacing the blocks from some point on, by stores at or above it. *)
Lemma inv_replace limit z l x y h' :
  inv limit z (l ++ x) → x ≠ [] → y ≠ [] →
  (∀ k, k < end_addr (head_ z) l → h' !! k = heap z !! k) →
  seg h' (last_or 0 (head_ z) l) (end_addr (head_ z) l) y 0 →
  addrs_ok (end_addr (head_ z) l) y →
  coalesced (last_free false l) y →
  end_addr (end_addr (head_ z) l) y = end_addr (end_addr (head_ z) l) x →
  inv limit (with_heap z h') (l ++ y).
Proof.
  intros [Hh Hok Hco Hlim Hr Hne Hseg] Hx Hy Hk Hsy Hoky Hcoy Hend.
  apply addrs_ok_app in Hok as [Hokl Hokx]. apply coalesced_app in Hco as [Hcol _].
  rewrite end_addr_app in Hlim. apply seg_app in Hseg as [Hsl _].
  constructor; simpl; [done| | | |done| |].
  - by apply addrs_ok_app.
  - by apply coalesced_app.
  - by rewrite end_addr_app, Hend.
  - by destruct l, y.
  - apply seg_app. split; [|done].
    replace (first_or 0 (end_addr (head_ z) l) y) with (first_or 0 (end_addr (head_ z) l) x)
      by (by destruct x, y).
    eapply seg_ext, Hsl; [done|]. intros k Hk'. apply Hk. lia.
Qed.

Lemma inv_mid limit z l s u r :
  inv limit z (l ++ (s, u) :: r) →
  0 < end_addr (head_ z) l ∧ addrs_ok (end_addr (head_ z) l) ((s, u) :: r) ∧
  seg (heap z) (last_or 0 (head_ z) l) (end_addr (head_ z) l) ((s, u) :: r) 0 ∧
  coalesced (last_free false l) ((s, u) :: r) ∧
  end_addr (end_addr (head_ z) l) ((s, u) :: r) = limit ∧
  end_addr (head_ z) l + SB + s <= limit.
Proof.
  intros [Hh Hok Hco Hlim Hr Hne Hseg].
  apply addrs_ok_app in Hok as [Hokl Hokx]. apply coalesced_app in Hco as [_ Hcox].
  rewrite end_addr_app in Hlim. apply seg_app in Hseg as [_ Hsx].
  pose proof (end_addr_ge _ _ Hokl). destruct Hokx as (? & ? & Hokr) eqn:E.
  pose proof (end_addr_ge _ _ Hokr). simpl in Hlim. split_and!; try done; lia.
Qed.

(** Splitting a block of the heap and setting its [inuse] flag to [u']. *)
Lemma set_inuse_seg h p a s u bs u' :
  seg h p a ((s, u) :: bs) 0 → addrs_ok a ((s, u) :: bs) → 0 < a →
  ∃ h', set_inuse h a u' = Ok h' ∧ seg h' p a ((s, u') :: bs) 0 ∧
        ∀ k, k ≠ a → h' !! k = h !! k.
Proof.
  pose proof SB_bounds. intros Hseg Hok Ha. unfold set_inuse.
  erewrite update_ok by by eapply load_seg. eexists. split; [done|]. cbn [prev next size].
  destruct Hseg as [_ Hr], Hok as (_ & Hs & Hokr).
  split; [split; [by rewrite lookup_insert_eq|]|].
  - eapply seg_ext, Hr; [done|]. intros k Hk. rewrite lookup_insert_ne; [done|lia].
  - intros k Hk. by rewrite lookup_insert_ne.
Qed.

Lemma split_cons n s u r :
  ∃ s1 r1, split_blocks n s u r = (s1, u) :: r1 ∧ (n <= s → n <= s1) ∧
           ∀ u', split_blocks n s u' r = (s1, u') :: r1.
Proof.
  unfold split_blocks. case_Z; [|by exists s, r].
  destruct r as [|[sf [|]] r]; eexists _, _; (split; [done|split; [lia|done]]).
Qed.

(** Splitting a free block and marking it used. *)
Lemma alloc_seg h p a s r n :
  seg h p a ((s, false) :: r) 0 → addrs_ok a ((s, false) :: r) → 0 < a →
  0 <= n <= s → n `mod` 4 = 0 → end_addr a ((s, false) :: r) < 2 ^ W →
  ∃ h1 h2, consider_splitting_block h a n = Ok h1 ∧ set_inuse h1 a true = Ok h2 ∧
    seg h2 p a (split_blocks n s true r) 0 ∧ ∀ k, k < a → h2 !! k = h !! k.
Proof.
  intros Hseg Hok Ha Hn Hn4 Hend.
  destruct (split_ok h p a s false n r Hseg Hok Ha Hn Hn4 Hend) as (h1 & E1 & S1 & K1).
  destruct (split_cons n s false r) as (s1 & r1 & Hsp & _ & Hsp').
  pose proof (split_addrs a n s false r Hok ltac:(lia) Hn4) as Hok1. rewrite Hsp in S1, Hok1.
  destruct (set_inuse_seg h1 _ a s1 false r1 true S1 Hok1 Ha) as (h2 & E2 & S2 & K2).
  exists h1, h2. split_and!; [done..|by rewrite Hsp'|].
  intros k Hk. rewrite K2 by lia. by apply K1.
Qed.

Lemma split_nonempty n s u r : split_blocks n s u r ≠ [].
Proof. unfold split_blocks. by case_match. Qed.

Lemma alloc_at limit z l s r n :
  inv limit z (l ++ (s, false) :: r) → 0 <= n <= s → n `mod` 4 = 0 →
  ∃ h1 h2, consider_splitting_block (heap z) (end_addr (head_ z) l) n = Ok h1 ∧
    set_inuse h1 (end_addr (head_ z) l) true = Ok h2 ∧
    inv limit (with_heap z h2) (l ++ split_blocks n s true r).
Proof.
  intros Hinv Hn Hn4. pose proof (inv_mid _ _ _ _ _ _ Hinv) as (Ha & Hok & Hseg & Hco & Hlim & _).
  set (a := end_addr (head_ z) l) in *.
  destruct (alloc_seg (heap z) _ a s r n Hseg Hok Ha Hn Hn4) as (h1 & h2 & E1 & E2 & S2 & K2).
  { rewrite Hlim. apply Hinv. }
  exists h1, h2. split_and!; [done..|]. eapply inv_replace; [exact Hinv|done| |exact K2|done| | |].
  - apply split_nonempty.
  - apply split_addrs; [|lia|done]. by destruct Hok as (? & ? & ?); split_and!.
  - apply split_coalesced. destruct Hco as [_ Hco]. split; [done|by apply coalesced_weaken].
  - by rewrite split_end.
Qed.

Lemma malloc_ok limit z bs n :
  inv limit z bs → fits W n →
  ∃ ptr z' bs', malloc z n = Ok (ptr, z') ∧ inv limit z' bs' ∧
    ((ptr = 0 ∧ z' = z ∧ bs' = bs ∧ no_fit (λ _, true) (rounded n) (head_ z) bs) ∨
     (∃ l s r, best_fit (λ _, true) (rounded n) (head_ z) bs l s r ∧
               ptr = end_addr (head_ z) l + SB ∧
               bs' = l ++ split_blocks (rounded n) s true r ∧
               head_ z' = head_ z ∧ bytes z' = bytes z)).
Proof.
  intros Hinv Hn. pose proof SB_bounds. destruct (round_up_ok n Hn) as (Er & Hfit & H4 & _).
  unfold malloc, find_best_fit. rewrite Er. cbn [mbind result_bind].
  destruct (find_ok limit z bs (λ _, true) (rounded n) Hinv) as (best & -> & Hf). cbn.
  destruct Hf as [[-> Hno]|(l & s & r & Hb & ->)].
  { exists 0, z, bs. split_and!; [done..|]. by left. }
  pose proof Hb as [(Hbs & Hle & _) _]. subst bs.
  pose proof (inv_mid _ _ _ _ _ _ Hinv) as (Ha & _ & _ & _ & _ & Hend). decide_Z.
  destruct (alloc_at limit z l s r (rounded n) Hinv) as (h1 & h2 & -> & E2 & Hinv2);
    [unfold fits in Hfit; lia|done|]. cbn. rewrite E2. cbn.
  pose proof (inv_range _ _ _ Hinv). destruct Hinv as [_ Hok _ _ _ _ _].
  apply addrs_ok_app in Hok as [_ (_ & Hs & _)].
  rewrite uwrap_small by (unfold fits; lia).
  eexists _, _, _. split_and!; [done..|]. right. exists l, s, r. by split_and!.
Qed.

(** ** free *)
Definition free_blocks l (s : Z) r : list blk :=
  match last l with
  | Some (sp, false) => removelast l ++ merge_next (sp + SB + s) false r
  | _ => l ++ merge_next s false r
  end.

Lemma last_or_snoc p a l s u : last_or p a (l ++ [(s, u)]) = end_addr a l.
Proof. revert p a. induction l as [|[s' u'] l IH]; intros p a; simpl; [done|apply IH]. Qed.

Lemma last_free_snoc pf l s u : last_free pf (l ++ [(s, u)]) = negb u.
Proof. revert pf. induction l as [|[s' u'] l IH]; intros pf; simpl; [done|apply IH]. Qed.

Lemma merge_next_end a s u r : end_addr a (merge_next s u r) = end_addr a ((s, u) :: r).
Proof.
  destruct r as [|[sf [|]] r]; simpl; [done..|]. f_equal. lia.
Qed.

Lemma merge_next_addrs a s u r :
  addrs_ok a ((s, u) :: r) → addrs_ok a (merge_next s u r).
Proof.
  pose proof SB_bounds.
  destruct r as [|[sf [|]] r]; simpl; [done..|]. intros (? & ? & ? & ? & ?).
  split_and!; [done|lia|]. by replace (a + SB + (s + SB + sf)) with (a + SB + s + SB + sf) by lia.
Qed.

Lemma merge_next_coalesced s r :
  coalesced false r → coalesced false (merge_next s false r).
Proof.
  destruct r as [|[sf [|]] r]; simpl; [done| |]; naive_solver.
Qed.

Lemma merge_next_nonempty s u r : merge_next s u r ≠ [].
Proof. by destruct r as [|[sf [|]] r]. Qed.

(** Walking the heap finds exactly the addresses of the blocks. *)
Lemma found_ok limit z bs block :
  inv limit z bs →
  ∃ b, found_loop (fuel_for (heap z)) (heap z) block (head_ z) false = Ok b ∧
       (b = true ↔ ∃ l x r, bs = l ++ x :: r ∧ block = end_addr (head_ z) l).
Proof.
  intros [Hh Hok _ _ _ Hne Hseg]. pose proof (seg_size _ _ _ _ _ Hseg Hok).
  destruct (found_loop_ok (fuel_for (heap z)) (heap z) block (head_ z) [] bs false)
    as (b & E & F); [done..|unfold fuel_for; lia|].
  exists b. split; [by destruct bs|]. rewrite F. naive_solver.
Qed.

(** Freeing, once the block has been found and its flag cleared: [a] is its address,
    [sp] the size of a free block right before it. *)
Lemma free_tail_ok h a sp s r :
  ∀ p, seg h p a ((sp, false) :: (s, false) :: r) 0 →
  addrs_ok a ((sp, false) :: (s, false) :: r) → 0 < a →
  end_addr a ((sp, false) :: (s, false) :: r) < 2 ^ W →
  ∃ h1 h2, absorb h a (a + SB + sp) = Ok h1 ∧
    merge_following h1 a (first_or 0 (a + SB + sp + SB + s) r) = Ok h2 ∧
    seg h2 p a (merge_next (sp + SB + s) false r) 0 ∧ ∀ k, k < a → h2 !! k = h !! k.
Proof.
  pose proof SB_bounds. intros p Hseg Hok Ha Hend.
  destruct (absorb_ok h p a sp false s false r) as (h1 & E1 & S1 & K1); [done..|].
  pose proof Hok as (? & ? & ? & ? & Hokr).
  assert (a + SB + (sp + SB + s) = a + SB + sp + SB + s) as He by lia.
  destruct (merge_following_ok h1 p a (sp + SB + s) false r) as (h2 & E2 & S2 & K2);
    [done| |done|simpl; simpl in Hend; by rewrite He|].
  { split_and!; [done|lia|by rewrite He]. }
  rewrite He in E2. exists h1, h2. split_and!; [done..|].
  intros k Hk. rewrite K2 by done. by apply K1.
Qed.

Lemma free_ok limit z l s r :
  inv limit z (l ++ (s, true) :: r) →
  ∃ z', free z (end_addr (head_ z) l + SB) = Ok z' ∧
        inv limit z' (free_blocks l s r) ∧ head_ z' = head_ z ∧ bytes z' = bytes z.
Proof.
  pose proof SB_bounds as HSB. intros Hinv. pose proof (inv_range _ _ _ Hinv) as Hlt.
  pose proof (inv_mid _ _ _ _ _ _ Hinv) as (Ha & Hok & Hseg & Hco & Hlim & Hend).
  set (a := end_addr (head_ z) l) in *. pose proof Hok as (Hal & Hs & Hokr).
  unfold free. decide_Z. replace (a + SB - SB) with a by lia.
  rewrite (uwrap_small W a) by (unfold fits; lia).
  destruct (found_ok limit z _ a Hinv) as (b & -> & Hb). cbn [mbind result_bind].
  replace b with true by (symmetry; apply Hb; by exists l, (s, true), r).
  cbn [assert_then]. rewrite (load_seg _ _ a s true r 0 Hseg Ha).
  cbn [mbind result_bind assert_then inuse prev next].
  destruct (set_inuse_seg _ _ a s true r false Hseg Hok Ha) as (h1 & -> & S1 & K1).
  cbn [mbind result_bind].
  destruct Hco as [_ Hcor].
  assert (coalesced false (merge_next s false r)) as Hcom by (by apply merge_next_coalesced).
  (* the block before is in use, or there is none *)
  assert (last_free false l = false →
    ∃ h2, merge_following h1 a (first_or 0 (a + SB + s) r) = Ok h2 ∧
          inv limit (with_heap z h2) (l ++ merge_next s false r)) as Hplain.
  { intros Hlf. destruct (merge_following_ok h1 _ a s false r S1) as (h2 & E2 & S2 & K2);
      [done|done|simpl in *; lia|].
    exists h2. split; [done|]. eapply inv_replace; [exact Hinv|done| | | | | |].
    - apply merge_next_nonempty.
    - intros k Hk. fold a in Hk. rewrite K2 by done. apply K1. lia.
    - done.
    - by apply merge_next_addrs.
    - by rewrite Hlf.
    - by rewrite merge_next_end. }
  unfold free_blocks. destruct l as [|[sp up] l' _] using rev_ind.
  { destruct (Hplain eq_refl) as (h2 & E2 & H2). cbn [last_or]. rewrite Z.eqb_refl.
    cbn [mbind result_bind mret result_ret]. rewrite E2. by eexists. }
  rewrite last_snoc, last_or_snoc in *. rewrite last_free_snoc in Hplain.
  rewrite <-app_assoc in Hinv. simpl in Hinv.
  pose proof (inv_mid _ _ _ _ _ _ Hinv) as (Hap & Hokp & Hsegp & Hcop & Hlimp & Hendp).
  set (ap := end_addr (head_ z) l') in *.
  assert (a = ap + SB + sp) as Hae by (unfold a; by rewrite end_addr_app).
  decide_Z. unfold load at 1. decide_Z.
  rewrite K1 by (destruct Hokp as (_ & ? & _); lia). destruct Hsegp as [Hpl Hsegb].
  rewrite Hpl. cbn [deref mbind result_bind inuse]. destruct up.
  { destruct (Hplain eq_refl) as (h2 & E2 & H2). cbn [mbind result_bind mret result_ret].
    rewrite E2. by eexists. }
  rewrite removelast_last.
  assert (seg h1 (last_or 0 (head_ z) l') ap ((sp, false) :: (s, false) :: r) 0) as Hs1.
  { split; [|by rewrite <-Hae]. rewrite K1 by (destruct Hokp as (_ & ? & _); lia). done. }
  destruct (free_tail_ok h1 ap sp s r _ Hs1) as (h2 & h3 & E2 & E3 & S3 & K3);
    [done|done|simpl in *; lia|].
  rewrite <-Hae in E2, E3. rewrite E2. cbn [mbind result_bind mret result_ret].
  rewrite E3. eexists. split; [done|].
  split; [|done]. eapply inv_replace; [exact Hinv|done| | | | | |].
  - apply merge_next_nonempty.
  - intros k Hk. fold ap in Hk. rewrite K3 by done. apply K1.
    destruct Hokp as (_ & ? & _). lia.
  - done.
  - apply merge_next_addrs. destruct Hokp as (? & ? & ? & ? & ?).
    split_and!; [done|lia|]. fold ap.
    by replace (ap + SB + (sp + SB + s)) with (ap + SB + sp + SB + s) by lia.
  - destruct Hcop as [Hpf _]. destruct (last_free false l'); [by specialize (Hpf eq_refl)|].
    by apply merge_next_coalesced.
  - rewrite merge_next_end. simpl. f_equal. lia.
Qed.

(** The block a pointer denotes, when the walk finds it. *)
Lemma found_block limit z bs ptr :
  inv limit z bs → fits W ptr →
  ∃ b, found_loop (fuel_for (heap z)) (heap z) (uwrap W (ptr - SB)) (head_ z) false = Ok b ∧
       (b = true ↔ ∃ l s u r, bs = l ++ (s, u) :: r ∧ ptr = end_addr (head_ z) l + SB).
Proof.
  pose proof SB_bounds as HSB. intros Hinv Hp. unfold fits in Hp.
  destruct (found_ok limit z bs (uwrap W (ptr - SB)) Hinv) as (b & E & Hb).
  exists b. split; [done|]. rewrite Hb. clear b E Hb. pose proof (inv_range _ _ _ Hinv).
  split; intros H'.
  - destruct H' as (l & [s u] & r & -> & Heq). exists l, s, u, r. split; [done|].
    pose proof (inv_mid _ _ _ _ _ _ Hinv) as (? & (_ & ? & _) & _ & _ & _ & ?).
    rewrite <-Heq. unfold uwrap in *.
    destruct (Z.lt_ge_cases ptr SB).
    + replace (ptr - SB) with (ptr - SB + 2 ^ W + (-1) * 2 ^ W) in Heq by lia.
      rewrite Z_mod_plus_full, Z.mod_small in Heq by lia. lia.
    + rewrite Z.mod_small by lia. lia.
  - destruct H' as (l & s & u & r & -> & ->). exists l, (s, u), r. split; [done|].
    pose proof (inv_mid _ _ _ _ _ _ Hinv) as (? & (_ & ? & _) & _ & _ & _ & ?).
    rewrite uwrap_small; [lia|]. unfold fits. lia.
Qed.

Lemma free_bad limit z bs ptr :
  inv limit z bs → fits W ptr → ptr ≠ 0 →
  (∀ l s r, bs = l ++ (s, true) :: r → ptr ≠ end_addr (head_ z) l + SB) →
  free z ptr = Fault AssertionFailed.
Proof.
  pose proof SB_bounds as HSB. intros Hinv Hp H0 Hno. unfold free. decide_Z.
  destruct (found_block limit z bs ptr Hinv Hp) as (b & -> & Hb). cbn [mbind result_bind].
  destruct b; [|done]. destruct (proj1 Hb eq_refl) as (l & s & u & r & -> & Heq).
  pose proof (inv_mid _ _ _ _ _ _ Hinv) as (Ha & (_ & ? & _) & Hseg & _ & _ & ?).
  pose proof (inv_range _ _ _ Hinv). cbn [assert_then].
  rewrite Heq, uwrap_small by (unfold fits; lia).
  replace (end_addr (head_ z) l + SB - SB) with (end_addr (head_ z) l) by lia.
  rewrite (load_seg _ _ _ _ _ _ _ Hseg Ha). cbn. destruct u; [|done].
  by destruct (Hno l s r eq_refl).
Qed.

(** ** memalign *)
Lemma memalign_split limit z l s r n align :
  inv limit z (l ++ (s, false) :: r) → 0 <= n → n `mod` 4 = 0 → 0 < align →
  align `mod` 4 = 0 → n + SB + align <= s →
  let best := end_addr (head_ z) l in
  let delta := (best + SB + SB) `mod` align in
  let m := align - delta in
  ∃ h1 h2 h3,
    insert_after (heap z) best (best + SB + m) (s - m - SB) m = Ok h1 ∧
    consider_splitting_block h1 (best + SB + m) n = Ok h2 ∧
    set_inuse h2 (best + SB + m) true = Ok h3 ∧
    (best + SB + m + SB) `mod` align = 0 ∧
    inv limit (with_heap z h3)
      (l ++ (m, false) :: split_blocks n (s - m - SB) true r).
Proof.
  pose proof SB_bounds as [HSB HSB4]. intros Hinv Hn Hn4 Hal0 Hal4 Hs best delta m.
  pose proof (inv_mid _ _ _ _ _ _ Hinv) as (Ha & Hok & Hseg & Hco & Hlim & _).
  pose proof (inv_range _ _ _ Hinv). fold best in Ha, Hok, Hseg, Hlim.
  pose proof (Z.mod_pos_bound (best + SB + SB) align Hal0) as Hdl. fold delta in Hdl.
  pose proof Hok as (Hb4 & _ & Hokr). unfold ALIGN in Hb4.
  assert (delta `mod` 4 = 0) as Hd4.
  { unfold delta. apply Z.mod_divide in Hal4 as [q Hq]; [|lia]. subst align.
    rewrite Z.mul_comm, Z.rem_mul_r by lia.
    replace (4 * _) with (((best + SB + SB) / 4) `mod` q * 4) by lia.
    rewrite Z_mod_plus_full, Z.mod_mod by lia. by repeat apply mod4_add. }
  assert (m `mod` 4 = 0) as Hm4.
  { unfold m. by rewrite Zminus_mod, Hal4, Hd4. }
  destruct (insert_after_ok (heap z) _ best s false m r Hseg Hok Ha) as (h1 & E1 & S1 & K1);
    [unfold m; lia..|].
  assert (best + SB + m + SB + (s - m - SB) = best + SB + s) as He by lia.
  pose proof S1 as [Hb1 Hs1].
  assert (addrs_ok (best + SB + m) ((s - m - SB, false) :: r)) as Hok1.
  { split_and!; [unfold ALIGN; apply mod4_add; [by apply mod4_add|done]|unfold m; lia|by rewrite He]. }
  destruct (alloc_seg h1 best (best + SB + m) (s - m - SB) r n Hs1 Hok1)
    as (h2 & h3 & E2 & E3 & S3 & K3); [unfold m; lia|unfold m; lia|done| |].
  { simpl. rewrite He. simpl in Hlim. lia. }
  exists h1, h2, h3. split_and!; [done..| |].
  { unfold m. replace (best + SB + (align - delta) + SB) with (best + SB + SB - delta + 1 * align) by lia.
    rewrite Z_mod_plus_full. unfold delta. rewrite Zminus_mod_idemp_r, Z.sub_diag. done. }
  destruct (split_cons n (s - m - SB) true r) as (s1 & r1 & Hsp & _).
  eapply inv_replace; [exact Hinv|done|done| | | | |]; fold best.
  - intros k Hk. rewrite K3 by (unfold m; lia). by apply K1.
  - split; [rewrite K3 by (unfold m; lia); rewrite Hb1; by rewrite Hsp|done].
  - split_and!; [done|unfold m; lia|]. apply split_addrs; [|done..].
    by destruct Hok1 as (? & ? & ?); split_and!.
  - destruct Hco as [Hpf Hco]. split; [done|]. apply split_coalesced.
    split; [done|by apply coalesced_weaken].
  - simpl. rewrite split_end. simpl. by rewrite He.
Qed.

(** ** The allocations of a heap

    What a client of [MemoryAllocator] can see: the payload addresses it has been
    given, each with the number of bytes it may use. *)
Fixpoint allocs (a : Z) bs : list (Z * Z) :=
  match bs with
  | [] => []
  | (s, u) :: bs =>
      (if u then [(a + SB, s)] else []) ++ allocs (a + SB + s) bs
  end.

Lemma allocs_app a l r : allocs a (l ++ r) = allocs a l ++ allocs (end_addr a l) r.
Proof.
  revert a. induction l as [|[s u] l IH]; intros a; simpl; [done|].
  rewrite IH. by rewrite app_assoc.
Qed.

Lemma elem_of_allocs a bs x s :
  (x, s) ∈ allocs a bs ↔ ∃ l r, bs = l ++ (s, true) :: r ∧ x = end_addr a l + SB.
Proof.
  revert a. induction bs as [|[s1 u1] bs IH]; intros a; simpl.
  - rewrite elem_of_nil. split; [done|]. intros (l & r & Heq & _). by destruct l.
  - rewrite elem_of_app, IH. split.
    + intros [Hin|(l & r & -> & ->)].
      * destruct u1; [|by apply elem_of_nil in Hin].
        apply list_elem_of_singleton in Hin as [= -> ->]. by exists [], bs.
      * by exists ((s1, u1) :: l), r.
    + intros (l & r & Heq & ->). destruct l as [|y l]; simplify_eq/=.
      * left. by apply list_elem_of_singleton.
      * right. by exists l, r.
Qed.

Lemma allocs_split a n s r :
  ∃ s1, allocs a (split_blocks n s true r) = (a + SB, s1) :: allocs (a + SB + s) r ∧
        (n <= s → n <= s1 <= s).
Proof.
  pose proof SB_bounds. unfold split_blocks. case_Z; [|by exists s].
  exists n. destruct r as [|[sf [|]] r]; simpl; (split; [|lia]); [done| |].
  - by replace (a + SB + n + SB + (s - n - SB)) with (a + SB + s) by lia.
  - by replace (a + SB + n + SB + (s - n + sf)) with (a + SB + s + SB + sf) by lia.
Qed.

Lemma allocs_merge_free a s r :
  allocs a (merge_next s false r) = allocs (a + SB + s) r.
Proof.
  destruct r as [|[sf [|]] r]; simpl; [done..|]. f_equal. lia.
Qed.

Lemma allocs_free a l s r :
  allocs a (l ++ (s, true) :: r) ≡ₚ (end_addr a l + SB, s) :: allocs a (free_blocks l s r).
Proof.
  rewrite allocs_app. simpl. rewrite <-Permutation_middle. f_equiv. unfold free_blocks.
  destruct l as [|[sp up] l' _] using rev_ind; simpl.
  { by rewrite allocs_merge_free. }
  rewrite last_snoc. destruct up.
  { rewrite (allocs_app a (l' ++ _)), allocs_merge_free. done. }
  rewrite removelast_last, (allocs_app a l' (merge_next _ _ _)), allocs_merge_free.
  rewrite !allocs_app, !end_addr_app. simpl. rewrite app_nil_r.
  by replace (end_addr a l' + SB + (sp + SB + s)) with (end_addr a l' + SB + sp + SB + s) by lia.
Qed.

(** What [malloc] and [memalign] promise: null and nothing changed, or one more
    allocation, of at least [n] bytes, at a multiple of [align]. *)
Definition allocated (limit : Z) z bs (n align ptr : Z) z' : Prop :=
  ∃ bs' s, inv limit z' bs' ∧ ptr ≠ 0 ∧ ptr `mod` align = 0 ∧ n <= s ∧
           allocs (head_ z') bs' ≡ₚ (ptr, s) :: allocs (head_ z) bs.

Lemma aligned_payload limit z l s u r :
  inv limit z (l ++ (s, u) :: r) → (end_addr (head_ z) l + SB) `mod` 4 = 0.
Proof.
  intros Hinv. pose proof (inv_mid _ _ _ _ _ _ Hinv) as (_ & (Hal & _) & _).
  apply mod4_add; [done|apply SB_bounds].
Qed.

Lemma malloc_allocs limit z bs n :
  inv limit z bs → fits W n →
  ∃ ptr z', malloc z n = Ok (ptr, z') ∧
    ((ptr = 0 ∧ z' = z ∧ no_fit (λ _, true) (rounded n) (head_ z) bs) ∨
     (allocated limit z bs (rounded n) 4 ptr z' ∧ head_ z' = head_ z ∧ bytes z' = bytes z)).
Proof.
  pose proof SB_bounds. intros Hinv Hn.
  destruct (malloc_ok limit z bs n Hinv Hn) as (ptr & z' & bs' & E & Hinv' & Hcase).
  exists ptr, z'. split; [done|].
  destruct Hcase as [(-> & -> & _ & Hno)|(l & s & r & [(-> & Hle & _) _] & -> & -> & Hh & Hb)];
    [by left|right]. split; [|done].
  destruct (allocs_split (end_addr (head_ z) l) (rounded n) s r) as (s1 & Ha & Hs1).
  pose proof (inv_mid _ _ _ _ _ _ Hinv) as (? & _).
  eexists _, s1. split; [exact Hinv'|]. split_and!; [lia| |lia|].
  - by eapply aligned_payload.
  - rewrite Hh, !allocs_app, Ha. simpl. by rewrite <-Permutation_middle.
Qed.

Lemma memalign_ok limit z bs n align :
  inv limit z bs → fits W n → 0 < align → align `mod` 4 = 0 →
  rounded n + SB + align < 2 ^ W →
  (no_fit (λ _, true) (rounded n + SB + align) (head_ z) bs ∧
   memalign z n align = Fault NullDereference) ∨
  (∃ ptr z', memalign z n align = Ok (ptr, z') ∧
             allocated limit z bs (rounded n) align ptr z').
Proof.
  pose proof SB_bounds as HSB. intros Hinv Hn Hal0 Hal4 Hov.
  pose proof (inv_range _ _ _ Hinv) as Hlt.
  destruct (round_up_ok n Hn) as (Er & Hfit & H4 & _). unfold fits in Hfit.
  unfold memalign, find_best_fit_aligned, find_best_fit. decide_Z.
  rewrite Er. cbn [mbind result_bind].
  set (ok := λ block, uwrap W (block + SB) `mod` align =? 0).
  destruct (find_ok limit z bs ok (rounded n) Hinv) as (best & -> & Hf). cbn [mbind result_bind].
  destruct Hf as [[-> _]|(l & s & r & [(-> & Hle & Hok) _] & ->)].
  2: { right. pose proof (inv_mid _ _ _ _ _ _ Hinv) as (Ha & _ & _ & _ & _ & Hend). decide_Z.
       destruct (alloc_at limit z l s r (rounded n) Hinv) as (h1 & h2 & -> & E2 & Hinv2);
         [lia|done|]. cbn [mbind result_bind]. rewrite E2. cbn [mbind result_bind].
       unfold ok in Hok. rewrite uwrap_small in * by (unfold fits; lia).
       apply Z.eqb_eq in Hok.
       destruct (allocs_split (end_addr (head_ z) l) (rounded n) s r) as (s1 & Hall & Hs1).
       eexists _, _. split; [done|]. eexists _, s1. split; [exact Hinv2|].
       split_and!; [lia|done|lia|]. simpl.
       rewrite !allocs_app, Hall. simpl. by rewrite <-Permutation_middle. }
  cbn [Z.eqb negb]. unfold MIN_SPLIT_SIZE. rewrite (uwrap_small W (_ + SB + align)) by (unfold fits; lia).
  destruct (find_ok limit z bs (λ _, true) (rounded n + SB + align) Hinv) as (best & -> & Hf).
  cbn [mbind result_bind].
  destruct Hf as [[-> Hno]|(l & s & r & [(-> & Hle & _) _] & ->)]; [left; by split|right].
  pose proof (inv_mid _ _ _ _ _ _ Hinv) as (Ha & _ & Hseg & _ & _ & Hend).
  set (a := end_addr (head_ z) l) in *.
  destruct (memalign_split limit z l s r (rounded n) align Hinv)
    as (h1 & h2 & h3 & E1 & E2 & E3 & Hmod & Hinv3); [lia|done..|]. fold a in E1, E2, E3, Hmod, Hinv3.
  pose proof (Z.mod_pos_bound (a + SB + SB) align Hal0) as Hdl.
  rewrite (uwrap_small W (a + SB)) by (unfold fits; lia).
  rewrite (uwrap_small W (a + SB + SB)) by (unfold fits; lia).
  set (m := align - (a + SB + SB) `mod` align) in *.
  rewrite (uwrap_small W (a + SB + m)) by (unfold fits; lia).
  rewrite (load_seg _ _ _ _ _ _ _ Hseg Ha). cbn [mbind result_bind MallocZone.size].
  replace (a + SB + m - a - SB) with m by lia.
  rewrite (uwrap_small W m) by (unfold fits; lia).
  rewrite (uwrap_small W (s - m - SB)) by (unfold fits; lia).
  rewrite E1. cbn [mbind result_bind]. rewrite E2. cbn [mbind result_bind].
  rewrite E3. cbn [mbind result_bind].
  rewrite (uwrap_small W (a + SB + m + SB)) by (unfold fits; lia).
  rewrite Hmod. cbn.
  destruct (allocs_split (a + SB + m) (rounded n) (s - m - SB) r) as (s1 & Hall & Hs1).
  eexists _, _. split; [done|]. eexists _, s1. split; [exact Hinv3|].
  split_and!; [lia|done|lia|]. simpl. rewrite !allocs_app. simpl. fold a. rewrite Hall.
  replace (a + SB + m + SB + (s - m - SB)) with (a + SB + s) by lia.
  by rewrite <-Permutation_middle.
Qed.

(** ** realloc *)
Lemma resize_at limit z l s r n :
  inv limit z (l ++ (s, true) :: r) → 0 <= n <= s → n `mod` 4 = 0 →
  ∃ h, consider_splitting_block (heap z) (end_addr (head_ z) l) n = Ok h ∧
       inv limit (with_heap z h) (l ++ split_blocks n s true r).
Proof.
  intros Hinv Hn Hn4. pose proof (inv_mid _ _ _ _ _ _ Hinv) as (Ha & Hok & Hseg & Hco & Hlim & _).
  destruct (split_ok (heap z) _ _ s true n r Hseg Hok Ha Hn Hn4) as (h & E & S & K).
  { rewrite Hlim. apply Hinv. }
  exists h. split; [done|]. eapply inv_replace; [exact Hinv|done| |exact K|done| | |].
  - apply split_nonempty.
  - by apply split_addrs; [|lia|].
  - by apply split_coalesced.
  - by rewrite split_end.
Qed.

Lemma absorb_at limit z l s sf r :
  inv limit z (l ++ (s, true) :: (sf, false) :: r) →
  ∃ h, absorb (heap z) (end_addr (head_ z) l) (end_addr (head_ z) l + SB + s) = Ok h ∧
       inv limit (with_heap z h) (l ++ (s + SB + sf, true) :: r).
Proof.
  pose proof SB_bounds. intros Hinv.
  pose proof (inv_mid _ _ _ _ _ _ Hinv) as (Ha & Hok & Hseg & Hco & Hlim & _).
  destruct (absorb_ok (heap z) _ _ s true sf false r Hseg Hok Ha) as (h & E & S & K).
  { rewrite Hlim. apply Hinv. }
  exists h. split; [done|]. eapply inv_replace; [exact Hinv|done|done|exact K|done| | |].
  - destruct Hok as (? & ? & ? & ? & ?). split_and!; [done|lia|].
    by replace (end_addr (head_ z) l + SB + (s + SB + sf))
      with (end_addr (head_ z) l + SB + s + SB + sf) by lia.
  - destruct Hco as (Hpf & _ & Hco). split; [done|by apply coalesced_weaken].
  - simpl. f_equal. lia.
Qed.

Lemma slide_seg h p a sp s r :
  seg h p a ((sp, false) :: (s, true) :: r) 0 →
  addrs_ok a ((sp, false) :: (s, true) :: r) → 0 < a →
  let b := a + SB + sp in
  let following := first_or 0 (b + SB + s) r in
  ∃ h1 h2 h3 h4, set_next h a following = Ok h1 ∧ link_prev h1 following a = Ok h2 ∧
    load h2 b = Ok (mkb a following s true) ∧
    load h2 a = Ok (mkb p following sp false) ∧
    set_size h2 a (s + sp + SB) = Ok h3 ∧ set_inuse h3 a true = Ok h4 ∧
    load h4 b = Ok (mkb a following s true) ∧
    seg h4 p a ((s + sp + SB, true) :: r) 0 ∧ ∀ k, k < a → h4 !! k = h !! k.
Proof.
  pose proof SB_bounds. intros Hseg Hok Ha b following.
  pose proof (load_seg _ _ _ _ _ _ _ Hseg Ha) as Hla. fold b in Hla.
  destruct Hseg as (_ & Hb & Hr), Hok as (_ & Hsp & _ & Hs & Hokr). fold b in Hb, Hr, Hokr.
  assert (a + SB + (s + sp + SB) = b + SB + s) as He by (unfold b; lia).
  unfold set_next. erewrite update_ok by done. cbn [prev next size inuse].
  set (h1 := <[a := _]> h).
  destruct (link_prev_seg h1 b a (b + SB + s) r) as (h2 & E2 & S2 & K2);
    [|done|unfold b; lia|].
  { eapply seg_ext, Hr; [done|]. intros k Hk. unfold h1.
    rewrite lookup_insert_ne; [done|unfold b in Hk; lia]. }
  assert (load h2 b = Ok (mkb a following s true)) as Hlb.
  { unfold load, b. decide_Z. fold b. rewrite K2 by lia. unfold h1.
    rewrite lookup_insert_ne by (unfold b; lia). by rewrite Hb. }
  assert (load h2 a = Ok (mkb p following sp false)) as Hl2.
  { unfold load. decide_Z. rewrite K2 by (unfold b; lia). unfold h1.
    by rewrite lookup_insert_eq. }
  exists h1, h2. unfold set_size, set_inuse. rewrite (update_ok h2 a _ _ Hl2).
  eexists _, _. split; [done|]. split; [done|]. split; [done|]. split; [done|].
  split; [done|]. rewrite (update_ok _ a _ _ (load_insert _ _ _ Ha)).
  split; [done|]. cbn [prev next size]. rewrite insert_insert_eq.
  split; [by rewrite load_insert_ne by (unfold b; lia)|]. split.
  - split; [by rewrite lookup_insert_eq, He|]. rewrite He.
    eapply seg_ext, S2; [done|]. intros k Hk.
    rewrite lookup_insert_ne; [done|unfold b in Hk; lia].
  - intros k Hk. rewrite lookup_insert_ne by lia. rewrite K2 by (unfold b; lia).
    unfold h1. rewrite lookup_insert_ne; [done|lia].
Qed.

(** What [realloc] promises for the allocation [(ptr, s)]: null and nothing changed,
    or that allocation replaced by one of at least [n] bytes. *)
Definition reallocated (limit : Z) z bs (ptr s n ptr' : Z) z' : Prop :=
  ∃ bs' s' A, inv limit z' bs' ∧ ptr' ≠ 0 ∧ ptr' `mod` 4 = 0 ∧ n <= s' ∧
    allocs (head_ z) bs ≡ₚ (ptr, s) :: A ∧ allocs (head_ z') bs' ≡ₚ (ptr', s') :: A.

Lemma reallocated_at limit z l s r l' s' r' n z' :
  inv limit z (l ++ (s, true) :: r) → inv limit z' (l' ++ split_blocks n s' true r') →
  head_ z' = head_ z → n <= s' → 0 < end_addr (head_ z) l' →
  (end_addr (head_ z) l' + SB) `mod` 4 = 0 →
  allocs (head_ z) l' ++ allocs (end_addr (head_ z) l' + SB + s') r'
    = allocs (head_ z) l ++ allocs (end_addr (head_ z) l + SB + s) r →
  reallocated limit z (l ++ (s, true) :: r) (end_addr (head_ z) l + SB) s n
    (end_addr (head_ z) l' + SB) z'.
Proof.
  pose proof SB_bounds. intros Hinv Hinv' Hh Hn Ha H4 Hall.
  destruct (allocs_split (end_addr (head_ z) l') n s' r') as (s1 & E1 & Hs1).
  eexists _, s1, _. split; [exact Hinv'|]. split_and!; [lia|done|lia| |].
  - rewrite allocs_app. simpl. by rewrite <-Permutation_middle.
  - rewrite Hh, allocs_app, E1, <-Permutation_middle. by rewrite Hall.
Qed.

Lemma inv_with_bytes limit z bs m : inv limit z bs → inv limit (with_bytes z m) bs.
Proof. intros [? ? ? ? ? ? ?]. by constructor. Qed.

Lemma rounded_idem n : fits W n → n `mod` 4 = 0 → rounded n = n.
Proof.
  unfold fits, rounded. intros Hn H4. pose proof pow2W_mod4 as Hp.
  pose proof (Z.div_mod n 4 ltac:(lia)). pose proof (Z.div_mod (2 ^ W) 4 ltac:(lia)).
  decide_Z. replace (n + 3) with (3 + n / 4 * 4) by lia.
  rewrite Z.div_add by lia. change (3 / 4) with 0. lia.
Qed.

(** The allocating path of [realloc]. *)
Lemma realloc_move_alloc limit z l s r n new z1 :
  inv limit z (l ++ (s, true) :: r) →
  allocated limit z (l ++ (s, true) :: r) n 4 new z1 → head_ z1 = head_ z →
  let ptr := end_addr (head_ z) l + SB in
  ∃ b z', load (heap z1) (end_addr (head_ z) l) = Ok b ∧ size b = s ∧
    free (with_bytes z1 (copy_bytes (bytes z1) ptr new s)) ptr = Ok z' ∧
    reallocated limit z (l ++ (s, true) :: r) ptr s n new z' ∧
    bytes z' = copy_bytes (bytes z1) ptr new s.
Proof.
  pose proof SB_bounds. intros Hinv (bs1 & s' & Hinv1 & Hnz & H4 & Hn & Hp) Hh ptr.
  assert ((ptr, s) ∈ allocs (head_ z1) bs1) as Hin.
  { rewrite Hp. apply list_elem_of_further, elem_of_allocs. by exists l, r. }
  apply elem_of_allocs in Hin as (l1 & r1 & -> & Hptr). rewrite Hh in Hptr.
  assert (end_addr (head_ z) l1 = end_addr (head_ z) l) as Hl1 by (unfold ptr in *; lia).
  pose proof (inv_mid _ _ _ _ _ _ Hinv1) as (Ha & _ & Hseg & _). rewrite Hh, Hl1 in Ha, Hseg.
  pose proof (inv_with_bytes _ _ _ (copy_bytes (bytes z1) ptr new s) Hinv1) as Hinvb.
  destruct (free_ok limit _ l1 s r1 Hinvb) as (z' & Efree & Hinv' & Hh' & Hb').
  simpl in Efree, Hh', Hb'. rewrite Hh, <-Hptr in Efree.
  eexists _, z'. split; [by eapply load_seg|]. split_and!; [done..| |done].
  exists (free_blocks l1 s r1), s', (allocs (head_ z) l ++ allocs (end_addr (head_ z) l + SB + s) r).
  assert (allocs (head_ z) (l ++ (s, true) :: r) ≡ₚ
    (ptr, s) :: allocs (head_ z) l ++ allocs (end_addr (head_ z) l + SB + s) r) as Hl.
  { rewrite allocs_app. simpl. by rewrite <-Permutation_middle. }
  split_and!; [done..|]. rewrite Hh', Hh in *.
  apply (Permutation_cons_inv (a := (ptr, s))).
  rewrite Hptr at 1. rewrite <-allocs_free, Hp, Hl. by apply perm_swap.
Qed.

Lemma realloc_move_slide limit z l sp s r n ptr :
  inv limit z (l ++ (sp, false) :: (s, true) :: r) → 0 <= n <= s + sp + SB → n `mod` 4 = 0 →
  let a := end_addr (head_ z) l in
  ∃ z', realloc_slide z ptr (a + SB + sp)
          (mkb a (first_or 0 (a + SB + sp + SB + s) r) s true) n = Ok (a + SB, z') ∧
        reallocated limit z (l ++ (sp, false) :: (s, true) :: r) (a + SB + sp + SB) s n (a + SB) z'.
Proof.
  pose proof SB_bounds. intros Hinv Hn Hn4 a. pose proof (inv_range _ _ _ Hinv).
  pose proof (inv_mid _ _ _ _ _ _ Hinv) as (Ha & Hok & Hseg & Hco & Hlim & Hend).
  fold a in Ha, Hok, Hseg, Hlim, Hend. pose proof Hok as (Hal & Hsp & _ & Hs & Hokr).
  pose proof (end_addr_ge _ _ Hokr). simpl in Hlim.
  destruct (slide_seg (heap z) _ a sp s r Hseg Hok Ha)
    as (h1 & h2 & h3 & h4 & E1 & E2 & Lb & La & E3 & E4 & Lb4 & S4 & K4).
  unfold realloc_slide. cbn [next prev]. rewrite E1. cbn [mbind result_bind].
  rewrite E2. cbn [mbind result_bind]. rewrite Lb. cbn [mbind result_bind size].
  rewrite La. cbn [mbind result_bind size]. rewrite (uwrap_small W (s + sp + SB)) by (unfold fits; lia).
  rewrite E3. cbn [mbind result_bind]. rewrite E4. cbn [mbind result_bind].
  rewrite Lb4. cbn [mbind result_bind size].
  assert (a + SB + (s + sp + SB) = a + SB + sp + SB + s) as He by lia.
  assert (inv limit (with_heap z h4) (l ++ (s + sp + SB, true) :: r)) as Hinv4.
  { eapply inv_replace; [exact Hinv|done|done|exact K4|exact S4| | |]; fold a.
    - split_and!; [done|lia|by rewrite He].
    - destruct Hco as (_ & _ & Hco). by split.
    - simpl. by rewrite He. }
  destruct (resize_at limit _ l (s + sp + SB) r n Hinv4 Hn Hn4) as (h5 & E5 & Hinv5).
  simpl in E5. fold a in E5. rewrite E5. cbn [mbind result_bind].
  rewrite uwrap_small by (unfold fits; lia). eexists. split; [done|].
  set (z' := mkz _ h5 _).
  assert (inv limit z' (l ++ split_blocks n (s + sp + SB) true r)) as Hinv'.
  { by apply (inv_with_bytes _ (with_heap (with_heap z h4) h5)). }
  assert (a + SB + sp = end_addr (head_ z) (l ++ [(sp, false)])) as Hea.
  { by rewrite end_addr_app. }
  rewrite Hea. replace (l ++ (sp, false) :: (s, true) :: r)
    with ((l ++ [(sp, false)]) ++ (s, true) :: r) in * by (by rewrite <-app_assoc).
  eapply reallocated_at; [done|exact Hinv'|done|lia|done| |].
  - apply mod4_add; [done|apply SB_bounds].
  - fold a. rewrite <-Hea, allocs_app, He. simpl. by rewrite app_nil_r.
Qed.

Lemma realloc_move_ok limit z l s r n :
  inv limit z (l ++ (s, true) :: r) → fits W n → n `mod` 4 = 0 →
  let a := end_addr (head_ z) l in
  let b := mkb (last_or 0 (head_ z) l) (first_or 0 (a + SB + s) r) s true in
  ∃ ptr' z', realloc_move z (a + SB) a b n = Ok (ptr', z') ∧
    ((ptr' = 0 ∧ z' = z) ∨
     reallocated limit z (l ++ (s, true) :: r) (a + SB) s n ptr' z').
Proof.
  pose proof SB_bounds. intros Hinv Hn Hn4 a b. unfold realloc_move.
  destruct (malloc_allocs limit z _ n Hinv Hn) as (new & z1 & -> & Hcase).
  rewrite rounded_idem in Hcase by done. cbn [mbind result_bind].
  destruct Hcase as [(-> & -> & Hno)|(Hal & Hh & Hb)].
  2: { destruct (realloc_move_alloc limit z l s r n new z1 Hinv Hal Hh)
         as (b1 & z' & Hl & Hsz & Hfr & Hre & _).
       assert (new ≠ 0) by (by destruct Hal as (? & ? & _ & ? & _)). decide_Z.
       fold a in Hl, Hfr, Hre. rewrite Hl. cbn [mbind result_bind]. rewrite Hsz, Hfr.
       eexists _, _. split; [done|]. by right. }
  cbn [Z.eqb negb]. subst b. cbn [prev].
  destruct l as [|[sp up] l' _] using rev_ind.
  { cbn [last_or Z.eqb mbind result_bind mret result_ret]. eexists _, _. split; [done|by left]. }
  rewrite last_or_snoc. rewrite <-app_assoc in Hinv. simpl in Hinv.
  pose proof (inv_mid _ _ _ _ _ _ Hinv) as (Hap & Hokp & Hsegp & _ & _ & Hend).
  pose proof (inv_range _ _ _ Hinv). pose proof (inv_mid _ _ _ _ _ _ Hinv) as (_ & _ & _ & _ & Hlim & _).
  set (ap := end_addr (head_ z) l') in *.
  assert (a = ap + SB + sp) as Hae by (unfold a; by rewrite end_addr_app).
  decide_Z. rewrite (load_seg _ _ _ _ _ _ _ Hsegp Hap). cbn [mbind result_bind inuse size].
  destruct Hokp as (_ & ? & _ & ? & Hokr). pose proof (end_addr_ge _ _ Hokr). simpl in Hlim.
  rewrite uwrap_small by (unfold fits; lia).
  destruct (negb up && (n <=? s + sp + SB)) eqn:Hc; cbn [mret result_ret].
  2: { eexists _, _. split; [done|by left]. }
  apply andb_true_iff in Hc as [->%negb_true_iff Hle%Z.leb_le].
  destruct (realloc_move_slide limit z l' sp s r n (a + SB) Hinv) as (z' & E & Hre);
    [unfold fits in Hn; lia|done|]. fold ap in E, Hre. rewrite <-Hae in E, Hre. rewrite E.
  eexists _, _. split; [done|]. right. by rewrite <-app_assoc.
Qed.

Lemma realloc_ok limit z bs ptr s n :
  inv limit z bs → (ptr, s) ∈ allocs (head_ z) bs → fits W n → n ≠ 0 →
  ∃ ptr' z', realloc z ptr n = Ok (ptr', z') ∧
    ((ptr' = 0 ∧ z' = z) ∨ reallocated limit z bs ptr s (rounded n) ptr' z').
Proof.
  pose proof SB_bounds. intros Hinv (l & r & -> & ->)%elem_of_allocs Hn H0.
  pose proof (inv_range _ _ _ Hinv).
  pose proof (inv_mid _ _ _ _ _ _ Hinv) as (Ha & Hok & Hseg & Hco & Hlim & Hend).
  set (a := end_addr (head_ z) l) in *. pose proof Hok as (Hal & Hs & Hokr).
  destruct (round_up_ok n Hn) as (Er & Hfit & H4 & _).
  unfold realloc. decide_Z.
  destruct (found_block limit z _ (a + SB) Hinv) as (bf & Ef & Hbf); [unfold fits; lia|].
  replace bf with true in Ef by (symmetry; apply Hbf; by exists l, s, true, r).
  replace (a + SB - SB) with a in * by lia. rewrite (uwrap_small W a) in * by (unfold fits; lia).
  rewrite (load_seg _ _ _ _ _ _ _ Hseg Ha). cbn [mbind result_bind inuse assert_then].
  rewrite Ef. cbn [mbind result_bind assert_then]. rewrite Er. cbn [mbind result_bind size next].
  assert ((a + SB) `mod` 4 = 0) as Hp4 by (by eapply aligned_payload).
  unfold fits in Hfit. destruct (Z.leb_spec (rounded n) s).
  { destruct (resize_at limit z l s r (rounded n) Hinv) as (h & E & Hi); [lia|done|].
    fold a in E. rewrite E. eexists _, _. split; [done|]. right.
    by eapply reallocated_at. }
  destruct r as [|[sf uf] r]; cbn [first_or].
  { cbn [Z.eqb mbind result_bind mret result_ret].
    by apply (realloc_move_ok limit z l s [] (rounded n)). }
  pose proof Hseg as [_ Hsegf]. decide_Z.
  rewrite (load_seg _ _ _ _ _ _ _ Hsegf) by lia. cbn [mbind result_bind inuse size].
  destruct Hokr as (? & ? & Hokr). pose proof (end_addr_ge _ _ Hokr). simpl in Hlim.
  rewrite uwrap_small by (unfold fits; lia).
  destruct (negb uf && (rounded n <=? s + sf + SB)) eqn:Hc; cbn [mret result_ret].
  2: { by apply (realloc_move_ok limit z l s ((sf, uf) :: r) (rounded n)). }
  apply andb_true_iff in Hc as [->%negb_true_iff Hle%Z.leb_le].
  destruct (absorb_at limit z l s sf r Hinv) as (h1 & E1 & Hi1). fold a in E1. rewrite E1.
  cbn [mbind result_bind].
  destruct (resize_at limit _ l (s + SB + sf) r (rounded n) Hi1) as (h2 & E2 & Hi2); [lia|done|].
  simpl in E2. fold a in E2. rewrite E2. eexists _, _. split; [done|]. right.
  eapply reallocated_at; [done|exact Hi2|done|lia|done|done|]. simpl. do 2 f_equal. fold a. lia.
Qed.

(** ** Allocations never overlap *)
Definition apart (x y : Z * Z) : Prop := x.1 + x.2 + SB <= y.1.

Lemma allocs_range a bs x s :
  addrs_ok a bs → (x, s) ∈ allocs a bs →
  a + SB <= x ∧ x + s <= end_addr a bs ∧ 0 <= s ∧ x `mod` 4 = 0.
Proof.
  pose proof SB_bounds as HSB. intros Hok (l & r & -> & ->)%elem_of_allocs.
  rewrite end_addr_app. apply addrs_ok_app in Hok as [Hl (Hal & Hs & Hr)].
  pose proof (end_addr_ge _ _ Hl). pose proof (end_addr_ge _ _ Hr). simpl.
  split_and!; [lia..|]. apply mod4_add; [done|apply HSB].
Qed.

Lemma allocs_sorted a bs : addrs_ok a bs → StronglySorted apart (allocs a bs).
Proof.
  revert a. induction bs as [|[s u] bs IH]; intros a; simpl; [constructor|].
  intros (_ & Hs & Hok). destruct u; simpl; [|by apply IH].
  constructor; [by apply IH|]. apply Forall_forall. intros [x t] Hin.
  apply allocs_range in Hin as [Hx _]; [|done]. unfold apart. simpl. lia.
Qed.

Lemma sorted_apart (xs : list (Z * Z)) x y :
  StronglySorted apart xs → x ∈ xs → y ∈ xs → x = y ∨ apart x y ∨ apart y x.
Proof.
  induction 1 as [|z xs Hs IH Hz]; [by intros ?%elem_of_nil|].
  rewrite Forall_forall in Hz. rewrite !elem_of_cons. naive_solver.
Qed.

Lemma sorted_nodup a bs : addrs_ok a bs → NoDup (allocs a bs).
Proof.
  pose proof SB_bounds. revert a. induction bs as [|[s u] bs IH]; intros a; simpl.
  { constructor. }
  intros (_ & Hs & Hok). destruct u; simpl; [|by apply IH].
  constructor; [|by apply IH]. intros [Hx _]%allocs_range; [lia|done].
Qed.

(** ** create *)
Lemma create_ok h m start size :
  let start' := if start `mod` 4 =? 0 then start else start + (4 - start `mod` 4) in
  0 < start → sizeof_MallocZone + SB <= size → start' + size < 2 ^ W →
  ∃ z, create h m start size = Ok z ∧ head_ z = start' + sizeof_MallocZone ∧
       inv (start' + size) z [(size - sizeof_MallocZone - SB, false)].
Proof.
  pose proof SB_bounds as HSB. intros start' Hs Hsz Hlt.
  assert (8 <= sizeof_MallocZone <= 16 ∧ sizeof_MallocZone `mod` 4 = 0) as [HZ HZ4].
  { unfold sizeof_MallocZone. destruct HW as [-> | ->]; vm_compute; split_and!; congruence. }
  pose proof (Z.mod_pos_bound start 4 ltac:(lia)).
  assert (start <= start' <= start + 3 ∧ start' `mod` 4 = 0) as [Hst Hst4].
  { unfold start'. destruct (Z.eqb_spec (start `mod` 4) 0); [by split; [lia|]|].
    split; [lia|]. pose proof (Z.div_mod start 4 ltac:(lia)).
    replace (start + (4 - start `mod` 4)) with ((start / 4 + 1) * 4) by lia.
    apply Z_mod_mult. }
  unfold create. decide_Z.
  assert ((if start `mod` 4 =? 0 then start else uwrap W (start + (4 - start `mod` 4))) = start')
    as ->.
  { unfold start' in *. case_Z; [done|]. apply uwrap_small. unfold fits. lia. }
  rewrite (uwrap_small W (start' + _)) by (unfold fits; lia).
  rewrite uwrap_small by (unfold fits; lia).
  eexists. split; [done|]. split; [done|]. constructor; simpl.
  - lia.
  - split_and!; [unfold ALIGN; by apply mod4_add|lia|done].
  - done.
  - lia.
  - done.
  - done.
  - split; [|done]. by rewrite lookup_insert_eq.
Qed.

(** ** Reachable heaps

    A step is a call that returns, or a client writing to the payload bytes. *)
Inductive step z : zone → Prop :=
| step_malloc n ptr z' : fits W n → malloc z n = Ok (ptr, z') → step z z'
| step_free ptr z' : fits W ptr → free z ptr = Ok z' → step z z'
| step_realloc ptr n ptr' z' :
    fits W ptr → fits W n → realloc z ptr n = Ok (ptr', z') → step z z'
| step_memalign n align ptr z' :
    fits W n → 0 <= align → align `mod` 4 = 0 → rounded n + SB + align < 2 ^ W →
    memalign z n align = Ok (ptr, z') → step z z'
| step_write m : step z (with_bytes z m).

Lemma malloc_inv limit z bs n ptr z' :
  inv limit z bs → fits W n → malloc z n = Ok (ptr, z') → ∃ bs', inv limit z' bs'.
Proof.
  intros Hinv Hn E. destruct (malloc_ok limit z bs n Hinv Hn) as (? & ? & bs' & E' & ? & _).
  rewrite E in E'. simplify_eq. by exists bs'.
Qed.

Lemma free_inv limit z bs ptr z' :
  inv limit z bs → fits W ptr → free z ptr = Ok z' → ∃ bs', inv limit z' bs'.
Proof.
  intros Hinv Hp E. destruct (decide (ptr = 0)) as [->|H0].
  { injection E as <-. eauto. }
  destruct (decide (ptr ∈ (allocs (head_ z) bs).*1)) as [Hin|Hni].
  - apply list_elem_of_fmap in Hin as ([x s] & -> & Hin).
    apply elem_of_allocs in Hin as (l & r & -> & Hx). simpl in E. rewrite Hx in E.
    destruct (free_ok limit z l s r Hinv) as (z1 & E1 & H1 & _).
    rewrite E in E1. injection E1 as <-. eauto.
  - rewrite (free_bad limit z bs ptr) in E; [done..|]. intros l s r -> ->. apply Hni.
    apply list_elem_of_fmap. exists (end_addr (head_ z) l + SB, s). split; [done|].
    apply elem_of_allocs. eauto.
Qed.

(** [realloc] of a pointer that is not an allocation does not return. *)
Lemma realloc_valid limit z bs ptr n x :
  inv limit z bs → fits W ptr → ptr ≠ 0 → realloc z ptr n = Ok x →
  ∃ s, (ptr, s) ∈ allocs (head_ z) bs.
Proof.
  pose proof SB_bounds. intros Hinv Hp H0 E. unfold realloc in E. revert E. decide_Z. intros E.
  apply bind_ok in E as (b & Hb & E). apply assert_ok in E as [Hu E].
  destruct (found_block limit z bs ptr Hinv Hp) as (bf & Ef & Hbf).
  rewrite Ef in E. cbn [mbind result_bind] in E. apply assert_ok in E as [-> _].
  destruct (proj1 Hbf eq_refl) as (l & s & u & r & -> & ->).
  exists s. apply elem_of_allocs. exists l, r. split; [|done].
  pose proof (inv_range _ _ _ Hinv).
  pose proof (inv_mid _ _ _ _ _ _ Hinv) as (Ha & (_ & ? & _) & Hseg & _ & _ & ?).
  rewrite uwrap_small in Hb by (unfold fits; lia).
  replace (end_addr (head_ z) l + SB - SB) with (end_addr (head_ z) l) in Hb by lia.
  rewrite (load_seg _ _ _ _ _ _ _ Hseg Ha) in Hb. injection Hb as <-. simpl in Hu. by subst u.
Qed.

Lemma realloc_zero z ptr : ptr ≠ 0 → ∀ x, realloc z ptr 0 = Ok x →
  ∃ z1, free z ptr = Ok z1 ∧ malloc z1 0 = Ok x.
Proof.
  intros H0 x E. unfold realloc in E. revert E. decide_Z. intros E.
  apply bind_ok in E as (b & _ & E). apply assert_ok in E as [_ E].
  apply bind_ok in E as (f & _ & E). apply assert_ok in E as [_ E].
  cbn [Z.eqb] in E. by apply bind_ok in E.
Qed.

Lemma zone_step_inv limit z bs z' : inv limit z bs → step z z' → ∃ bs', inv limit z' bs'.
Proof.
  assert (fits W 0) as HW0 by (unfold fits; destruct HW as [-> | ->]; lia).
  intros Hinv Hst. destruct Hst as [n ptr z' Hn E|ptr z' Hp E|ptr n ptr' z' Hp Hn E
                                   |n align ptr z' Hn Ha0 Ha4 Hov E|m].
  - by eapply malloc_inv.
  - by eapply free_inv.
  - destruct (decide (ptr = 0)) as [->|H0]; [by eapply malloc_inv|].
    destruct (decide (n = 0)) as [->|Hn0].
    + destruct (realloc_zero z ptr H0 _ E) as (z1 & E1 & E2).
      destruct (free_inv limit z bs ptr z1 Hinv Hp E1) as [bs1 Hinv1]. by eapply malloc_inv.
    + destruct (realloc_valid limit z bs ptr n _ Hinv Hp H0 E) as [s Hin].
      destruct (realloc_ok limit z bs ptr s n Hinv Hin Hn Hn0) as (p1 & z1 & E1 & Hc).
      rewrite E in E1. simplify_eq. destruct Hc as [[_ ->]|(bs' & ? & ? & ? & _)]; eauto.
  - destruct (decide (align = 0)) as [->|]; [by eapply malloc_inv|].
    destruct (memalign_ok limit z bs n align) as [[_ E1]|(p1 & z1 & E1 & bs' & ? & ? & _)];
      [done|done|lia|done|done|congruence|]. rewrite E in E1. simplify_eq. eauto.
  - exists bs. by apply inv_with_bytes.
Qed.

(** ** Copying *)
Lemma copy_bytes_lookup m dst src n k :
  copy_bytes m dst src n !! k =
    if (dst <=? k) && (k <? dst + n) then Some (default 0 (m !! (src + (k - dst))))
    else m !! k.
Proof.
  unfold copy_bytes.
  assert (∀ js, foldr (λ i acc, <[dst + i := default 0 (m !! (src + i))]> acc) m js !! k
    = if bool_decide (k - dst ∈ js) then Some (default 0 (m !! (src + (k - dst)))) else m !! k)
    as Hgen.
  { induction js as [|j js IH]; simpl; [done|]. destruct (decide (k = dst + j)) as [->|Hne].
    - rewrite lookup_insert_eq, bool_decide_true by (apply elem_of_cons; left; lia).
      do 4 f_equal. lia.
    - rewrite lookup_insert_ne, IH by done. erewrite bool_decide_ext; [done|].
      rewrite elem_of_cons. split; [by right|]. intros [?|?]; [lia|done]. }
  rewrite Hgen. erewrite (bool_decide_ext _ (dst <= k ∧ k < dst + n)).
  2: { rewrite elem_of_seqZ. lia. }
  case_bool_decide; [by decide_Z|]. repeat case_Z; (done || lia).
Qed.

Lemma last_not_free l sp : last_free false l = false → last l ≠ Some (sp, false).
Proof.
  destruct l as [|[s u] l _] using rev_ind; [done|].
  rewrite last_free_snoc, last_snoc. by destruct u.
Qed.

(** Freeing the block a split has just produced undoes the split. *)
Lemma free_split l n s r :
  coalesced false (l ++ (s, false) :: r) →
  ∃ s1 r1, split_blocks n s true r = (s1, true) :: r1 ∧
           free_blocks l s1 r1 = l ++ (s, false) :: r.
Proof.
  intros [_ [Hpf Hr]]%coalesced_app.
  assert (last_free false l = false) as Hlf.
  { destruct (last_free false l); [by specialize (Hpf eq_refl)|done]. }
  assert (∀ s' r', free_blocks l s' r' = l ++ merge_next s' false r') as Hfree.
  { intros s' r'. unfold free_blocks. destruct (last l) as [[sp [|]]|] eqn:Hl; [done| |done].
    by apply last_not_free in Hl. }
  assert (∀ s', merge_next s' false r = (s', false) :: r) as Hr'.
  { intros s'. destruct r as [|[sf [|]] r]; [done..|]. by destruct Hr as [Hr _]; specialize (Hr eq_refl). }
  unfold split_blocks. case_Z.
  - exists n, ((s - n - SB, false) :: r).
    split; [by destruct r as [|[sf [|]] r]; [..|destruct Hr as [Hr _]; specialize (Hr eq_refl)]|].
    rewrite Hfree. simpl. do 3 f_equal. lia.
  - exists s, r. split; [done|]. by rewrite Hfree, Hr'.
Qed.

End Methods.

(** A zone of 256 bytes at address 4096 on i386, and what the theorems need of it. *)
Definition demo_zone : zone := mkz 4104 {[4104 := mkb 0 0 232 false]} ∅.

Lemma demo_inv : inv 32 4352 demo_zone [(232, false)].
Proof.
  destruct (create_ok 32 (or_introl eq_refl) ∅ ∅ 4096 256) as (z & E & _ & Hinv);
    [done..|]. vm_compute in E. injection E as <-. exact Hinv.
Qed.

(** ** Properties *)



(** C2: [malloc] always returns.  The request is rounded up to a multiple of four (to
    the largest one when rounding would overflow); the answer is null, with nothing
    changed, exactly when no free block is that large; otherwise it is the payload
    of the smallest free block that is, the first of those in address order, which
    is split when the rest is larger than a header. *)
Theorem malloc_best_fit W limit z bs n :
  W = 32 ∨ W = 64 → inv W limit z bs → fits W n →
  ∃ ptr z' bs', malloc W z n = Ok (ptr, z') ∧ inv W limit z' bs' ∧
    ((ptr = 0 ∧ z' = z ∧ bs' = bs ∧
      no_fit W (λ _, true) (rounded W n) (head_ z) bs) ∨
     (∃ l s r, best_fit W (λ _, true) (rounded W n) (head_ z) bs l s r ∧
               ptr = end_addr W (head_ z) l + sizeof_MallocBlock W ∧
               bs' = l ++ split_blocks W (rounded W n) s true r)).
Proof.
  intros HW Hinv Hn.
  destruct (malloc_ok W HW limit z bs n Hinv Hn) as (ptr & z' & bs' & ? & ? & Hc).
  exists ptr, z', bs'. split_and!; [done..|]. naive_solver.
Qed.

Lemma malloc_best_fit_witness :
  ∃ ptr z' bs', malloc 32 demo_zone 10 = Ok (ptr, z') ∧ inv 32 4352 z' bs'.
Proof.
  destruct (malloc_best_fit 32 4352 demo_zone [(232, false)] 10 (or_introl eq_refl) demo_inv)
    as (p & z' & bs' & ? & ? & _); [unfold fits; lia|]. by exists p, z', bs'.
Defined.

(** C3: [free] of null does nothing; [free] of an allocation always succeeds, makes
    its block free, merges it with a free neighbour on either side and leaves every
    other allocation as it was; any other pointer stops in an assertion. *)
Theorem free_correct W limit z bs ptr :
  W = 32 ∨ W = 64 → inv W limit z bs → fits W ptr →
  free W z 0 = Ok z ∧
  (∀ l s r, bs = l ++ (s, true) :: r →
     ptr = end_addr W (head_ z) l + sizeof_MallocBlock W →
     ∃ z', free W z ptr = Ok z' ∧ inv W limit z' (free_blocks W l s r) ∧
           allocs W (head_ z) bs
           ≡ₚ (ptr, s) :: allocs W (head_ z') (free_blocks W l s r)) ∧
  (ptr ≠ 0 → ptr ∉ (allocs W (head_ z) bs).*1 → free W z ptr = Fault AssertionFailed).
Proof.
  intros HW Hinv Hp. split; [done|]. split.
  - intros l s r -> ->. destruct (free_ok W HW limit z l s r Hinv) as (z' & ? & ? & Hh & _).
    exists z'. split_and!; [done..|]. rewrite Hh. apply allocs_free.
  - intros H0 Hni. eapply free_bad; [done..|]. intros l s r -> ->. apply Hni.
    apply list_elem_of_fmap. exists (end_addr W (head_ z) l + sizeof_MallocBlock W, s).
    split; [done|]. apply elem_of_allocs. eauto.
Qed.

Lemma free_correct_witness : free 32 demo_zone 4120 = Fault AssertionFailed.
Proof.
  apply (free_correct 32 4352 demo_zone [(232, false)] 4120 (or_introl eq_refl) demo_inv).
  - unfold fits. lia.
  - done.
  - apply not_elem_of_nil.
Defined.

(** Freeing what [malloc] has just returned restores the heap: the same blocks,
    at the same addresses, with the same sizes. *)
Theorem malloc_free_roundtrip W limit z bs n ptr z1 :
  W = 32 ∨ W = 64 → inv W limit z bs → fits W n →
  malloc W z n = Ok (ptr, z1) → ptr ≠ 0 →
  ∃ z2, free W z1 ptr = Ok z2 ∧ inv W limit z2 bs ∧ head_ z2 = head_ z.
Proof.
  intros HW Hinv Hn E H0.
  destruct (malloc_ok W HW limit z bs n Hinv Hn) as (p & z' & bs' & E' & Hinv1 & Hc).
  rewrite E in E'. simplify_eq.
  destruct Hc as [[-> _]|(l & s & r & [(-> & _) _] & -> & -> & Hh & _)]; [done|].
  destruct (free_split W HW l (rounded W n) s r) as (s1 & r1 & Hsp & Hfr); [apply Hinv|].
  rewrite Hsp in Hinv1. destruct (free_ok W HW limit z' l s1 r1 Hinv1) as (z2 & E2 & Hi2 & Hh2 & _).
  rewrite Hh in E2. exists z2. rewrite Hfr in Hi2. split_and!; [done..|]. congruence.
Qed.

Lemma malloc_free_roundtrip_witness :
  ∃ z1 z2, malloc 32 demo_zone 10 = Ok (4120, z1) ∧ free 32 z1 4120 = Ok z2 ∧
           inv 32 4352 z2 [(232, false)].
Proof.
  eexists. assert (malloc 32 demo_zone 10 = Ok (4120, _)) as E by (vm_compute; reflexivity).
  destruct (malloc_free_roundtrip 32 4352 demo_zone [(232, false)] 10 4120 _ (or_introl eq_refl)
              demo_inv ltac:(unfold fits; lia) E ltac:(done)) as (z2 & ? & ? & _).
  exists z2. split; [exact E|]. by split.
Defined.

(** The demo zone after [malloc(12)]: one block in use, one free. *)
Definition demo_zone1 : zone :=
  mkz 4104 {[4104 := mkb 0 4132 12 true; 4132 := mkb 4104 0 204 false]} ∅.

Lemma demo_inv1 : inv 32 4352 demo_zone1 [(12, true); (204, false)].
Proof.
  constructor; try done; cbn; split_and!; try done; vm_compute; done.
Qed.

(** C4: [realloc] of an allocation to a size that is not zero always returns: null
    with nothing changed, or a 4-byte aligned payload of at least the (rounded) new
    size that replaces the old allocation, every other allocation staying where it
    is. *)
Theorem realloc_contract W limit z bs ptr s n :
  W = 32 ∨ W = 64 → inv W limit z bs → (ptr, s) ∈ allocs W (head_ z) bs →
  fits W n → n ≠ 0 →
  ∃ ptr' z', realloc W z ptr n = Ok (ptr', z') ∧
    ((ptr' = 0 ∧ z' = z) ∨ reallocated W limit z bs ptr s (rounded W n) ptr' z').
Proof. intros HW. by apply realloc_ok. Qed.

Lemma realloc_contract_witness :
  ∃ ptr' z', realloc 32 demo_zone1 4120 100 = Ok (ptr', z') ∧
    ((ptr' = 0 ∧ z' = demo_zone1) ∨
     reallocated 32 4352 demo_zone1 [(12, true); (204, false)] 4120 12 (rounded 32 100) ptr' z').
Proof.
  apply (realloc_contract 32 4352 demo_zone1 [(12, true); (204, false)] 4120 12 100
           (or_introl eq_refl) demo_inv1); [|unfold fits; lia|done].
  apply elem_of_allocs. exists [], [(204, false)]. done.
Defined.



(** When [realloc] moves an allocation to a new block it copies in the wrong
    direction: the new payload keeps whatever bytes it had, and the old one, which is
    freed next, is overwritten with them.  None of the client's data arrives. *)
Theorem realloc_copies_backwards W limit z l s r n new z1 :
  W = 32 ∨ W = 64 → inv W limit z (l ++ (s, true) :: r) → fits W n → n `mod` 4 = 0 →
  s <= n → malloc W z n = Ok (new, z1) → new ≠ 0 →
  let a := end_addr W (head_ z) l in
  let ptr := a + sizeof_MallocBlock W in
  let b := mkb (last_or W 0 (head_ z) l)
             (first_or 0 (a + sizeof_MallocBlock W + s) r) s true in
  ∃ z', realloc_move W z ptr a b n = Ok (new, z') ∧
    ∀ i, 0 <= i < s →
      bytes z' !! (new + i) = bytes z !! (new + i) ∧
      bytes z' !! (ptr + i) = Some (default 0 (bytes z !! (new + i))).
Proof.
  intros HW Hinv Hn Hn4 Hs Em H0 a ptr b. pose proof (SB_bounds W HW).
  destruct (malloc_allocs W HW limit z _ n Hinv Hn) as (p & z1' & E & Hc).
  rewrite Em in E. simplify_eq. rewrite (rounded_idem W HW) in Hc by done.
  destruct Hc as [[-> _]|(Hal & Hh & Hb)]; [done|].
  destruct (realloc_move_alloc W HW limit z l s r n p z1' Hinv Hal Hh)
    as (b1 & z' & Hl & Hsz & Hfr & _ & Hb').
  exists z'. split.
  { unfold realloc_move. rewrite Em. cbn [mbind result_bind]. decide_Z. fold a in Hl.
    rewrite Hl. cbn [mbind result_bind]. rewrite Hsz. fold a ptr in Hfr. by rewrite Hfr. }
  intros i Hi. rewrite Hb', !copy_bytes_lookup by done. fold a ptr. rewrite Hb.
  destruct Hal as (bs1 & s' & Hinv1 & _ & _ & Hns & Hp). pose proof (inv_addrs _ _ _ _ Hinv1) as Hok1.
  assert ((ptr, s) ∈ allocs W (head_ z) (l ++ (s, true) :: r)) as Hold.
  { apply elem_of_allocs. by exists l, r. }
  assert ((p, s') ≠ (ptr, s)) as Hne.
  { intros Heq. pose proof (sorted_nodup W HW _ _ Hok1) as Hnd. rewrite Hp, Heq in Hnd.
    apply NoDup_cons in Hnd as [Hnd _]. done. }
  destruct (sorted_apart W HW (allocs W (head_ z1') bs1) (p, s') (ptr, s)) as [?|Hap];
    [by apply allocs_sorted|rewrite Hp; apply list_elem_of_here
    |rewrite Hp; by apply list_elem_of_further|done|].
  unfold apart in Hap. simpl in Hap. split.
  - replace ((ptr <=? p + i) && (p + i <? ptr + s)) with false; [done|].
    destruct (Z.leb_spec ptr (p + i)), (Z.ltb_spec (p + i) (ptr + s)); try done. lia.
  - decide_Z. do 3 f_equal. lia.
Qed.

Lemma realloc_copies_backwards_witness :
  let z := with_bytes demo_zone1 {[4120 := 7]} in
  malloc 32 z 300 = Ok (0, z) ∧
  ∃ z1 z', malloc 32 z 16 = Ok (4148, z1) ∧
    realloc_move 32 z 4120 4104 (mkb 0 4132 12 true) 16 = Ok (4148, z') ∧
    bytes z' !! 4148 = None ∧ bytes z' !! 4120 = Some 0.
Proof.
  intros z. split; [vm_compute; reflexivity|]. eexists.
  assert (malloc 32 z 16 = Ok (4148, _)) as E by (vm_compute; reflexivity).
  destruct (realloc_copies_backwards 32 4352 z [] 12 [(204, false)] 16 4148 _ (or_introl eq_refl)
              (inv_with_bytes _ _ _ _ _ demo_inv1) ltac:(unfold fits; lia) eq_refl ltac:(lia) E
              ltac:(done)) as (z' & E' & Hby).
  exists z'. split; [exact E|]. split; [exact E'|].
  destruct (Hby 0 ltac:(lia)) as [H1 H2]. split; [exact H1|exact H2].
Defined.

(** The zone [create] builds manages [size] bytes from the aligned start, never
    from the start it was given: with a start that is not a multiple of four it runs
    past the end of the buffer, and with a size smaller than the two headers (which
    the assertion lets through) the first block's size wraps around to almost the
    whole address space. *)
Theorem create_region W h m start size :
  W = 32 ∨ W = 64 → 0 < start → start + size + 4 <= 2 ^ W →
  sizeof_MallocZone W < size →
  (sizeof_MallocZone W + sizeof_MallocBlock W <= size →
   ∃ z limit, create W h m start size = Ok z ∧
     inv W limit z [(size - sizeof_MallocZone W - sizeof_MallocBlock W, false)] ∧
     limit = start + size + (- start) `mod` 4) ∧
  (size < sizeof_MallocZone W + sizeof_MallocBlock W →
   ∃ z b, create W h m start size = Ok z ∧ heap z !! head_ z = Some b ∧
          MallocZone.size b
          = 2 ^ W + size - sizeof_MallocZone W - sizeof_MallocBlock W).
Proof.
  intros HW Hs Hlt Hsz. pose proof (SB_bounds W HW) as HSB.
  pose proof (Z.mod_pos_bound start 4 ltac:(lia)).
  assert ((if start `mod` 4 =? 0 then start else start + (4 - start `mod` 4))
          = start + (- start) `mod` 4) as Hst.
  { case_Z; [rewrite Z_mod_zero_opp_full by done; lia|]. rewrite Z_mod_nz_opp_full by done. lia. }
  pose proof (Z.mod_pos_bound (- start) 4 ltac:(lia)). split.
  - intros Hge. destruct (create_ok W HW h m start size) as (z & E & _ & Hinv);
      [done|done|rewrite Hst; lia|].
    exists z. eexists. split; [exact E|]. split; [exact Hinv|]. rewrite Hst. lia.
  - intros Hl. unfold create.
    assert (8 <= sizeof_MallocZone W <= 16).
    { unfold sizeof_MallocZone. destruct HW as [-> | ->]; vm_compute; split; congruence. }
    decide_Z. eexists _, _. split; [done|]. cbn. split; [by rewrite lookup_insert_eq|]. cbn.
    unfold uwrap. replace (size - _ - _) with
      (2 ^ W + size - sizeof_MallocZone W - sizeof_MallocBlock W + (-1) * 2 ^ W) by lia.
    rewrite Z_mod_plus_full, Z.mod_small; [done|].
    assert (2 ^ 32 <= 2 ^ W) by (apply Z.pow_le_mono_r; lia). lia.
Qed.

Lemma create_region_witness :
  ∃ z limit, create 32 ∅ ∅ 4097 256 = Ok z ∧ inv 32 limit z [(232, false)] ∧ limit = 4356.
Proof.
  destruct (create_region 32 ∅ ∅ 4097 256 (or_introl eq_refl)) as [H _]; [lia|lia|done|].
  apply H. vm_compute. done.
Defined.

End MallocZone.
