(* ===== verification/PageEntries.v ===== *)
(** * PageEntries: the paging-structure entries of both architectures

    Models [i386::PageTableEntry], [i386::PageDirectoryEntry],
    [x86_64::PageTableEntry] and [x86_64::GenericPageDirectoryEntry] of
    src/Kernel/include/platform.  An entry is its [data] word, 32 or 64 bits wide;
    every accessor of the code is one definition.  The interface [PagingEntry] is what
    the code above these classes relies on: flags that can be read and written
    independently of each other and of the physical address, and an address that
    comes back as it was stored. *)
From S2P Require Import Prelude PageFrameAllocator.

(** [!!(data & mask)] and the two branches of a setter.  The masks are 64-bit; the
    result is converted to the width [w] of [data]. *)
Definition flag_is_set (data mask : Z) : bool := negb (Z.land data mask =? 0).

Definition flag_assign (w data mask : Z) (b : bool) : Z :=
  if b then uwrap w (Z.lor data mask) else uwrap w (Z.land data (unot 64 mask)).

(** ** The interface

    What an entry type promises: setting one flag changes that flag only, not the
    address; storing an addressable address succeeds, leaves every flag alone, and the
    address reads back as it was stored. *)
Definition entry_contract {F : Type} `{EqDecision F} (w : Z) (get : F → Z → bool)
    (assign : F → Z → bool → Z) (get_address : Z → Z)
    (set_address : Z → Z → result Z) (addressable : Z → Prop) : Prop :=
  ∀ d, fits w d →
    (∀ f g b, fits w (assign g d b) ∧
              get f (assign g d b) = (if decide (f = g) then b else get f d) ∧
              get_address (assign g d b) = get_address d) ∧
    (∀ a, addressable a →
       ∃ d', set_address d a = Ok d' ∧ fits w d' ∧ get_address d' = a ∧
             ∀ f, get f d' = get f d).

Class PagingEntry (F : Type) := {
  pe_width : Z;
  pe_get : F → Z → bool;
  pe_assign : F → Z → bool → Z;
  pe_get_address : Z → Z;
  pe_set_address : Z → Z → result Z;
  pe_addressable : Z → Prop;
}.

Class PagingEntryLaws (F : Type) `{EqDecision F} `{PagingEntry F} :=
  pe_contract : entry_contract pe_width (pe_get (F := F)) pe_assign
                  pe_get_address pe_set_address pe_addressable.

(** ** Bits *)
Lemma flag_is_set_bit d k : 0 <= k → flag_is_set d (Z.shiftl 1 k) = Z.testbit d k.
Proof. intros. unfold flag_is_set. by rewrite land_bit_eqb, negb_involutive. Qed.

Lemma uwrap_testbit w x i :
  0 <= w → 0 <= i → Z.testbit (uwrap w x) i = (i <? w) && Z.testbit x i.
Proof.
  intros. unfold uwrap. case_Z; [by rewrite Z.mod_pow2_bits_low by lia|].
  by rewrite Z.mod_pow2_bits_high by lia.
Qed.

Lemma flag_assign_testbit w d k b i :
  0 <= w → 0 <= k < w → w <= 64 → 0 <= i → fits w d →
  Z.testbit (flag_assign w d (Z.shiftl 1 k) b) i
  = if i =? k then b else Z.testbit d i.
Proof.
  intros Hw Hk Hw64 Hi Hd.
  assert (fits 64 (Z.shiftl 1 k)) as Hf.
  { rewrite Z.shiftl_1_l. split; [apply Z.pow_nonneg; lia|]. apply Z.pow_lt_mono_r; lia. }
  unfold flag_assign. destruct b; rewrite uwrap_testbit by done.
  - rewrite Z.lor_spec, testbit_shiftl_1 by lia. repeat case_Z; subst; try lia;
      rewrite ?orb_true_r, ?orb_false_r; try done.
    symmetry. apply (fits_testbit_high w); [done|lia].
  - rewrite Z.land_spec, unot_spec, testbit_shiftl_1 by (done || lia).
    repeat case_Z; subst; try lia; rewrite ?andb_false_r, ?andb_true_r; try done;
      symmetry; apply (fits_testbit_high w); (done || lia).
Qed.

Lemma flag_assign_fits w d m b : 0 <= w → fits w (flag_assign w d m b).
Proof. intros. unfold flag_assign. destruct b; by apply uwrap_fits. Qed.

(** A contiguous field of bits. *)
Lemma testbit_field lo n i :
  0 <= lo → 0 <= n → 0 <= i →
  Z.testbit (Z.shiftl (Z.ones n) lo) i = (lo <=? i) && (i <? lo + n).
Proof.
  intros. rewrite Z.shiftl_spec by done. destruct (Z.leb_spec lo i); simpl.
  - rewrite Z.testbit_ones by lia. repeat case_Z; (done || lia).
  - apply Z.testbit_neg_r. lia.
Qed.

Lemma bits_eq x y : (∀ i, 0 <= i → Z.testbit x i = Z.testbit y i) → x = y.
Proof. intros. by apply Z.bits_inj'. Qed.


Lemma page_aligned_low a i :
  a `mod` PAGE_SIZE = 0 → 0 <= i < 12 → Z.testbit a i = false.
Proof.
  intros Ha Hi. rewrite <-(Z.mod_pow2_bits_low a 12 i) by lia.
  change (2 ^ 12) with PAGE_SIZE. rewrite Ha. apply Z.bits_0.
Qed.

(** The contract follows from where the accessors keep their bits: the address in the
    bits 12 to 51, the flags in the others. *)
Section Contract.
Context {F : Type} `{EqDecision F} (w : Z) (bit : F → Z).
Context (get : F → Z → bool) (assign : F → Z → bool → Z).
Context (get_address : Z → Z) (set_address : Z → Z → result Z) (addressable : Z → Prop).
Context (bit_inj : ∀ f g, bit f = bit g → f = g).
Context (bit_range : ∀ f, 0 <= bit f < 12 ∨ 52 <= bit f).
Context (get_bit : ∀ f d, get f d = Z.testbit d (bit f)).
Context (assign_fits : ∀ f d b, fits w (assign f d b)).
Context (assign_bit : ∀ f d b i, 0 <= i → fits w d →
  Z.testbit (assign f d b) i = if i =? bit f then b else Z.testbit d i).
Context (address_ext : ∀ d d', fits w d → fits w d' →
  (∀ i, 12 <= i < 52 → Z.testbit d i = Z.testbit d' i) → get_address d = get_address d').
Context (set_address_bit : ∀ d a, fits w d → addressable a →
  ∃ d', set_address d a = Ok d' ∧ fits w d' ∧ get_address d' = a ∧
        ∀ i, 0 <= i → ¬ 12 <= i < 52 → Z.testbit d' i = Z.testbit d i).

Lemma contract_of_bits :
  entry_contract w get assign get_address set_address addressable.
Proof.
  intros d Hd. split.
  - intros f g b. split; [apply assign_fits|]. split.
    + rewrite !get_bit, assign_bit by (done || (pose proof (bit_range f); lia)).
      destruct (decide (f = g)) as [->|Hne]; [by rewrite Z.eqb_refl|].
      rewrite (proj2 (Z.eqb_neq _ _)); [done|]. intros Heq. by apply Hne, bit_inj.
    + apply address_ext; [apply assign_fits|done|]. intros i Hi.
      rewrite assign_bit by (done || lia). pose proof (bit_range g). by decide_Z.
  - intros a Ha. destruct (set_address_bit d a Hd Ha) as (d' & ? & ? & ? & Hb).
    exists d'. split_and!; [done..|]. intros f. rewrite !get_bit.
    pose proof (bit_range f). apply Hb; lia.
Qed.
End Contract.

Ltac address_ext Hext :=
  match goal with
  | |- context [Z.testbit _ ?i] =>
      destruct (Z.lt_ge_cases i 12), (Z.lt_ge_cases i 52); decide_Z; try done;
      rewrite ?Hext by lia; done
  end.

Ltac flag_bits :=
  intros f; intros; destruct f; simpl; repeat (progress autounfold with page_flags);
  first [ apply flag_is_set_bit; lia | apply flag_assign_testbit; (done || lia) ].

Create HintDb page_flags.

Module I386PageTableEntry.

Definition PRESENT : Z := Z.shiftl 1 0.
Definition READWRITE : Z := Z.shiftl 1 1.
Definition SUPERVISOR : Z := Z.shiftl 1 2.
Definition PWT : Z := Z.shiftl 1 3.
Definition PCD : Z := Z.shiftl 1 4.
Definition ACCESSED : Z := Z.shiftl 1 5.
Definition DIRTY : Z := Z.shiftl 1 6.
Definition PAT : Z := Z.shiftl 1 7.
Definition GLOBAL : Z := Z.shiftl 1 8.

Definition is_present (data : Z) : bool := flag_is_set data PRESENT.
Definition set_present (data : Z) (present : bool) : Z := flag_assign 32 data PRESENT present.

Definition is_readwrite (data : Z) : bool := flag_is_set data READWRITE.
Definition set_readwrite (data : Z) (readwrite : bool) : Z := flag_assign 32 data READWRITE readwrite.

Definition is_supervisor (data : Z) : bool := flag_is_set data SUPERVISOR.
Definition set_supervisor (data : Z) (supervisor : bool) : Z := flag_assign 32 data SUPERVISOR supervisor.

Definition is_page_write_through (data : Z) : bool := flag_is_set data PWT.
Definition set_page_write_through (data : Z) (enable : bool) : Z := flag_assign 32 data PWT enable.

Definition is_page_cache_disabled (data : Z) : bool := flag_is_set data PCD.
Definition set_page_cache_disabled (data : Z) (disabled : bool) : Z := flag_assign 32 data PCD disabled.

Definition is_accessed (data : Z) : bool := flag_is_set data ACCESSED.
Definition set_accessed (data : Z) (accessed : bool) : Z := flag_assign 32 data ACCESSED accessed.

Definition is_dirty (data : Z) : bool := flag_is_set data DIRTY.
Definition set_dirty (data : Z) (dirty : bool) : Z := flag_assign 32 data DIRTY dirty.

Definition is_pat_bit_set (data : Z) : bool := flag_is_set data PAT.
Definition set_pat_bit (data : Z) (pat : bool) : Z := flag_assign 32 data PAT pat.

Definition is_global (data : Z) : bool := flag_is_set data GLOBAL.
Definition set_global (data : Z) (global : bool) : Z := flag_assign 32 data GLOBAL global.

(** The flags of the entry, and their accessors by name. *)
Inductive flag := Present | ReadWrite | Supervisor | WriteThrough | CacheDisabled | Accessed | Dirty | PatBit | Global.

#[global] Instance flag_eq_dec : EqDecision flag.
Proof. solve_decision. Defined.

Definition bit (f : flag) : Z :=
  match f with | Present => 0
  | ReadWrite => 1
  | Supervisor => 2
  | WriteThrough => 3
  | CacheDisabled => 4
  | Accessed => 5
  | Dirty => 6
  | PatBit => 7
  | Global => 8 end.

Definition get (f : flag) (data : Z) : bool :=
  match f with
  | Present => is_present data
  | ReadWrite => is_readwrite data
  | Supervisor => is_supervisor data
  | WriteThrough => is_page_write_through data
  | CacheDisabled => is_page_cache_disabled data
  | Accessed => is_accessed data
  | Dirty => is_dirty data
  | PatBit => is_pat_bit_set data
  | Global => is_global data
  end.

Definition assign (f : flag) (data : Z) (b : bool) : Z :=
  match f with
  | Present => set_present data b
  | ReadWrite => set_readwrite data b
  | Supervisor => set_supervisor data b
  | WriteThrough => set_page_write_through data b
  | CacheDisabled => set_page_cache_disabled data b
  | Accessed => set_accessed data b
  | Dirty => set_dirty data b
  | PatBit => set_pat_bit data b
  | Global => set_global data b
  end.

Definition ADDRESS_ZERO_MASK : Z := 0xFFF.

Definition set_address (data address : Z) : Z :=
  let data := uwrap 32 (Z.land data ADDRESS_ZERO_MASK) in
  let field := Z.land address (unot 64 ADDRESS_ZERO_MASK) in
  uwrap 32 (Z.lor data field).

Definition get_address (data : Z) : Z := Z.land data (unot 64 ADDRESS_ZERO_MASK).

(** Page-aligned 32-bit addresses. *)
Definition addressable (a : Z) : Prop := fits 32 a ∧ a `mod` PAGE_SIZE = 0.

#[local] Hint Unfold PRESENT READWRITE SUPERVISOR PWT PCD ACCESSED DIRTY PAT GLOBAL is_present is_readwrite is_supervisor is_page_write_through is_page_cache_disabled is_accessed is_dirty is_pat_bit_set is_global set_present set_readwrite set_supervisor set_page_write_through set_page_cache_disabled set_accessed set_dirty set_pat_bit set_global : page_flags.

Lemma pte32_get_bit : ∀ f d, get f d = Z.testbit d (bit f).
Proof. flag_bits. Qed.

Lemma pte32_assign_bit : ∀ f d b i, 0 <= i → fits 32 d →
  Z.testbit (assign f d b) i = if i =? bit f then b else Z.testbit d i.
Proof. flag_bits. Qed.

Lemma pte32_get_address_bit d i :
  fits 32 d → 0 <= i →
  Z.testbit (get_address d) i = (12 <=? i) && (i <? 52) && Z.testbit d i.
Proof.
  intros Hd Hi. unfold get_address. rewrite Z.land_spec, unot_spec by done.
  change ADDRESS_ZERO_MASK with (Z.ones 12). rewrite Z.testbit_ones by lia.
  destruct (Z.lt_ge_cases i 32); [by decide_Z; case_Z; rewrite ?andb_true_r, ?andb_false_r; decide_Z|].
  rewrite (fits_testbit_high 32 d i) by (done || lia). by rewrite !andb_false_r.
Qed.

Lemma pte32_set_address_ok d a :
  fits 32 d → addressable a →
  ∃ d', Ok (set_address d a) = Ok d' ∧ fits 32 d' ∧ get_address d' = a ∧
        ∀ i, 0 <= i → ¬ 12 <= i < 52 → Z.testbit d' i = Z.testbit d i.
Proof.
  intros Hd [Ha H0].
  assert (∀ i, 0 <= i → Z.testbit (set_address d a) i
    = if i <? 12 then Z.testbit d i else Z.testbit a i) as Hbit.
  { intros i Hi. unfold set_address.
    rewrite uwrap_testbit, Z.lor_spec, uwrap_testbit, !Z.land_spec, unot_spec by done.
    change ADDRESS_ZERO_MASK with (Z.ones 12). rewrite !Z.testbit_ones by lia.
    destruct (Z.lt_ge_cases i 32).
    - decide_Z. case_Z; rewrite ?andb_true_r, ?andb_false_r, ?orb_false_r; done.
    - decide_Z. rewrite (fits_testbit_high 32 a) by (done || lia). done. }
  assert (fits 32 (set_address d a)) by (by apply uwrap_fits).
  eexists. split; [done|]. split; [done|]. split.
  - apply bits_eq. intros i Hi. rewrite pte32_get_address_bit, Hbit by done.
    destruct (Z.lt_ge_cases i 12); [decide_Z; by rewrite page_aligned_low|]. decide_Z.
    destruct (Z.lt_ge_cases i 52); [by decide_Z|]. decide_Z.
    symmetry. apply (fits_testbit_high 32); [done|lia].
  - intros i Hi Hout. rewrite Hbit by done. case_Z; [done|].
    by rewrite (fits_testbit_high 32 d), (fits_testbit_high 32 a) by (done || lia).
Qed.

#[global] Instance pte32_entry : PagingEntry flag := {|
  pe_width := 32;
  pe_get := get;
  pe_assign := assign;
  pe_get_address := get_address;
  pe_set_address := λ d a, Ok (set_address d a);
  pe_addressable := addressable;
|}.

#[global] Instance pte32_laws : PagingEntryLaws flag.
Proof.
  apply (contract_of_bits 32 bit).
  - by intros [] [].
  - intros []; simpl; lia.
  - apply pte32_get_bit.
  - intros [] d b; by apply flag_assign_fits.
  - apply pte32_assign_bit.
  - intros d d' Hd Hd' Hext. apply bits_eq. intros i Hi.
    rewrite !pte32_get_address_bit by done. address_ext Hext.
  - apply pte32_set_address_ok.
Qed.

End I386PageTableEntry.

Module I386PageDirectoryEntry.

Definition PRESENT : Z := Z.shiftl 1 0.
Definition READWRITE : Z := Z.shiftl 1 1.
Definition SUPERVISOR : Z := Z.shiftl 1 2.
Definition PWT : Z := Z.shiftl 1 3.
Definition PCD : Z := Z.shiftl 1 4.
Definition ACCESSED : Z := Z.shiftl 1 5.

Definition is_present (data : Z) : bool := flag_is_set data PRESENT.
Definition set_present (data : Z) (present : bool) : Z := flag_assign 32 data PRESENT present.

Definition is_readwrite (data : Z) : bool := flag_is_set data READWRITE.
Definition set_readwrite (data : Z) (readwrite : bool) : Z := flag_assign 32 data READWRITE readwrite.

Definition is_supervisor (data : Z) : bool := flag_is_set data SUPERVISOR.
Definition set_supervisor (data : Z) (supervisor : bool) : Z := flag_assign 32 data SUPERVISOR supervisor.

Definition is_page_write_through (data : Z) : bool := flag_is_set data PWT.
Definition set_page_write_through (data : Z) (enable : bool) : Z := flag_assign 32 data PWT enable.

Definition is_page_cache_disabled (data : Z) : bool := flag_is_set data PCD.
Definition set_page_cache_disabled (data : Z) (disabled : bool) : Z := flag_assign 32 data PCD disabled.

Definition is_accessed (data : Z) : bool := flag_is_set data ACCESSED.
Definition set_accessed (data : Z) (accessed : bool) : Z := flag_assign 32 data ACCESSED accessed.

(** The flags of the entry, and their accessors by name. *)
Inductive flag := Present | ReadWrite | Supervisor | WriteThrough | CacheDisabled | Accessed.

#[global] Instance flag_eq_dec : EqDecision flag.
Proof. solve_decision. Defined.

Definition bit (f : flag) : Z :=
  match f with | Present => 0
  | ReadWrite => 1
  | Supervisor => 2
  | WriteThrough => 3
  | CacheDisabled => 4
  | Accessed => 5 end.

Definition get (f : flag) (data : Z) : bool :=
  match f with
  | Present => is_present data
  | ReadWrite => is_readwrite data
  | Supervisor => is_supervisor data
  | WriteThrough => is_page_write_through data
  | CacheDisabled => is_page_cache_disabled data
  | Accessed => is_accessed data
  end.

Definition assign (f : flag) (data : Z) (b : bool) : Z :=
  match f with
  | Present => set_present data b
  | ReadWrite => set_readwrite data b
  | Supervisor => set_supervisor data b
  | WriteThrough => set_page_write_through data b
  | CacheDisabled => set_page_cache_disabled data b
  | Accessed => set_accessed data b
  end.

Definition PAGE_SIZE_SHIFT : Z := 7.
Definition PAGE_SIZE_MASK : Z := Z.shiftl 1 PAGE_SIZE_SHIFT.

Definition get_page_size (data : Z) : Z :=
  Z.shiftr (Z.land data PAGE_SIZE_MASK) PAGE_SIZE_SHIFT.

Definition ADDRESS_ZERO_MASK : Z := 0xFFF.
Definition ADDRESS_MASK : Z := 0xFFFFF.
Definition ADDRESS_SHIFT : Z := 12.

Definition set_address (data address : Z) : Z :=
  let masked_address := Z.land (Z.shiftr address ADDRESS_SHIFT) ADDRESS_MASK in
  let field := Z.shiftl masked_address ADDRESS_SHIFT in
  uwrap 32 (Z.lor (Z.land data ADDRESS_ZERO_MASK) field).

Definition get_address (data : Z) : Z := Z.land data (unot 64 ADDRESS_ZERO_MASK).

(** Page-aligned 32-bit addresses. *)
Definition addressable (a : Z) : Prop := fits 32 a ∧ a `mod` PAGE_SIZE = 0.

#[local] Hint Unfold PRESENT READWRITE SUPERVISOR PWT PCD ACCESSED is_present is_readwrite is_supervisor is_page_write_through is_page_cache_disabled is_accessed set_present set_readwrite set_supervisor set_page_write_through set_page_cache_disabled set_accessed : page_flags.

Lemma pde32_get_bit : ∀ f d, get f d = Z.testbit d (bit f).
Proof. flag_bits. Qed.

Lemma pde32_assign_bit : ∀ f d b i, 0 <= i → fits 32 d →
  Z.testbit (assign f d b) i = if i =? bit f then b else Z.testbit d i.
Proof. flag_bits. Qed.

Lemma pde32_get_address_bit d i :
  fits 32 d → 0 <= i →
  Z.testbit (get_address d) i = (12 <=? i) && (i <? 52) && Z.testbit d i.
Proof.
  intros Hd Hi. unfold get_address. rewrite Z.land_spec, unot_spec by done.
  change ADDRESS_ZERO_MASK with (Z.ones 12). rewrite Z.testbit_ones by lia.
  destruct (Z.lt_ge_cases i 32); [by decide_Z; case_Z; rewrite ?andb_true_r, ?andb_false_r; decide_Z|].
  rewrite (fits_testbit_high 32 d i) by (done || lia). by rewrite !andb_false_r.
Qed.

Lemma pde32_set_address_ok d a :
  fits 32 d → addressable a →
  ∃ d', Ok (set_address d a) = Ok d' ∧ fits 32 d' ∧ get_address d' = a ∧
        ∀ i, 0 <= i → ¬ 12 <= i < 52 → Z.testbit d' i = Z.testbit d i.
Proof.
  intros Hd [Ha H0].
  assert (∀ i, 0 <= i → Z.testbit (set_address d a) i
    = if i <? 12 then Z.testbit d i else Z.testbit a i) as Hbit.
  { intros i Hi. unfold set_address.
    rewrite uwrap_testbit, Z.lor_spec, Z.land_spec by done.
    change ADDRESS_ZERO_MASK with (Z.ones 12). rewrite Z.testbit_ones by lia.
    unfold ADDRESS_SHIFT. rewrite Z.shiftl_spec by done.
    destruct (Z.lt_ge_cases i 12).
    - decide_Z. rewrite (Z.testbit_neg_r _ (i - 12)) by lia. by rewrite andb_true_r, orb_false_r.
    - rewrite Z.land_spec, Z.shiftr_spec by lia. change ADDRESS_MASK with (Z.ones 20).
      rewrite Z.testbit_ones by lia. replace (i - 12 + 12) with i by lia.
      destruct (Z.lt_ge_cases i 32); decide_Z; rewrite ?andb_false_r, ?andb_true_r; [done|].
      symmetry. apply (fits_testbit_high 32); [done|lia]. }
  assert (fits 32 (set_address d a)) by (by apply uwrap_fits).
  eexists. split; [done|]. split; [done|]. split.
  - apply bits_eq. intros i Hi. rewrite pde32_get_address_bit, Hbit by done.
    destruct (Z.lt_ge_cases i 12); [decide_Z; by rewrite page_aligned_low|]. decide_Z.
    destruct (Z.lt_ge_cases i 52); [by decide_Z|]. decide_Z.
    symmetry. apply (fits_testbit_high 32); [done|lia].
  - intros i Hi Hout. rewrite Hbit by done. case_Z; [done|].
    by rewrite (fits_testbit_high 32 d), (fits_testbit_high 32 a) by (done || lia).
Qed.

#[global] Instance pde32_entry : PagingEntry flag := {|
  pe_width := 32;
  pe_get := get;
  pe_assign := assign;
  pe_get_address := get_address;
  pe_set_address := λ d a, Ok (set_address d a);
  pe_addressable := addressable;
|}.

#[global] Instance pde32_laws : PagingEntryLaws flag.
Proof.
  apply (contract_of_bits 32 bit).
  - by intros [] [].
  - intros []; simpl; lia.
  - apply pde32_get_bit.
  - intros [] d b; by apply flag_assign_fits.
  - apply pde32_assign_bit.
  - intros d d' Hd Hd' Hext. apply bits_eq. intros i Hi.
    rewrite !pde32_get_address_bit by done. address_ext Hext.
  - apply pde32_set_address_ok.
Qed.

End I386PageDirectoryEntry.

Module X64PageTableEntry.

Definition PRESENT : Z := Z.shiftl 1 0.
Definition READWRITE : Z := Z.shiftl 1 1.
Definition SUPERVISOR : Z := Z.shiftl 1 2.
Definition PWT : Z := Z.shiftl 1 3.
Definition PCD : Z := Z.shiftl 1 4.
Definition ACCESSED : Z := Z.shiftl 1 5.
Definition EXECUTE_DISABLE : Z := Z.shiftl 1 63.
Definition DIRTY : Z := Z.shiftl 1 6.
Definition PAT : Z := Z.shiftl 1 7.
Definition GLOBAL : Z := Z.shiftl 1 8.

Definition is_present (data : Z) : bool := flag_is_set data PRESENT.
Definition set_present (data : Z) (present : bool) : Z := flag_assign 64 data PRESENT present.

Definition is_readwrite (data : Z) : bool := flag_is_set data READWRITE.
Definition set_readwrite (data : Z) (readwrite : bool) : Z := flag_assign 64 data READWRITE readwrite.

Definition is_supervisor (data : Z) : bool := flag_is_set data SUPERVISOR.
Definition set_supervisor (data : Z) (supervisor : bool) : Z := flag_assign 64 data SUPERVISOR supervisor.

Definition is_page_write_through (data : Z) : bool := flag_is_set data PWT.
Definition set_page_write_through (data : Z) (enable : bool) : Z := flag_assign 64 data PWT enable.

Definition is_page_cache_disabled (data : Z) : bool := flag_is_set data PCD.
Definition set_page_cache_disabled (data : Z) (disabled : bool) : Z := flag_assign 64 data PCD disabled.

Definition is_accessed (data : Z) : bool := flag_is_set data ACCESSED.
Definition set_accessed (data : Z) (accessed : bool) : Z := flag_assign 64 data ACCESSED accessed.

Definition is_execute_disabled (data : Z) : bool := flag_is_set data EXECUTE_DISABLE.
Definition set_execute_disabled (data : Z) (disabled : bool) : Z := flag_assign 64 data EXECUTE_DISABLE disabled.

Definition is_dirty (data : Z) : bool := flag_is_set data DIRTY.
Definition set_dirty (data : Z) (dirty : bool) : Z := flag_assign 64 data DIRTY dirty.

Definition is_pat_bit_set (data : Z) : bool := flag_is_set data PAT.
Definition set_pat_bit (data : Z) (pat : bool) : Z := flag_assign 64 data PAT pat.

Definition is_global (data : Z) : bool := flag_is_set data GLOBAL.
Definition set_global (data : Z) (global : bool) : Z := flag_assign 64 data GLOBAL global.

(** The flags of the entry, and their accessors by name. *)
Inductive flag := Present | ReadWrite | Supervisor | WriteThrough | CacheDisabled | Accessed | ExecuteDisabled | Dirty | PatBit | Global.

#[global] Instance flag_eq_dec : EqDecision flag.
Proof. solve_decision. Defined.

Definition bit (f : flag) : Z :=
  match f with | Present => 0
  | ReadWrite => 1
  | Supervisor => 2
  | WriteThrough => 3
  | CacheDisabled => 4
  | Accessed => 5
  | ExecuteDisabled => 63
  | Dirty => 6
  | PatBit => 7
  | Global => 8 end.

Definition get (f : flag) (data : Z) : bool :=
  match f with
  | Present => is_present data
  | ReadWrite => is_readwrite data
  | Supervisor => is_supervisor data
  | WriteThrough => is_page_write_through data
  | CacheDisabled => is_page_cache_disabled data
  | Accessed => is_accessed data
  | ExecuteDisabled => is_execute_disabled data
  | Dirty => is_dirty data
  | PatBit => is_pat_bit_set data
  | Global => is_global data
  end.

Definition assign (f : flag) (data : Z) (b : bool) : Z :=
  match f with
  | Present => set_present data b
  | ReadWrite => set_readwrite data b
  | Supervisor => set_supervisor data b
  | WriteThrough => set_page_write_through data b
  | CacheDisabled => set_page_cache_disabled data b
  | Accessed => set_accessed data b
  | ExecuteDisabled => set_execute_disabled data b
  | Dirty => set_dirty data b
  | PatBit => set_pat_bit data b
  | Global => set_global data b
  end.

Definition ADDRESS_ZERO_MASK : Z := 0xFFF0000000000FFF.
Definition ADDRESS_SIGN_EXT_MASK : Z := 0xFFF0000000000000.

Definition set_address (data address : Z) : result Z :=
  assert! is_page_aligned address;
  let data := Z.land data ADDRESS_ZERO_MASK in
  let field := Z.land address (unot 64 ADDRESS_ZERO_MASK) in
  mret (Z.lor data field).

Definition get_address (data : Z) : Z :=
  let address := Z.land data (unot 64 ADDRESS_ZERO_MASK) in
  if negb (Z.land address (Z.shiftl 1 47) =? 0)
  then Z.lor address ADDRESS_SIGN_EXT_MASK else address.

(** Page-aligned addresses whose bits 52 to 63 are copies of bit 47. *)
Definition addressable (a : Z) : Prop :=
  fits 64 a ∧ a `mod` PAGE_SIZE = 0 ∧
  Z.shiftr a 52 = if Z.testbit a 47 then 0xFFF else 0.

#[local] Hint Unfold PRESENT READWRITE SUPERVISOR PWT PCD ACCESSED EXECUTE_DISABLE DIRTY PAT GLOBAL is_present is_readwrite is_supervisor is_page_write_through is_page_cache_disabled is_accessed is_execute_disabled is_dirty is_pat_bit_set is_global set_present set_readwrite set_supervisor set_page_write_through set_page_cache_disabled set_accessed set_execute_disabled set_dirty set_pat_bit set_global : page_flags.

Lemma pte64_get_bit : ∀ f d, get f d = Z.testbit d (bit f).
Proof. flag_bits. Qed.

Lemma pte64_assign_bit : ∀ f d b i, 0 <= i → fits 64 d →
  Z.testbit (assign f d b) i = if i =? bit f then b else Z.testbit d i.
Proof. flag_bits. Qed.

Lemma pte64_zero_mask_bit i :
  0 <= i → Z.testbit ADDRESS_ZERO_MASK i = (i <? 12) || ((52 <=? i) && (i <? 64)).
Proof.
  intros. change ADDRESS_ZERO_MASK with (Z.lor (Z.ones 12) (Z.shiftl (Z.ones 12) 52)).
  rewrite Z.lor_spec, testbit_field, Z.testbit_ones by lia. by decide_Z.
Qed.

Lemma pte64_zero_mask_fits : fits 64 ADDRESS_ZERO_MASK.
Proof. done. Qed.

(** The address field of an entry. *)
Lemma pte64_field_bit d i :
  fits 64 d → 0 <= i →
  Z.testbit (Z.land d (unot 64 ADDRESS_ZERO_MASK)) i
  = (12 <=? i) && (i <? 52) && Z.testbit d i.
Proof.
  intros Hd Hi. rewrite Z.land_spec, unot_spec, pte64_zero_mask_bit by done.
  destruct (Z.lt_ge_cases i 64).
  - repeat case_Z; rewrite ?andb_true_r, ?andb_false_r; (done || lia).
  - rewrite (fits_testbit_high 64 d i) by (done || lia). by rewrite !andb_false_r.
Qed.

Lemma pte64_get_address_bit d i :
  fits 64 d → 0 <= i →
  Z.testbit (get_address d) i
  = ((12 <=? i) && (i <? 52) && Z.testbit d i)
    || ((52 <=? i) && (i <? 64) && Z.testbit d 47).
Proof.
  intros Hd Hi. unfold get_address.
  change ADDRESS_SIGN_EXT_MASK with (Z.shiftl (Z.ones 12) 52).
  rewrite land_bit_eqb, negb_involutive, pte64_field_bit by (done || lia). decide_Z.
  destruct (Z.testbit d 47) eqn:H47.
  - rewrite Z.lor_spec, pte64_field_bit, testbit_field by (done || lia).
    by rewrite andb_true_r.
  - rewrite pte64_field_bit by done. by rewrite andb_false_r, orb_false_r.
Qed.

Lemma pte64_set_address_ok d a :
  fits 64 d → addressable a →
  ∃ d', set_address d a = Ok d' ∧ fits 64 d' ∧ get_address d' = a ∧
        ∀ i, 0 <= i → ¬ 12 <= i < 52 → Z.testbit d' i = Z.testbit d i.
Proof.
  intros Hd (Ha & H0 & Hs). unfold set_address.
  assert (is_page_aligned a = true) as ->.
  { unfold is_page_aligned. apply Z.eqb_eq. change (PAGE_SIZE - 1) with (Z.ones 12).
    by rewrite Z.land_ones. }
  cbn [assert_then]. set (d' := Z.lor _ _).
  assert (∀ i, 0 <= i → Z.testbit d' i
    = if (12 <=? i) && (i <? 52) then Z.testbit a i else Z.testbit d i) as Hbit.
  { intros i Hi. unfold d'. rewrite Z.lor_spec, pte64_field_bit, Z.land_spec by done.
    rewrite pte64_zero_mask_bit by done. destruct (Z.lt_ge_cases i 64).
    - repeat case_Z; rewrite ?andb_true_r, ?andb_false_r, ?orb_false_r; (done || lia).
    - rewrite (fits_testbit_high 64 d i) by (done || lia). by decide_Z. }
  assert (fits 64 d') as Hd'.
  { apply fits_lor; [done|by apply fits_land_l|by apply fits_land_l]. }
  exists d'. split; [done|]. split; [done|]. split.
  - apply bits_eq. intros i Hi. rewrite pte64_get_address_bit, !Hbit by (done || lia).
    assert (52 <= i < 64 → Z.testbit a i = Z.testbit a 47) as Hhi.
    { intros Hi'. replace i with (i - 52 + 52) by lia. rewrite <-Z.shiftr_spec, Hs by lia.
      destruct (Z.testbit a 47); [|apply Z.bits_0]. change 0xFFF with (Z.ones 12).
      rewrite Z.testbit_ones by lia. by decide_Z. }
    destruct (Z.lt_ge_cases i 12); [decide_Z; by rewrite page_aligned_low|]. decide_Z.
    destruct (Z.lt_ge_cases i 52); [decide_Z; by rewrite orb_false_r|]. decide_Z.
    destruct (Z.lt_ge_cases i 64); [decide_Z; by rewrite Hhi|]. decide_Z.
    symmetry. apply (fits_testbit_high 64); [done|lia].
  - intros i Hi Hout. rewrite Hbit by done. repeat case_Z; (done || lia).
Qed.

#[global] Instance pte64_entry : PagingEntry flag := {|
  pe_width := 64;
  pe_get := get;
  pe_assign := assign;
  pe_get_address := get_address;
  pe_set_address := set_address;
  pe_addressable := addressable;
|}.

#[global] Instance pte64_laws : PagingEntryLaws flag.
Proof.
  apply (contract_of_bits 64 bit).
  - by intros [] [].
  - intros []; simpl; lia.
  - apply pte64_get_bit.
  - intros [] d b; by apply flag_assign_fits.
  - apply pte64_assign_bit.
  - intros d d' Hd Hd' Hext. apply bits_eq. intros i Hi.
    rewrite !pte64_get_address_bit by done. address_ext Hext.
  - apply pte64_set_address_ok.
Qed.

End X64PageTableEntry.

Module GenericPageDirectoryEntry.

Definition PRESENT : Z := Z.shiftl 1 0.
Definition READWRITE : Z := Z.shiftl 1 1.
Definition SUPERVISOR : Z := Z.shiftl 1 2.
Definition PWT : Z := Z.shiftl 1 3.
Definition PCD : Z := Z.shiftl 1 4.
Definition ACCESSED : Z := Z.shiftl 1 5.
Definition EXECUTE_DISABLE : Z := Z.shiftl 1 63.

Definition is_present (data : Z) : bool := flag_is_set data PRESENT.
Definition set_present (data : Z) (present : bool) : Z := flag_assign 64 data PRESENT present.

Definition is_readwrite (data : Z) : bool := flag_is_set data READWRITE.
Definition set_readwrite (data : Z) (readwrite : bool) : Z := flag_assign 64 data READWRITE readwrite.

Definition is_supervisor (data : Z) : bool := flag_is_set data SUPERVISOR.
Definition set_supervisor (data : Z) (supervisor : bool) : Z := flag_assign 64 data SUPERVISOR supervisor.

Definition is_page_write_through (data : Z) : bool := flag_is_set data PWT.
Definition set_page_write_through (data : Z) (enable : bool) : Z := flag_assign 64 data PWT enable.

Definition is_page_cache_disabled (data : Z) : bool := flag_is_set data PCD.
Definition set_page_cache_disabled (data : Z) (disabled : bool) : Z := flag_assign 64 data PCD disabled.

Definition is_accessed (data : Z) : bool := flag_is_set data ACCESSED.
Definition set_accessed (data : Z) (accessed : bool) : Z := flag_assign 64 data ACCESSED accessed.

Definition is_execute_disabled (data : Z) : bool := flag_is_set data EXECUTE_DISABLE.
Definition set_execute_disabled (data : Z) (disabled : bool) : Z := flag_assign 64 data EXECUTE_DISABLE disabled.

(** The flags of the entry, and their accessors by name. *)
Inductive flag := Present | ReadWrite | Supervisor | WriteThrough | CacheDisabled | Accessed | ExecuteDisabled.

#[global] Instance flag_eq_dec : EqDecision flag.
Proof. solve_decision. Defined.

Definition bit (f : flag) : Z :=
  match f with | Present => 0
  | ReadWrite => 1
  | Supervisor => 2
  | WriteThrough => 3
  | CacheDisabled => 4
  | Accessed => 5
  | ExecuteDisabled => 63 end.

Definition get (f : flag) (data : Z) : bool :=
  match f with
  | Present => is_present data
  | ReadWrite => is_readwrite data
  | Supervisor => is_supervisor data
  | WriteThrough => is_page_write_through data
  | CacheDisabled => is_page_cache_disabled data
  | Accessed => is_accessed data
  | ExecuteDisabled => is_execute_disabled data
  end.

Definition assign (f : flag) (data : Z) (b : bool) : Z :=
  match f with
  | Present => set_present data b
  | ReadWrite => set_readwrite data b
  | Supervisor => set_supervisor data b
  | WriteThrough => set_page_write_through data b
  | CacheDisabled => set_page_cache_disabled data b
  | Accessed => set_accessed data b
  | ExecuteDisabled => set_execute_disabled data b
  end.

Definition PAGE_SIZE_SHIFT : Z := 7.
Definition PAGE_SIZE_MASK : Z := Z.shiftl 1 PAGE_SIZE_SHIFT.

Definition get_page_size (data : Z) : Z :=
  Z.shiftr (Z.land data PAGE_SIZE_MASK) PAGE_SIZE_SHIFT.

Definition ADDRESS_ZERO_MASK : Z := 0xFFF0000000000FFF.
Definition ADDRESS_MASK : Z := 0xFFFFFFFFFF.
Definition ADDRESS_SHIFT : Z := 12.

Definition set_address (data address : Z) : Z :=
  let masked_address := Z.land (Z.shiftr address ADDRESS_SHIFT) ADDRESS_MASK in
  let field := Z.shiftl masked_address ADDRESS_SHIFT in
  Z.lor (Z.land data ADDRESS_ZERO_MASK) field.

Definition get_address (data : Z) : Z := Z.land data (unot 64 ADDRESS_ZERO_MASK).

(** Page-aligned physical addresses of at most 52 bits. *)
Definition addressable (a : Z) : Prop := fits 52 a ∧ a `mod` PAGE_SIZE = 0.

#[local] Hint Unfold PRESENT READWRITE SUPERVISOR PWT PCD ACCESSED EXECUTE_DISABLE is_present is_readwrite is_supervisor is_page_write_through is_page_cache_disabled is_accessed is_execute_disabled set_present set_readwrite set_supervisor set_page_write_through set_page_cache_disabled set_accessed set_execute_disabled : page_flags.

Lemma pde64_get_bit : ∀ f d, get f d = Z.testbit d (bit f).
Proof. flag_bits. Qed.

Lemma pde64_assign_bit : ∀ f d b i, 0 <= i → fits 64 d →
  Z.testbit (assign f d b) i = if i =? bit f then b else Z.testbit d i.
Proof. flag_bits. Qed.

Lemma pde64_zero_mask_bit i :
  0 <= i → Z.testbit ADDRESS_ZERO_MASK i = (i <? 12) || ((52 <=? i) && (i <? 64)).
Proof.
  intros. change ADDRESS_ZERO_MASK with (Z.lor (Z.ones 12) (Z.shiftl (Z.ones 12) 52)).
  rewrite Z.lor_spec, testbit_field, Z.testbit_ones by lia. by decide_Z.
Qed.

Lemma pde64_zero_mask_fits : fits 64 ADDRESS_ZERO_MASK.
Proof. done. Qed.

(** The address field of an entry. *)
Lemma pde64_field_bit d i :
  fits 64 d → 0 <= i →
  Z.testbit (Z.land d (unot 64 ADDRESS_ZERO_MASK)) i
  = (12 <=? i) && (i <? 52) && Z.testbit d i.
Proof.
  intros Hd Hi. rewrite Z.land_spec, unot_spec, pde64_zero_mask_bit by done.
  destruct (Z.lt_ge_cases i 64).
  - repeat case_Z; rewrite ?andb_true_r, ?andb_false_r; (done || lia).
  - rewrite (fits_testbit_high 64 d i) by (done || lia). by rewrite !andb_false_r.
Qed.

Lemma pde64_get_address_bit d i :
  fits 64 d → 0 <= i →
  Z.testbit (get_address d) i = (12 <=? i) && (i <? 52) && Z.testbit d i.
Proof. apply pde64_field_bit. Qed.

Lemma pde64_set_address_ok d a :
  fits 64 d → addressable a →
  ∃ d', Ok (set_address d a) = Ok d' ∧ fits 64 d' ∧ get_address d' = a ∧
        ∀ i, 0 <= i → ¬ 12 <= i < 52 → Z.testbit d' i = Z.testbit d i.
Proof.
  intros Hd [Ha H0]. set (d' := set_address d a).
  assert (∀ i, 0 <= i → Z.testbit d' i
    = if (12 <=? i) && (i <? 52) then Z.testbit a i else Z.testbit d i) as Hbit.
  { intros i Hi. unfold d', set_address, ADDRESS_SHIFT.
    rewrite Z.lor_spec, Z.land_spec, pde64_zero_mask_bit, Z.shiftl_spec by done.
    destruct (Z.lt_ge_cases i 12).
    - rewrite (Z.testbit_neg_r _ (i - 12)) by lia. decide_Z. by rewrite andb_true_r, orb_false_r.
    - rewrite Z.land_spec, Z.shiftr_spec by lia. change ADDRESS_MASK with (Z.ones 40).
      rewrite Z.testbit_ones by lia. replace (i - 12 + 12) with i by lia.
      destruct (Z.lt_ge_cases i 52); [by decide_Z; rewrite andb_true_r, andb_false_r|].
      decide_Z. rewrite andb_false_r, orb_false_r. destruct (Z.lt_ge_cases i 64).
      + decide_Z. by rewrite andb_true_r.
      + by rewrite (fits_testbit_high 64 d i). }
  assert (0 <= d') as Hpos.
  { apply Z.lor_nonneg. split; [apply Z.land_nonneg; by right|].
    apply Z.shiftl_nonneg, Z.land_nonneg. by right. }
  assert (fits 64 d') as Hd'.
  { apply fits_of_bits; [done|done|]. intros i Hi. rewrite Hbit by lia. decide_Z.
    by apply (fits_testbit_high 64). }
  exists d'. split; [done|]. split; [done|]. split.
  - apply bits_eq. intros i Hi. rewrite pde64_get_address_bit, Hbit by done.
    destruct (Z.lt_ge_cases i 12); [decide_Z; by rewrite page_aligned_low|].
    destruct (Z.lt_ge_cases i 52); [by decide_Z|]. decide_Z.
    symmetry. by apply (fits_testbit_high 52).
  - intros i Hi Hout. rewrite Hbit by done. repeat case_Z; (done || lia).
Qed.

#[global] Instance pde64_entry : PagingEntry flag := {|
  pe_width := 64;
  pe_get := get;
  pe_assign := assign;
  pe_get_address := get_address;
  pe_set_address := λ d a, Ok (set_address d a);
  pe_addressable := addressable;
|}.

#[global] Instance pde64_laws : PagingEntryLaws flag.
Proof.
  apply (contract_of_bits 64 bit).
  - by intros [] [].
  - intros []; simpl; lia.
  - apply pde64_get_bit.
  - intros [] d b; by apply flag_assign_fits.
  - apply pde64_assign_bit.
  - intros d d' Hd Hd' Hext. apply bits_eq. intros i Hi.
    rewrite !pde64_get_address_bit by done. address_ext Hext.
  - apply pde64_set_address_ok.
Qed.

End GenericPageDirectoryEntry.

(** ** Properties *)

(** The paging entries keep their contract: every flag of an entry can be set and
    cleared without touching any other flag or the address, every storable address reads
    back unchanged, and storing it leaves every flag alone.  An i386 entry stores every
    page-aligned 32-bit address.  On x86_64 a page-table entry stores every page-aligned
    address whose bits 52 to 63 are copies of bit 47; an entry of the upper levels, which
    does not sign-extend, every page-aligned address of at most 52 bits. *)
Theorem paging_entry_contracts :
  entry_contract 32 I386PageTableEntry.get I386PageTableEntry.assign
    I386PageTableEntry.get_address (λ d a, Ok (I386PageTableEntry.set_address d a))
    I386PageTableEntry.addressable ∧
  entry_contract 32 I386PageDirectoryEntry.get I386PageDirectoryEntry.assign
    I386PageDirectoryEntry.get_address (λ d a, Ok (I386PageDirectoryEntry.set_address d a))
    I386PageDirectoryEntry.addressable ∧
  entry_contract 64 X64PageTableEntry.get X64PageTableEntry.assign
    X64PageTableEntry.get_address X64PageTableEntry.set_address
    X64PageTableEntry.addressable ∧
  entry_contract 64 GenericPageDirectoryEntry.get GenericPageDirectoryEntry.assign
    GenericPageDirectoryEntry.get_address
    (λ d a, Ok (GenericPageDirectoryEntry.set_address d a))
    GenericPageDirectoryEntry.addressable.
Proof.
  split_and!; [apply I386PageTableEntry.pte32_laws|apply I386PageDirectoryEntry.pde32_laws
              |apply X64PageTableEntry.pte64_laws|apply GenericPageDirectoryEntry.pde64_laws].
Qed.

(** The comment in [get_address] of the x86_64 page-table entry says bits 48 to 63
    become copies of bit 47, but the mask only covers bits 52 to 63: the bits 48 to 51
    come back as they are stored, so a physical address with bit 47 set and those bits
    clear reads back as one that is neither the address stored nor canonical. *)
Theorem get_address_sign_extension_gap d a i :
  fits 64 d → fits 48 a → a `mod` PAGE_SIZE = 0 → Z.testbit a 47 = true →
  48 <= i < 64 →
  ∃ d', X64PageTableEntry.set_address d a = Ok d' ∧
        Z.testbit (X64PageTableEntry.get_address d') i = (52 <=? i).
Proof.
  intros Hd Ha H0 H47 Hi. unfold X64PageTableEntry.set_address.
  assert (is_page_aligned a = true) as ->.
  { unfold is_page_aligned. apply Z.eqb_eq. change (PAGE_SIZE - 1) with (Z.ones 12).
    by rewrite Z.land_ones. }
  eexists. split; [done|]. assert (fits 64 a) by (by eapply fits_mono; [|done]).
  rewrite X64PageTableEntry.pte64_get_address_bit; [|apply fits_lor; [done|by apply fits_land_l..]|lia].
  rewrite !Z.lor_spec, !Z.land_spec, !X64PageTableEntry.pte64_zero_mask_bit by lia.
  rewrite !unot_spec, !X64PageTableEntry.pte64_zero_mask_bit by (done || lia).
  rewrite (fits_testbit_high 48 a i) by (done || lia). rewrite H47.
  destruct (Z.lt_ge_cases i 52); decide_Z; by rewrite ?andb_false_r, ?orb_true_r.
Qed.

Lemma get_address_sign_extension_gap_witness :
  ∃ d', X64PageTableEntry.set_address 0 (2 ^ 47) = Ok d' ∧
        Z.testbit (X64PageTableEntry.get_address d') 48 = (52 <=? 48).
Proof.
  apply (get_address_sign_extension_gap 0 (2 ^ 47) 48);
    [unfold fits; lia|unfold fits; lia|reflexivity|reflexivity|lia].
Defined.
