(* ===== verification/Paging.v ===== *)
(** * Paging: the MMU, the resolvers and the unmanaged physical memory map

    Models, for i386 and x86_64:
    - [ConcreteHardwareMemoryManagementUnit] (platform/*/
      concrete_hardware_memory_management_unit.hpp), module [Mmu];
    - [PagingResolver] (platform/*/paging_resolver.hpp), modules [I386Resolver] and
      [X64Resolver], with the reference definition [walk] of a radix-tree walk, which
      both implement;
    - [GenericUnmanagedPhysicalMemoryMap] (platform/i386/
      generic_unmanaged_physical_memory_map.hpp), module [UnmanagedMap], over the
      interfaces [PagingEntry] and [PagingResolver];
    - [GenericKernelAddressSpaceBootstrapper] (platform/i386/
      generic_kernel_address_space_bootstrapper.hpp), module [Bootstrapper].

    The paging structures live in memory: [mem] maps the logical address of an entry to
    its data word.  Invalidations of the TLB are recorded in order. *)
From S2P Require Import Prelude PageFrameAllocator PageEntries.

(** ** The hardware MMU *)
Module Mmu.

Inductive tlb_event := FlushAll | FlushPage (linear_address : Z).

Record hw := mk { cr3 : Z; mem : gmap Z Z; tlb : list tlb_event }.

Definition with_mem (h : hw) (m : gmap Z Z) : hw := mk (cr3 h) m (tlb h).

Section Methods.
Context (W KERNEL_VIRTUAL_START_ADDR : Z).

Definition get_cr3 (h : hw) : Z := cr3 h.

(** [set_cr3(get_cr3())] *)
Definition reload (h : hw) : hw := mk (cr3 h) (mem h) (tlb h ++ [FlushAll]).

Definition convert_physical_to_logical_address (physical_address : Z) : Z :=
  uwrap W (physical_address + KERNEL_VIRTUAL_START_ADDR).

Definition convert_logical_to_physical_address (logical_address : Z) : result Z :=
  assert! KERNEL_VIRTUAL_START_ADDR <=? logical_address;
  mret (logical_address - KERNEL_VIRTUAL_START_ADDR).

Definition get_kernel_virtual_start_address : Z := KERNEL_VIRTUAL_START_ADDR.

Definition invalidate_page (h : hw) (linear_address : Z) : hw :=
  mk (cr3 h) (mem h) (tlb h ++ [FlushPage linear_address]).

(** [for (page = begin; page < end; page += PAGE_SIZE)]: the number of iterations
    when the address does not wrap around; a loop that would wrap runs out of it. *)
Definition page_fuel (begin end_ : Z) : nat :=
  Z.to_nat ((end_ - begin + PAGE_SIZE - 1) / PAGE_SIZE).

Fixpoint for_pages {S : Type} (fuel : nat) (body : Z → S → result S)
    (page end_ : Z) (s : S) : result S :=
  if page <? end_ then
    match fuel with
    | O => Fault OutOfFuel
    | S fuel => s ← body page s; for_pages fuel body (uwrap W (page + PAGE_SIZE)) end_ s
    end
  else mret s.

Definition invalidate_pages (h : hw) (begin end_ : Z) : result hw :=
  for_pages (page_fuel begin end_) (λ page h, mret (invalidate_page h page)) begin end_ h.

Lemma for_pages_preserves {S A : Type} (proj : S → A) (body : Z → S → result S) :
  (∀ page s s', body page s = Ok s' → proj s' = proj s) →
  ∀ n page end_ s s', for_pages n body page end_ s = Ok s' → proj s' = proj s.
Proof.
  intros Hbody n. induction n as [|n IH]; intros page end_ s s'; cbn [for_pages];
    (destruct (page <? end_); [|by intros [= <-]]); [done|].
  intros (s1 & E & E')%bind_ok. rewrite (IH _ _ _ _ E'). by apply (Hbody page).
Qed.

Lemma for_pages_invariant {S : Type} (P : S → Prop) (body : Z → S → result S) :
  (∀ page s s', fits W page → P s → body page s = Ok s' → P s') →
  ∀ n page end_ s s', 0 <= W → fits W page → P s → for_pages n body page end_ s = Ok s' → P s'.
Proof.
  intros Hbody n. induction n as [|n IH]; intros page end_ s s' HW Hp Hs; cbn [for_pages];
    (destruct (page <? end_); [|by intros [= <-]]); [done|].
  intros (s1 & E & E')%bind_ok. refine (IH _ _ _ _ HW _ _ E'); [by apply uwrap_fits|eauto].
Qed.

(** A body run on a list of pages, in order. *)
Fixpoint visit {S : Type} (body : Z → S → result S) (pages : list Z) (s : S) : result S :=
  match pages with
  | [] => mret s
  | page :: pages => s ← body page s; visit body pages s
  end.

Definition pages_between (begin end_ : Z) : list Z :=
  (λ k, begin + k * PAGE_SIZE) <$> seqZ 0 (Z.of_nat (page_fuel begin end_)).

(** The last address that the loop can reach from [begin]. *)
Definition last_page (begin : Z) : Z := 2 ^ W - PAGE_SIZE + begin `mod` PAGE_SIZE.

Lemma pages_between_cons begin end_ :
  begin < end_ →
  page_fuel begin end_ = Datatypes.S (page_fuel (begin + PAGE_SIZE) end_) ∧
  pages_between begin end_ = begin :: pages_between (begin + PAGE_SIZE) end_.
Proof.
  intros Hlt. assert (page_fuel begin end_ = Datatypes.S (page_fuel (begin + PAGE_SIZE) end_)) as E.
  { unfold page_fuel. rewrite <-Z2Nat.inj_succ by (apply Z.div_pos; [unfold PAGE_SIZE; lia|done]).
    f_equal. rewrite <-Z.add_1_r, <-Z.div_add by done. f_equal. lia. }
  split; [done|]. unfold pages_between. rewrite E, Nat2Z.inj_succ, seqZ_cons by lia.
  cbn [fmap list_fmap]. f_equal; [lia|]. rewrite Z.pred_succ. change (Z.succ 0) with (1 + 0).
  rewrite <-(fmap_add_seqZ 1 0), <-list_fmap_compose. apply list_fmap_ext. intros _ k _. cbn. lia.
Qed.

Lemma next_page_step begin :
  12 <= W → fits W begin →
  begin <= last_page begin ∧
  (begin < last_page begin → begin + PAGE_SIZE <= last_page begin) ∧
  (begin + PAGE_SIZE) `mod` PAGE_SIZE = begin `mod` PAGE_SIZE ∧
  uwrap W (begin + PAGE_SIZE) `mod` PAGE_SIZE = begin `mod` PAGE_SIZE.
Proof.
  intros HW [H0 H1]. assert ((PAGE_SIZE | 2 ^ W)) as [q Hq].
  { exists (2 ^ (W - 12)). change PAGE_SIZE with (2 ^ 12). rewrite <-Z.pow_add_r by lia. f_equal. lia. }
  assert ((begin + PAGE_SIZE) `mod` PAGE_SIZE = begin `mod` PAGE_SIZE) as Hm.
  { rewrite <-(Z.mul_1_l PAGE_SIZE) at 1. apply Z_mod_plus_full. }
  unfold last_page. split_and!; [| |done|].
  - rewrite Hq in *. unfold PAGE_SIZE in *. Z.to_euclidean_division_equations; nia.
  - rewrite Hq in *. unfold PAGE_SIZE in *. Z.to_euclidean_division_equations; nia.
  - rewrite <-Hm. unfold uwrap. rewrite Z.mod_mod_divide; [done|by exists q].
Qed.

Lemma for_pages_visits {S : Type} (body : Z → S → result S) begin end_ s :
  12 <= W → fits W begin → end_ <= last_page begin →
  for_pages (page_fuel begin end_) body begin end_ s = visit body (pages_between begin end_) s.
Proof.
  intros HW. remember (page_fuel begin end_) as n eqn:En. revert begin s En.
  induction n as [|n IH]; intros begin s En Hb He;
    destruct (Z.lt_ge_cases begin end_) as [Hlt|Hge].
  - destruct (pages_between_cons begin end_ Hlt) as [E _]. congruence.
  - unfold pages_between. rewrite <-En. cbn [for_pages]. by decide_Z.
  - destruct (pages_between_cons begin end_ Hlt) as [E ->]. cbn [for_pages visit]. decide_Z.
    destruct (next_page_step begin HW Hb) as (_ & Hnext & Hm & _). specialize (Hnext ltac:(lia)).
    assert (last_page (begin + PAGE_SIZE) = last_page begin) as El by (unfold last_page; by rewrite Hm).
    assert (fits W (begin + PAGE_SIZE)) as Hf.
    { unfold last_page, fits in *. pose proof (Z.mod_pos_bound begin PAGE_SIZE ltac:(done)).
      unfold PAGE_SIZE in *. lia. }
    rewrite uwrap_small by done. destruct (body begin s) as [s1|]; [|done]. cbn [mbind result_bind].
    apply IH; [congruence|done|by rewrite El].
  - exfalso. unfold page_fuel in En.
    assert (Z.to_nat ((end_ - begin + PAGE_SIZE - 1) / PAGE_SIZE) = 0%nat) as E0; [|congruence].
    unfold PAGE_SIZE. Z.to_euclidean_division_equations; lia.
Qed.

(** A body that always succeeds leaves only the fuel to fail. *)
Lemma for_pages_fault {S : Type} (body : Z → S → result S) :
  (∀ page s, ∃ s', body page s = Ok s') →
  ∀ n page end_ s e, for_pages n body page end_ s = Fault e → e = OutOfFuel.
Proof.
  intros Hbody n. induction n as [|n IH]; intros page end_ s e; cbn [for_pages];
    (destruct (page <? end_); [|done]); [by intros [= <-]|].
  destruct (Hbody page s) as [s' ->]. apply IH.
Qed.

Lemma for_pages_diverges {S : Type} (body : Z → S → result S) fuel :
  ∀ begin end_ s s', 12 <= W → fits W begin → last_page begin < end_ →
  for_pages fuel body begin end_ s ≠ Ok s'.
Proof.
  induction fuel as [|fuel IH]; intros begin end_ s s' HW Hb He; cbn [for_pages];
    destruct (next_page_step begin HW Hb) as (Hle & _ & _ & Hm); decide_Z; [done|].
  intros (s1 & _ & E)%bind_ok. refine (IH _ _ _ _ HW _ _ E); [by apply uwrap_fits; lia|].
  unfold last_page in *. by rewrite Hm.
Qed.

(** Reading an entry through a pointer. *)
Definition load (m : gmap Z Z) (entry : Z) : result Z :=
  if entry =? 0 then Fault NullDereference else deref InvalidAccess (m !! entry).

End Methods.
End Mmu.
Import Mmu.

(** ** i386: two levels of 1024 four-byte entries *)
Module I386Resolver.

Definition W : Z := 32.
Definition KERNEL_VIRTUAL_START_ADDR : Z := 0xC0000000.
Definition PageDirectory_COUNT : Z := 1024.
Definition PageTable_COUNT : Z := 1024.
Definition sizeof_entry : Z := 4.

Notation p2l := (convert_physical_to_logical_address W KERNEL_VIRTUAL_START_ADDR).

Definition get_page_directory_index (linear_address : Z) : Z :=
  let PDE_INDEX_SHIFT := 22 in
  Z.shiftr linear_address PDE_INDEX_SHIFT.

Definition get_page_table_index (linear_address : Z) : Z :=
  let PTE_INDEX_SHIFT := 12 in
  let PTE_INDEX_MASK := 0x03FF in
  Z.land (Z.shiftr linear_address PTE_INDEX_SHIFT) PTE_INDEX_MASK.

Definition get_page_directory_entry (pd linear_address : Z) : result Z :=
  if pd =? 0 then mret 0
  else
    let index := get_page_directory_index linear_address in
    assert! index <? PageDirectory_COUNT;
    mret (pd + index * sizeof_entry).

Definition get_page_table_entry_of (pt linear_address : Z) : result Z :=
  if pt =? 0 then mret 0
  else
    let index := get_page_table_index linear_address in
    assert! index <? PageTable_COUNT;
    mret (pt + index * sizeof_entry).

Definition get_page_table_of (m : gmap Z Z) (pd linear_address : Z) : result Z :=
  if pd =? 0 then mret 0
  else
    entry ← get_page_directory_entry pd linear_address;
    if entry =? 0 then mret 0
    else
      data ← load m entry;
      let address := I386PageDirectoryEntry.get_address data in
      if address =? 0 then mret 0 else mret (p2l address).

Definition get_page_directory (cr3_ : Z) : Z := p2l cr3_.

Definition get_page_table (m : gmap Z Z) (cr3_ linear_address : Z) : result Z :=
  let pd := get_page_directory cr3_ in
  if pd =? 0 then mret 0 else get_page_table_of m pd linear_address.

Definition get_page_table_entry (m : gmap Z Z) (cr3_ linear_address : Z) : result Z :=
  pt ← get_page_table m cr3_ linear_address;
  if pt =? 0 then mret 0 else get_page_table_entry_of pt linear_address.

(** [fn] receives the address of each PDE and the state it works on. *)
Fixpoint enumerate_loop {S : Type} (fuel : nat) (cr3_ linear_address remaining_length STEP : Z)
    (fn : Z → S → result S) (s : S) : result S :=
  if 0 <? remaining_length then
    match fuel with
    | O => Fault OutOfFuel
    | S fuel =>
        pde ← get_page_directory_entry (get_page_directory cr3_) linear_address;
        assert! negb (pde =? 0);
        s ← fn pde s;
        enumerate_loop fuel cr3_ (uwrap W (linear_address + STEP))
          (remaining_length - STEP) STEP fn s
    end
  else mret s.

Definition enumerate_page_directory_entries {S : Type} (cr3_ linear_address length : Z)
    (fn : Z → S → result S) (s : S) : result S :=
  assert! length <? 2 ^ 31 - 1;
  let STEP := 0x400000 in
  enumerate_loop (Z.to_nat ((length + STEP - 1) / STEP)) cr3_ linear_address length STEP fn s.

End I386Resolver.

(** ** x86_64: four levels of 512 eight-byte entries *)
Module X64Resolver.

Definition W : Z := 64.
Definition KERNEL_VIRTUAL_START_ADDR : Z := 0xFFFFFFFFC0000000.
Definition COUNT : Z := 512.
Definition sizeof_entry : Z := 8.

Notation p2l := (convert_physical_to_logical_address W KERNEL_VIRTUAL_START_ADDR).

Definition get_page_map_level_four_index (linear_address : Z) : Z :=
  Z.land (Z.shiftr linear_address 39) 0x1FF.

Definition get_page_directory_pointer_table_index (linear_address : Z) : Z :=
  Z.land (Z.shiftr linear_address 30) 0x1FF.

Definition get_page_directory_index (linear_address : Z) : Z :=
  Z.land (Z.shiftr linear_address 21) 0x1FF.

Definition get_page_table_index (linear_address : Z) : Z :=
  Z.land (Z.shiftr linear_address 12) 0x1FF.

Definition get_page_map_level_four_entry (pml4 linear_address : Z) : result Z :=
  if pml4 =? 0 then mret 0
  else
    let index := get_page_map_level_four_index linear_address in
    assert! index <? COUNT;
    mret (pml4 + index * sizeof_entry).

Definition get_page_directory_pointer_table_entry (pdpt linear_address : Z) : result Z :=
  if pdpt =? 0 then mret 0
  else
    let index := get_page_directory_pointer_table_index linear_address in
    assert! index <? COUNT;
    mret (pdpt + index * sizeof_entry).

Definition get_page_directory_entry (pd linear_address : Z) : result Z :=
  if pd =? 0 then mret 0
  else
    let index := get_page_directory_index linear_address in
    assert! index <? COUNT;
    mret (pd + index * sizeof_entry).

Definition get_page_table_entry_of (pt linear_address : Z) : result Z :=
  if pt =? 0 then mret 0
  else
    let index := get_page_table_index linear_address in
    assert! index <? COUNT;
    mret (pt + index * sizeof_entry).

Definition get_page_map_level_four (cr3_ : Z) : Z := p2l cr3_.

Definition get_page_directory_pointer_table (m : gmap Z Z) (pml4 linear_address : Z)
  : result Z :=
  if pml4 =? 0 then mret 0
  else
    entry ← get_page_map_level_four_entry pml4 linear_address;
    if entry =? 0 then mret 0
    else
      data ← load m entry;
      let address := GenericPageDirectoryEntry.get_address data in
      if address =? 0 then mret 0 else mret (p2l address).

Definition get_page_directory_of (m : gmap Z Z) (pdpt linear_address : Z) : result Z :=
  if pdpt =? 0 then mret 0
  else
    entry ← get_page_directory_pointer_table_entry pdpt linear_address;
    if entry =? 0 then mret 0
    else
      data ← load m entry;
      let address := GenericPageDirectoryEntry.get_address data in
      if address =? 0 then mret 0 else mret (p2l address).

Definition get_page_table_of (m : gmap Z Z) (pd linear_address : Z) : result Z :=
  if pd =? 0 then mret 0
  else
    entry ← get_page_directory_entry pd linear_address;
    if entry =? 0 then mret 0
    else
      data ← load m entry;
      let address := GenericPageDirectoryEntry.get_address data in
      if address =? 0 then mret 0 else mret (p2l address).

Definition get_page_directory (m : gmap Z Z) (cr3_ linear_address : Z) : result Z :=
  let pml4 := get_page_map_level_four cr3_ in
  if pml4 =? 0 then mret 0
  else
    pdpt ← get_page_directory_pointer_table m pml4 linear_address;
    if pdpt =? 0 then mret 0 else get_page_directory_of m pdpt linear_address.

Definition get_page_table (m : gmap Z Z) (cr3_ linear_address : Z) : result Z :=
  let pml4 := get_page_map_level_four cr3_ in
  if pml4 =? 0 then mret 0
  else
    pdpt ← get_page_directory_pointer_table m pml4 linear_address;
    if pdpt =? 0 then mret 0
    else
      pd ← get_page_directory_of m pdpt linear_address;
      if pd =? 0 then mret 0 else get_page_table_of m pd linear_address.

Definition get_page_table_entry (m : gmap Z Z) (cr3_ linear_address : Z) : result Z :=
  pt ← get_page_table m cr3_ linear_address;
  if pt =? 0 then mret 0 else get_page_table_entry_of pt linear_address.

(** The three enumerations differ in the entry they visit and in the step: [entry]
    finds it (asserting that the structure holding it exists).  The visited memory is
    part of the state [s], read by [mem_of]. *)
Fixpoint enumerate_loop {S : Type} (mem_of : S → gmap Z Z) (fuel : nat)
    (entry : gmap Z Z → Z → result Z) (linear_address remaining_length STEP : Z)
    (fn : Z → S → result S) (s : S) : result S :=
  if 0 <? remaining_length then
    match fuel with
    | O => Fault OutOfFuel
    | S fuel =>
        e ← entry (mem_of s) linear_address;
        assert! negb (e =? 0);
        s ← fn e s;
        enumerate_loop mem_of fuel entry (uwrap W (linear_address + STEP))
          (remaining_length - STEP) STEP fn s
    end
  else mret s.

Definition enumerate_page_map_level_four_entries {S : Type} (mem_of : S → gmap Z Z)
    (cr3_ linear_address length : Z) (fn : Z → S → result S) (s : S) : result S :=
  assert! length <? 2 ^ 31 - 1;
  let pml4 := get_page_map_level_four cr3_ in
  assert! negb (pml4 =? 0);
  let STEP := 0x8000000000 in
  enumerate_loop mem_of (Z.to_nat ((length + STEP - 1) / STEP))
    (λ _, get_page_map_level_four_entry pml4) linear_address length STEP fn s.

Definition enumerate_page_directory_pointer_table_entries {S : Type}
    (mem_of : S → gmap Z Z) (cr3_ linear_address length : Z)
    (fn : Z → S → result S) (s : S) : result S :=
  assert! length <? 2 ^ 31 - 1;
  let pml4 := get_page_map_level_four cr3_ in
  assert! negb (pml4 =? 0);
  let STEP := 0x40000000 in
  enumerate_loop mem_of (Z.to_nat ((length + STEP - 1) / STEP))
    (λ m la, pdpt ← get_page_directory_pointer_table m pml4 la;
             assert! negb (pdpt =? 0);
             get_page_directory_pointer_table_entry pdpt la)
    linear_address length STEP fn s.

Definition enumerate_page_directory_entries {S : Type} (mem_of : S → gmap Z Z)
    (cr3_ linear_address length : Z) (fn : Z → S → result S) (s : S) : result S :=
  assert! length <? 2 ^ 31 - 1;
  let STEP := 0x200000 in
  enumerate_loop mem_of (Z.to_nat ((length + STEP - 1) / STEP))
    (λ m la, pd ← get_page_directory m cr3_ la;
             assert! negb (pd =? 0);
             get_page_directory_entry pd la)
    linear_address length STEP fn s.

End X64Resolver.

(** ** The reference walk

    A radix tree of tables: [levels] are the index functions of the upper levels, in
    order, and [last] that of the page table; [get_address] reads an upper entry.  The
    answer is the address of the page-table entry, or 0 when a table is missing. *)
Section Walk.
Context (p2l : Z → Z) (sz : Z) (get_address : Z → Z) (last : Z → Z).

Fixpoint walk (levels : list (Z → Z)) (m : gmap Z Z) (table la : Z) : result Z :=
  if table =? 0 then mret 0
  else match levels with
       | [] => mret (table + last la * sz)
       | index :: levels =>
           data ← load m (table + index la * sz);
           if get_address data =? 0 then mret 0
           else walk levels m (p2l (get_address data)) la
       end.

(** The upper-level entries the walk reads. *)
Fixpoint visited (levels : list (Z → Z)) (m : gmap Z Z) (table la : Z) : list Z :=
  if table =? 0 then []
  else match levels with
       | [] => []
       | index :: levels =>
           let e := table + index la * sz in
           e :: match m !! e with
                | Some data => if get_address data =? 0 then []
                               else visited levels m (p2l (get_address data)) la
                | None => []
                end
       end.

(** No page-table entry is an upper-level entry, and different pages have different
    page-table entries: the tables do not overlap. *)
Definition separated (W pages : Z) (levels : list (Z → Z)) (m : gmap Z Z) (table : Z)
  : Prop :=
  ∀ la la' e, fits W la → fits W la' → walk levels m table la = Ok e → e ≠ 0 →
    e ∉ visited levels m table la' ∧
    (walk levels m table la' = Ok e →
     (la / PAGE_SIZE) `mod` pages = (la' / PAGE_SIZE) `mod` pages).

(** Writing a word the walk does not visit changes nothing on the way. *)
Lemma walk_frame levels m table la e v :
  e ∉ visited levels m table la →
  walk levels (<[e := v]> m) table la = walk levels m table la ∧
  visited levels (<[e := v]> m) table la = visited levels m table la.
Proof.
  revert table. induction levels as [|index levels IH]; intros table; simpl.
  { by destruct (table =? 0). }
  destruct (table =? 0); [done|]. rewrite not_elem_of_cons. intros [Hne Hrest].
  unfold load. rewrite lookup_insert_ne by done.
  destruct (_ =? 0); cbn.
  - destruct (m !! _) as [d|]; [|done]. destruct (get_address d =? 0); [done|].
    split; [done|]. f_equal. by apply IH.
  - destruct (m !! _) as [d|]; [|done]. cbn. destruct (get_address d =? 0); [done|].
    destruct (IH _ Hrest) as [-> ->]. done.
Qed.

Lemma separated_frame W pages levels m table la e v :
  separated W pages levels m table → fits W la → walk levels m table la = Ok e → e ≠ 0 →
  separated W pages levels (<[e := v]> m) table ∧
  ∀ la', fits W la' → walk levels (<[e := v]> m) table la' = walk levels m table la'.
Proof.
  intros Hsep Hla Hw He.
  assert (∀ la', fits W la' → walk levels (<[e := v]> m) table la' = walk levels m table la' ∧
    visited levels (<[e := v]> m) table la' = visited levels m table la') as Hfr.
  { intros la' Hla'. apply walk_frame. by apply (Hsep la la' e). }
  split; [|intros; by apply Hfr]. intros l1 l2 e1 H1 H2.
  destruct (Hfr l1 H1) as [-> _]. destruct (Hfr l2 H2) as [-> ->]. by apply Hsep.
Qed.

Lemma walk_index_ext levels m table la la' :
  (∀ index, index ∈ levels → index la = index la') → last la = last la' →
  walk levels m table la = walk levels m table la'.
Proof.
  intros Hl Hlast. revert table. induction levels as [|index levels IH]; intros table; simpl.
  { by rewrite Hlast. }
  rewrite (Hl index) by apply list_elem_of_here.
  destruct (table =? 0); [done|]. destruct (load m _); [|done]. cbn.
  destruct (get_address _ =? 0); [done|]. apply IH. intros i Hi. apply Hl.
  by apply list_elem_of_further.
Qed.
End Walk.

(** ** The interface of a resolver

    [pr_pages] is the number of pages the paging structures can tell apart. *)
Class PagingResolver (F : Type) := {
  pr_W : Z;
  pr_K : Z;
  pr_pages : Z;
  pr_get_page_table_entry : gmap Z Z → Z → Z → result Z;
  pr_separated : gmap Z Z → Z → Prop;
}.

Definition page_of (pages la : Z) : Z := (la / PAGE_SIZE) `mod` pages.

Class PagingResolverLaws (F : Type) `{PagingResolver F} := {
  pr_frame m cr3_ la e v :
    pr_separated m cr3_ → fits pr_W la →
    pr_get_page_table_entry m cr3_ la = Ok e → e ≠ 0 →
    pr_separated (<[e := v]> m) cr3_ ∧
    ∀ la', fits pr_W la' →
      pr_get_page_table_entry (<[e := v]> m) cr3_ la' = pr_get_page_table_entry m cr3_ la';
  pr_injective m cr3_ la la' e :
    pr_separated m cr3_ → fits pr_W la → fits pr_W la' →
    pr_get_page_table_entry m cr3_ la = Ok e → pr_get_page_table_entry m cr3_ la' = Ok e →
    e ≠ 0 → page_of pr_pages la = page_of pr_pages la';
  pr_same_page m cr3_ la la' :
    fits pr_W la → fits pr_W la' → page_of pr_pages la = page_of pr_pages la' →
    pr_get_page_table_entry m cr3_ la = pr_get_page_table_entry m cr3_ la';
}.

Lemma p2l_nonneg W K a : 0 <= W → 0 <= convert_physical_to_logical_address W K a.
Proof. intros. by apply uwrap_fits. Qed.

Lemma shiftr_land_ones a s n :
  0 <= s → 0 <= n → Z.land (Z.shiftr a s) (Z.ones n) = (a / 2 ^ s) `mod` 2 ^ n.
Proof. intros. by rewrite Z.land_ones, Z.shiftr_div_pow2. Qed.

Module I386Laws.
Import I386Resolver.

Definition levels : list (Z → Z) := [get_page_directory_index].

Notation ref := (walk p2l sizeof_entry I386PageDirectoryEntry.get_address
                   get_page_table_index levels).

Lemma i386_index_range la :
  fits 32 la → 0 <= get_page_directory_index la < 1024 ∧ 0 <= get_page_table_index la < 1024.
Proof.
  intros Hla. unfold get_page_directory_index, get_page_table_index, fits in *.
  change 0x3FF with (Z.ones 10). rewrite shiftr_land_ones, Z.shiftr_div_pow2 by lia.
  pose proof (Z.mod_pos_bound (la / 2 ^ 12) (2 ^ 10)). split; [|lia].
  split; [apply Z.div_pos; lia|apply Z.div_lt_upper_bound; lia].
Qed.

Lemma i386_resolver_walks m cr3_ la :
  fits 32 la → get_page_table_entry m cr3_ la = ref m (p2l cr3_) la.
Proof.
  intros Hla. pose proof (i386_index_range la Hla) as [Hd Ht].
  unfold get_page_table_entry, get_page_table, get_page_table_of, get_page_table_entry_of,
    get_page_directory_entry, get_page_directory, PageDirectory_COUNT, PageTable_COUNT.
  simpl walk. pose proof (p2l_nonneg W KERNEL_VIRTUAL_START_ADDR cr3_ ltac:(done)).
  destruct (Z.eqb_spec (p2l cr3_) 0); [done|].
  decide_Z. cbn [mbind result_bind mret result_ret]. unfold sizeof_entry. decide_Z.
  destruct (load m _) as [data|]; [|done]. cbn.
  destruct (_ =? 0); [done|]. cbn. destruct (_ =? 0); [done|]. done.
Qed.

#[global] Instance i386_resolver : PagingResolver I386PageTableEntry.flag := {|
  pr_W := 32;
  pr_K := KERNEL_VIRTUAL_START_ADDR;
  pr_pages := 2 ^ 20;
  pr_get_page_table_entry := get_page_table_entry;
  pr_separated := λ m cr3_, separated p2l sizeof_entry I386PageDirectoryEntry.get_address
                    get_page_table_index 32 (2 ^ 20) levels m (p2l cr3_);
|}.

Lemma i386_same_index la la' :
  fits 32 la → fits 32 la' → page_of (2 ^ 20) la = page_of (2 ^ 20) la' →
  get_page_directory_index la = get_page_directory_index la' ∧
  get_page_table_index la = get_page_table_index la'.
Proof.
  unfold fits, page_of, PAGE_SIZE. intros H1 H2 Hp.
  rewrite !Z.mod_small in Hp by (split; [apply Z.div_pos|apply Z.div_lt_upper_bound]; lia).
  unfold get_page_directory_index, get_page_table_index. change 0x3FF with (Z.ones 10).
  rewrite !shiftr_land_ones, !Z.shiftr_div_pow2 by lia.
  change (2 ^ 22) with (4096 * 1024). rewrite <-!Z.div_div by lia.
  change (2 ^ 12) with 4096. by rewrite Hp.
Qed.

#[global] Instance i386_resolver_laws : PagingResolverLaws I386PageTableEntry.flag.
Proof.
  constructor; simpl.
  - intros m cr3_ la e v Hsep Hla Hw He. rewrite i386_resolver_walks in Hw by done.
    destruct (separated_frame _ _ _ _ _ _ _ _ _ _ _ v Hsep Hla Hw He) as [? Hfr].
    split; [done|]. intros la' Hla'. rewrite !i386_resolver_walks by done. by apply Hfr.
  - intros m cr3_ la la' e Hsep Hla Hla' Hw Hw' He.
    rewrite i386_resolver_walks in Hw, Hw' by done. by apply (Hsep la la' e).
  - intros m cr3_ la la' Hla Hla' Hp. rewrite !i386_resolver_walks by done.
    destruct (i386_same_index la la') as [Hd Ht]; [done..|].
    apply walk_index_ext; [|done]. intros i [->|[]%elem_of_nil]%elem_of_cons. done.
Qed.
End I386Laws.

Module X64Laws.
Import X64Resolver.

Definition levels : list (Z → Z) :=
  [get_page_map_level_four_index; get_page_directory_pointer_table_index;
   get_page_directory_index].

Notation ref := (walk p2l sizeof_entry GenericPageDirectoryEntry.get_address
                   get_page_table_index levels).

Lemma x64_index_range la :
  0 <= get_page_map_level_four_index la < 512 ∧
  0 <= get_page_directory_pointer_table_index la < 512 ∧
  0 <= get_page_directory_index la < 512 ∧ 0 <= get_page_table_index la < 512.
Proof.
  unfold get_page_map_level_four_index, get_page_directory_pointer_table_index,
    get_page_directory_index, get_page_table_index.
  change 0x1FF with (Z.ones 9). rewrite !shiftr_land_ones by lia. change (2 ^ 9) with 512.
  split_and!; by apply Z.mod_pos_bound.
Qed.

Lemma x64_resolver_walks m cr3_ la :
  get_page_table_entry m cr3_ la = ref m (p2l cr3_) la.
Proof.
  pose proof (x64_index_range la) as (H4 & H3 & H2 & H1).
  assert (∀ a, 0 <= p2l a) as Hnn by (intros; by apply p2l_nonneg).
  unfold get_page_table_entry, get_page_table, get_page_table_of, get_page_directory_of,
    get_page_directory_pointer_table, get_page_table_entry_of, get_page_directory_entry,
    get_page_map_level_four_entry, get_page_directory_pointer_table_entry,
    get_page_map_level_four, COUNT, sizeof_entry.
  simpl walk. pose proof (Hnn cr3_). destruct (Z.eqb_spec (p2l cr3_) 0); [done|].
  decide_Z. cbn [mbind result_bind mret result_ret]. decide_Z.
  destruct (load m _) as [d1|]; [|done]. cbn [mbind result_bind mret result_ret].
  destruct (_ =? 0); [done|]. set (b1 := p2l _). pose proof (Hnn _ : 0 <= b1).
  cbn [mbind result_bind mret result_ret]. destruct (Z.eqb_spec b1 0); [done|].
  cbn [mbind result_bind mret result_ret]. decide_Z.
  destruct (load m _) as [d2|]; [|done]. cbn [mbind result_bind mret result_ret].
  destruct (_ =? 0); [done|]. set (b2 := p2l _). pose proof (Hnn _ : 0 <= b2).
  cbn [mbind result_bind mret result_ret]. destruct (Z.eqb_spec b2 0); [done|].
  cbn [mbind result_bind mret result_ret]. decide_Z.
  destruct (load m _) as [d3|]; [|done]. cbn [mbind result_bind mret result_ret].
  destruct (_ =? 0); [done|]. cbn. by destruct (_ =? 0).
Qed.

#[global] Instance x64_resolver : PagingResolver X64PageTableEntry.flag := {|
  pr_W := 64;
  pr_K := KERNEL_VIRTUAL_START_ADDR;
  pr_pages := 2 ^ 36;
  pr_get_page_table_entry := get_page_table_entry;
  pr_separated := λ m cr3_, separated p2l sizeof_entry GenericPageDirectoryEntry.get_address
                    get_page_table_index 64 (2 ^ 36) levels m (p2l cr3_);
|}.

(** An index is a slice of the page number. *)
Lemma x64_index_of_page la s :
  12 <= s → s + 9 <= 48 →
  Z.land (Z.shiftr la s) 0x1FF = (page_of (2 ^ 36) la / 2 ^ (s - 12)) `mod` 512.
Proof.
  intros Hs1 Hs2. change 0x1FF with (Z.ones 9). rewrite shiftr_land_ones by lia.
  change 512 with (2 ^ 9). unfold page_of. change PAGE_SIZE with (2 ^ 12).
  apply bits_eq. intros i Hi. destruct (Z.lt_ge_cases i 9).
  - rewrite !Z.mod_pow2_bits_low by lia. rewrite !Z.div_pow2_bits by lia.
    rewrite Z.mod_pow2_bits_low by lia. rewrite Z.div_pow2_bits by lia. f_equal. lia.
  - rewrite !Z.mod_pow2_bits_high by lia. done.
Qed.

#[global] Instance x64_resolver_laws : PagingResolverLaws X64PageTableEntry.flag.
Proof.
  constructor; simpl.
  - intros m cr3_ la e v Hsep Hla Hw He. rewrite x64_resolver_walks in Hw.
    destruct (separated_frame _ _ _ _ _ _ _ _ _ _ _ v Hsep Hla Hw He) as [? Hfr].
    split; [done|]. intros la' Hla'. rewrite !x64_resolver_walks. by apply Hfr.
  - intros m cr3_ la la' e Hsep Hla Hla' Hw Hw' He.
    rewrite x64_resolver_walks in Hw, Hw'. by apply (Hsep la la' e).
  - intros m cr3_ la la' _ _ Hp. rewrite !x64_resolver_walks.
    assert (∀ s, 12 <= s → s + 9 <= 48 →
      Z.land (Z.shiftr la s) 0x1FF = Z.land (Z.shiftr la' s) 0x1FF) as Hs.
    { intros s ? ?. rewrite !x64_index_of_page by done. by rewrite Hp. }
    apply walk_index_ext; [|by apply Hs].
    intros i Hi. unfold levels in Hi. rewrite !elem_of_cons, elem_of_nil in Hi.
    destruct Hi as [->|[->|[->|[]]]]; by apply Hs.
Qed.
End X64Laws.

(** ** The unmanaged physical memory map *)
Module UnmanagedMap.

Definition WRITABLE : Z := Z.shiftl 1 1.
Definition GLOBAL : Z := Z.shiftl 1 2.
Definition SUPERVISOR : Z := Z.shiftl 1 3.

(** The flags [map_page] needs of a page-table entry. *)
Class PteFlags (F : Type) := {
  f_present : F;
  f_readwrite : F;
  f_global : F;
  f_supervisor : F;
}.

Section Methods.
Context {F : Type} `{EqDecision F} `{PagingEntry F} `{PagingResolver F} `{PteFlags F}.

Definition map_page (cr3_ : Z) (h : hw) (physical_address linear_address flags : Z)
  : result hw :=
  pte ← pr_get_page_table_entry (mem h) cr3_ linear_address;
  assert! negb (pte =? 0);
  data ← load (mem h) pte;
  data ← pe_set_address data physical_address;
  let data := pe_assign f_present data (negb (physical_address =? 0)) in
  let data := pe_assign f_readwrite data (Z.land flags WRITABLE =? WRITABLE) in
  let data := pe_assign f_global data (Z.land flags GLOBAL =? GLOBAL) in
  let data := pe_assign f_supervisor data (Z.land flags SUPERVISOR =? SUPERVISOR) in
  mret (invalidate_page (with_mem h (<[pte := data]> (mem h))) linear_address).

Definition map_pages (cr3_ : Z) (h : hw) (begin end_ flags : Z) : result hw :=
  assert! begin <? end_;
  for_pages pr_W (page_fuel begin end_)
    (λ page h, physical ← convert_logical_to_physical_address pr_K page;
               map_page cr3_ h physical page flags)
    begin end_ h.

Definition set_readonly_page (cr3_ page : Z) (h : hw) : result hw :=
  pte ← pr_get_page_table_entry (mem h) cr3_ page;
  assert! negb (pte =? 0);
  data ← load (mem h) pte;
  mret (with_mem h (<[pte := pe_assign f_readwrite data false]> (mem h))).

Definition set_readonly (cr3_ : Z) (h : hw) (begin end_ : Z) : result hw :=
  h ← for_pages pr_W (page_fuel begin end_) (set_readonly_page cr3_) begin end_ h;
  invalidate_pages pr_W h begin end_.

(** What the tables say about a linear address: nothing, or the physical page and the
    protection (writable, global, supervisor). *)
Definition mapping (cr3_ : Z) (h : hw) (la : Z) : option (Z * (bool * bool * bool)) :=
  match pr_get_page_table_entry (mem h) cr3_ la with
  | Ok pte =>
      if pte =? 0 then None
      else data ← mem h !! pte;
           if pe_get f_present data
           then Some (pe_get_address data,
                      (pe_get f_readwrite data, pe_get f_global data,
                       pe_get f_supervisor data))
           else None
  | Fault _ => None
  end.

Definition protection (flags : Z) : bool * bool * bool :=
  (Z.land flags WRITABLE =? WRITABLE, Z.land flags GLOBAL =? GLOBAL,
   Z.land flags SUPERVISOR =? SUPERVISOR).

(** The page-table entry of [la] exists and holds a word of the right width. *)
Definition has_pte (cr3_ : Z) (h : hw) (la : Z) : Prop :=
  ∃ pte data, pr_get_page_table_entry (mem h) cr3_ la = Ok pte ∧ 0 < pte ∧
              mem h !! pte = Some data ∧ fits pe_width data.

Context `{!PagingEntryLaws F} `{!PagingResolverLaws F}.
Context (flags_distinct : NoDup [f_present; f_readwrite; f_global; f_supervisor]).

(** Setting the address and the four flags of one entry. *)
Lemma pte_word data physical flags :
  fits pe_width data → pe_addressable physical →
  ∃ d0, pe_set_address data physical = Ok d0 ∧
    let d1 := pe_assign f_present d0 (negb (physical =? 0)) in
    let d2 := pe_assign f_readwrite d1 (Z.land flags WRITABLE =? WRITABLE) in
    let d3 := pe_assign f_global d2 (Z.land flags GLOBAL =? GLOBAL) in
    let d4 := pe_assign f_supervisor d3 (Z.land flags SUPERVISOR =? SUPERVISOR) in
    fits pe_width d4 ∧ pe_get_address d4 = physical ∧
    pe_get f_present d4 = negb (physical =? 0) ∧
    (pe_get f_readwrite d4, pe_get f_global d4, pe_get f_supervisor d4) = protection flags.
Proof.
  intros Hd Ha. destruct (pe_contract data Hd) as [_ Hset].
  destruct (Hset physical Ha) as (d0 & E & Hd0 & Had & _). exists d0. split; [done|].
  intros d1 d2 d3 d4. unfold protection.
  pose proof (λ f g b d Hd, proj1 (pe_contract (F := F) d Hd) f g b) as Hc.
  assert (fits pe_width d1) as Hd1 by (by apply (Hc f_present)).
  assert (fits pe_width d2) as Hd2 by (by apply (Hc f_present)).
  assert (fits pe_width d3) as Hd3 by (by apply (Hc f_present)).
  assert (fits pe_width d4) as Hd4 by (by apply (Hc f_present)).
  split; [done|]. split.
  { assert (∀ g b d, fits pe_width d → pe_get_address (pe_assign g d b) = pe_get_address d)
      as Hadr by (intros g b d Hfd; apply (Hc g g b d Hfd)).
    unfold d4, d3, d2, d1 in *. by rewrite !Hadr. }
  repeat (apply NoDup_cons in flags_distinct as [? flags_distinct]).
  rewrite !not_elem_of_cons in *. destruct_and!.
  assert (∀ f g b d, fits pe_width d →
    pe_get f (pe_assign g d b) = if decide (f = g) then b else pe_get f d) as Hg.
  { intros f g b d Hfd. by apply (Hc f g b d Hfd). }
  unfold d4, d3, d2, d1 in *. rewrite !Hg by done.
  repeat match goal with |- context [decide (?x = ?y)] =>
    destruct (decide (x = y)); [try congruence|] end; try congruence; done.
Qed.

Lemma mapping_frame cr3_ h la e d la' tl :
  pr_separated (mem h) cr3_ → fits pr_W la → fits pr_W la' →
  pr_get_page_table_entry (mem h) cr3_ la = Ok e → e ≠ 0 →
  page_of pr_pages la' ≠ page_of pr_pages la →
  mapping cr3_ (mk (cr3 h) (<[e := d]> (mem h)) tl) la' = mapping cr3_ h la'.
Proof.
  intros Hsep Hla Hla' Hw He Hne. unfold mapping. simpl.
  destruct (pr_frame (mem h) cr3_ la e d Hsep Hla Hw He) as [_ Hfr]. rewrite Hfr by done.
  destruct (pr_get_page_table_entry (mem h) cr3_ la') as [e'|] eqn:Hw'; [|done].
  destruct (e' =? 0); [done|]. rewrite lookup_insert_ne; [done|]. intros ->.
  apply Hne. symmetry. by eapply pr_injective.
Qed.

Lemma map_page_ok cr3_ h physical la flags :
  pr_separated (mem h) cr3_ → fits pr_W la → has_pte cr3_ h la → pe_addressable physical →
  ∃ h', map_page cr3_ h physical la flags = Ok h' ∧ pr_separated (mem h') cr3_ ∧
    tlb h' = tlb h ++ [FlushPage la] ∧
    (∀ la', fits pr_W la' → has_pte cr3_ h la' → has_pte cr3_ h' la') ∧
    ∀ la', fits pr_W la' →
      mapping cr3_ h' la'
      = if page_of pr_pages la' =? page_of pr_pages la
        then (if physical =? 0 then None else Some (physical, protection flags))
        else mapping cr3_ h la'.
Proof.
  intros Hsep Hla (e & d & Hw & He & Hd & Hdf) Ha. unfold map_page, load. rewrite Hw.
  cbn [mbind result_bind]. decide_Z. rewrite Hd. cbn [mbind result_bind deref].
  destruct (pte_word d physical flags Hdf Ha) as (d0 & -> & Hword).
  cbn [mbind result_bind]. cbv zeta in Hword. set (d4 := pe_assign f_supervisor _ _) in *.
  destruct Hword as (Hd4 & Had & Hpr & Hprot).
  destruct (pr_frame (mem h) cr3_ la e d4 Hsep Hla Hw ltac:(lia)) as [Hsep' Hfr].
  eexists. split; [done|]. split; [done|]. split; [done|]. split.
  - intros la' Hla' (e' & d' & Hw' & He' & Hd' & Hdf'). exists e'. simpl. rewrite Hfr by done.
    destruct (decide (e' = e)) as [->|].
    + exists d4. by rewrite lookup_insert_eq.
    + exists d'. by rewrite lookup_insert_ne.
  - intros la' Hla'. destruct (Z.eqb_spec (page_of pr_pages la') (page_of pr_pages la)) as [Hp|Hp].
    + unfold mapping. simpl. rewrite Hfr by done.
      rewrite (pr_same_page (mem h) cr3_ la' la) by done. rewrite Hw. decide_Z.
      rewrite lookup_insert_eq. cbn [mbind option_bind]. rewrite Hpr, Had, Hprot. by destruct (physical =? 0).
    + apply (mapping_frame cr3_ h la e d4 la' (tlb h ++ [FlushPage la])); (done || lia).
Qed.

(** Pages closer than [pages] apart are different. *)
Lemma page_of_add pages a i j :
  0 < pages → 0 <= i < pages → 0 <= j < pages →
  page_of pages (a + i * PAGE_SIZE) = page_of pages (a + j * PAGE_SIZE) → i = j.
Proof.
  intros Hp Hi Hj. unfold page_of. rewrite !Z.div_add by done. intros Heq.
  pose proof (Z.div_mod (a / PAGE_SIZE + i) pages ltac:(lia)).
  pose proof (Z.div_mod (a / PAGE_SIZE + j) pages ltac:(lia)). rewrite Heq in *.
  set (q1 := (a / PAGE_SIZE + i) / pages) in *. set (q2 := (a / PAGE_SIZE + j) / pages) in *.
  assert (i - j = pages * (q1 - q2)) as Hd by lia.
  assert (q1 - q2 = 0) as Hq; [|rewrite Hq in Hd; lia].
  clearbody q1 q2. clear - Hi Hj Hd Hp. nia.
Qed.

(** One page of the kernel's logical mapping: its physical address is [page - K]. *)
Definition logical_mapping (flags page : Z) : option (Z * (bool * bool * bool)) :=
  if page - pr_K =? 0 then None else Some (page - pr_K, protection flags).

Lemma map_pages_loop cr3_ flags end_ n :
  0 < pr_pages → Z.of_nat n <= pr_pages → ∀ page h,
  pr_separated (mem h) cr3_ → 0 <= page → pr_K <= page →
  end_ <= page + Z.of_nat n * PAGE_SIZE → page + (Z.of_nat n - 1) * PAGE_SIZE < end_ →
  page + Z.of_nat n * PAGE_SIZE < 2 ^ pr_W →
  (∀ i, 0 <= i < Z.of_nat n → has_pte cr3_ h (page + i * PAGE_SIZE) ∧
                              pe_addressable (page + i * PAGE_SIZE - pr_K)) →
  ∃ h', for_pages pr_W n
      (λ page h, physical ← convert_logical_to_physical_address pr_K page;
                 map_page cr3_ h physical page flags) page end_ h = Ok h' ∧
    pr_separated (mem h') cr3_ ∧
    (∀ la, fits pr_W la → has_pte cr3_ h la → has_pte cr3_ h' la) ∧
    (∀ i, 0 <= i < Z.of_nat n →
       mapping cr3_ h' (page + i * PAGE_SIZE) = logical_mapping flags (page + i * PAGE_SIZE)) ∧
    (∀ la, fits pr_W la →
       (∀ i, 0 <= i < Z.of_nat n → page_of pr_pages la ≠ page_of pr_pages (page + i * PAGE_SIZE)) →
       mapping cr3_ h' la = mapping cr3_ h la).
Proof.
  intros Hpp. induction n as [|n IH]; intros Hn page h Hsep Hp0 HK Hend1 Hend2 Hw Hpte.
  { exists h. cbn [for_pages]. unfold PAGE_SIZE in *. decide_Z.
    split_and!; [done|done|done|intros; lia|done]. }
  cbn [for_pages]. unfold PAGE_SIZE in Hend2. decide_Z.
  assert (convert_logical_to_physical_address pr_K page = Ok (page - pr_K)) as Hconv.
  { unfold convert_logical_to_physical_address. by decide_Z. }
  rewrite Hconv. cbn [mbind result_bind].
  destruct (Hpte 0) as [Hp1 Ha1]; [lia|]. rewrite Z.mul_0_l, Z.add_0_r in Hp1, Ha1.
  assert (fits pr_W page) as Hfp by (unfold fits, PAGE_SIZE in *; lia).
  destruct (map_page_ok cr3_ h (page - pr_K) page flags Hsep Hfp Hp1 Ha1)
    as (h1 & -> & Hsep1 & _ & Hkeep & Hmap). cbn [mbind result_bind].
  rewrite uwrap_small by (unfold fits, PAGE_SIZE in *; lia).
  assert (∀ i, page + PAGE_SIZE + i * PAGE_SIZE = page + (i + 1) * PAGE_SIZE) as Hnext by lia.
  destruct (IH ltac:(lia) (page + PAGE_SIZE) h1) as (h2 & -> & Hsep2 & Hkeep2 & Hin & Hout);
    [done|unfold PAGE_SIZE in *; lia..| |].
  { intros i Hi. rewrite Hnext. destruct (Hpte (i + 1)) as [Hp Ha]; [lia|].
    split; [|done]. apply Hkeep; [unfold fits, PAGE_SIZE in *; lia|done]. }
  exists h2. split_and!; [done|done|by auto| |].
  - intros i Hi. destruct (decide (i = 0)) as [->|].
    + rewrite Z.mul_0_l, Z.add_0_r. rewrite Hout; [|done|].
      * rewrite Hmap by done. by rewrite Z.eqb_refl.
      * intros j Hj Heq. rewrite Hnext in Heq.
        rewrite <-(Z.add_0_r page), <-(Z.mul_0_l PAGE_SIZE) in Heq at 1.
        apply page_of_add in Heq; lia.
    + replace i with (i - 1 + 1) by lia. rewrite <-Hnext. apply Hin. lia.
  - intros la Hla Hne. rewrite Hout; [|done|].
    + rewrite Hmap by done. rewrite (proj2 (Z.eqb_neq _ _)); [done|].
      specialize (Hne 0 ltac:(lia)). by rewrite Z.mul_0_l, Z.add_0_r in Hne.
    + intros i Hi. rewrite Hnext. apply Hne. lia.
Qed.

(** ** set_readonly *)
Definition readonly (x : option (Z * (bool * bool * bool))) : option (Z * (bool * bool * bool)) :=
  match x with Some (a, (_, g, u)) => Some (a, (false, g, u)) | None => None end.

Lemma set_readonly_page_spec cr3_ h la :
  pr_separated (mem h) cr3_ → fits pr_W la → has_pte cr3_ h la →
  ∃ h', set_readonly_page cr3_ la h = Ok h' ∧ pr_separated (mem h') cr3_ ∧
    (∀ la', fits pr_W la' → has_pte cr3_ h la' → has_pte cr3_ h' la') ∧
    ∀ la', fits pr_W la' →
      mapping cr3_ h' la'
      = if page_of pr_pages la' =? page_of pr_pages la then readonly (mapping cr3_ h la')
        else mapping cr3_ h la'.
Proof.
  intros Hsep Hla (e & d & Hw & He & Hd & Hdf). unfold set_readonly_page, load. rewrite Hw.
  cbn [mbind result_bind]. decide_Z. rewrite Hd. cbn [mbind result_bind deref].
  set (d' := pe_assign f_readwrite d false).
  destruct (pe_contract (F := F) d Hdf) as [Hc _].
  assert (fits pe_width d') as Hdf' by apply (Hc f_readwrite f_readwrite false).
  assert (pe_get_address d' = pe_get_address d) as Had by apply (Hc f_readwrite f_readwrite false).
  assert (∀ f, pe_get f d' = if decide (f = f_readwrite) then false else pe_get f d) as Hfl
    by (intros f; apply (Hc f f_readwrite false)).
  destruct (pr_frame (mem h) cr3_ la e d' Hsep Hla Hw ltac:(lia)) as [Hsep' Hfr].
  eexists. split; [done|]. split; [done|]. split.
  - intros la' Hla' (e' & d0 & Hw' & He' & Hd0 & Hdf0). exists e'. cbn [mem with_mem]. rewrite Hfr by done.
    destruct (decide (e' = e)) as [->|]; [exists d'; by rewrite lookup_insert_eq|].
    exists d0. by rewrite lookup_insert_ne.
  - intros la' Hla'. destruct (Z.eqb_spec (page_of pr_pages la') (page_of pr_pages la)) as [Hp|Hp].
    2: { apply (mapping_frame cr3_ h la e d' la' (tlb h)); (done || lia). }
    unfold mapping. cbn [mem with_mem]. rewrite Hfr by done.
    rewrite (pr_same_page (mem h) cr3_ la' la) by done. rewrite Hw. decide_Z.
    rewrite lookup_insert_eq, Hd. cbn [mbind option_bind]. rewrite Had, !Hfl.
    pose proof flags_distinct as Hnd. rewrite !NoDup_cons, !not_elem_of_cons in Hnd.
    rewrite (decide_False (P := f_present = _)) by naive_solver.
    rewrite (decide_False (P := f_global = _)) by naive_solver.
    rewrite (decide_False (P := f_supervisor = _)) by naive_solver.
    rewrite decide_True by done. by destruct (pe_get f_present d).
Qed.

(** The pages from [page] on, [n] of them. *)
Definition in_pages (page : Z) (n : nat) (la : Z) : bool :=
  existsb (λ i, page_of pr_pages la =? page_of pr_pages (page + i * PAGE_SIZE)) (seqZ 0 (Z.of_nat n)).

Lemma in_pages_S page n la :
  in_pages page (S n) la
  = (page_of pr_pages la =? page_of pr_pages page) || in_pages (page + PAGE_SIZE) n la.
Proof.
  unfold in_pages. rewrite seqZ_cons by lia. cbn [existsb]. rewrite Z.mul_0_l, Z.add_0_r. f_equal.
  replace (Z.pred (Z.of_nat (S n))) with (Z.of_nat n) by lia.
  change (Z.succ 0) with (1 + 0). rewrite <-fmap_add_seqZ.
  generalize (seqZ 0 (Z.of_nat n)). intros l. induction l as [|i l IH]; [done|].
  cbn [fmap list_fmap existsb]. rewrite IH. do 3 f_equal. lia.
Qed.

Lemma set_readonly_loop cr3_ end_ n :
  0 < pr_pages → ∀ page h,
  pr_separated (mem h) cr3_ → 0 <= page →
  end_ <= page + Z.of_nat n * PAGE_SIZE → page + (Z.of_nat n - 1) * PAGE_SIZE < end_ →
  page + Z.of_nat n * PAGE_SIZE < 2 ^ pr_W →
  (∀ i, 0 <= i < Z.of_nat n → has_pte cr3_ h (page + i * PAGE_SIZE)) →
  ∃ h', for_pages pr_W n (set_readonly_page cr3_) page end_ h = Ok h' ∧
    pr_separated (mem h') cr3_ ∧
    (∀ la, fits pr_W la → has_pte cr3_ h la → has_pte cr3_ h' la) ∧
    ∀ la, fits pr_W la →
      mapping cr3_ h' la
      = if in_pages page n la then readonly (mapping cr3_ h la) else mapping cr3_ h la.
Proof.
  intros Hpp. induction n as [|n IH]; intros page h Hsep Hp0 Hend1 Hend2 Hw Hpte.
  { exists h. cbn [for_pages]. unfold PAGE_SIZE in *. decide_Z. by split_and!. }
  cbn [for_pages]. unfold PAGE_SIZE in Hend2. decide_Z.
  pose proof (Hpte 0 ltac:(lia)) as Hp1. rewrite Z.mul_0_l, Z.add_0_r in Hp1.
  assert (fits pr_W page) as Hfp by (unfold fits, PAGE_SIZE in *; lia).
  destruct (set_readonly_page_spec cr3_ h page Hsep Hfp Hp1) as (h1 & -> & Hsep1 & Hkeep & Hmap).
  cbn [mbind result_bind]. rewrite uwrap_small by (unfold fits, PAGE_SIZE in *; lia).
  destruct (IH (page + PAGE_SIZE) h1) as (h2 & -> & Hsep2 & Hkeep2 & Hmap2);
    [done|unfold PAGE_SIZE in *; lia..| |].
  { intros i Hi. replace (page + PAGE_SIZE + i * PAGE_SIZE) with (page + (i + 1) * PAGE_SIZE) by lia.
    apply Hkeep; [unfold fits, PAGE_SIZE in *; lia|]. apply Hpte. lia. }
  exists h2. split_and!; [done|done|by auto|]. intros la Hla. rewrite Hmap2, Hmap, in_pages_S by done.
  destruct (_ =? _), (in_pages _ n la); cbn [orb]; try done.
  by destruct (mapping cr3_ h la) as [[? [[? ?] ?]]|].
Qed.

Lemma set_readonly_page_cr3 cr3_ page h h' :
  set_readonly_page cr3_ page h = Ok h' → cr3 h' = cr3 h.
Proof.
  intros (e & _ & (_ & (d & _ & [= <-])%bind_ok)%assert_ok)%bind_ok. done.
Qed.

Lemma map_page_cr3 cr3_ h physical page flags h' :
  map_page cr3_ h physical page flags = Ok h' → cr3 h' = cr3 h.
Proof.
  intros (e & _ & (_ & (d & _ & (d' & _ & [= <-])%bind_ok)%bind_ok)%assert_ok)%bind_ok. done.
Qed.

Lemma invalidate_pages_mem end_ n :
  ∀ page h, 0 <= page → end_ <= page + Z.of_nat n * PAGE_SIZE → page + Z.of_nat n * PAGE_SIZE < 2 ^ pr_W →
  ∃ h', for_pages pr_W n (λ page h, mret (invalidate_page h page)) page end_ h = Ok h' ∧
    mem h' = mem h ∧ cr3 h' = cr3 h.
Proof.
  induction n as [|n IH]; intros page h Hp He Hw; cbn [for_pages]; unfold PAGE_SIZE in *.
  { decide_Z. by eexists. }
  destruct (Z.ltb_spec page end_); [|by eexists]. cbn [mbind result_bind mret result_ret].
  rewrite uwrap_small by (unfold fits; lia).
  destruct (IH (page + 4096) (invalidate_page h page)) as (h' & -> & Hm & Hc); [lia..|].
  exists h'. by rewrite Hm, Hc.
Qed.

(** [set_readonly] of [n] whole pages takes the right to write from exactly these. *)
Lemma set_readonly_ok cr3_ h begin n :
  0 < pr_pages → pr_separated (mem h) cr3_ → 0 <= begin →
  begin + Z.of_nat n * PAGE_SIZE < 2 ^ pr_W →
  (∀ i, 0 <= i < Z.of_nat n → has_pte cr3_ h (begin + i * PAGE_SIZE)) →
  ∃ h', set_readonly cr3_ h begin (begin + Z.of_nat n * PAGE_SIZE) = Ok h' ∧ cr3 h' = cr3 h ∧
    pr_separated (mem h') cr3_ ∧
    (∀ la, fits pr_W la → has_pte cr3_ h la → has_pte cr3_ h' la) ∧
    ∀ la, fits pr_W la →
      mapping cr3_ h' la
      = if in_pages begin n la then readonly (mapping cr3_ h la) else mapping cr3_ h la.
Proof.
  intros Hpp Hsep Hb Hw Hpte. unfold set_readonly, invalidate_pages.
  assert (page_fuel begin (begin + Z.of_nat n * PAGE_SIZE) = n) as ->.
  { unfold page_fuel. replace (_ - begin + PAGE_SIZE - 1) with (PAGE_SIZE - 1 + Z.of_nat n * PAGE_SIZE) by lia.
    rewrite Z.div_add by done. change ((PAGE_SIZE - 1) / PAGE_SIZE) with 0. lia. }
  destruct (set_readonly_loop cr3_ (begin + Z.of_nat n * PAGE_SIZE) n Hpp begin h)
    as (h1 & E & Hsep1 & Hkeep & Hmap); [done|done|lia|unfold PAGE_SIZE; lia|done|done|].
  rewrite E. cbn [mbind result_bind].
  pose proof (for_pages_preserves pr_W cr3 _ (set_readonly_page_cr3 cr3_) _ _ _ _ _ E) as Hc.
  destruct (invalidate_pages_mem (begin + Z.of_nat n * PAGE_SIZE) n begin h1) as (h2 & -> & Hm & Hc2);
    [lia..|].
  exists h2. unfold has_pte, mapping in *. rewrite Hm, Hc2, Hc. by split_and!.
Qed.

Lemma map_page_no_table cr3_ h physical la flags :
  pr_get_page_table_entry (mem h) cr3_ la = Ok 0 →
  map_page cr3_ h physical la flags = Fault AssertionFailed.
Proof. intros E. unfold map_page. by rewrite E. Qed.

End Methods.
End UnmanagedMap.

#[global] Instance i386_pte_flags : UnmanagedMap.PteFlags I386PageTableEntry.flag := {|
  UnmanagedMap.f_present := I386PageTableEntry.Present;
  UnmanagedMap.f_readwrite := I386PageTableEntry.ReadWrite;
  UnmanagedMap.f_global := I386PageTableEntry.Global;
  UnmanagedMap.f_supervisor := I386PageTableEntry.Supervisor;
|}.

#[global] Instance x64_pte_flags : UnmanagedMap.PteFlags X64PageTableEntry.flag := {|
  UnmanagedMap.f_present := X64PageTableEntry.Present;
  UnmanagedMap.f_readwrite := X64PageTableEntry.ReadWrite;
  UnmanagedMap.f_global := X64PageTableEntry.Global;
  UnmanagedMap.f_supervisor := X64PageTableEntry.Supervisor;
|}.

(** ** Bootstrapping the kernel's address space *)
Module Bootstrapper.

Record t := mk { count_ : Z; next_page_table_ : Z; hw_ : hw }.

(** The flags [prepare_page_directory_entry] sets. *)
Class PdeFlags (F : Type) := { d_present : F; d_readwrite : F }.

Section Methods.
Context {F : Type} `{EqDecision F} `{PagingEntry F} `{PdeFlags F}.
Context (K PageTable_COUNT sizeof_entry page_tables_ : Z).

Definition NUMBER_OF_PAGE_TABLES : Z :=
  KERNEL_MEMORY_REGION_SIZE / PAGE_SIZE / PageTable_COUNT.

Definition init (h : hw) : t := mk NUMBER_OF_PAGE_TABLES page_tables_ h.

Definition get_next_page_table (s : t) : result (Z * t) :=
  assert! 0 <? count_ s;
  mret (next_page_table_ s, mk (count_ s - 1) (next_page_table_ s + PAGE_SIZE) (hw_ s)).

Definition prepare_page_directory_entry (pde : Z) (s : t) : result t :=
  data ← load (mem (hw_ s)) pde;
  if pe_get_address data =? 0 then
    '(page_table, s) ← get_next_page_table s;
    physical_address ← convert_logical_to_physical_address K page_table;
    data ← pe_set_address data physical_address;
    let data := pe_assign d_readwrite data true in
    let data := pe_assign d_present data true in
    mret (mk (count_ s) (next_page_table_ s)
            (with_mem (hw_ s) (<[pde := data]> (mem (hw_ s)))))
  else mret s.

(** [memset(page_tables_, 0, sizeof(page_tables_))] *)
Definition clear_page_tables (m : gmap Z Z) : gmap Z Z :=
  foldr (λ k acc, <[page_tables_ + k * sizeof_entry := 0]> acc) m
    (seqZ 0 (NUMBER_OF_PAGE_TABLES * PageTable_COUNT)).

(** [enumerate] is the resolver's enumeration of the page-directory entries. *)
Definition prepare_address_space_internal
    (enumerate : Z → Z → Z → (Z → t → result t) → t → result t) (cr3_ : Z) (s : t)
  : result t :=
  let s := mk (count_ s) (next_page_table_ s)
             (with_mem (hw_ s) (clear_page_tables (mem (hw_ s)))) in
  enumerate cr3_ K KERNEL_MEMORY_REGION_SIZE prepare_page_directory_entry s.

Definition prepare_address_space
    (enumerate : Z → Z → Z → (Z → t → result t) → t → result t) (s : t) : result t :=
  let cr3_ := get_cr3 (hw_ s) in
  s ← prepare_address_space_internal enumerate cr3_ s;
  mret (mk (count_ s) (next_page_table_ s) (reload (hw_ s))).

(** ** Preparing a list of entries *)
Fixpoint prepare_all (es : list Z) (s : t) : result t :=
  match es with
  | [] => mret s
  | e :: es => s ← prepare_page_directory_entry e s; prepare_all es s
  end.

(** What happens to one entry [d]: it becomes [d']. *)
Definition prepared (d d' : Z) : Prop :=
  pe_get_address d' ≠ 0 ∧ (pe_get_address d ≠ 0 → d' = d) ∧
  (pe_get_address d = 0 → pe_get d_present d' = true ∧ pe_get d_readwrite d' = true).

Context `{!PagingEntryLaws F} (flags_distinct : (d_present : F) ≠ d_readwrite).

Definition pool_ok (s : t) : Prop :=
  ∀ i, 0 <= i < count_ s →
    K < next_page_table_ s + i * PAGE_SIZE ∧
    pe_addressable (next_page_table_ s + i * PAGE_SIZE - K).

(** An entry without a page table gets the next one of the pool. *)
Lemma prepare_fresh e s d :
  0 < e → mem (hw_ s) !! e = Some d → fits pe_width d → pe_get_address d = 0 →
  0 < count_ s → pool_ok s →
  ∃ d', prepare_page_directory_entry e s
        = Ok (mk (count_ s - 1) (next_page_table_ s + PAGE_SIZE)
                (with_mem (hw_ s) (<[e := d']> (mem (hw_ s))))) ∧
    fits pe_width d' ∧ pe_get_address d' = next_page_table_ s - K ∧
    pe_get d_present d' = true ∧ pe_get d_readwrite d' = true.
Proof.
  intros He Hm Hd Hz Hc Hpool. unfold prepare_page_directory_entry, load. decide_Z.
  rewrite Hm. cbn [mbind result_bind deref]. rewrite Hz, Z.eqb_refl.
  unfold get_next_page_table. decide_Z. cbn [mbind result_bind mret result_ret].
  destruct (Hpool 0) as [HK Ha]; [lia|]. rewrite Z.mul_0_l, Z.add_0_r in HK, Ha.
  unfold convert_logical_to_physical_address. decide_Z. cbn [mbind result_bind mret result_ret].
  destruct (pe_contract d Hd) as [_ Hset]. destruct (Hset _ Ha) as (d0 & -> & Hd0 & Had & _).
  cbn [mbind result_bind mret result_ret].
  destruct (pe_contract (F := F) d0 Hd0) as [Hc1 _].
  destruct (pe_contract (F := F) (pe_assign d_readwrite d0 true)) as [Hc2 _].
  { by apply (Hc1 d_readwrite). }
  eexists. split; [done|]. split; [by apply (Hc2 d_present)|]. split_and!.
  - destruct (Hc2 d_present d_present true) as (_ & _ & ->).
    by destruct (Hc1 d_present d_readwrite true) as (_ & _ & ->).
  - destruct (Hc2 d_present d_present true) as (_ & -> & _). by rewrite decide_True.
  - destruct (Hc2 d_readwrite d_present true) as (_ & -> & _).
    destruct (Hc1 d_readwrite d_readwrite true) as (_ & -> & _).
    by repeat case_decide.
Qed.

Lemma pool_next s m :
  pool_ok s → pool_ok (mk (count_ s - 1) (next_page_table_ s + PAGE_SIZE) m).
Proof.
  intros Hpool i Hi. cbn in *. destruct (Hpool (i + 1)) as [HK' Ha']; [lia|].
  replace (next_page_table_ s + PAGE_SIZE + i * PAGE_SIZE)
    with (next_page_table_ s + (i + 1) * PAGE_SIZE) by lia. done.
Qed.

Lemma prepare_one e s d :
  0 < e → mem (hw_ s) !! e = Some d → fits pe_width d → 0 < count_ s → pool_ok s →
  ∃ s' d', prepare_page_directory_entry e s = Ok s' ∧
    mem (hw_ s') = <[e := d']> (mem (hw_ s)) ∧ prepared d d' ∧
    count_ s - 1 <= count_ s' ∧ pool_ok s' ∧ tlb (hw_ s') = tlb (hw_ s).
Proof.
  intros He Hm Hd Hc Hpool. destruct (Z.eqb_spec (pe_get_address d) 0) as [Hz|Hz].
  - destruct (prepare_fresh e s d He Hm Hd Hz Hc Hpool) as (d' & E & _ & Had & Hp & Hr).
    destruct (Hpool 0) as [HK _]; [lia|].
    eexists _, d'. split; [exact E|]. split; [done|]. split; [by split_and!; [lia|..]|].
    split_and!; [done|by apply pool_next|done].
  - exists s, d. unfold prepare_page_directory_entry, load. decide_Z. rewrite Hm.
    cbn [mbind result_bind deref]. decide_Z.
    split_and!; [done|by rewrite insert_id|by split_and!|lia|done..].
Qed.

(** Entries without page tables get those of the pool in order. *)
Lemma prepare_all_fresh es s :
  NoDup es → Z.of_nat (length es) <= count_ s → pool_ok s →
  (∀ e, e ∈ es → 0 < e ∧ ∃ d, mem (hw_ s) !! e = Some d ∧ fits pe_width d ∧ pe_get_address d = 0) →
  ∃ s', prepare_all es s = Ok s' ∧ cr3 (hw_ s') = cr3 (hw_ s) ∧
    (∀ e, e ∉ es → mem (hw_ s') !! e = mem (hw_ s) !! e) ∧
    (∀ i e, es !! i = Some e →
       ∃ d', mem (hw_ s') !! e = Some d' ∧ fits pe_width d' ∧
             pe_get_address d' = next_page_table_ s + Z.of_nat i * PAGE_SIZE - K).
Proof.
  revert s. induction es as [|e es IH]; intros s Hnd Hc Hpool Hes; cbn [prepare_all].
  { exists s. split_and!; [done..|]. by intros [|i] e. }
  apply NoDup_cons in Hnd as [Hne Hnd]. cbn [length] in Hc.
  destruct (Hes e) as (He & d & Hm & Hd & Hz); [apply list_elem_of_here|].
  destruct (prepare_fresh e s d He Hm Hd Hz) as (d' & -> & Hfit & Had & _); [lia|done|].
  cbn [mbind result_bind].
  destruct (IH (mk (count_ s - 1) (next_page_table_ s + PAGE_SIZE)
                  (with_mem (hw_ s) (<[e := d']> (mem (hw_ s))))) Hnd)
    as (s2 & -> & Hcr & Hout & Hin); cbn [count_ next_page_table_ hw_ with_mem mem cr3] in *;
    [lia|by apply pool_next| |].
  { intros e' He'. destruct (Hes e') as (? & d1 & ?); [by apply list_elem_of_further|].
    split; [done|]. exists d1. rewrite lookup_insert_ne by naive_solver. done. }
  exists s2. split_and!; [done|done| |].
  - intros e'. rewrite not_elem_of_cons. intros [? ?]. rewrite Hout by done.
    by rewrite lookup_insert_ne.
  - intros [|i] e' He'; cbn in He'.
    + injection He' as ->. exists d'. rewrite Hout, lookup_insert_eq by done.
      split_and!; [done..|lia].
    + destruct (Hin i e' He') as (d1 & ? & ? & E). exists d1. split_and!; [done..|]. rewrite E. lia.
Qed.

Lemma prepare_all_ok es s :
  NoDup es → Z.of_nat (length es) <= count_ s → pool_ok s →
  (∀ e, e ∈ es → 0 < e ∧ ∃ d, mem (hw_ s) !! e = Some d ∧ fits pe_width d) →
  ∃ s', prepare_all es s = Ok s' ∧ 0 <= count_ s' ∧ tlb (hw_ s') = tlb (hw_ s) ∧
    (∀ e, e ∉ es → mem (hw_ s') !! e = mem (hw_ s) !! e) ∧
    (∀ e d, e ∈ es → mem (hw_ s) !! e = Some d →
       ∃ d', mem (hw_ s') !! e = Some d' ∧ prepared d d').
Proof.
  revert s. induction es as [|e es IH]; intros s Hnd Hc Hpool Hes; cbn [prepare_all].
  { exists s. split_and!; [done|simpl in *; lia|done|done|]. by intros e d ?%elem_of_nil. }
  apply NoDup_cons in Hnd as [Hne Hnd]. simpl in Hc.
  destruct (Hes e) as (He & d & Hm & Hd); [apply list_elem_of_here|].
  destruct (prepare_one e s d He Hm Hd) as (s1 & d' & -> & Hm1 & Hprep & Hc1 & Hpool1 & Ht1);
    [lia|done|]. cbn [mbind result_bind].
  destruct (IH s1 Hnd) as (s2 & -> & Hc2 & Ht2 & Hout & Hin); [lia|done| |].
  { intros e' He'. destruct (Hes e') as (? & d1 & ? & ?); [by apply list_elem_of_further|].
    split; [done|]. exists d1. rewrite Hm1, lookup_insert_ne by naive_solver. done. }
  exists s2. split_and!; [done|done|congruence| |].
  - intros e'. rewrite not_elem_of_cons. intros [? ?]. rewrite Hout, Hm1 by done.
    by rewrite lookup_insert_ne.
  - intros e' d1 [->|He']%elem_of_cons Hm'.
    + simplify_eq. exists d'. rewrite Hout, Hm1, lookup_insert_eq by done. done.
    + apply Hin; [done|]. rewrite Hm1, lookup_insert_ne by naive_solver. done.
Qed.

Lemma clear_page_tables_outside m e :
  0 < sizeof_entry →
  e < page_tables_ ∨ page_tables_ + NUMBER_OF_PAGE_TABLES * PageTable_COUNT * sizeof_entry <= e →
  clear_page_tables m !! e = m !! e.
Proof.
  intros Hsz He. unfold clear_page_tables.
  assert (∀ k, k ∈ seqZ 0 (NUMBER_OF_PAGE_TABLES * PageTable_COUNT) →
            page_tables_ + k * sizeof_entry ≠ e) as Hk.
  { intros k Hk%elem_of_seqZ. set (M := NUMBER_OF_PAGE_TABLES * PageTable_COUNT) in *.
    assert (k * sizeof_entry < M * sizeof_entry) by (apply Z.mul_lt_mono_pos_r; lia).
    assert (0 <= k * sizeof_entry) by (apply Z.mul_nonneg_nonneg; lia). lia. }
  revert Hk. generalize (seqZ 0 (NUMBER_OF_PAGE_TABLES * PageTable_COUNT)).
  intros ks Hks. induction ks as [|k ks IH]; simpl; [done|].
  rewrite lookup_insert_ne by apply Hks, list_elem_of_here.
  apply IH. intros k' ?. apply Hks. by apply list_elem_of_further.
Qed.

Lemma clear_page_tables_at m k :
  0 < sizeof_entry → 0 <= k < NUMBER_OF_PAGE_TABLES * PageTable_COUNT →
  clear_page_tables m !! (page_tables_ + k * sizeof_entry) = Some 0.
Proof.
  intros Hsz Hk. unfold clear_page_tables.
  assert (k ∈ seqZ 0 (NUMBER_OF_PAGE_TABLES * PageTable_COUNT)) as Hin by (apply elem_of_seqZ; lia).
  revert Hin.
  generalize (seqZ 0 (NUMBER_OF_PAGE_TABLES * PageTable_COUNT)).
  intros ks Hin. induction ks as [|k' ks IH]; [by apply elem_of_nil in Hin|].
  cbn [foldr]. destruct (decide (k' = k)) as [->|]; [by rewrite lookup_insert_eq|].
  rewrite lookup_insert_ne by nia. apply IH. by apply elem_of_cons in Hin as [->|].
Qed.

End Methods.

(** On i386, visiting the directory entries of a region in order. *)
Lemma i386_enumerate_prepares `{PagingEntry F} `{PdeFlags F} K cr3_ n la s :
  let pd := I386Resolver.get_page_directory cr3_ in
  0 < pd → 0 <= la → la + Z.of_nat n * 0x400000 < 2 ^ 32 →
  I386Resolver.enumerate_loop n cr3_ la (Z.of_nat n * 0x400000) 0x400000
    (prepare_page_directory_entry (F := F) K) s
  = prepare_all K ((λ j, pd + j * 4) <$> seqZ (la / 2 ^ 22) (Z.of_nat n)) s.
Proof.
  intros pd Hpd. revert la s. induction n as [|n IH]; intros la s Hla Hlt; [done|].
  rewrite seqZ_cons by lia. cbn [I386Resolver.enumerate_loop fmap list_fmap prepare_all].
  decide_Z. unfold I386Resolver.get_page_directory_entry. fold pd. decide_Z.
  unfold I386Resolver.get_page_directory_index, I386Resolver.PageDirectory_COUNT,
    I386Resolver.sizeof_entry. rewrite Z.shiftr_div_pow2 by lia.
  assert (0 <= la / 2 ^ 22 < 1024) as Hidx.
  { split; [apply Z.div_pos; lia|apply Z.div_lt_upper_bound; lia]. }
  decide_Z. cbn [mbind result_bind mret result_ret]. decide_Z.
  destruct (prepare_page_directory_entry K (pd + la / 2 ^ 22 * 4) s) as [s1|]; [|done].
  cbn [mbind result_bind]. rewrite uwrap_small by (unfold fits, I386Resolver.W; lia).
  replace (Z.of_nat (S n) * 0x400000 - 0x400000) with (Z.of_nat n * 0x400000) by lia.
  rewrite IH by lia. replace (la + 0x400000) with (la + 1 * 2 ^ 22) by lia.
  rewrite Z.div_add by lia. repeat f_equal; lia.
Qed.
End Bootstrapper.

#[global] Instance i386_pde_flags : Bootstrapper.PdeFlags I386PageDirectoryEntry.flag := {|
  Bootstrapper.d_present := I386PageDirectoryEntry.Present;
  Bootstrapper.d_readwrite := I386PageDirectoryEntry.ReadWrite;
|}.

(** ** Properties *)
Module PagingProperties.
Import UnmanagedMap.

(** C7: Both resolvers compute the reference walk: i386 through a page directory and a
    page table, indexed by bits 31:22 and 21:12 of the address; x86_64 through four
    tables, indexed by bits 47:39, 38:30, 29:21 and 20:12.  No assertion on the way
    can fail, a missing table yields null, and an entry that is not mapped faults. *)
Theorem resolvers_implement_walk m cr3_ la :
  (fits 32 la →
   I386Resolver.get_page_table_entry m cr3_ la
   = walk (convert_physical_to_logical_address 32 0xC0000000) 4
       I386PageDirectoryEntry.get_address (λ a, (a / 2 ^ 12) `mod` 2 ^ 10)
       [λ a, a / 2 ^ 22] m (convert_physical_to_logical_address 32 0xC0000000 cr3_) la) ∧
  X64Resolver.get_page_table_entry m cr3_ la
  = walk (convert_physical_to_logical_address 64 0xFFFFFFFFC0000000) 8
      GenericPageDirectoryEntry.get_address (λ a, (a / 2 ^ 12) `mod` 2 ^ 9)
      [λ a, (a / 2 ^ 39) `mod` 2 ^ 9; λ a, (a / 2 ^ 30) `mod` 2 ^ 9;
       λ a, (a / 2 ^ 21) `mod` 2 ^ 9] m
      (convert_physical_to_logical_address 64 0xFFFFFFFFC0000000 cr3_) la.
Proof.
  split.
  - intros Hla. rewrite I386Laws.i386_resolver_walks by done. unfold I386Laws.levels. cbn [walk].
    unfold I386Resolver.get_page_directory_index, I386Resolver.get_page_table_index.
    change 0x3FF with (Z.ones 10). rewrite shiftr_land_ones, Z.shiftr_div_pow2 by lia. done.
  - rewrite X64Laws.x64_resolver_walks. unfold X64Laws.levels. cbn [walk].
    unfold X64Resolver.get_page_map_level_four_index,
      X64Resolver.get_page_directory_pointer_table_index,
      X64Resolver.get_page_directory_index, X64Resolver.get_page_table_index.
    change 0x1FF with (Z.ones 9). rewrite !shiftr_land_ones by lia. done.
Qed.

Lemma resolvers_implement_walk_witness :
  I386Resolver.get_page_table_entry {[0xC0001004 := 0x5003]} 0x1000 0x401000
  = Ok 0xC0005004.
Proof.
  destruct (resolvers_implement_walk {[0xC0001004 := 0x5003]} 0x1000 0x401000) as [-> _];
    [vm_compute; reflexivity|unfold fits; lia].
Defined.

(** What mapping one page promises: the page is mapped to the given frame with the given
    protection (or unmapped, for frame zero), every other page keeps its mapping, and
    the page's TLB entry is invalidated; without a page table the call stops in its
    assertion. *)
Definition map_page_contract (F : Type) `{EqDecision F} `{PagingEntry F}
    `{PagingResolver F} `{PteFlags F} : Prop :=
  ∀ cr3_ h physical la flags, fits pr_W la →
    (pr_separated (mem h) cr3_ → has_pte cr3_ h la → pe_addressable physical →
     ∃ h', map_page cr3_ h physical la flags = Ok h' ∧ pr_separated (mem h') cr3_ ∧
       tlb h' = tlb h ++ [FlushPage la] ∧
       ∀ la', fits pr_W la' →
         mapping cr3_ h' la'
         = if page_of pr_pages la' =? page_of pr_pages la
           then (if physical =? 0 then None else Some (physical, protection flags))
           else mapping cr3_ h la') ∧
    (pr_get_page_table_entry (mem h) cr3_ la = Ok 0 →
     map_page cr3_ h physical la flags = Fault AssertionFailed).

Lemma pte_flags_distinct_i386 :
  NoDup [f_present (F := I386PageTableEntry.flag); f_readwrite; f_global; f_supervisor].
Proof. simpl. repeat (constructor; [set_solver|]). constructor. Qed.

Lemma pte_flags_distinct_x64 :
  NoDup [f_present (F := X64PageTableEntry.flag); f_readwrite; f_global; f_supervisor].
Proof. simpl. repeat (constructor; [set_solver|]). constructor. Qed.

(** C6: [map_page] keeps its contract on both architectures: where the page has a page
    table the call succeeds, the page is then mapped to the given frame with the given
    protection (or unmapped, for frame zero), every other page keeps its mapping and
    the page's TLB entry is invalidated; without a page table it stops in its
    assertion. *)
Theorem map_page_correct :
  map_page_contract I386PageTableEntry.flag ∧ map_page_contract X64PageTableEntry.flag.
Proof.
  split; intros cr3_ h physical la flags Hla; (split; [|apply map_page_no_table]).
  - intros Hsep Hpte Ha.
    destruct (map_page_ok pte_flags_distinct_i386 cr3_ h physical la flags Hsep Hla Hpte Ha)
      as (h' & ? & ? & ? & _ & ?). eauto 10.
  - intros Hsep Hpte Ha.
    destruct (map_page_ok pte_flags_distinct_x64 cr3_ h physical la flags Hsep Hla Hpte Ha)
      as (h' & ? & ? & ? & _ & ?). eauto 10.
Qed.

(** A directory with one page table: the page at 0xC0400000 can be mapped. *)
Definition demo_hw : hw :=
  Mmu.mk 0x1000 {[0xC0001C04 := 0x5003; 0xC0005000 := 0]} [].

Lemma demo_walk la e :
  fits 32 la → I386Resolver.get_page_table_entry (mem demo_hw) 0x1000 la = Ok e → e ≠ 0 →
  I386Resolver.get_page_directory_index la = 769 ∧
  e = 0xC0005000 + 4 * I386Resolver.get_page_table_index la.
Proof.
  intros Hla Hw He. pose proof (I386Laws.i386_index_range la Hla) as [Hd Ht].
  rewrite I386Laws.i386_resolver_walks in Hw by done. unfold I386Laws.levels in Hw. cbn [walk] in Hw.
  change (convert_physical_to_logical_address I386Resolver.W
            I386Resolver.KERNEL_VIRTUAL_START_ADDR 0x1000) with 0xC0001000 in Hw.
  unfold I386Resolver.sizeof_entry in *. cbn [Z.eqb] in Hw. apply bind_ok in Hw as (d & Hld & Hw).
  unfold load in Hld. revert Hld. decide_Z. intros Hld%deref_ok.
  unfold demo_hw in Hld. cbn [mem] in Hld.
  apply lookup_insert_Some in Hld as [[Heq <-]|[_ Hld]].
  - change (I386PageDirectoryEntry.get_address 0x5003) with 0x5000 in Hw.
    change (convert_physical_to_logical_address I386Resolver.W
              I386Resolver.KERNEL_VIRTUAL_START_ADDR 0x5000) with 0xC0005000 in Hw.
    cbn in Hw. injection Hw as <-. lia.
  - apply lookup_singleton_Some in Hld as [? _]. lia.
Qed.

Lemma demo_separated : pr_separated (F := I386PageTableEntry.flag) (mem demo_hw) 0x1000.
Proof.
  intros la la' e Hla Hla' Hw He.
  rewrite <-I386Laws.i386_resolver_walks in Hw by done.
  destruct (demo_walk la e Hla Hw He) as [Hd ->].
  pose proof (I386Laws.i386_index_range la Hla) as [_ Ht].
  pose proof (I386Laws.i386_index_range la' Hla') as [Hd' _]. split.
  - unfold I386Laws.levels. cbn [visited].
    change (convert_physical_to_logical_address I386Resolver.W
              I386Resolver.KERNEL_VIRTUAL_START_ADDR 0x1000) with 0xC0001000.
    cbn [Z.eqb]. unfold I386Resolver.sizeof_entry in *. intros [Heq|Hin]%elem_of_cons; [lia|].
    destruct (_ !! _) as [d|]; [|by apply elem_of_nil in Hin].
    destruct (_ =? 0); [by apply elem_of_nil in Hin|].
    cbn [visited] in Hin. destruct (_ =? 0); by apply elem_of_nil in Hin.
  - intros Hw'. rewrite <-I386Laws.i386_resolver_walks in Hw' by done.
    destruct (demo_walk la' _ Hla' Hw') as [Hd1 Heq]; [lia|].
    unfold I386Resolver.get_page_directory_index, I386Resolver.get_page_table_index in *.
    change 0x3FF with (Z.ones 10) in *. rewrite shiftr_land_ones, Z.shiftr_div_pow2 in * by lia.
    f_equal. unfold PAGE_SIZE. change (2 ^ 22) with (4096 * 1024) in *.
    rewrite <-Z.div_div in * by lia. change (2 ^ 12) with 4096 in *. change (2 ^ 10) with 1024 in *.
    rewrite Z.land_ones in Heq by lia. change (2 ^ 10) with 1024 in Heq.
    pose proof (Z.div_mod (la / 4096) 1024 ltac:(lia)).
    pose proof (Z.div_mod (la' / 4096) 1024 ltac:(lia)). lia.
Qed.

Lemma map_page_correct_witness :
  ∃ h', map_page (F := I386PageTableEntry.flag) 0x1000 demo_hw 0x7000 0xC0400000 2 = Ok h' ∧
        mapping (F := I386PageTableEntry.flag) 0x1000 h' 0xC0400123
        = Some (0x7000, (true, false, false)).
Proof.
  destruct (proj1 map_page_correct 0x1000 demo_hw 0x7000 0xC0400000 2) as [H _];
    [unfold fits; simpl; lia|].
  destruct H as (h' & E & _ & _ & Hm).
  - exact demo_separated.
  - exists 0xC0005000, 0. split; [vm_compute; reflexivity|]. split; [lia|].
    split; [vm_compute; reflexivity|]. unfold fits; simpl; lia.
  - split; [unfold fits; lia|reflexivity].
  - exists h'. split; [exact E|]. rewrite (Hm 0xC0400123) by (unfold fits; simpl; lia).
    reflexivity.
Defined.

(** [map_pages] on a run of whole pages in the kernel's logical region maps each of
    them to the frame at the fixed offset below it, with the requested protection, and
    no other page; it always terminates.  (Frame zero, the first page of the region,
    ends up not present.) *)
Theorem map_pages_maps_logical_region cr3_ h begin n flags :
  pr_separated (F := I386PageTableEntry.flag) (mem h) cr3_ →
  0xC0000000 <= begin → begin `mod` PAGE_SIZE = 0 → 0 < n →
  begin + n * PAGE_SIZE < 2 ^ 32 →
  (∀ i, 0 <= i < n → has_pte (F := I386PageTableEntry.flag) cr3_ h (begin + i * PAGE_SIZE)) →
  ∃ h', map_pages (F := I386PageTableEntry.flag) cr3_ h begin (begin + n * PAGE_SIZE) flags
        = Ok h' ∧
    (∀ i, 0 <= i < n →
       mapping (F := I386PageTableEntry.flag) cr3_ h' (begin + i * PAGE_SIZE)
       = if begin + i * PAGE_SIZE =? 0xC0000000 then None
         else Some (begin + i * PAGE_SIZE - 0xC0000000, protection flags)) ∧
    (∀ la, fits 32 la → la < begin ∨ begin + n * PAGE_SIZE <= la →
       mapping (F := I386PageTableEntry.flag) cr3_ h' la
       = mapping (F := I386PageTableEntry.flag) cr3_ h la).
Proof.
  intros Hsep HK Hal Hn Hlt Hpte. unfold map_pages, PAGE_SIZE in *. decide_Z.
  assert (page_fuel begin (begin + n * 4096) = Z.to_nat n) as ->.
  { unfold page_fuel, PAGE_SIZE. replace (begin + n * 4096 - begin + 4096 - 1) with (4095 + n * 4096) by lia.
    rewrite Z.div_add by lia. change (4095 / 4096) with 0. f_equal. }
  destruct (map_pages_loop (F := I386PageTableEntry.flag) pte_flags_distinct_i386 cr3_ flags
              (begin + n * 4096) (Z.to_nat n)) with (page := begin) (h := h)
    as (h' & -> & _ & _ & Hin & Hout); unfold PAGE_SIZE in *;
    rewrite ?Z2Nat.id in * by lia; simpl pr_K in *; simpl pr_W in *; simpl pr_pages in *;
    unfold I386Resolver.KERNEL_VIRTUAL_START_ADDR in *; try lia; try done.
  - intros i Hi. split; [by apply Hpte|]. split; [unfold fits; lia|].
    unfold PAGE_SIZE. replace (begin + i * 4096 - 0xC0000000)
      with (begin + (i - 0xC0000) * 4096) by lia. by rewrite Z_mod_plus_full.
  - exists h'. split; [done|]. split.
    + intros i Hi. rewrite Hin by done. unfold logical_mapping. simpl pr_K.
      unfold I386Resolver.KERNEL_VIRTUAL_START_ADDR.
      destruct (Z.eqb_spec (begin + i * 4096 - 0xC0000000) 0); decide_Z; done.
    + intros la Hla Hr. apply Hout; [done|]. intros i Hi. unfold page_of, PAGE_SIZE, fits in *.
      rewrite !Z.mod_small by (split; [apply Z.div_pos|apply Z.div_lt_upper_bound]; lia).
      pose proof (Z.div_mod begin 4096 ltac:(lia)). rewrite Z.div_add by lia.
      pose proof (Z.div_mod la 4096 ltac:(lia)). pose proof (Z.mod_pos_bound la 4096 ltac:(lia)). lia.
Qed.

Lemma demo_has_pte : has_pte (F := I386PageTableEntry.flag) 0x1000 demo_hw 0xC0400000.
Proof.
  exists 0xC0005000, 0. split; [vm_compute; reflexivity|]. split; [lia|].
  split; [vm_compute; reflexivity|]. unfold fits; simpl; lia.
Qed.

Lemma map_pages_maps_logical_region_witness :
  ∃ h', map_pages (F := I386PageTableEntry.flag) 0x1000 demo_hw 0xC0400000
          (0xC0400000 + 1 * PAGE_SIZE) 2 = Ok h' ∧
        mapping (F := I386PageTableEntry.flag) 0x1000 h' (0xC0400000 + 0 * PAGE_SIZE)
        = Some (0x400000, (true, false, false)).
Proof.
  destruct (map_pages_maps_logical_region 0x1000 demo_hw 0xC0400000 1 2 demo_separated)
    as (h' & E & Hin & _); [lia|reflexivity|lia|unfold PAGE_SIZE; lia| |].
  - intros i Hi. replace i with 0 by lia. exact demo_has_pte.
  - exists h'. split; [exact E|]. rewrite (Hin 0) by lia. reflexivity.
Defined.

Lemma pde_flags_distinct_i386 :
  Bootstrapper.d_present (F := I386PageDirectoryEntry.flag) ≠ Bootstrapper.d_readwrite.
Proof. done. Qed.

(** Preparing the kernel's address space on i386 always succeeds when the page
    directory is there: the eight statically allocated page tables are enough for the
    eight directory entries of the 32 MB kernel region.  Afterwards each of these
    entries has a page table: those that had one are unchanged, the others are present
    and writable; and the TLB is flushed once. *)
Theorem bootstrapper_prepares_region page_tables h :
  let pd := I386Resolver.get_page_directory (cr3 h) in
  let pdes := (λ j, pd + j * 4) <$> seqZ 768 8 in
  0 < pd → pd + PAGE_SIZE <= page_tables → 0xC0000000 < page_tables →
  page_tables `mod` PAGE_SIZE = 0 → page_tables + 8 * PAGE_SIZE <= 2 ^ 32 →
  (∀ e, e ∈ pdes → ∃ d, mem h !! e = Some d ∧ fits 32 d) →
  ∃ s', Bootstrapper.prepare_address_space (F := I386PageDirectoryEntry.flag)
          0xC0000000 1024 4 page_tables
          I386Resolver.enumerate_page_directory_entries
          (Bootstrapper.init 1024 page_tables h) = Ok s' ∧
    tlb (Bootstrapper.hw_ s') = tlb h ++ [FlushAll] ∧
    (∀ e d, e ∈ pdes → mem h !! e = Some d →
       ∃ d', mem (Bootstrapper.hw_ s') !! e = Some d' ∧
             Bootstrapper.prepared (F := I386PageDirectoryEntry.flag) d d').
Proof.
  intros pd pdes Hpd Hpt HK Hal Hlt Hpdes. unfold PAGE_SIZE in *.
  unfold Bootstrapper.prepare_address_space, Bootstrapper.prepare_address_space_internal,
    I386Resolver.enumerate_page_directory_entries.
  set (s0 := Bootstrapper.mk _ _ _).
  change (get_cr3 (Bootstrapper.hw_ (Bootstrapper.init 1024 page_tables h))) with (cr3 h).
  change (KERNEL_MEMORY_REGION_SIZE <? 2 ^ 31 - 1) with true. cbn [assert_then].
  change (Z.to_nat _) with 8%nat.
  change KERNEL_MEMORY_REGION_SIZE with (Z.of_nat 8 * 0x400000).
  rewrite (Bootstrapper.i386_enumerate_prepares 0xC0000000) by (done || lia).
  change (0xC0000000 / 2 ^ 22) with 768. change (Z.of_nat 8) with 8. fold pd. fold pdes.
  assert (∀ e, e ∈ pdes → pd < e < page_tables) as Hrange.
  { intros e (j & -> & Hj%elem_of_seqZ)%list_elem_of_fmap. lia. }
  assert (∀ e, e ∈ pdes → mem (Bootstrapper.hw_ s0) !! e = mem h !! e) as Hs0.
  { intros e He. simpl. apply Bootstrapper.clear_page_tables_outside; [lia|].
    specialize (Hrange e He). lia. }
  destruct (Bootstrapper.prepare_all_ok (F := I386PageDirectoryEntry.flag) 0xC0000000
              pde_flags_distinct_i386 pdes s0) as (s1 & -> & _ & Ht & _ & Hin).
  - apply NoDup_fmap_2; [intros x y; lia|]. apply NoDup_seqZ.
  - done.
  - intros i Hi. simpl in *. change (Bootstrapper.NUMBER_OF_PAGE_TABLES 1024) with 8 in Hi.
    unfold PAGE_SIZE. split; [lia|]. split; [unfold fits; lia|]. unfold PAGE_SIZE.
    replace (page_tables + i * 4096 - 0xC0000000) with (page_tables + (i - 0xC0000) * 4096) by lia.
    by rewrite Z_mod_plus_full.
  - intros e He. rewrite Hs0 by done. split; [specialize (Hrange e He); lia|by apply Hpdes].
  - cbn. eexists. split; [done|]. cbn. rewrite Ht. split; [done|].
    intros e d He Hm. apply Hin; [done|]. by rewrite Hs0.
Qed.

Lemma bootstrapper_prepares_region_witness :
  let h := Mmu.mk 0x1000 (list_to_map ((λ j, (0xC0001000 + j * 4, 0)) <$> seqZ 768 8)) [] in
  ∃ s', Bootstrapper.prepare_address_space (F := I386PageDirectoryEntry.flag)
          0xC0000000 1024 4 0xC0010000 I386Resolver.enumerate_page_directory_entries
          (Bootstrapper.init 1024 0xC0010000 h) = Ok s'.
Proof.
  intros h. destruct (bootstrapper_prepares_region 0xC0010000 h) as (s' & E & _);
    [vm_compute; congruence|vm_compute; congruence|lia|reflexivity|unfold PAGE_SIZE; lia| |].
  - intros e (j & -> & Hj%elem_of_seqZ)%list_elem_of_fmap. exists 0.
    split; [|unfold fits; lia].
    assert (j ∈ seqZ 768 8) as Hin by (apply elem_of_seqZ; lia).
    change (seqZ 768 8) with [768; 769; 770; 771; 772; 773; 774; 775] in Hin.
    rewrite !elem_of_cons, elem_of_nil in Hin.
    destruct Hin as [->|[->|[->|[->|[->|[->|[->|[->|[]]]]]]]]]; vm_compute; reflexivity.
  - exists s'. exact E.
Defined.

(** C8: The loops over the pages of a region, [for (page = begin; page < end; page +=
    PAGE_SIZE)] in words of [W] bits, which [invalidate_pages], [map_pages] and [set_readonly] run: when
    [end] is at most the last address that a step from [begin] reaches before the
    address space ends, the loop visits the pages of the region in order, each once, and
    stops; otherwise the address wraps around and the loop returns for no number of
    iterations, whatever its body does.  In particular [invalidate_pages] either flushes
    exactly the pages of the region or runs forever. *)
Theorem page_loops_terminate W begin end_ :
  12 <= W → fits W begin →
  (end_ <= last_page W begin →
   (∀ (S : Type) (body : Z → S → result S) s,
      for_pages W (page_fuel begin end_) body begin end_ s = visit body (pages_between begin end_) s) ∧
   ∀ h, ∃ h', invalidate_pages W h begin end_ = Ok h' ∧
     tlb h' = tlb h ++ (FlushPage <$> pages_between begin end_) ∧ mem h' = mem h ∧ cr3 h' = cr3 h) ∧
  (last_page W begin < end_ →
   (∀ (S : Type) (body : Z → S → result S) fuel s s', for_pages W fuel body begin end_ s ≠ Ok s') ∧
   ∀ h, invalidate_pages W h begin end_ = Fault OutOfFuel).
Proof.
  intros HW Hb. split; intros He.
  - split; [intros; by apply for_pages_visits|]. intros h. unfold invalidate_pages.
    rewrite for_pages_visits by done. generalize (pages_between begin end_). intros ps. revert h.
    induction ps as [|p ps IH]; intros h; cbn [visit].
    + exists h. by rewrite app_nil_r.
    + cbn [mbind result_bind mret result_ret]. destruct (IH (invalidate_page h p)) as (h' & -> & Ht & ? & ?).
      exists h'. split_and!; [done| |done|done]. rewrite Ht. cbn. by rewrite <-app_assoc.
  - split; [intros; by apply for_pages_diverges|]. intros h. unfold invalidate_pages.
    generalize (page_fuel begin end_). intros fuel.
    destruct (for_pages _ _ _ _ _ _) as [h'|e] eqn:E; [by apply for_pages_diverges in E|].
    f_equal. exact (for_pages_fault W _ (λ p s, ex_intro _ _ eq_refl) _ _ _ _ _ E).
Qed.

Lemma page_loops_terminate_witness :
  (∃ h', invalidate_pages 32 (Mmu.mk 0 ∅ []) 0xFFFFE000 0xFFFFF000 = Ok h' ∧
         tlb h' = [FlushPage 0xFFFFE000]) ∧
  invalidate_pages 32 (Mmu.mk 0 ∅ []) 0xFFFFE000 0xFFFFF001 = Fault OutOfFuel.
Proof.
  split.
  - destruct (page_loops_terminate 32 0xFFFFE000 0xFFFFF000) as [H _]; [lia|by split|].
    destruct H as [_ H]; [by vm_compute|]. destruct (H (Mmu.mk 0 ∅ [])) as (h' & E & Ht & _).
    exists h'. by split.
  - destruct (page_loops_terminate 32 0xFFFFE000 0xFFFFF001) as [_ H]; [lia|by split|].
    destruct H as [_ H]; [by vm_compute|]. apply H.
Defined.

End PagingProperties.
