(* ===== verification/BootMemory.v ===== *)
(** * BootMemory: finding the memory of the machine at boot

    Models
    - [MultibootMemoryMapPageFrameEnumerator] (multiboot_memory_map_page_frame_enumerator.hpp),
      module [MemoryMap]: a walk over the boot loader's memory map that answers the page
      frames of the available entries, one by one;
    - [MultibootModuleEnumerator] (multiboot_module_enumerator.hpp), module [Modules];
    - [PageFrameAllocatorConfigurationOperation]
      (page_frame_allocator_configuration_operation.hpp), module [Configuration], over the
      interface [FrameEnumerator] and any page-frame allocator.

    The boot information is a store from the address of each structure to its fields; a
    structure the store does not hold is memory the boot loader did not prepare, and
    reading it is a fault. *)
From S2P Require Import Prelude PageFrameAllocator Paging.
Import Mmu.

(** ** multiboot.h: the structures of the boot loader *)
Record mmap_entry := mk_mmap { size : Z; base_addr_low : Z; length_low : Z; type : Z }.

Record module_t := mk_module { mod_start : Z; mod_end : Z }.

Record multiboot_info := mk_info {
  flags : Z;
  mods_count : Z;
  mods_addr : Z;
  mmap_length : Z;
  mmap_addr : Z;
}.

Definition MULTIBOOT_MEMORY_INFO : Z := 0x2.
Definition MULTIBOOT_MEMORY_AVAILABLE : Z := 1.
Definition sizeof_memory_map : Z := 24.
Definition sizeof_module : Z := 16.

(** A source of page frames: [has_next] and [get_next]. *)
Class FrameEnumerator (E : Type) := {
  fe_has_next : E → result bool;
  fe_get_next : E → result (Z * E);
}.

(** ** The memory map *)
Module MemoryMap.

Record t := mk {
  entry_ : Z;
  limit_ : Z;
  curr_page_frame_ : Z;
  remaining_length_of_entry_ : Z;
}.

Section Methods.
Context (W K : Z) (mb : gmap Z mmap_entry).

Definition read_entry (entry : Z) : result mmap_entry := deref InvalidAccess (mb !! entry).

(** The loop visits entries of the store at growing addresses, so one more iteration
    than it has entries is enough.  0 is the null pointer. *)
Fixpoint get_next_valid_entry (fuel : nat) (limit entry : Z) : result Z :=
  if entry <? limit then
    e ← read_entry entry;
    if 0 <? size e then
      match fuel with
      | O => Fault OutOfFuel
      | S fuel =>
          let entry := uwrap W (entry + size e + 4) in
          e ← read_entry entry;
          if type e =? MULTIBOOT_MEMORY_AVAILABLE then mret entry
          else get_next_valid_entry fuel limit entry
      end
    else mret 0
  else mret 0.

Definition next_valid (e : t) : result Z :=
  get_next_valid_entry (base.size mb) (limit_ e) (entry_ e).

(** [panic] stops the kernel like a failed assertion. *)
Definition init (mb_info : multiboot_info) : result t :=
  assert! negb (Z.land (flags mb_info) MULTIBOOT_MEMORY_INFO =? 0);
  let entry := convert_physical_to_logical_address W K (mmap_addr mb_info) in
  let limit := uwrap W (entry + mmap_length mb_info * sizeof_memory_map) in
  e ← read_entry entry;
  assert! 0 <? size e;
  assert! type e =? MULTIBOOT_MEMORY_AVAILABLE;
  mret (mk entry limit (base_addr_low e) (length_low e)).

Definition has_next (e : t) : result bool :=
  if 0 <? remaining_length_of_entry_ e then mret true
  else next ← next_valid e; mret (negb (next =? 0)).

Definition scan_to_next_valid_entry (e : t) : result t :=
  entry ← next_valid e;
  assert! negb (entry =? 0);
  x ← read_entry entry;
  mret (mk entry (limit_ e) (base_addr_low x) (length_low x)).

Definition get_next (e : t) : result (Z * t) :=
  b ← has_next e;
  assert! b;
  e ← (if remaining_length_of_entry_ e <? PAGE_SIZE then scan_to_next_valid_entry e else mret e);
  mret (curr_page_frame_ e,
        mk (entry_ e) (limit_ e) (uwrap W (curr_page_frame_ e + PAGE_SIZE))
          (uwrap W (remaining_length_of_entry_ e - PAGE_SIZE))).

End Methods.
End MemoryMap.

Definition memory_map_enumerator (W : Z) (mb : gmap Z mmap_entry) : FrameEnumerator MemoryMap.t := {|
  fe_has_next := MemoryMap.has_next W mb;
  fe_get_next := MemoryMap.get_next W mb;
|}.

(** ** The modules *)
Module Modules.

Record t := mk { entry_ : Z; count_ : Z; index_ : Z }.

Section Methods.
Context (W K : Z) (mods : gmap Z module_t).

Definition init (mb_info : multiboot_info) : t :=
  mk (convert_physical_to_logical_address W K (mods_addr mb_info)) (mods_count mb_info) 0.

Definition has_next (e : t) : bool := index_ e <? count_ e.

Definition get_next (e : t) : result (module_t * t) :=
  assert! has_next e;
  m ← deref InvalidAccess (mods !! entry_ e);
  mret (m, mk (uwrap W (entry_ e + sizeof_module)) (count_ e) (index_ e + 1)).

Fixpoint enumerate_loop {A : Type} (fuel : nat) (function : module_t → A → result A) (e : t) (a : A)
  : result A :=
  if has_next e then
    match fuel with
    | O => Fault OutOfFuel
    | S fuel =>
        '(m, e) ← get_next e;
        a ← function m a;
        enumerate_loop fuel function e a
    end
  else mret a.

Definition enumerate {A : Type} (function : module_t → A → result A) (e : t) (a : A) : result A :=
  enumerate_loop (Z.to_nat (count_ e - index_ e)) function e a.

End Methods.
End Modules.

(** ** Configuring the page-frame allocator *)
Module Configuration.

Definition KERNEL_MEMORY_REGION_SIZE : Z := 32 * 1024 * 1024.

Section Methods.
Context (W K break_address_ : Z).
Context {E : Type} `{FrameEnumerator E}.
Context {S : Type} `{PageFrameAllocator S}.
Context (mods : gmap Z module_t).

Fixpoint enumerate_page_frames (fuel : nat) (fn : Z → S → result S) (e : E) (a : S) : result S :=
  b ← fe_has_next e;
  if b : bool then
    match fuel with
    | O => Fault OutOfFuel
    | Datatypes.S fuel =>
        '(page_frame, e) ← fe_get_next e;
        a ← fn page_frame a;
        enumerate_page_frames fuel fn e a
    end
  else mret a.

Definition is_page_frame_in_available_region (page_frame : Z) : bool :=
  let logical_address := convert_physical_to_logical_address W K page_frame in
  (break_address_ <=? logical_address) &&
  (logical_address <? uwrap W (K + KERNEL_MEMORY_REGION_SIZE)).

Definition mark_unavailable_memory (fuel : nat) (e : E) (a : S) : result S :=
  enumerate_page_frames fuel
    (λ page_frame a, if is_page_frame_in_available_region page_frame
                     then pfa_deallocate a page_frame else mret a) e a.

Definition mark_module (m : module_t) (a : S) : result S :=
  for_pages W (page_fuel (mod_start m) (mod_end m))
    (λ page a, '(_, a) ← pfa_allocate_specific_page_frame a page; mret a)
    (mod_start m) (mod_end m) a.

Definition mark_modules_memory (e : Modules.t) (a : S) : result S :=
  Modules.enumerate W mods mark_module e a.

(** [fuel] bounds the number of page frames the enumerator answers. *)
Definition configure (fuel : nat) (frames : E) (modules : Modules.t) (a : S) : result S :=
  let a := pfa_mark_all_as_used a in
  a ← mark_unavailable_memory fuel frames a;
  mark_modules_memory modules a.

End Methods.
End Configuration.

(** ** What an enumerator answers *)
Inductive enumerates {E : Type} `{FrameEnumerator E} : E → list Z → Prop :=
| enumerates_nil e : fe_has_next e = Ok false → enumerates e []
| enumerates_cons e f e' l :
    fe_has_next e = Ok true → fe_get_next e = Ok (f, e') → enumerates e' l → enumerates e (f :: l).

Section Chain.
Context (W : Z) (mb : gmap Z mmap_entry).

Definition available (e : mmap_entry) : bool := type e =? MULTIBOOT_MEMORY_AVAILABLE.

(** The entries [es] follow each other in memory from [a] on, below [limit]; the word after
    the last one reads as an empty entry that is not available memory. *)
Fixpoint chain (limit a : Z) (es : list mmap_entry) : Prop :=
  match es with
  | [] => ∃ t, mb !! a = Some t ∧ size t = 0 ∧ available t = false
  | e :: es => mb !! a = Some e ∧ 0 < size e ∧ 0 < a < limit ∧ a + size e + 4 < 2 ^ W ∧
               chain limit (a + size e + 4) es
  end.

(** An available entry is a whole, nonzero number of pages. *)
Definition entry_ok (e : mmap_entry) : Prop :=
  available e = true →
  0 <= base_addr_low e ∧ 0 < length_low e ∧ length_low e `mod` PAGE_SIZE = 0 ∧
  base_addr_low e + length_low e < 2 ^ W.

Definition pages_from (base n : Z) : list Z := (λ k, base + k * PAGE_SIZE) <$> seqZ 0 n.

Definition frames_of (e : mmap_entry) : list Z :=
  if available e then pages_from (base_addr_low e) (length_low e / PAGE_SIZE) else [].

Lemma pages_from_cons base n : 0 < n → pages_from base n = base :: pages_from (base + PAGE_SIZE) (n - 1).
Proof.
  intros Hn. unfold pages_from. rewrite seqZ_cons by done. cbn [fmap list_fmap]. f_equal; [lia|].
  replace (Z.succ 0) with (1 + 0) by lia. replace (Z.pred n) with (n - 1) by lia.
  rewrite <-(fmap_add_seqZ 1 0), <-list_fmap_compose. apply list_fmap_ext. intros _ k _. cbn. lia.
Qed.

(** The scan stops at the end of the map. *)
Lemma scan_end limit a fuel :
  chain limit a [] → MemoryMap.get_next_valid_entry W mb fuel limit a = Ok 0.
Proof.
  intros (t & Ht & Hs & _). destruct fuel; cbn [MemoryMap.get_next_valid_entry];
    unfold MemoryMap.read_entry; (case_match; [|done]); rewrite Ht; cbn [deref mbind result_bind];
    by rewrite Hs.
Qed.

(** The scan goes from an entry to the next available one, if there is any. *)
Lemma scan_entries_ok limit es : ∀ a e fuel,
  chain limit a (e :: es) → (length es < fuel)%nat → Forall entry_ok es →
  ∃ r, MemoryMap.get_next_valid_entry W mb fuel limit a = Ok r ∧
    (r = 0 ∧ concat (frames_of <$> es) = [] ∨
     r ≠ 0 ∧ ∃ e' es', chain limit r (e' :: es') ∧ available e' = true ∧ (length es' < length es)%nat ∧
       Forall entry_ok (e' :: es') ∧ concat (frames_of <$> es) = frames_of e' ++ concat (frames_of <$> es')).
Proof.
  induction es as [|e1 es IH]; intros a e fuel (He & Hs & Ha & Hw & Hch) Hf Hok;
    (destruct fuel as [|fuel]; [lia|]); cbn [MemoryMap.get_next_valid_entry];
    unfold MemoryMap.read_entry; rewrite He; cbn [deref mbind result_bind]; decide_Z;
    rewrite uwrap_small by (unfold fits; lia).
  - pose proof Hch as (t & -> & _ & Hav). cbn [deref mbind result_bind].
    unfold available in Hav. rewrite Hav, (scan_end _ _ _ Hch). exists 0. by split; [|left].
  - pose proof Hch as (He1 & _ & Ha1 & _). rewrite He1. cbn [deref mbind result_bind].
    apply Forall_cons in Hok as [Hok1 Hok]. destruct (available e1) eqn:Hav.
    + unfold available in Hav. rewrite Hav. eexists. split; [done|]. right. split; [lia|].
      exists e1, es. split_and!; try done; [cbn; lia|by apply Forall_cons].
    + cbn [fmap list_fmap concat]. unfold frames_of at 1 3. rewrite Hav. unfold available in Hav. rewrite Hav.
      destruct (IH _ e1 fuel Hch ltac:(cbn in Hf; lia) Hok) as (r & -> & Hr). exists r. split; [done|].
      destruct Hr as [Hr|(Hr & e' & es' & H1 & H2 & H3 & H4)]; [by left|right].
      split; [done|]. exists e', es'. split_and!; try apply H4; try done. cbn. lia.
Qed.

Lemma chain_length limit a es : chain limit a es → (length es < base.size mb)%nat.
Proof.
  intros Hc. assert (∃ D : gset Z, D ⊆ dom mb ∧ (∀ x, x ∈ D → a <= x) ∧ base.size D = Datatypes.S (length es))
    as (D & HD & _ & Hsz).
  { revert a Hc. induction es as [|e es IH]; intros a; cbn [chain].
    - intros (t & Ht & _). exists {[a]}. split_and!.
      + apply singleton_subseteq_l, elem_of_dom. by eexists.
      + intros x ->%elem_of_singleton. lia.
      + apply size_singleton.
    - intros (He & Hs & _ & _ & Hc). destruct (IH _ Hc) as (D & HD & Hlow & Hsz).
      exists ({[a]} ∪ D). split_and!.
      + apply union_subseteq. split; [|done]. apply singleton_subseteq_l, elem_of_dom. by eexists.
      + intros x [->%elem_of_singleton|Hx]%elem_of_union; [lia|]. specialize (Hlow x Hx). lia.
      + rewrite size_union, size_singleton, Hsz; [done|].
        intros x ->%elem_of_singleton Hx. specialize (Hlow a Hx). lia. }
  apply subseteq_size in HD. rewrite size_dom in HD. lia.
Qed.

(** ** The enumerator answers the frames of the available entries *)
Definition at_page (st : MemoryMap.t) (r : Z) (es : list mmap_entry) : Prop :=
  MemoryMap.remaining_length_of_entry_ st = r * PAGE_SIZE ∧ 0 <= r ∧
  0 <= MemoryMap.curr_page_frame_ st ∧ MemoryMap.curr_page_frame_ st + r * PAGE_SIZE < 2 ^ W ∧
  ∃ e, chain (MemoryMap.limit_ st) (MemoryMap.entry_ st) (e :: es).

Local Instance mm : FrameEnumerator MemoryMap.t := memory_map_enumerator W mb.

Lemma step_in_entry st r es :
  0 <= W → at_page st r es → 0 < r →
  MemoryMap.has_next W mb st = Ok true ∧
  ∃ st', MemoryMap.get_next W mb st = Ok (MemoryMap.curr_page_frame_ st, st') ∧ at_page st' (r - 1) es ∧
         MemoryMap.curr_page_frame_ st' = MemoryMap.curr_page_frame_ st + PAGE_SIZE.
Proof.
  intros HW (Hr & Hr0 & Hc & Hfit & e & Hch) Hpos. unfold PAGE_SIZE in *.
  assert (MemoryMap.has_next W mb st = Ok true) as Hn.
  { unfold MemoryMap.has_next. by decide_Z. }
  split; [done|]. unfold MemoryMap.get_next. rewrite Hn. cbn [mbind result_bind assert_then].
  unfold PAGE_SIZE. decide_Z. cbn [mbind result_bind mret result_ret].
  eexists. split; [done|]. cbn [MemoryMap.curr_page_frame_].
  rewrite !uwrap_small by (unfold fits; lia). split; [|done].
  split_and!; cbn; try lia; [unfold PAGE_SIZE; lia..|]. by exists e.
Qed.

Lemma step_to_entry st es e' es' r :
  at_page st 0 es → MemoryMap.next_valid W mb st = Ok r → r ≠ 0 →
  chain (MemoryMap.limit_ st) r (e' :: es') → entry_ok e' → available e' = true →
  ∃ st', at_page st' (length_low e' / PAGE_SIZE) es' ∧
    MemoryMap.curr_page_frame_ st' = base_addr_low e' ∧
    MemoryMap.has_next W mb st = Ok true ∧
    MemoryMap.get_next W mb st = MemoryMap.get_next W mb st'.
Proof.
  intros (Hr & _ & _ & _ & e & Hch) Hnext Hne Hch' Hok Hav.
  destruct (Hok Hav) as (Hb & Hl & Hm & Hw). pose proof Hch' as (He' & _).
  exists (MemoryMap.mk r (MemoryMap.limit_ st) (base_addr_low e') (length_low e')).
  assert (length_low e' = length_low e' / PAGE_SIZE * PAGE_SIZE) as Hdiv.
  { pose proof (Z.div_mod (length_low e') PAGE_SIZE ltac:(done)). unfold PAGE_SIZE in *. lia. }
  assert (MemoryMap.has_next W mb st = Ok true) as Hn.
  { unfold MemoryMap.has_next. rewrite Hr. cbn. rewrite Hnext. cbn [mbind result_bind].
    by rewrite (proj2 (Z.eqb_neq _ _) Hne). }
  split_and!; try done.
  - split_and!; cbn; try lia; [by apply Z.div_pos; unfold PAGE_SIZE; lia|by exists e'].
  - unfold MemoryMap.get_next. rewrite Hn. cbn [mbind result_bind assert_then]. rewrite Hr.
    change (0 * PAGE_SIZE <? PAGE_SIZE) with true. cbv iota.
    unfold MemoryMap.scan_to_next_valid_entry. rewrite Hnext. cbn [mbind result_bind].
    rewrite (proj2 (Z.eqb_neq _ _) Hne). cbn [negb assert_then].
    unfold MemoryMap.read_entry. rewrite He'. cbn [deref mbind result_bind mret result_ret].
    unfold MemoryMap.has_next. cbn [MemoryMap.remaining_length_of_entry_].
    rewrite (proj2 (Z.ltb_lt 0 _)) by lia. cbn [mbind result_bind mret result_ret assert_then].
    rewrite (proj2 (Z.ltb_ge _ PAGE_SIZE)); [done|].
    assert (length_low e' / PAGE_SIZE ≠ 0) by (intros E; rewrite E in Hdiv; lia).
    assert (0 <= length_low e' / PAGE_SIZE) by (apply Z.div_pos; unfold PAGE_SIZE; lia).
    unfold PAGE_SIZE in *. lia.
Qed.

Lemma enumerates_within st r es l :
  0 <= W → at_page st r es →
  (∀ st', at_page st' 0 es → enumerates st' l) →
  enumerates st (pages_from (MemoryMap.curr_page_frame_ st) r ++ l).
Proof.
  intros HW Hst Hl. assert (0 <= r) as Hr by apply Hst. revert st Hst.
  pattern r. apply natlike_ind; [| |done]; clear r Hr.
  - intros st Hst. by apply Hl.
  - intros r Hr IH st Hst. destruct (step_in_entry st (Z.succ r) es HW Hst ltac:(lia)) as (Hn & st' & Hg & Hst' & Hc).
    rewrite pages_from_cons by lia. cbn [app]. eapply enumerates_cons; [done|exact Hg|].
    rewrite <-Hc. replace (Z.succ r - 1) with r in * by lia. by apply IH.
Qed.

Lemma memory_map_enumerates st r es :
  0 <= W → at_page st r es → Forall entry_ok es →
  enumerates st (pages_from (MemoryMap.curr_page_frame_ st) r ++ concat (frames_of <$> es)).
Proof.
  intros HW. remember (length es) as n eqn:Hn. revert st r es Hn.
  induction n as [n IH] using lt_wf_ind; intros st r es -> Hst Hok.
  apply (enumerates_within st r es); [done..|]. clear st r Hst. intros st Hst.
  pose proof Hst as (Hr & _ & _ & _ & e & Hch).
  pose proof (chain_length _ _ _ Hch) as Hlen. cbn in Hlen.
  destruct (scan_entries_ok (MemoryMap.limit_ st) es (MemoryMap.entry_ st) e (base.size mb) Hch ltac:(lia) Hok)
    as (x & Hx & Hcase). change (MemoryMap.next_valid W mb st = Ok x) in Hx.
  destruct Hcase as [[-> ->]|(Hne & e' & es' & Hch' & Hav & Hlt & Hok' & ->)].
  - apply enumerates_nil. cbn. unfold MemoryMap.has_next. rewrite Hr. cbn. by rewrite Hx.
  - apply Forall_cons in Hok' as [Hok1 Hok2].
    destruct (step_to_entry st es e' es' x Hst Hx Hne Hch' Hok1 Hav) as (st' & Hst' & Hc & Hnx & Hg).
    pose proof (IH _ Hlt st' _ es' eq_refl Hst' Hok2) as Hen. unfold frames_of at 1. rewrite Hav, <-Hc.
    inversion Hen as [? Hf Heq|? f st2 l2 Hf Hg2 Hen2 Heq]; subst.
    + destruct Hst' as (Hr' & Hr0 & _). destruct (Hok1 Hav) as (_ & Hl & Hm & _).
      unfold fe_has_next in Hf. cbn in Hf. unfold MemoryMap.has_next in Hf. rewrite Hr' in Hf.
      pose proof (Z.div_mod (length_low e') PAGE_SIZE ltac:(done)).
      rewrite (proj2 (Z.ltb_lt 0 _)) in Hf; [done|]. unfold PAGE_SIZE in *. lia.
    + eapply enumerates_cons; [done| |exact Hen2]. cbn. rewrite Hg. exact Hg2.
Qed.
End Chain.

(** ** Configuring the allocator *)
Fixpoint each {X A : Type} (fn : X → A → result A) (l : list X) (a : A) : result A :=
  match l with [] => mret a | x :: l => a ← fn x a; each fn l a end.

Section Configure.
Context (W K break_address : Z) {S : Type} `{!PageFrameAllocator S} `{!PageFrameAllocatorLaws S}.
Context (HW : 0 <= W) (HK : 0 <= K) (Hbreak : K <= break_address).
Context (Hregion : K + Configuration.KERNEL_MEMORY_REGION_SIZE < 2 ^ W).
Context (Hcapacity : Configuration.KERNEL_MEMORY_REGION_SIZE <= pfa_capacity * PAGE_SIZE).

Lemma enumerate_is_each {E : Type} `{!FrameEnumerator E} fn (e : E) l :
  enumerates e l → ∀ fuel (a : S), (length l <= fuel)%nat →
  Configuration.enumerate_page_frames fuel fn e a = each fn l a.
Proof.
  induction 1 as [e Hn|e f e' l Hn Hg Hl IH]; intros fuel a Hf.
  - destruct fuel; cbn [Configuration.enumerate_page_frames]; by rewrite Hn.
  - destruct fuel as [|fuel]; [cbn in Hf; lia|]. cbn [Configuration.enumerate_page_frames each].
    rewrite Hn. cbn [mbind result_bind]. rewrite Hg. cbn [mbind result_bind].
    destruct (fn f a) as [a'|]; [|done]. cbn [mbind result_bind]. apply IH. cbn in Hf. lia.
Qed.

(** The frames the kernel may use: above its image, below the end of its region. *)
Definition usable (x : Z) : Prop := break_address <= x + K ∧ x < Configuration.KERNEL_MEMORY_REGION_SIZE.

#[global] Instance usable_dec x : Decision (usable x).
Proof. unfold usable. apply _. Defined.

Lemma available_region_ok x :
  fits W x →
  Configuration.is_page_frame_in_available_region W K break_address x = bool_decide (usable x).
Proof using HW HK Hbreak Hregion.
  intros Hx. unfold Configuration.is_page_frame_in_available_region, convert_physical_to_logical_address.
  rewrite (uwrap_small W (K + _)) by (unfold fits, Configuration.KERNEL_MEMORY_REGION_SIZE in *; lia).
  assert (uwrap W (x + K) = x + K ∨ uwrap W (x + K) < K) as [->|Hlt].
  { unfold uwrap, fits, Configuration.KERNEL_MEMORY_REGION_SIZE in *. destruct (Z.lt_ge_cases (x + K) (2 ^ W)).
    - left. apply Z.mod_small. lia.
    - right. replace (x + K) with (x + K - 2 ^ W + 1 * 2 ^ W) by lia. rewrite Z_mod_plus_full.
      rewrite Z.mod_small; lia. }
  - unfold usable. destruct (Z.leb_spec break_address (x + K)); cbn [andb];
      [destruct (Z.ltb_spec (x + K) (K + Configuration.KERNEL_MEMORY_REGION_SIZE))|];
      symmetry; (apply bool_decide_eq_true || apply bool_decide_eq_false); lia.
  - rewrite (proj2 (Z.leb_gt _ _)) by lia. symmetry. apply bool_decide_eq_false. unfold usable.
    intros [? ?]. unfold fits, Configuration.KERNEL_MEMORY_REGION_SIZE, uwrap in *.
    rewrite Z.mod_small in Hlt by lia. lia.
Qed.

Lemma each_deallocate_ok l : ∀ a,
  pfa_inv a → Forall (fits W) l →
  ∃ a', each (λ x a, if Configuration.is_page_frame_in_available_region W K break_address x
                     then pfa_deallocate a x else mret a) l a = Ok a' ∧ pfa_inv a' ∧
    ∀ f, 0 <= f < pfa_capacity →
      pfa_free a' f = bool_decide (Exists (λ x, usable x ∧ x / PAGE_SIZE = f) l) || pfa_free a f.
Proof using PageFrameAllocatorLaws0 HW HK Hbreak Hregion Hcapacity.
  induction l as [|x l IH]; intros a Ha Hl.
  - exists a. by split_and!.
  - apply Forall_cons in Hl as [Hx Hl]. cbn [each]. rewrite available_region_ok by done.
    assert (∃ a1, (if bool_decide (usable x) then pfa_deallocate a x else mret a) = Ok a1 ∧ pfa_inv a1 ∧
      ∀ f, 0 <= f < pfa_capacity →
        pfa_free a1 f = bool_decide (usable x ∧ x / PAGE_SIZE = f) || pfa_free a f) as (a1 & -> & Ha1 & Hf1).
    { destruct (bool_decide (usable x)) eqn:Hu.
      - apply bool_decide_eq_true in Hu.
        assert (0 <= x / PAGE_SIZE < pfa_capacity) as Hr.
        { split; [apply Z.div_pos; unfold fits in Hx; [lia|done]|].
          apply Z.div_lt_upper_bound; [done|]. destruct Hu. lia. }
        destruct (pfa_deallocate_ok a x Ha Hr) as (a1 & -> & Ha1 & Hf1). exists a1. split_and!; try done.
        intros f Hf. rewrite Hf1 by done. f_equal. rewrite Z.eqb_sym.
        destruct (Z.eqb_spec (x / PAGE_SIZE) f); symmetry; [by apply bool_decide_eq_true|].
        apply bool_decide_eq_false. tauto.
      - exists a. split_and!; try done. intros f _. apply bool_decide_eq_false in Hu.
        rewrite bool_decide_eq_false_2; [done|]. tauto. }
    cbn [mbind result_bind]. destruct (IH a1 Ha1 Hl) as (a' & -> & Ha' & Hf'). exists a'. split_and!; try done.
    intros f Hf. rewrite Hf', Hf1 by done. rewrite orb_assoc. f_equal.
    rewrite orb_comm, <-bool_decide_or. apply bool_decide_ext. by rewrite Exists_cons.
Qed.

(** Marking the pages of a module. *)
Lemma mark_pages_ok n : ∀ page end_ a,
  pfa_inv a → 0 <= page → (n = 0%nat ∧ end_ <= page ∨ page + (Z.of_nat n - 1) * PAGE_SIZE < end_) →
  end_ <= page + Z.of_nat n * PAGE_SIZE → page + Z.of_nat n * PAGE_SIZE < 2 ^ W →
  page / PAGE_SIZE + Z.of_nat n <= pfa_capacity →
  ∃ a', for_pages W n (λ page a, '(_, a) ← pfa_allocate_specific_page_frame a page; mret a) page end_ a = Ok a' ∧
    pfa_inv a' ∧ ∀ f, 0 <= f < pfa_capacity →
      pfa_free a' f = negb (bool_decide (page / PAGE_SIZE <= f < page / PAGE_SIZE + Z.of_nat n)) && pfa_free a f.
Proof using PageFrameAllocatorLaws0 HW.
  induction n as [|n IH]; intros page end_ a Ha Hp Hn Hend Hw Hcap; cbn [for_pages].
  - rewrite (proj2 (Z.ltb_ge _ _)) by lia. exists a. split_and!; try done. intros f _.
    by rewrite bool_decide_eq_false_2 by lia.
  - rewrite (proj2 (Z.ltb_lt _ _)) by (unfold PAGE_SIZE in *; lia).
    assert (0 <= page / PAGE_SIZE) by (by apply Z.div_pos).
    destruct (pfa_allocate_specific_ok a page Ha) as (a1 & -> & Ha1 & Hf1); [lia|].
    cbn [mbind result_bind mret result_ret].
    rewrite uwrap_small by (unfold fits, PAGE_SIZE in *; lia).
    assert ((page + PAGE_SIZE) / PAGE_SIZE = page / PAGE_SIZE + 1) as Hdiv
      by (rewrite <-(Z.mul_1_l PAGE_SIZE) at 1; by apply Z.div_add).
    destruct (IH (page + PAGE_SIZE) end_ a1) as (a' & -> & Ha' & Hf'); try done; rewrite ?Hdiv;
      [unfold PAGE_SIZE in *; lia..|].
    exists a'. split_and!; try done. intros f Hf. rewrite Hf', Hf1 by done. rewrite andb_assoc. f_equal.
    rewrite Hdiv. destruct (Z.eqb_spec f (page / PAGE_SIZE)) as [->|Hne]; cbn [negb].
    + rewrite andb_false_r, bool_decide_eq_true_2 by lia. done.
    + rewrite andb_true_r. f_equal. apply bool_decide_ext. lia.
Qed.

(** A module that starts on a page boundary, inside the memory of the allocator. *)
Definition module_ok (m : module_t) : Prop :=
  0 <= mod_start m ∧ mod_start m `mod` PAGE_SIZE = 0 ∧ mod_start m <= mod_end m ∧
  mod_end m <= pfa_capacity * PAGE_SIZE ∧ mod_end m + PAGE_SIZE < 2 ^ W.

Definition in_module (f : Z) (m : module_t) : Prop := mod_start m <= PAGE_SIZE * f < mod_end m.

Lemma mark_module_ok m a :
  pfa_inv a → module_ok m →
  ∃ a', Configuration.mark_module W m a = Ok a' ∧ pfa_inv a' ∧
    ∀ f, 0 <= f < pfa_capacity → pfa_free a' f = negb (bool_decide (in_module f m)) && pfa_free a f.
Proof using PageFrameAllocatorLaws0 HW.
  intros Ha (H0 & Hal & Hle & Hcap & Hfit). unfold Configuration.mark_module.
  set (n := page_fuel (mod_start m) (mod_end m)).
  pose proof (Z.div_mod (mod_start m) PAGE_SIZE ltac:(done)) as Hs.
  pose proof (Z.div_mod (mod_end m - mod_start m + PAGE_SIZE - 1) PAGE_SIZE ltac:(done)) as Hn.
  pose proof (Z.mod_pos_bound (mod_end m - mod_start m + PAGE_SIZE - 1) PAGE_SIZE ltac:(done)) as Hb.
  assert (Z.of_nat n = (mod_end m - mod_start m + PAGE_SIZE - 1) / PAGE_SIZE) as En.
  { unfold n, page_fuel. rewrite Z2Nat.id; [done|]. apply Z.div_pos; unfold PAGE_SIZE; lia. }
  set (q := mod_start m / PAGE_SIZE) in *. rewrite <-En in Hn. unfold PAGE_SIZE in *.
  destruct (mark_pages_ok n (mod_start m) (mod_end m) a Ha H0) as (a' & E & Ha' & Hf');
    unfold PAGE_SIZE; try fold q; [destruct n; [left; lia|right; lia]|lia..|].
  exists a'. split; [exact E|]. split; [done|]. intros f Hf. rewrite Hf' by done. f_equal. f_equal.
  apply bool_decide_ext. unfold in_module. unfold PAGE_SIZE. fold q. lia.
Qed.

Lemma each_mark_ok ms : ∀ a,
  pfa_inv a → Forall module_ok ms →
  ∃ a', each (Configuration.mark_module W) ms a = Ok a' ∧ pfa_inv a' ∧
    ∀ f, 0 <= f < pfa_capacity → pfa_free a' f = negb (bool_decide (Exists (in_module f) ms)) && pfa_free a f.
Proof using PageFrameAllocatorLaws0 HW.
  induction ms as [|m ms IH]; intros a Ha Hms.
  - exists a. by split_and!.
  - apply Forall_cons in Hms as [Hm Hms]. cbn [each].
    destruct (mark_module_ok m a Ha Hm) as (a1 & -> & Ha1 & Hf1). cbn [mbind result_bind].
    destruct (IH a1 Ha1 Hms) as (a' & -> & Ha' & Hf'). exists a'. split_and!; try done. intros f Hf.
    rewrite Hf', Hf1 by done. rewrite andb_assoc, <-negb_orb. f_equal. f_equal.
    rewrite orb_comm, <-bool_decide_or. apply bool_decide_ext. by rewrite Exists_cons.
Qed.

(** The modules lie one after the other in memory. *)
Fixpoint modules_at (mods : gmap Z module_t) (a : Z) (ms : list module_t) : Prop :=
  match ms with
  | [] => True
  | m :: ms => mods !! a = Some m ∧ 0 <= a ∧ a + sizeof_module < 2 ^ W ∧ modules_at mods (a + sizeof_module) ms
  end.

Lemma modules_enumerate_ok {A : Type} mods (fn : module_t → A → result A) ms : ∀ entry index (x : A),
  modules_at mods entry ms →
  Modules.enumerate W mods fn (Modules.mk entry (index + Z.of_nat (length ms)) index) x = each fn ms x.
Proof using HW.
  unfold Modules.enumerate. cbn [Modules.count_ Modules.index_].
  intros entry index. rewrite Z.add_simpl_l, Nat2Z.id. revert entry index.
  induction ms as [|m ms IH]; intros entry index x; cbn [modules_at length each Modules.enumerate_loop];
    unfold Modules.has_next; cbn [Modules.index_ Modules.count_].
  - intros _. by rewrite (proj2 (Z.ltb_ge _ _)) by lia.
  - intros (Hm & H0 & Hw & Hms). rewrite (proj2 (Z.ltb_lt _ _)) by lia. unfold Modules.get_next, Modules.has_next.
    cbn [Modules.index_ Modules.count_ Modules.entry_]. rewrite (proj2 (Z.ltb_lt _ _)) by lia.
    cbn [assert_then]. rewrite Hm. cbn [deref mbind result_bind mret result_ret].
    destruct (fn m x) as [y|]; [|done]. cbn [mbind result_bind].
    rewrite uwrap_small by (unfold fits, sizeof_module in *; lia).
    replace (index + Z.of_nat (Datatypes.S (length ms))) with (index + 1 + Z.of_nat (length ms)) by lia.
    by apply IH.
Qed.
End Configure.

(** ** The whole configuration *)

(** What the boot loader leaves in memory: a memory map that is a chain of entries
    [e :: es], whose available ones are whole pages, and the modules [ms]. *)
Record boot_information (W K : Z) {S : Type} `{PageFrameAllocator S} (info : multiboot_info)
    (mb : gmap Z mmap_entry) (mods : gmap Z module_t) (e : mmap_entry) (es : list mmap_entry)
    (ms : list module_t) : Prop := {
  bi_flags : Z.land (flags info) MULTIBOOT_MEMORY_INFO ≠ 0;
  bi_chain : let entry := convert_physical_to_logical_address W K (mmap_addr info) in
    chain W mb (uwrap W (entry + mmap_length info * sizeof_memory_map)) entry (e :: es);
  bi_first : available e = true;
  bi_entries : Forall (entry_ok W) (e :: es);
  bi_modules : modules_at W mods (convert_physical_to_logical_address W K (mods_addr info)) ms;
  bi_count : mods_count info = Z.of_nat (length ms);
  bi_modules_ok : Forall (module_ok W (S := S)) ms;
}.

(** The frames free after the configuration. *)
Definition free_after (K break_address : Z) (es : list mmap_entry) (ms : list module_t) (f : Z) : Prop :=
  (∃ x, x ∈ concat (frames_of <$> es) ∧ x / PAGE_SIZE = f ∧
        break_address <= x + K ∧ x < Configuration.KERNEL_MEMORY_REGION_SIZE) ∧
  ¬ ∃ m, m ∈ ms ∧ mod_start m <= PAGE_SIZE * f < mod_end m.

Lemma configure_ok (W K break_address : Z) {S : Type} `{!PageFrameAllocator S}
    `{!PageFrameAllocatorLaws S} info mb mods e es ms (fuel : nat) (a : S) :
  0 <= W → 0 <= K <= break_address → K + Configuration.KERNEL_MEMORY_REGION_SIZE < 2 ^ W →
  Configuration.KERNEL_MEMORY_REGION_SIZE <= pfa_capacity * PAGE_SIZE →
  boot_information W K (S := S) info mb mods e es ms →
  (length (concat (frames_of <$> e :: es)) <= fuel)%nat →
  ∃ frames a', MemoryMap.init W K mb info = Ok frames ∧
    @Configuration.configure W K break_address _ (memory_map_enumerator W mb) S _ mods fuel frames
      (Modules.init W K info) a = Ok a' ∧ pfa_inv a' ∧
    ∀ f, 0 <= f < pfa_capacity → pfa_free a' f = true ↔ free_after K break_address (e :: es) ms f.
Proof.
  intros HW [HK Hbreak] Hregion Hcap [Hflags Hch Hav Hok Hmods Hcount Hms] Hfuel. cbv zeta in Hch.
  pose proof Hch as (He & Hsz & _). apply Forall_cons in Hok as [Hoke Hok].
  unfold MemoryMap.init. rewrite (proj2 (Z.eqb_neq _ _) Hflags). cbn [negb assert_then].
  unfold MemoryMap.read_entry. rewrite He. cbn [deref mbind result_bind].
  rewrite (proj2 (Z.ltb_lt _ _) Hsz). pose proof Hav as Hty. unfold available in Hty. rewrite Hty.
  cbn [assert_then mret result_ret]. eexists. set (st := MemoryMap.mk _ _ _ _).
  destruct (Hoke Hav) as (Hb & Hl & Hm & Hw).
  pose proof (Z.div_mod (length_low e) PAGE_SIZE ltac:(done)) as Hdiv.
  assert (at_page W mb st (length_low e / PAGE_SIZE) es) as Hst.
  { split_and!; cbn; try lia; [apply Z.div_pos; unfold PAGE_SIZE; lia|by exists e]. }
  pose proof (memory_map_enumerates W mb st _ es HW Hst Hok) as Hen.
  change (MemoryMap.curr_page_frame_ st) with (base_addr_low e) in Hen.
  assert (concat (frames_of <$> e :: es)
    = pages_from (base_addr_low e) (length_low e / PAGE_SIZE) ++ concat (frames_of <$> es)) as Hfr.
  { cbn. unfold frames_of at 1. by rewrite Hav. }
  rewrite <-Hfr in Hen.
  assert (Forall (fits W) (concat (frames_of <$> e :: es))) as Hfits.
  { apply Forall_concat, Forall_fmap. apply (Forall_impl (entry_ok W)); [by apply Forall_cons|].
    intros x Hx. cbn. unfold frames_of. destruct (available x) eqn:Ex; [|done].
    destruct (Hx Ex) as (X1 & X2 & X3 & X4). apply Forall_fmap, Forall_forall.
    intros k Hk%elem_of_seqZ. cbn. pose proof (Z.div_mod (length_low x) PAGE_SIZE ltac:(done)).
    unfold fits, PAGE_SIZE in *. nia. }
  unfold Configuration.configure, Configuration.mark_unavailable_memory, Configuration.mark_modules_memory.
  destruct (pfa_mark_all_ok a) as [Hinv0 Hused].
  rewrite (enumerate_is_each W (FrameEnumerator0 := memory_map_enumerator W mb) _ st _ Hen) by done.
  destruct (each_deallocate_ok W K break_address HW HK Hbreak Hregion Hcap _ _ Hinv0 Hfits)
    as (a1 & -> & Ha1 & Hf1). cbn [mbind result_bind].
  unfold Modules.init. rewrite Hcount. rewrite <-(Z.add_0_l (Z.of_nat (length ms))).
  rewrite (modules_enumerate_ok W HW) by done.
  destruct (each_mark_ok W HW ms a1 Ha1 Hms) as (a2 & -> & Ha2 & Hf2).
  exists a2. split; [done|]. split; [done|]. split; [done|]. intros f Hf.
  rewrite Hf2, Hf1, Hused, orb_false_r, andb_true_iff, negb_true_iff by done.
  rewrite bool_decide_eq_true, bool_decide_eq_false, !Exists_exists. unfold usable, in_module, free_after.
  naive_solver.
Qed.

(** ** Properties *)
Module BootMemoryProperties.


(** A machine with 640 KB of low memory and 15 MB from the first megabyte on, a kernel
    that ends at 2 MB, and one module of two pages at 3 MB. *)
Definition demo_info : multiboot_info := mk_info 0x2 1 0x9000 48 0x8000.

Definition demo_map : gmap Z mmap_entry :=
  {[ 0xC0008000 := mk_mmap 20 0 0xA0000 1; 0xC0008018 := mk_mmap 20 0xF0000 0x10000 2;
     0xC0008030 := mk_mmap 20 0x100000 0xF00000 1; 0xC0008048 := mk_mmap 0 0 0 0 ]}.

Definition demo_mods : gmap Z module_t := {[ 0xC0009000 := mk_module 0x300000 0x301800 ]}.

#[local] Instance demo_frames : PageFrameAllocator ConcretePageFrameAllocator.t :=
  ConcretePageFrameAllocator.concrete_pfa 32 8192.
#[local] Instance demo_frames_laws : PageFrameAllocatorLaws ConcretePageFrameAllocator.t :=
  ConcretePageFrameAllocator.concrete_pfa_laws 32 8192.


End BootMemoryProperties.
