(* ===== verification/PageMaps.v ===== *)
(** * PageMaps: the controllers that own the paging structures

    Models the classes that build page tables on demand and keep them together with the
    page frames they map:
    - [PageFrameController] (platform/i386/page_frame_controller.hpp);
    - [GenericPageMapLevelOneController] and [GenericPageMapLevelTwoController]
      (platform/i386/generic_page_map_level_{one,two}_controller.hpp), modules [PML1] and
      [PML2], with the index functions of both architectures;
    - [PageMapLevelThreeController] and [PageMapLevelFourController] of x86_64, modules
      [PML3] and [PML4];
    - the two [ManagedPhysicalMemoryMap] classes, modules [ManagedI386] and [ManagedX64].

    A controller is the address of the hardware table it owns and the array of its
    entries; an entry is the address of its hardware entry and the controller (or frame)
    it owns, if any.  The controllers form a tree, since a [SharedPointer] in an entry is
    only ever set by [populate] or [set_mapping] to a controller just created; a method
    that works on the entry reached through several controllers writes the changed ones
    back along the path.  [new_table] is what [operator new] answers for a hardware table.
    The interrupt locks of the controllers, which the constructors hand to every entry,
    only bracket each method and are left out. *)
From S2P Require Import Prelude PageFrameAllocator PageEntries Paging.
Import Mmu.

(** The flags of page-table and directory entries the controllers expose. *)
Class Pml1Flags (F : Type) := { p1_accessed : F; p1_dirty : F }.

Class PmlDirFlags (F : Type) := {
  pd_present : F;
  pd_readwrite : F;
  pd_supervisor : F;
  pd_accessed : F;
}.

Section State.
Context {S : Type} `{PageFrameAllocator S}.

(** The hardware and the page-frame allocator. *)
Record st := mkst { hw_ : hw; alloc_ : S }.

Definition with_word (s : st) (a d : Z) : st :=
  mkst (with_mem (hw_ s) (<[a := d]> (mem (hw_ s)))) (alloc_ s).

(** [entry->method()] through a pointer to a hardware entry. *)
Definition read_entry (s : st) (a : Z) : result Z := load (mem (hw_ s)) a.

Definition update_entry (s : st) (a : Z) (f : Z → result Z) : result st :=
  data ← read_entry s a; data ← f data; mret (with_word s a data).

(** [memset(table, 0, sizeof( *table))], entry by entry. *)
Definition clear_words (sz base count : Z) (s : st) : st :=
  mkst (with_mem (hw_ s)
          (foldr (λ k acc, <[base + k * sz := 0]> acc) (mem (hw_ s)) (seqZ 0 count)))
    (alloc_ s).

(** ** PageFrameController: a page frame, returned to the allocator if it came from it *)
Record frame := mkframe { allocator_ : bool; page_frame_ : Z }.

Definition frame_of_address (page_frame : Z) : frame := mkframe false page_frame.

Definition frame_of_allocator (s : st) : result (frame * st) :=
  '(page_frame, a) ← pfa_allocate (alloc_ s) PAGE_SIZE;
  mret (mkframe true page_frame, mkst (hw_ s) a).

Definition release (s : st) (f : frame) : result st :=
  if allocator_ f then a ← pfa_deallocate (alloc_ s) (page_frame_ f); mret (mkst (hw_ s) a)
  else mret s.

Definition get_page_frame (f : frame) : Z := page_frame_ f.

(** The default and the move constructors; moving leaves the other empty. *)
Definition frame_empty : frame := mkframe false 0.

Definition frame_move (other : frame) : frame * frame := (other, frame_empty).

(** [operator=(PageFrameController&&)] between two objects or on itself ([same]);
    [release] keeps the allocator, which the swap hands to [other] with frame 0. *)
Definition frame_move_assign (s : st) (same : bool) (this other : frame)
  : result (st * frame * frame) :=
  if same then mret (s, this, other)
  else s ← release s this; mret (s, other, mkframe (allocator_ this) 0).

End State.
Arguments st : clear implicits.

(** ** Level one: page tables *)
Module PML1.

(** [pte_] and [page_frame_]. *)
Record Entry := mkentry { pte_ : Z; frame_ : option frame }.

Record t := mk { page_table_ : Z; entries_ : list Entry }.

Section Methods.
Context {S : Type} `{PageFrameAllocator S}.
Context {F : Type} `{EqDecision F} `{PagingEntry F} `{UnmanagedMap.PteFlags F} `{Pml1Flags F}.
Context (K COUNT sz : Z) (index_of : Z → Z).
Implicit Types (s : st S) (e : Entry) (c : t).

Definition get_flag (f : F) s e : result bool :=
  assert! negb (pte_ e =? 0);
  data ← read_entry s (pte_ e);
  mret (pe_get f data).

Definition set_flag (f : F) s e (b : bool) : result (st S) :=
  assert! negb (pte_ e =? 0);
  update_entry s (pte_ e) (λ data, mret (pe_assign f data b)).

Definition is_present := get_flag UnmanagedMap.f_present.
Definition set_present := set_flag UnmanagedMap.f_present.
Definition is_readwrite := get_flag UnmanagedMap.f_readwrite.
Definition set_readwrite := set_flag UnmanagedMap.f_readwrite.
Definition is_supervisor := get_flag UnmanagedMap.f_supervisor.
Definition set_supervisor := set_flag UnmanagedMap.f_supervisor.
Definition is_accessed := get_flag p1_accessed.
Definition set_accessed := set_flag p1_accessed.
Definition is_dirty := get_flag p1_dirty.
Definition set_dirty := set_flag p1_dirty.
Definition is_global := get_flag UnmanagedMap.f_global.
Definition set_global := set_flag UnmanagedMap.f_global.

Definition has_page_frame_unlocked (p : option frame) : bool :=
  match p with Some f => negb (get_page_frame f =? 0) | None => false end.

(** [page_frame_ = std::move(p)] destroys the frame controller held before. *)
Definition set_page_frame_unlocked s e (p : option frame) : result (st S * Entry) :=
  assert! negb (pte_ e =? 0);
  s ← match frame_ e with Some f => release s f | None => mret s end;
  let e := mkentry (pte_ e) p in
  let address := match p with Some f => get_page_frame f | None => 0 end in
  s ← (if has_page_frame_unlocked p then
         s ← update_entry s (pte_ e) (λ data, pe_set_address data address);
         update_entry s (pte_ e) (λ data, mret (pe_assign UnmanagedMap.f_present data true))
       else
         s ← update_entry s (pte_ e) (λ data, pe_set_address data 0);
         update_entry s (pte_ e) (λ data, mret (pe_assign UnmanagedMap.f_present data false)));
  mret (s, e).

Definition set_page_frame := set_page_frame_unlocked.

Definition get_page_frame e : option frame := frame_ e.

Definition set_protection_unlocked s e (flags : Z) : result (st S) :=
  assert! negb (pte_ e =? 0);
  s ← set_present s e true;
  s ← set_readwrite s e (negb (Z.land flags UnmanagedMap.WRITABLE =? 0));
  s ← set_supervisor s e (negb (Z.land flags UnmanagedMap.SUPERVISOR =? 0));
  set_global s e (negb (Z.land flags UnmanagedMap.GLOBAL =? 0)).

Definition set_protection := set_protection_unlocked.

(** The two overloads of [set_mapping]. *)
Definition set_mapping s e (physical_address flags : Z) : result (st S * Entry) :=
  '(s, e) ← set_page_frame_unlocked s e (Some (frame_of_address physical_address));
  s ← set_protection_unlocked s e flags;
  mret (s, e).

Definition set_mapping_allocate s e (flags : Z) : result (st S * Entry) :=
  '(f, s) ← frame_of_allocator s;
  '(s, e) ← set_page_frame_unlocked s e (Some f);
  s ← set_protection_unlocked s e flags;
  mret (s, e).

(** The addresses [&page_table_->entries[i]] given to the entries. *)
Definition feed_ptes (table : Z) : result (list Entry) :=
  assert! negb (table =? 0);
  mret ((λ i, mkentry (table + i * sz) None) <$> seqZ 0 COUNT).

(** The constructor that is given a table. *)
Definition init (pt : Z) : result t :=
  if negb (pt =? 0) then entries ← feed_ptes pt; mret (mk pt entries)
  else mret (mk pt (replicate (Z.to_nat COUNT) (mkentry 0 None))).

Definition clear_table s (table : Z) : result (st S) :=
  assert! negb (table =? 0);
  mret (clear_words sz table COUNT s).

(** The constructor that allocates the table. *)
Definition init_new (new_table : st S → Z) s : result (t * st S) :=
  let table := new_table s in
  s ← clear_table s table;
  entries ← feed_ptes table;
  mret (mk table entries, s).

Definition get_number_of_entries : Z := COUNT.

Definition get_underlying_object_physical_address c : result Z :=
  if negb (page_table_ c =? 0) then convert_logical_to_physical_address K (page_table_ c)
  else mret 0.

Definition get_entry c (index : Z) : result Entry :=
  assert! index <? COUNT;
  deref InvalidAccess (entries_ c !! Z.to_nat index).

Definition get_size_governed_by_entry : Z := PAGE_SIZE.

Definition get_pml1_entry_by_address c (linear_address : Z) : result Entry :=
  get_entry c (index_of linear_address).

(** Working on the entry reached, in place. *)
Definition at_entry c (linear_address : Z) s (f : st S → Entry → result (st S * Entry))
  : result (st S * t) :=
  e ← get_pml1_entry_by_address c linear_address;
  '(s, e) ← f s e;
  mret (s, mk (page_table_ c) (<[Z.to_nat (index_of linear_address) := e]> (entries_ c))).

End Methods.
End PML1.

(** ** Upper levels

    The entries of levels two, three and four are the same code over a hardware entry of
    the same kind; [Child] is the type of the controllers they own. *)
Module PMLEntry.

(** [pde_] and [pml1_], [pml2_] or [pml3_]. *)
Record Entry (Child : Type) := mkentry { pde_ : Z; child_ : option Child }.
Arguments mkentry {Child} _ _.
Arguments pde_ {Child} _.
Arguments child_ {Child} _.

Record t (Child : Type) := mk { page_directory_ : Z; entries_ : list (Entry Child) }.
Arguments mk {Child} _ _.
Arguments page_directory_ {Child} _.
Arguments entries_ {Child} _.

Section Methods.
Context {S : Type} `{PageFrameAllocator S}.
Context {F : Type} `{EqDecision F} `{PagingEntry F} `{PmlDirFlags F}.
Context {Child : Type} (K COUNT sz : Z) (index_of : Z → Z).
(** [get_underlying_object_physical_address] of the child. *)
Context (child_address : Child → result Z).
Implicit Types (s : st S) (e : Entry Child) (c : t Child).

Definition get_flag (f : F) s e : result bool :=
  assert! negb (pde_ e =? 0);
  data ← read_entry s (pde_ e);
  mret (pe_get f data).

Definition set_flag (f : F) s e (b : bool) : result (st S) :=
  assert! negb (pde_ e =? 0);
  update_entry s (pde_ e) (λ data, mret (pe_assign f data b)).

Definition has_page_table_unlocked (p : option Child) : result bool :=
  match p with
  | Some c => a ← child_address c; mret (negb (a =? 0))
  | None => mret false
  end.

Definition set_child_unlocked s e (p : option Child) : result (st S * Entry Child) :=
  assert! negb (pde_ e =? 0);
  let e := mkentry (pde_ e) p in
  has ← has_page_table_unlocked p;
  s ← (if has : bool then
         a ← match p with Some c => child_address c | None => mret 0 end;
         s ← update_entry s (pde_ e) (λ data, pe_set_address data a);
         update_entry s (pde_ e) (λ data, mret (pe_assign pd_present data true))
       else
         s ← update_entry s (pde_ e) (λ data, pe_set_address data 0);
         update_entry s (pde_ e) (λ data, mret (pe_assign pd_present data false)));
  mret (s, e).

Definition set_protection s e (flags : Z) : result (st S) :=
  assert! negb (pde_ e =? 0);
  s ← set_flag pd_readwrite s e (negb (Z.land flags UnmanagedMap.WRITABLE =? 0));
  set_flag pd_supervisor s e (negb (Z.land flags UnmanagedMap.SUPERVISOR =? 0)).

Definition feed_pdes (table : Z) : result (list (Entry Child)) :=
  assert! negb (table =? 0);
  mret ((λ i, mkentry (table + i * sz) None) <$> seqZ 0 COUNT).

Definition init (table : Z) : result (t Child) :=
  entries ← feed_pdes table; mret (mk table entries).

Definition clear_directory s (table : Z) : result (st S) :=
  assert! negb (table =? 0);
  mret (clear_words sz table COUNT s).

Definition init_new (new_table : st S → Z) s : result (t Child * st S) :=
  let table := new_table s in
  s ← clear_directory s table;
  c ← init table;
  mret (c, s).

Definition get_underlying_object_physical_address c : result Z :=
  convert_logical_to_physical_address K (page_directory_ c).

Definition get_entry c (index : Z) : result (Entry Child) :=
  assert! index <? COUNT;
  deref InvalidAccess (entries_ c !! Z.to_nat index).

Definition get_number_of_entries : Z := COUNT.

Definition get_underlying_object_pointer c : Z := page_directory_ c.

Definition get_entry_by_address c (linear_address : Z) : result (Entry Child) :=
  get_entry c (index_of linear_address).

(** The child that governs an address; null when there is none. *)
Definition get_child c (linear_address : Z) : result (option Child) :=
  e ← get_entry_by_address c linear_address; mret (child_ e).

Definition at_entry c (linear_address : Z) s
    (f : st S → Entry Child → result (st S * Entry Child)) : result (st S * t Child) :=
  e ← get_entry_by_address c linear_address;
  '(s, e) ← f s e;
  mret (s, mk (page_directory_ c) (<[Z.to_nat (index_of linear_address) := e]> (entries_ c))).

(** [get_child(linear_address)->...]: the pointer is dereferenced without a test. *)
Definition at_child c (linear_address : Z) s (f : st S → Child → result (st S * Child))
  : result (st S * t Child) :=
  at_entry c linear_address s
    (λ s e, child ← deref NullDereference (child_ e);
            '(s, child) ← f s child;
            mret (s, mkentry (pde_ e) (Some child))).

End Methods.
End PMLEntry.

(** ** Level two: page directories *)
Module PML2.

Notation Entry := (PMLEntry.Entry PML1.t).
Notation t := (PMLEntry.t PML1.t).

Section Methods.
Context {S : Type} `{PageFrameAllocator S}.
Context {F : Type} `{EqDecision F} `{PagingEntry F} `{PmlDirFlags F}.
Context (K COUNT PT_COUNT sz : Z) (index_of_pml2 index_of_pml1 : Z → Z) (new_table : st S → Z).
Implicit Types (s : st S) (e : Entry) (c : t).

Definition is_present := PMLEntry.get_flag (Child := PML1.t) (S := S) pd_present.
Definition set_present := PMLEntry.set_flag (Child := PML1.t) (S := S) pd_present.
Definition is_readwrite := PMLEntry.get_flag (Child := PML1.t) (S := S) pd_readwrite.
Definition set_readwrite := PMLEntry.set_flag (Child := PML1.t) (S := S) pd_readwrite.
Definition is_supervisor := PMLEntry.get_flag (Child := PML1.t) (S := S) pd_supervisor.
Definition set_supervisor := PMLEntry.set_flag (Child := PML1.t) (S := S) pd_supervisor.
Definition is_accessed := PMLEntry.get_flag (Child := PML1.t) (S := S) pd_accessed.
Definition set_accessed := PMLEntry.set_flag (Child := PML1.t) (S := S) pd_accessed.
Definition set_protection := PMLEntry.set_protection (Child := PML1.t) (S := S).

Definition set_pml1_unlocked s e (p : option PML1.t) : result (st S * Entry) :=
  PMLEntry.set_child_unlocked (PML1.get_underlying_object_physical_address K) s e p.

Definition set_pml1 := set_pml1_unlocked.

Definition create_pml1 s : result (PML1.t * st S) :=
  let page_table := new_table s in
  let s := clear_words sz page_table PT_COUNT s in
  c ← PML1.init PT_COUNT sz page_table;
  mret (c, s).

Definition entry_populate (linear_address : Z) s e : result (st S * Entry) :=
  match PMLEntry.child_ e with
  | None => '(c, s) ← create_pml1 s; set_pml1_unlocked s e (Some c)
  | Some _ => mret (s, e)
  end.

Definition init (pd : Z) : result t := PMLEntry.init COUNT sz pd.

Definition init_new s : result (t * st S) := PMLEntry.init_new COUNT sz new_table s.

Definition get_page_directory_pointer c : Z := PMLEntry.page_directory_ c.

Definition get_underlying_object_physical_address c : result Z :=
  PMLEntry.get_underlying_object_physical_address K c.

Definition get_entry c (index : Z) : result Entry := PMLEntry.get_entry COUNT c index.

Definition get_pml2_entry_by_address c (linear_address : Z) : result Entry :=
  PMLEntry.get_entry_by_address COUNT index_of_pml2 c linear_address.

Definition get_pml1 c (linear_address : Z) : result (option PML1.t) :=
  PMLEntry.get_child COUNT index_of_pml2 c linear_address.

Definition populate (linear_address : Z) s c : result (st S * t) :=
  PMLEntry.at_entry COUNT index_of_pml2 c linear_address s (entry_populate linear_address).

(** Working on [get_pml2_entry_by_address(linear_address)]. *)
Definition at_pml2_entry (linear_address : Z) (f : st S → Entry → result (st S)) s c
  : result (st S * t) :=
  PMLEntry.at_entry COUNT index_of_pml2 c linear_address s
    (λ s e, s ← f s e; mret (s, e)).

(** Working on [get_pml1_entry_by_address(linear_address)]. *)
Definition at_pml1_entry (linear_address : Z) (f : st S → PML1.Entry → result (st S * PML1.Entry))
    s c : result (st S * t) :=
  PMLEntry.at_child COUNT index_of_pml2 c linear_address s
    (λ s p, PML1.at_entry PT_COUNT index_of_pml1 p linear_address s f).

End Methods.
End PML2.

(** ** Level three: page-directory-pointer tables, x86_64 only *)
Module PML3.

Notation Entry := (PMLEntry.Entry PML2.t).
Notation t := (PMLEntry.t PML2.t).

Section Methods.
Context {S : Type} `{PageFrameAllocator S}.
Context {F : Type} `{EqDecision F} `{PagingEntry F} `{PmlDirFlags F}.
Context (K COUNT sz : Z) (index_of_pml3 index_of_pml2 index_of_pml1 : Z → Z)
        (new_table : st S → Z).
Implicit Types (s : st S) (e : Entry) (c : t).

Definition is_present := PMLEntry.get_flag (Child := PML2.t) (S := S) pd_present.
Definition set_present := PMLEntry.set_flag (Child := PML2.t) (S := S) pd_present.
Definition is_readwrite := PMLEntry.get_flag (Child := PML2.t) (S := S) pd_readwrite.
Definition set_readwrite := PMLEntry.set_flag (Child := PML2.t) (S := S) pd_readwrite.
Definition is_supervisor := PMLEntry.get_flag (Child := PML2.t) (S := S) pd_supervisor.
Definition set_supervisor := PMLEntry.set_flag (Child := PML2.t) (S := S) pd_supervisor.
Definition is_accessed := PMLEntry.get_flag (Child := PML2.t) (S := S) pd_accessed.
Definition set_accessed := PMLEntry.set_flag (Child := PML2.t) (S := S) pd_accessed.
Definition set_protection := PMLEntry.set_protection (Child := PML2.t) (S := S).

Definition set_pml2_unlocked s e (p : option PML2.t) : result (st S * Entry) :=
  PMLEntry.set_child_unlocked (PML2.get_underlying_object_physical_address K) s e p.

Definition set_pml2 := set_pml2_unlocked.

Definition create_pml2 s : result (PML2.t * st S) :=
  let page_directory := new_table s in
  let s := clear_words sz page_directory COUNT s in
  c ← PML2.init COUNT sz page_directory;
  mret (c, s).

(** The recursion into the new child happens only when the child is new. *)
Definition entry_populate (linear_address : Z) s e : result (st S * Entry) :=
  match PMLEntry.child_ e with
  | None =>
      '(c, s) ← create_pml2 s;
      '(s, e) ← set_pml2_unlocked s e (Some c);
      c ← deref NullDereference (PMLEntry.child_ e);
      '(s, c) ← PML2.populate K COUNT COUNT sz index_of_pml2 new_table linear_address s c;
      mret (s, PMLEntry.mkentry (PMLEntry.pde_ e) (Some c))
  | Some _ => mret (s, e)
  end.

Definition init (pdpt : Z) : result t := PMLEntry.init COUNT sz pdpt.

Definition init_new s : result (t * st S) := PMLEntry.init_new COUNT sz new_table s.

Definition get_underlying_object_physical_address c : result Z :=
  PMLEntry.get_underlying_object_physical_address K c.

Definition get_entry c (index : Z) : result Entry := PMLEntry.get_entry COUNT c index.

Definition get_pml3_entry_by_address c (linear_address : Z) : result Entry :=
  PMLEntry.get_entry_by_address COUNT index_of_pml3 c linear_address.

Definition get_pml2 c (linear_address : Z) : result (option PML2.t) :=
  PMLEntry.get_child COUNT index_of_pml3 c linear_address.

Definition populate (linear_address : Z) s c : result (st S * t) :=
  PMLEntry.at_entry COUNT index_of_pml3 c linear_address s (entry_populate linear_address).

Definition at_pml3_entry (linear_address : Z) (f : st S → Entry → result (st S)) s c
  : result (st S * t) :=
  PMLEntry.at_entry COUNT index_of_pml3 c linear_address s
    (λ s e, s ← f s e; mret (s, e)).

Definition at_pml2_entry (linear_address : Z) (f : st S → PML2.Entry → result (st S)) s c
  : result (st S * t) :=
  PMLEntry.at_child COUNT index_of_pml3 c linear_address s
    (PML2.at_pml2_entry COUNT index_of_pml2 linear_address f).

Definition at_pml1_entry (linear_address : Z) (f : st S → PML1.Entry → result (st S * PML1.Entry))
    s c : result (st S * t) :=
  PMLEntry.at_child COUNT index_of_pml3 c linear_address s
    (PML2.at_pml1_entry COUNT COUNT index_of_pml2 index_of_pml1 linear_address f).

End Methods.
End PML3.

(** ** Level four, x86_64 only *)
Module PML4.

Notation Entry := (PMLEntry.Entry PML3.t).
Notation t := (PMLEntry.t PML3.t).

Section Methods.
Context {S : Type} `{PageFrameAllocator S}.
Context {F : Type} `{EqDecision F} `{PagingEntry F} `{PmlDirFlags F}.
Context (K COUNT sz : Z) (index_of_pml4 index_of_pml3 index_of_pml2 index_of_pml1 : Z → Z)
        (new_table : st S → Z).
Implicit Types (s : st S) (e : Entry) (c : t).

Definition is_present := PMLEntry.get_flag (Child := PML3.t) (S := S) pd_present.
Definition set_present := PMLEntry.set_flag (Child := PML3.t) (S := S) pd_present.
Definition is_readwrite := PMLEntry.get_flag (Child := PML3.t) (S := S) pd_readwrite.
Definition set_readwrite := PMLEntry.set_flag (Child := PML3.t) (S := S) pd_readwrite.
Definition is_supervisor := PMLEntry.get_flag (Child := PML3.t) (S := S) pd_supervisor.
Definition set_supervisor := PMLEntry.set_flag (Child := PML3.t) (S := S) pd_supervisor.
Definition is_accessed := PMLEntry.get_flag (Child := PML3.t) (S := S) pd_accessed.
Definition set_accessed := PMLEntry.set_flag (Child := PML3.t) (S := S) pd_accessed.
Definition set_protection := PMLEntry.set_protection (Child := PML3.t) (S := S).

Definition set_pml3_unlocked s e (p : option PML3.t) : result (st S * Entry) :=
  PMLEntry.set_child_unlocked (PML3.get_underlying_object_physical_address K) s e p.

Definition set_pml3 := set_pml3_unlocked.

Definition create_pml3 s : result (PML3.t * st S) :=
  let object := new_table s in
  let s := clear_words sz object COUNT s in
  c ← PML3.init COUNT sz object;
  mret (c, s).

Definition entry_populate (linear_address : Z) s e : result (st S * Entry) :=
  match PMLEntry.child_ e with
  | None =>
      '(c, s) ← create_pml3 s;
      '(s, e) ← set_pml3_unlocked s e (Some c);
      c ← deref NullDereference (PMLEntry.child_ e);
      '(s, c) ← PML3.populate K COUNT sz index_of_pml3 index_of_pml2 new_table linear_address s c;
      mret (s, PMLEntry.mkentry (PMLEntry.pde_ e) (Some c))
  | Some _ => mret (s, e)
  end.

Definition init (pml4 : Z) : result t := PMLEntry.init COUNT sz pml4.

Definition init_new s : result (t * st S) := PMLEntry.init_new COUNT sz new_table s.

Definition get_underlying_object_physical_address c : result Z :=
  PMLEntry.get_underlying_object_physical_address K c.

Definition get_entry c (index : Z) : result Entry := PMLEntry.get_entry COUNT c index.

Definition get_pml4_entry_by_address c (linear_address : Z) : result Entry :=
  PMLEntry.get_entry_by_address COUNT index_of_pml4 c linear_address.

Definition get_pml3 c (linear_address : Z) : result (option PML3.t) :=
  PMLEntry.get_child COUNT index_of_pml4 c linear_address.

Definition populate (linear_address : Z) s c : result (st S * t) :=
  PMLEntry.at_entry COUNT index_of_pml4 c linear_address s (entry_populate linear_address).

Definition at_pml4_entry (linear_address : Z) (f : st S → Entry → result (st S)) s c
  : result (st S * t) :=
  PMLEntry.at_entry COUNT index_of_pml4 c linear_address s
    (λ s e, s ← f s e; mret (s, e)).

(** [get_pml3_entry_by_address] asserts that there is a level-three controller. *)
Definition at_pml3_entry (linear_address : Z) (f : st S → PML3.Entry → result (st S)) s c
  : result (st S * t) :=
  pml3 ← get_pml3 c linear_address;
  assert! negb (bool_decide (pml3 = None));
  PMLEntry.at_child COUNT index_of_pml4 c linear_address s
    (PML3.at_pml3_entry COUNT index_of_pml3 linear_address f).

Definition at_pml2_entry (linear_address : Z) (f : st S → PML2.Entry → result (st S)) s c
  : result (st S * t) :=
  PMLEntry.at_child COUNT index_of_pml4 c linear_address s
    (PML3.at_pml2_entry COUNT index_of_pml3 index_of_pml2 linear_address f).

Definition at_pml1_entry (linear_address : Z) (f : st S → PML1.Entry → result (st S * PML1.Entry))
    s c : result (st S * t) :=
  PMLEntry.at_child COUNT index_of_pml4 c linear_address s
    (PML3.at_pml1_entry COUNT index_of_pml3 index_of_pml2 index_of_pml1 linear_address f).

End Methods.
End PML4.

(** ** The managed memory map of i386 *)
Module ManagedI386.
Import I386Resolver.

Section Methods.
Context {S : Type} `{PageFrameAllocator S} (new_table : st S → Z).

Record t := mk { state : st S; pml2_ : PML2.t }.

Definition get_index_of_pml2_entry_by_address (linear_address : Z) : Z :=
  let PDE_INDEX_SHIFT := 22 in Z.shiftr linear_address PDE_INDEX_SHIFT.

Definition get_index_of_pml1_entry_by_address (linear_address : Z) : Z :=
  let PTE_INDEX_SHIFT := 12 in
  let PTE_INDEX_MASK := 0x03FF in
  Z.land (Z.shiftr linear_address PTE_INDEX_SHIFT) PTE_INDEX_MASK.

Notation Pte := I386PageTableEntry.flag.
Notation Pde := I386PageDirectoryEntry.flag.
Notation K := KERNEL_VIRTUAL_START_ADDR.
Notation index2 := get_index_of_pml2_entry_by_address.
Notation index1 := get_index_of_pml1_entry_by_address.

#[global] Instance i386_pml1_flags : Pml1Flags Pte := {|
  p1_accessed := I386PageTableEntry.Accessed;
  p1_dirty := I386PageTableEntry.Dirty;
|}.

#[global] Instance i386_dir_flags : PmlDirFlags Pde := {|
  pd_present := I386PageDirectoryEntry.Present;
  pd_readwrite := I386PageDirectoryEntry.ReadWrite;
  pd_supervisor := I386PageDirectoryEntry.Supervisor;
  pd_accessed := I386PageDirectoryEntry.Accessed;
|}.

Definition on (m : t) (f : st S → PML2.t → result (st S * PML2.t)) : result t :=
  '(s, c) ← f (state m) (pml2_ m); mret (mk s c).

Definition populate (m : t) (la : Z) : result t :=
  on m (PML2.populate (F := Pde) K PageDirectory_COUNT PageTable_COUNT sizeof_entry index2
          new_table la).

Definition at_pml2_entry (m : t) (la : Z) (f : st S → PML2.Entry → result (st S)) : result t :=
  on m (PML2.at_pml2_entry PageDirectory_COUNT index2 la f).

Definition at_pml1_entry (m : t) (la : Z)
    (f : st S → PML1.Entry → result (st S * PML1.Entry)) : result t :=
  on m (PML2.at_pml1_entry PageDirectory_COUNT PageTable_COUNT index2 index1 la f).

(** The constructor: a controller over the page directory in use. *)
Definition init (s : st S) : result t :=
  c ← PML2.init PageDirectory_COUNT sizeof_entry
        (convert_physical_to_logical_address W K (get_cr3 (hw_ s)));
  mret (mk s c).

Definition map_page_internal (page flags : Z) (m : t) : result t :=
  m ← populate m page;
  m ← at_pml2_entry m page (λ s e, PML2.set_protection (F := Pde) s e flags);
  at_pml1_entry m page
    (λ s e, present ← PML1.is_present (F := Pte) s e;
            if present : bool then s ← PML1.set_protection (F := Pte) s e flags; mret (s, e)
            else PML1.set_mapping_allocate (F := Pte) s e flags).

Definition with_hw (m : t) (h : hw) : t := mk (mkst h (alloc_ (state m))) (pml2_ m).

Definition map_pages (m : t) (begin end_ flags : Z) : result t :=
  assert! is_page_aligned begin;
  assert! begin <? end_;
  m ← for_pages W (page_fuel begin end_) (λ page, map_page_internal page flags) begin end_ m;
  h ← invalidate_pages W (hw_ (state m)) begin end_;
  mret (with_hw m h).

Definition map_page (m : t) (physical_address linear_address flags : Z) : result t :=
  m ← populate m linear_address;
  m ← at_pml2_entry m linear_address (λ s e, PML2.set_protection (F := Pde) s e flags);
  m ← at_pml1_entry m linear_address
        (λ s e, PML1.set_mapping (F := Pte) s e physical_address flags);
  mret (with_hw m (invalidate_page (hw_ (state m)) linear_address)).

Definition set_readonly_page (page : Z) (m : t) : result t :=
  at_pml1_entry m page (λ s e, s ← PML1.set_readwrite (F := Pte) s e false; mret (s, e)).

Definition set_readonly (m : t) (begin end_ : Z) : result t :=
  m ← for_pages W (page_fuel begin end_) set_readonly_page begin end_ m;
  h ← invalidate_pages W (hw_ (state m)) begin end_;
  mret (with_hw m h).

End Methods.
Arguments t : clear implicits.
End ManagedI386.

(** ** The managed memory map of x86_64 *)
Module ManagedX64.
Import X64Resolver.

Section Methods.
Context {S : Type} `{PageFrameAllocator S} (new_table : st S → Z).

Record t := mk { state : st S; pml4_ : PML4.t }.

Definition get_index_of_pml4_entry_by_address (la : Z) : Z := Z.land (Z.shiftr la 39) 0x1FF.
Definition get_index_of_pml3_entry_by_address (la : Z) : Z := Z.land (Z.shiftr la 30) 0x1FF.
Definition get_index_of_pml2_entry_by_address (la : Z) : Z := Z.land (Z.shiftr la 21) 0x1FF.
Definition get_index_of_pml1_entry_by_address (la : Z) : Z := Z.land (Z.shiftr la 12) 0x1FF.

Notation Pte := X64PageTableEntry.flag.
Notation Pde := GenericPageDirectoryEntry.flag.
Notation K := KERNEL_VIRTUAL_START_ADDR.
Notation index4 := get_index_of_pml4_entry_by_address.
Notation index3 := get_index_of_pml3_entry_by_address.
Notation index2 := get_index_of_pml2_entry_by_address.
Notation index1 := get_index_of_pml1_entry_by_address.

#[global] Instance x64_pml1_flags : Pml1Flags Pte := {|
  p1_accessed := X64PageTableEntry.Accessed;
  p1_dirty := X64PageTableEntry.Dirty;
|}.

#[global] Instance x64_dir_flags : PmlDirFlags Pde := {|
  pd_present := GenericPageDirectoryEntry.Present;
  pd_readwrite := GenericPageDirectoryEntry.ReadWrite;
  pd_supervisor := GenericPageDirectoryEntry.Supervisor;
  pd_accessed := GenericPageDirectoryEntry.Accessed;
|}.

Definition on (m : t) (f : st S → PML4.t → result (st S * PML4.t)) : result t :=
  '(s, c) ← f (state m) (pml4_ m); mret (mk s c).

Definition populate (m : t) (la : Z) : result t :=
  on m (PML4.populate (F := Pde) K COUNT sizeof_entry index4 index3 index2 new_table la).

Definition at_pml4_entry (m : t) (la : Z) (f : st S → PML4.Entry → result (st S)) : result t :=
  on m (PML4.at_pml4_entry COUNT index4 la f).

Definition at_pml3_entry (m : t) (la : Z) (f : st S → PML3.Entry → result (st S)) : result t :=
  on m (PML4.at_pml3_entry COUNT index4 index3 la f).

Definition at_pml2_entry (m : t) (la : Z) (f : st S → PML2.Entry → result (st S)) : result t :=
  on m (PML4.at_pml2_entry COUNT index4 index3 index2 la f).

Definition at_pml1_entry (m : t) (la : Z)
    (f : st S → PML1.Entry → result (st S * PML1.Entry)) : result t :=
  on m (PML4.at_pml1_entry COUNT index4 index3 index2 index1 la f).

Definition init (s : st S) : result t :=
  c ← PML4.init COUNT sizeof_entry (get_page_map_level_four (get_cr3 (hw_ s)));
  mret (mk s c).

Definition when_present {E : Type} (is_present : st S → E → result bool)
    (f : st S → E → result (st S)) (s : st S) (e : E) : result (st S) :=
  present ← is_present s e; if present : bool then f s e else mret s.

(** [set_entry_protection] of the entries of the four levels. *)
Definition set_entries_protection (m : t) (la flags : Z) : result t :=
  m ← at_pml4_entry m la (when_present (PML4.is_present (F := Pde))
                             (λ s e, PML4.set_protection (F := Pde) s e flags));
  m ← at_pml3_entry m la (when_present (PML3.is_present (F := Pde))
                             (λ s e, PML3.set_protection (F := Pde) s e flags));
  m ← at_pml2_entry m la (when_present (PML2.is_present (F := Pde))
                             (λ s e, PML2.set_protection (F := Pde) s e flags));
  at_pml1_entry m la
    (λ s e, s ← when_present (PML1.is_present (F := Pte))
                  (λ s e, PML1.set_protection (F := Pte) s e flags) s e;
            mret (s, e)).

Definition set_page_frame_mapping (m : t) (physical_address linear_address flags : Z) : result t :=
  at_pml1_entry m linear_address
    (λ s e, present ← PML1.is_present (F := Pte) s e;
            if present : bool then s ← PML1.set_protection (F := Pte) s e flags; mret (s, e)
            else PML1.set_mapping (F := Pte) s e physical_address flags).

Definition allocate_and_set_page_frame_mapping (m : t) (linear_address flags : Z) : result t :=
  at_pml1_entry m linear_address
    (λ s e, present ← PML1.is_present (F := Pte) s e;
            if present : bool then s ← PML1.set_protection (F := Pte) s e flags; mret (s, e)
            else PML1.set_mapping_allocate (F := Pte) s e flags).

Definition map_page (m : t) (physical_address linear_address flags : Z) : result t :=
  m ← populate m linear_address;
  m ← set_entries_protection m linear_address flags;
  set_page_frame_mapping m physical_address linear_address flags.

Definition map_page_internal (linear_address flags : Z) (m : t) : result t :=
  m ← populate m linear_address;
  m ← set_entries_protection m linear_address flags;
  allocate_and_set_page_frame_mapping m linear_address flags.

Definition with_hw (m : t) (h : hw) : t := mk (mkst h (alloc_ (state m))) (pml4_ m).

Definition map_pages (m : t) (begin end_ flags : Z) : result t :=
  assert! is_page_aligned begin;
  assert! begin <? end_;
  m ← for_pages W (page_fuel begin end_) (λ page, map_page_internal page flags) begin end_ m;
  h ← invalidate_pages W (hw_ (state m)) begin end_;
  mret (with_hw m h).

(** [set_entry_read_only] of the entries of the four levels. *)
Definition set_readonly_page (la : Z) (m : t) : result t :=
  m ← at_pml4_entry m la (when_present (PML4.is_present (F := Pde))
                             (λ s e, PML4.set_readwrite (F := Pde) s e false));
  m ← at_pml3_entry m la (when_present (PML3.is_present (F := Pde))
                             (λ s e, PML3.set_readwrite (F := Pde) s e false));
  m ← at_pml2_entry m la (when_present (PML2.is_present (F := Pde))
                             (λ s e, PML2.set_readwrite (F := Pde) s e false));
  at_pml1_entry m la
    (λ s e, s ← when_present (PML1.is_present (F := Pte))
                  (λ s e, PML1.set_readwrite (F := Pte) s e false) s e;
            mret (s, e)).

Definition set_readonly (m : t) (begin end_ : Z) : result t :=
  m ← for_pages W (page_fuel begin end_) set_readonly_page begin end_ m;
  h ← invalidate_pages W (hw_ (state m)) begin end_;
  mret (with_hw m h).

End Methods.
Arguments t : clear implicits.
End ManagedX64.

(** ** The physical memory map: managed below the kernel, unmanaged in it *)
Module ConcreteMap.

Section Methods.
Context {S : Type} `{PageFrameAllocator S} (new_table : st S → Z).

(** [managed_] is null until the heap is ready; the unmanaged map keeps no state of its
    own.  This is the i386 instance of the template. *)
Record t := mk { state : st S; managed_ : option PML2.t }.

Notation K := I386Resolver.KERNEL_VIRTUAL_START_ADDR.

Definition init (s : st S) : t := mk s None.

Definition heap_is_ready (m : t) : result t :=
  x ← ManagedI386.init (state m); mret (mk (ManagedI386.state x) (Some (ManagedI386.pml2_ x))).

Definition on_managed (m : t) (f : ManagedI386.t S → result (ManagedI386.t S)) : result t :=
  c ← deref NullDereference (managed_ m);
  x ← f (ManagedI386.mk (state m) c);
  mret (mk (ManagedI386.state x) (Some (ManagedI386.pml2_ x))).

Definition on_unmanaged (m : t) (f : hw → result hw) : result t :=
  h ← f (hw_ (state m)); mret (mk (mkst h (alloc_ (state m))) (managed_ m)).

Definition map_pages (m : t) (begin end_ flags : Z) : result t :=
  assert! is_page_aligned begin;
  assert! begin <? end_;
  if end_ <? K then on_managed m (λ x, ManagedI386.map_pages new_table x begin end_ flags)
  else on_unmanaged m
         (λ h, UnmanagedMap.map_pages (F := I386PageTableEntry.flag) (get_cr3 h) h begin end_ flags).

Definition map_page (m : t) (physical_address linear_address flags : Z) : result t :=
  if linear_address <? K
  then on_managed m (λ x, ManagedI386.map_page new_table x physical_address linear_address flags)
  else on_unmanaged m
         (λ h, UnmanagedMap.map_page (F := I386PageTableEntry.flag) (get_cr3 h) h
                 physical_address linear_address flags).

Definition set_readonly (m : t) (begin end_ : Z) : result t :=
  assert! begin <? end_;
  if end_ <? K then on_managed m (λ x, ManagedI386.set_readonly x begin end_)
  else on_unmanaged m
         (λ h, UnmanagedMap.set_readonly (F := I386PageTableEntry.flag) (get_cr3 h) h begin end_).

End Methods.
Arguments t : clear implicits.
End ConcreteMap.
