(* ===== verification/PageMapLaws.v ===== *)
(** * PageMapLaws: what the page-map controllers keep and do

    The laws of the tree of controllers of [PageMaps].  Section [Tree] works for a page
    directory of either word size, over the interfaces [PagingEntry] and
    [PageFrameAllocator]: [wf2] says that every controller owns the table its hardware
    entry points to, that each page-table entry holds the frame its controller owns, and
    that no two tables overlap; [view] is what the tree says about an entry.  Creating
    a table ([populate_ok]), setting the protection of a directory entry
    ([at_pml2_protect_ok]) and working on a page-table entry ([entry_action_ok]) are each
    described by their effect on [view], and composed by [map_with_ok].

    Module [ManagedI386Laws] carries this to the MMU: walking the words in memory with
    the resolver finds exactly what the tree says, so the theorems of
    [PageMapProperties] speak of the mappings the hardware sees.  [TableHeap] is what the
    map needs of [operator new]; [list_heap] is an implementation of it.  The last section
    describes [populate] on x86_64. *)
From S2P Require Import Prelude PageFrameAllocator PageEntries Paging PageMaps.
Import Mmu.
(** ** Words of memory *)
Section Words.
Context {S : Type} `{PageFrameAllocator S}.
Implicit Types (s : st S).

Lemma update_entry_ok s a f d d' :
  a ≠ 0 → mem (hw_ s) !! a = Some d → f d = Ok d' → update_entry s a f = Ok (with_word s a d').
Proof.
  intros Ha Hd Hf. unfold update_entry, read_entry, load. rewrite (proj2 (Z.eqb_neq _ _) Ha), Hd.
  cbn. by rewrite Hf.
Qed.

Lemma with_word_twice s a d d' : with_word (with_word s a d) a d' = with_word s a d'.
Proof. unfold with_word. cbn. by rewrite insert_insert_eq. Qed.

Lemma with_word_lookup s a d : mem (hw_ (with_word s a d)) !! a = Some d.
Proof. cbn. apply lookup_insert_eq. Qed.

Lemma clear_words_in sz base count s k :
  0 <= k < count → mem (hw_ (clear_words sz base count s)) !! (base + k * sz) = Some 0.
Proof.
  intros Hk. unfold clear_words. cbn [hw_ mem with_mem]. assert (k ∈ seqZ 0 count) as Hin by (apply elem_of_seqZ; lia).
  induction (seqZ 0 count) as [|j ks IH]; [by apply not_elem_of_nil in Hin|]. cbn [foldr].
  destruct (decide (base + j * sz = base + k * sz)) as [Ejk|Hne]; [rewrite Ejk; apply lookup_insert_eq|].
  rewrite lookup_insert_ne by done. apply IH. apply elem_of_cons in Hin as [->|]; done.
Qed.

Lemma clear_words_out sz base count s a :
  (∀ k, 0 <= k < count → a ≠ base + k * sz) →
  mem (hw_ (clear_words sz base count s)) !! a = mem (hw_ s) !! a.
Proof.
  intros Ha. unfold clear_words. cbn [hw_ mem with_mem]. assert (∀ k, k ∈ seqZ 0 count → a ≠ base + k * sz) as Hin
    by (intros k Hk%elem_of_seqZ; apply Ha; lia).
  induction (seqZ 0 count) as [|j ks IH]; [done|]. cbn [foldr]. rewrite lookup_insert_ne.
  - apply IH. intros k Hk. by apply Hin, list_elem_of_further.
  - intros E. by apply (Hin j); [apply list_elem_of_here|].
Qed.

End Words.

(** ** Trees of controllers and the memory they describe *)
Section Tree.
Context {S : Type} `{!PageFrameAllocator S} `{!PageFrameAllocatorLaws S}.
Context {F1 : Type} `{EqDecision F1} `{!PagingEntry F1} `{!PagingEntryLaws F1}
        `{!UnmanagedMap.PteFlags F1}.
Context {F2 : Type} `{EqDecision F2} `{!PagingEntry F2} `{!PagingEntryLaws F2} `{!PmlDirFlags F2}.
Context (W K COUNT sz : Z) (index2 index1 : Z → Z).
Context (HK : 0 < K) (HC : 0 < COUNT) (Hsz : 0 < sz) (Hpage : COUNT * sz = PAGE_SIZE).
Context (flags1 : NoDup (A := F1) [UnmanagedMap.f_present; UnmanagedMap.f_readwrite;
                                   UnmanagedMap.f_global; UnmanagedMap.f_supervisor]).
Context (flags2 : NoDup (A := F2) [pd_present; pd_readwrite; pd_supervisor]).
Context (zero1 : pe_addressable (F := F1) 0 ∧ pe_get_address (F := F1) 0 = 0 ∧
                 pe_get (F := F1) UnmanagedMap.f_present 0 = false ∧ 0 <= pe_width (F := F1)).
Context (zero2 : 0 <= pe_width (F := F2)).
Implicit Types (s : st S) (mm : gmap Z Z) (p : PML1.t) (c : PML2.t).

Definition is_table (base : Z) : Prop :=
  K < base ∧ base + PAGE_SIZE <= 2 ^ W ∧ base `mod` PAGE_SIZE = 0 ∧
  pe_addressable (F := F2) (base - K).

Definition word (base i : Z) : Z := base + i * sz.

Lemma word_inj b b' i j :
  is_table b → is_table b' → 0 <= i < COUNT → 0 <= j < COUNT →
  word b i = word b' j → b = b' ∧ i = j.
Proof using HC Hsz Hpage.
  intros (_ & _ & Hb & _) (_ & _ & Hb' & _) Hi Hj E. unfold word in E.
  assert (0 <= i * sz < PAGE_SIZE) by nia. assert (0 <= j * sz < PAGE_SIZE) by nia.
  assert (b = b') as ->.
  { pose proof (Z.div_mod b PAGE_SIZE ltac:(done)). pose proof (Z.div_mod b' PAGE_SIZE ltac:(done)).
    unfold PAGE_SIZE in *. lia. }
  split; [done|nia].
Qed.

Lemma word_positive b i : is_table b → 0 <= i < COUNT → word b i ≠ 0.
Proof using HK Hsz. intros (? & _) Hi. unfold word. nia. Qed.

(** A frame that must go back to the allocator is one of its frames. *)
Definition frame_ok (o : option frame) : Prop :=
  ∀ f, o = Some f → allocator_ f = true → 0 <= page_frame_ f / PAGE_SIZE < pfa_capacity.

Definition frame_address (o : option frame) : Z := from_option page_frame_ 0 o.

(** A page table and its entries: each maps the frame its controller owns. *)
Definition wf1 mm p : Prop :=
  is_table (PML1.page_table_ p) ∧
  ∀ i, 0 <= i < COUNT →
    ∃ e d, PML1.entries_ p !! Z.to_nat i = Some e ∧
      PML1.pte_ e = word (PML1.page_table_ p) i ∧ mm !! PML1.pte_ e = Some d ∧
      fits (pe_width (F := F1)) d ∧ pe_get_address (F := F1) d = frame_address (PML1.frame_ e) ∧
      frame_ok (PML1.frame_ e) ∧
      (pe_get (F := F1) UnmanagedMap.f_present d = false → PML1.frame_ e = None).

(** The page table of the directory entry [i], if it has a controller. *)
Definition table_at c (i : Z) : option Z :=
  e ← PMLEntry.entries_ c !! Z.to_nat i; PML1.page_table_ <$> PMLEntry.child_ e.

(** A page directory: the entries with a controller point to its table, and among the
    first [lim] entries the others are empty. *)
Definition wf2 (lim : Z) mm c : Prop :=
  is_table (PMLEntry.page_directory_ c) ∧
  (∀ i, 0 <= i < COUNT →
    ∃ e d, PMLEntry.entries_ c !! Z.to_nat i = Some e ∧
      PMLEntry.pde_ e = word (PMLEntry.page_directory_ c) i ∧
      mm !! PMLEntry.pde_ e = Some d ∧ fits (pe_width (F := F2)) d ∧
      match PMLEntry.child_ e with
      | None => i < lim → pe_get_address (F := F2) d = 0
      | Some p => wf1 mm p ∧ PML1.page_table_ p ≠ PMLEntry.page_directory_ c ∧
                  pe_get_address (F := F2) d = PML1.page_table_ p - K
      end) ∧
  (∀ i j, 0 <= i < COUNT → 0 <= j < COUNT → i ≠ j → table_at c i = table_at c j →
          table_at c i = None).

(** What a page-table word says: the frame and the protection, if it is present. *)
Definition decode (d : Z) : option (Z * (bool * bool * bool)) :=
  if pe_get (F := F1) UnmanagedMap.f_present d
  then Some (pe_get_address (F := F1) d,
             (pe_get (F := F1) UnmanagedMap.f_readwrite d, pe_get (F := F1) UnmanagedMap.f_global d,
              pe_get (F := F1) UnmanagedMap.f_supervisor d))
  else None.

(** What the tree says about entry [j] of table [i]. *)
Definition view mm c (i j : Z) : option (Z * (bool * bool * bool)) :=
  pt ← table_at c i; d ← mm !! word pt j; decode d.

(** The protection in a directory entry: writable, supervisor. *)
Definition dir_protection mm c (i : Z) : option (bool * bool) :=
  d ← mm !! word (PMLEntry.page_directory_ c) i;
  Some (pe_get (F := F2) pd_readwrite d, pe_get (F := F2) pd_supervisor d).

Lemma wf1_frame mm mm' p :
  (∀ i, 0 <= i < COUNT → mm' !! word (PML1.page_table_ p) i = mm !! word (PML1.page_table_ p) i) →
  wf1 mm p → wf1 mm' p.
Proof.
  intros Hm [Ht He]. split; [done|]. intros i Hi. destruct (He i Hi) as (e & d & H1 & H2 & H3 & H4).
  exists e, d. split_and!; try done; try apply H4. rewrite H2, Hm, <-H2 by done. done.
Qed.

(** ** Entries of a page table *)
Lemma land_bit_is_bit x k :
  0 <= k → (Z.land x (Z.shiftl 1 k) =? Z.shiftl 1 k) = negb (Z.land x (Z.shiftl 1 k) =? 0).
Proof.
  intros Hk. rewrite land_bit_eqb, negb_involutive by done. destruct (Z.testbit x k) eqn:Hb.
  - apply Z.eqb_eq, Z.bits_inj'. intros i Hi. rewrite Z.land_spec, testbit_shiftl_1 by done.
    destruct (Z.eqb_spec i k) as [->|]; [by rewrite Hb|by rewrite andb_false_r].
  - apply Z.eqb_neq. intros E.
    assert (Z.testbit (Z.land x (Z.shiftl 1 k)) k = true) as H1
      by (by rewrite E, testbit_shiftl_1, Z.eqb_refl).
    by rewrite Z.land_spec, Hb in H1.
Qed.

Lemma distinct1 :
  (UnmanagedMap.f_present : F1) ≠ UnmanagedMap.f_readwrite ∧
  (UnmanagedMap.f_present : F1) ≠ UnmanagedMap.f_global ∧
  (UnmanagedMap.f_present : F1) ≠ UnmanagedMap.f_supervisor ∧
  (UnmanagedMap.f_readwrite : F1) ≠ UnmanagedMap.f_global ∧
  (UnmanagedMap.f_readwrite : F1) ≠ UnmanagedMap.f_supervisor ∧
  (UnmanagedMap.f_global : F1) ≠ UnmanagedMap.f_supervisor.
Proof using flags1.
  apply NoDup_cons in flags1 as [H1 Hr]. apply NoDup_cons in Hr as [H2 Hr].
  apply NoDup_cons in Hr as [H3 _]. apply not_elem_of_cons in H1 as [? H1].
  apply not_elem_of_cons in H1 as [? H1]. apply not_elem_of_cons in H1 as [? _].
  apply not_elem_of_cons in H2 as [? H2]. apply not_elem_of_cons in H2 as [? _].
  apply not_elem_of_cons in H3 as [? _]. done.
Qed.

Lemma assign1 f d b :
  fits (pe_width (F := F1)) d →
  fits (pe_width (F := F1)) (pe_assign (F := F1) f d b) ∧
  pe_get_address (F := F1) (pe_assign f d b) = pe_get_address (F := F1) d ∧
  ∀ g, pe_get (F := F1) g (pe_assign f d b) = if decide (g = f) then b else pe_get g d.
Proof using PagingEntryLaws0.
  intros Hd. destruct (pe_contract (F := F1) d Hd) as [Hc _].
  split_and!; [apply (Hc f f b)|apply (Hc f f b)|]. intros g. apply (Hc g f b).
Qed.

Lemma set_protection_word s e d flags :
  PML1.pte_ e ≠ 0 → mem (hw_ s) !! PML1.pte_ e = Some d → fits (pe_width (F := F1)) d →
  ∃ d', PML1.set_protection_unlocked (F := F1) s e flags = Ok (with_word s (PML1.pte_ e) d') ∧
    fits (pe_width (F := F1)) d' ∧ pe_get_address (F := F1) d' = pe_get_address (F := F1) d ∧
    decode d' = Some (pe_get_address (F := F1) d, UnmanagedMap.protection flags).
Proof using PagingEntryLaws0 flags1.
  intros Ha Hd Hf. unfold PML1.set_protection_unlocked, PML1.set_present, PML1.set_readwrite,
    PML1.set_supervisor, PML1.set_global, PML1.set_flag.
  rewrite (proj2 (Z.eqb_neq _ _) Ha). cbn [negb assert_then].
  set (d1 := pe_assign (F := F1) UnmanagedMap.f_present d true).
  set (d2 := pe_assign (F := F1) UnmanagedMap.f_readwrite d1 (negb (Z.land flags UnmanagedMap.WRITABLE =? 0))).
  set (d3 := pe_assign (F := F1) UnmanagedMap.f_supervisor d2 (negb (Z.land flags UnmanagedMap.SUPERVISOR =? 0))).
  set (d4 := pe_assign (F := F1) UnmanagedMap.f_global d3 (negb (Z.land flags UnmanagedMap.GLOBAL =? 0))).
  destruct (assign1 UnmanagedMap.f_present d true Hf) as (F1' & A1 & G1). fold d1 in F1', A1, G1.
  destruct (assign1 UnmanagedMap.f_readwrite d1 (negb (Z.land flags UnmanagedMap.WRITABLE =? 0)) F1')
    as (F2' & A2 & G2). fold d2 in F2', A2, G2.
  destruct (assign1 UnmanagedMap.f_supervisor d2 (negb (Z.land flags UnmanagedMap.SUPERVISOR =? 0)) F2')
    as (F3' & A3 & G3). fold d3 in F3', A3, G3.
  destruct (assign1 UnmanagedMap.f_global d3 (negb (Z.land flags UnmanagedMap.GLOBAL =? 0)) F3')
    as (F4' & A4 & G4). fold d4 in F4', A4, G4.
  rewrite (update_entry_ok s _ _ d d1) by done. cbn [mbind result_bind].
  rewrite (update_entry_ok _ _ _ d1 d2) by (done || apply with_word_lookup). cbn [mbind result_bind].
  rewrite with_word_twice.
  rewrite (update_entry_ok _ _ _ d2 d3) by (done || apply with_word_lookup). cbn [mbind result_bind].
  rewrite with_word_twice.
  rewrite (update_entry_ok _ _ _ d3 d4) by (done || apply with_word_lookup). rewrite with_word_twice.
  exists d4. split; [done|]. split; [done|]. split; [congruence|].
  unfold decode, UnmanagedMap.protection.
  rewrite !G4, !G3, !G2, !G1, A4, A3, A2, A1. unfold UnmanagedMap.WRITABLE, UnmanagedMap.GLOBAL, UnmanagedMap.SUPERVISOR.
  rewrite !land_bit_is_bit by done.
  destruct distinct1 as (N1 & N2 & N3 & N4 & N5 & N6).
  repeat match goal with
  | |- context [decide (?x = ?x)] => rewrite (decide_True (P := x = x)) by reflexivity
  | |- context [decide (?x = ?y)] => rewrite (decide_False (P := x = y)) by (assumption || by apply not_eq_sym)
  end. done.
Qed.

(** Giving an entry the frame [o], after releasing the one it had. *)
Lemma set_page_frame_word s e d o :
  PML1.pte_ e ≠ 0 → mem (hw_ s) !! PML1.pte_ e = Some d → fits (pe_width (F := F1)) d →
  pfa_inv (alloc_ s) → frame_ok (PML1.frame_ e) → pe_addressable (F := F1) (frame_address o) →
  ∃ al d', PML1.set_page_frame_unlocked (F := F1) s e o
           = Ok (with_word (mkst (hw_ s) al) (PML1.pte_ e) d', PML1.mkentry (PML1.pte_ e) o) ∧
    pfa_inv al ∧ fits (pe_width (F := F1)) d' ∧ pe_get_address (F := F1) d' = frame_address o ∧
    (PML1.frame_ e = None → al = alloc_ s).
Proof using PagingEntryLaws0 PageFrameAllocatorLaws0 zero1.
  intros Ha Hd Hf Hinv Hfr Hadr. unfold PML1.set_page_frame_unlocked.
  rewrite (proj2 (Z.eqb_neq _ _) Ha). cbn [negb assert_then].
  assert (∃ al, match PML1.frame_ e with Some f => release s f | None => mret s end
                = Ok (mkst (hw_ s) al) ∧ pfa_inv al ∧ (PML1.frame_ e = None → al = alloc_ s))
    as (al & -> & Hal & Hnone).
  { destruct (PML1.frame_ e) as [f|] eqn:Ef; [|exists (alloc_ s); by destruct s].
    unfold release. destruct (allocator_ f) eqn:Eal; [|exists (alloc_ s); by destruct s].
    destruct (pfa_deallocate_ok (alloc_ s) (page_frame_ f) Hinv (Hfr f eq_refl Eal)) as (al & -> & ? & _).
    by exists al. }
  cbn [mbind result_bind].
  set (a := if PML1.has_page_frame_unlocked o then frame_address o else 0).
  assert (a = frame_address o) as Ea.
  { unfold a, PML1.has_page_frame_unlocked, frame_address, get_page_frame.
    destruct o as [f|]; [|done]. cbn. by destruct (Z.eqb_spec (page_frame_ f) 0). }
  destruct (pe_contract (F := F1) d Hf) as [_ Hset].
  destruct (Hset (frame_address o) Hadr) as (d1 & E1 & Hf1 & Hg1 & _).
  set (b := PML1.has_page_frame_unlocked o).
  destruct (assign1 UnmanagedMap.f_present d1 b Hf1) as (Hf2 & Ha2 & _).
  exists al, (pe_assign UnmanagedMap.f_present d1 b). split; [|split_and!; try done; by rewrite Ha2].
  assert (∀ x, x = frame_address o →
    (s0 ← update_entry (mkst (hw_ s) al) (PML1.pte_ e) (λ data, pe_set_address (F := F1) data x);
     update_entry s0 (PML1.pte_ e) (λ data, mret (pe_assign UnmanagedMap.f_present data b)))
    = Ok (with_word (mkst (hw_ s) al) (PML1.pte_ e) (pe_assign UnmanagedMap.f_present d1 b))) as Hup.
  { intros x ->. rewrite (update_entry_ok _ _ _ d d1) by done. cbn [mbind result_bind].
    rewrite (update_entry_ok _ _ _ d1 (pe_assign UnmanagedMap.f_present d1 b))
      by (done || apply with_word_lookup). by rewrite with_word_twice. }
  unfold a in Ea. fold b in Ea. fold b. destruct b.
  - rewrite Hup by (by destruct o). done.
  - rewrite Hup by done. done.
Qed.

(** ** Working on an entry of the tree *)
Lemma wf2_child lim mm c i pt :
  wf2 lim mm c → 0 <= i < COUNT → table_at c i = Some pt →
  ∃ e p d, PMLEntry.entries_ c !! Z.to_nat i = Some e ∧ PMLEntry.child_ e = Some p ∧
    PML1.page_table_ p = pt ∧ wf1 mm p ∧ pt ≠ PMLEntry.page_directory_ c ∧
    mm !! word (PMLEntry.page_directory_ c) i = Some d ∧ pe_get_address (F := F2) d = pt - K.
Proof.
  intros (_ & He & _) Hi Ht. destruct (He i Hi) as (e & d & H1 & H2 & H3 & H4 & H5).
  unfold table_at in Ht. rewrite H1 in Ht. cbn in Ht.
  destruct (PMLEntry.child_ e) as [p|] eqn:Ec; [|done]. injection Ht as <-.
  destruct H5 as (? & ? & ?). exists e, p, d. rewrite <-H2. done.
Qed.

(** The rest of the tree does not see a change of one word of one page table. *)
Lemma wf1_insert mm p q a d :
  wf1 mm q → is_table (PML1.page_table_ p) → PML1.page_table_ q ≠ PML1.page_table_ p →
  (∃ j, 0 <= j < COUNT ∧ a = word (PML1.page_table_ p) j) → wf1 (<[a := d]> mm) q.
Proof using HC Hsz Hpage.
  intros Hq Hp Hne (j & Hj & ->). eapply wf1_frame; [|exact Hq]. intros i Hi.
  rewrite lookup_insert_ne; [done|]. intros E. destruct Hq as [Hq _].
  destruct (word_inj _ _ _ _ Hp Hq Hj Hi E). done.
Qed.

Lemma wf1_update mm p j e d fr d' :
  wf1 mm p → 0 <= j < COUNT → PML1.entries_ p !! Z.to_nat j = Some e →
  fits (pe_width (F := F1)) d' → pe_get_address (F := F1) d' = frame_address fr → frame_ok fr →
  (pe_get (F := F1) UnmanagedMap.f_present d' = false → fr = None) → mm !! PML1.pte_ e = Some d →
  wf1 (<[PML1.pte_ e := d']> mm)
    (PML1.mk (PML1.page_table_ p)
       (<[Z.to_nat j := PML1.mkentry (PML1.pte_ e) fr]> (PML1.entries_ p))).
Proof using HC Hsz Hpage.
  intros [Ht He] Hj Hej Hf Hadr Hfr Hpr Hd. split; [done|]. intros i Hi. cbn.
  destruct (He j Hj) as (ej & dj & E1 & E2 & _). rewrite Hej in E1. injection E1 as <-.
  destruct (decide (i = j)) as [->|Hne].
  - exists (PML1.mkentry (PML1.pte_ e) fr), d'. cbn.
    rewrite list_lookup_insert_eq by (by eapply lookup_lt_Some). rewrite lookup_insert_eq. by split_and!.
  - destruct (He i Hi) as (ei & di & H1 & H2 & H3 & H4 & H5 & H6 & H7). exists ei, di.
    rewrite list_lookup_insert_ne by lia. split_and!; try done.
    rewrite lookup_insert_ne; [done|]. rewrite E2, H2. intros E.
    destruct (word_inj _ _ _ _ Ht Ht Hj Hi E). lia.
Qed.

Lemma table_at_insert c i e e' k :
  PMLEntry.entries_ c !! Z.to_nat i = Some e → 0 <= i → 0 <= k →
  PML1.page_table_ <$> PMLEntry.child_ e' = PML1.page_table_ <$> PMLEntry.child_ e →
  table_at (PMLEntry.mk (PMLEntry.page_directory_ c) (<[Z.to_nat i := e']> (PMLEntry.entries_ c))) k
  = table_at c k.
Proof.
  intros He Hi Hk Hc. unfold table_at. cbn. destruct (decide (k = i)) as [->|Hne].
  - rewrite list_lookup_insert_eq by (by eapply lookup_lt_Some). by rewrite He.
  - rewrite list_lookup_insert_ne by lia. done.
Qed.

Lemma at_pml1_entry_ok lim s c la pt (f : st S → PML1.Entry → result (st S * PML1.Entry)) :
  wf2 lim (mem (hw_ s)) c → 0 <= index2 la < COUNT → 0 <= index1 la < COUNT →
  table_at c (index2 la) = Some pt →
  ∃ e d, PML1.pte_ e = word pt (index1 la) ∧ mem (hw_ s) !! PML1.pte_ e = Some d ∧
    fits (pe_width (F := F1)) d ∧ pe_get_address (F := F1) d = frame_address (PML1.frame_ e) ∧
    frame_ok (PML1.frame_ e) ∧ PML1.pte_ e ≠ 0 ∧
    (pe_get (F := F1) UnmanagedMap.f_present d = false → PML1.frame_ e = None) ∧
    ∀ al d' fr, f s e = Ok (with_word (mkst (hw_ s) al) (PML1.pte_ e) d', PML1.mkentry (PML1.pte_ e) fr) →
      fits (pe_width (F := F1)) d' → pe_get_address (F := F1) d' = frame_address fr → frame_ok fr →
      (pe_get (F := F1) UnmanagedMap.f_present d' = false → fr = None) →
      ∃ c', PML2.at_pml1_entry COUNT COUNT index2 index1 la f s c
            = Ok (with_word (mkst (hw_ s) al) (PML1.pte_ e) d', c') ∧
        wf2 lim (<[PML1.pte_ e := d']> (mem (hw_ s))) c' ∧
        PMLEntry.page_directory_ c' = PMLEntry.page_directory_ c ∧
        ∀ k, 0 <= k → table_at c' k = table_at c k.
Proof using HK HC Hsz Hpage.
  intros Hwf Hi Hj Ht. destruct (wf2_child _ _ _ _ _ Hwf Hi Ht)
    as (e2 & p & d2 & He2 & Hp & Hpt & Hwp & Hroot & Hd2 & Ha2).
  pose proof Hwp as [Htp Hep].
  destruct (Hep (index1 la) Hj) as (e & d & H1 & H2 & H3 & H4 & H5 & H6 & H7).
  exists e, d. rewrite <-Hpt. split_and!; try done.
  { rewrite H2. by apply word_positive. }
  intros al d' fr Hf Hfits Hadr Hfr Hpr.
  unfold PML2.at_pml1_entry, PMLEntry.at_child, PMLEntry.at_entry, PMLEntry.get_entry_by_address,
    PMLEntry.get_entry. decide_Z. rewrite He2. cbn [deref mbind result_bind]. rewrite Hp.
  cbn [deref mbind result_bind]. unfold PML1.at_entry, PML1.get_pml1_entry_by_address, PML1.get_entry.
  decide_Z. rewrite H1. cbn [deref mbind result_bind]. rewrite Hf.
  cbn [mbind result_bind mret result_ret]. eexists. split; [done|].
  set (p' := PML1.mk _ _). set (e2' := PMLEntry.mkentry _ (Some p')).
  assert (∀ k, 0 <= k → table_at (PMLEntry.mk (PMLEntry.page_directory_ c)
    (<[Z.to_nat (index2 la) := e2']> (PMLEntry.entries_ c))) k = table_at c k) as Htab.
  { intros k Hk. apply (table_at_insert c (index2 la) e2); [done|lia|done|].
    cbn. by rewrite Hp. }
  split; [|done].
  destruct Hwf as (Hroott & Hent & Hdist).
  assert (∃ j, 0 <= j < COUNT ∧ PML1.pte_ e = word (PML1.page_table_ p) j) as Hpte by eauto.
  split_and!; [done| |]; cbn [PMLEntry.page_directory_ PMLEntry.entries_].
  - intros i Hi'. destruct (Hent i Hi') as (ei & di & G1 & G2 & G3 & G4 & G5).
    assert (<[PML1.pte_ e := d']> (mem (hw_ s)) !! PMLEntry.pde_ ei = Some di) as G3'.
    { rewrite lookup_insert_ne; [done|]. rewrite H2, G2. intros E.
      destruct (word_inj _ _ _ _ Htp Hroott Hj Hi' E). congruence. }
    destruct (decide (i = index2 la)) as [->|Hne].
    + rewrite He2 in G1. injection G1 as <-. exists e2', di.
      rewrite list_lookup_insert_eq by (by eapply lookup_lt_Some).
      rewrite Hp in G5. destruct G5 as (_ & G6 & G7). cbn. split_and!; try done.
      by eapply wf1_update.
    + exists ei, di. rewrite list_lookup_insert_ne by lia. split_and!; try done.
      destruct (PMLEntry.child_ ei) as [q|] eqn:Eq; [|done]. destruct G5 as (G6 & G7 & G8).
      split_and!; try done. eapply (wf1_insert _ p); try done.
      intros E. specialize (Hdist i (index2 la) Hi' Hi Hne). unfold table_at in Hdist.
      rewrite G1, He2 in Hdist. cbn in Hdist. rewrite Eq, Hp in Hdist. cbn in Hdist.
      by specialize (Hdist (f_equal Some E)).
  - intros i i' Hi1 Hi2. rewrite !Htab by lia. by apply Hdist.
Qed.

(** ** Entries of the page directory *)
Lemma distinct2 :
  (pd_present : F2) ≠ pd_readwrite ∧ (pd_present : F2) ≠ pd_supervisor ∧
  (pd_readwrite : F2) ≠ pd_supervisor.
Proof using flags2.
  apply NoDup_cons in flags2 as [H1 Hr]. apply NoDup_cons in Hr as [H2 _].
  apply not_elem_of_cons in H1 as [? H1]. apply not_elem_of_cons in H1 as [? _].
  apply not_elem_of_cons in H2 as [? _]. done.
Qed.

Lemma assign2 f d b :
  fits (pe_width (F := F2)) d →
  fits (pe_width (F := F2)) (pe_assign (F := F2) f d b) ∧
  pe_get_address (F := F2) (pe_assign f d b) = pe_get_address (F := F2) d ∧
  ∀ g, pe_get (F := F2) g (pe_assign f d b) = if decide (g = f) then b else pe_get g d.
Proof using PagingEntryLaws1.
  intros Hd. destruct (pe_contract (F := F2) d Hd) as [Hc _].
  split_and!; [apply (Hc f f b)|apply (Hc f f b)|]. intros g. apply (Hc g f b).
Qed.

Definition dir_flags (flags : Z) : bool * bool :=
  (negb (Z.land flags UnmanagedMap.WRITABLE =? 0), negb (Z.land flags UnmanagedMap.SUPERVISOR =? 0)).

Lemma dir_protection_word {Child : Type} s (e : PMLEntry.Entry Child) d flags :
  PMLEntry.pde_ e ≠ 0 → mem (hw_ s) !! PMLEntry.pde_ e = Some d → fits (pe_width (F := F2)) d →
  ∃ d', PMLEntry.set_protection (F := F2) s e flags = Ok (with_word s (PMLEntry.pde_ e) d') ∧
    fits (pe_width (F := F2)) d' ∧ pe_get_address (F := F2) d' = pe_get_address (F := F2) d ∧
    (pe_get (F := F2) pd_readwrite d', pe_get (F := F2) pd_supervisor d') = dir_flags flags.
Proof using PagingEntryLaws1 flags2.
  intros Ha Hd Hf. unfold PMLEntry.set_protection, PMLEntry.set_flag.
  rewrite (proj2 (Z.eqb_neq _ _) Ha). cbn [negb assert_then].
  set (d1 := pe_assign (F := F2) pd_readwrite d (negb (Z.land flags UnmanagedMap.WRITABLE =? 0))).
  set (d2 := pe_assign (F := F2) pd_supervisor d1 (negb (Z.land flags UnmanagedMap.SUPERVISOR =? 0))).
  destruct (assign2 pd_readwrite d (negb (Z.land flags UnmanagedMap.WRITABLE =? 0)) Hf)
    as (F1' & A1 & G1). fold d1 in F1', A1, G1.
  destruct (assign2 pd_supervisor d1 (negb (Z.land flags UnmanagedMap.SUPERVISOR =? 0)) F1')
    as (F2' & A2 & G2). fold d2 in F2', A2, G2.
  rewrite (update_entry_ok s _ _ d d1) by done. cbn [mbind result_bind].
  rewrite (update_entry_ok _ _ _ d1 d2) by (done || apply with_word_lookup).
  rewrite with_word_twice. exists d2. split; [done|]. split; [done|]. split; [congruence|].
  destruct distinct2 as (_ & _ & N). unfold dir_flags. rewrite !G2, !G1.
  rewrite (decide_True (P := (pd_supervisor : F2) = pd_supervisor)) by done.
  rewrite (decide_False (P := (pd_readwrite : F2) = pd_supervisor)) by done.
  by rewrite (decide_True (P := (pd_readwrite : F2) = pd_readwrite)).
Qed.

(** A directory word changes, but not the address in it. *)
Lemma wf2_root_word lim mm c i d d' :
  wf2 lim mm c → 0 <= i < COUNT → mm !! word (PMLEntry.page_directory_ c) i = Some d →
  fits (pe_width (F := F2)) d' → pe_get_address (F := F2) d' = pe_get_address (F := F2) d →
  wf2 lim (<[word (PMLEntry.page_directory_ c) i := d']> mm) c.
Proof using HC Hsz Hpage.
  intros (Hroot & Hent & Hdist) Hi Hd Hf Ha. split_and!; [done| |done].
  intros k Hk. destruct (Hent k Hk) as (e & dk & H1 & H2 & H3 & H4 & H5).
  assert (∀ p, wf1 mm p → PML1.page_table_ p ≠ PMLEntry.page_directory_ c →
    wf1 (<[word (PMLEntry.page_directory_ c) i := d']> mm) p) as Hkeep.
  { intros p Hp Hne. eapply wf1_frame; [|exact Hp]. intros j Hj.
    rewrite lookup_insert_ne; [done|]. intros E. destruct Hp as [Hp _].
    destruct (word_inj _ _ _ _ Hroot Hp Hi Hj E). congruence. }
  destruct (decide (k = i)) as [->|Hne].
  - exists e, d'. rewrite H2 in H3 |- *. rewrite Hd in H3. injection H3 as <-.
    rewrite lookup_insert_eq. split_and!; try done.
    destruct (PMLEntry.child_ e) as [p|]; [|intros; rewrite Ha; by apply H5].
    destruct H5 as (? & ? & ?). split_and!; [by apply Hkeep|done|congruence].
  - exists e, dk. split_and!; try done.
    + rewrite lookup_insert_ne; [done|]. rewrite H2. intros E.
      destruct (word_inj _ _ _ _ Hroot Hroot Hi Hk E). congruence.
    + destruct (PMLEntry.child_ e) as [p|]; [|done]. destruct H5 as (? & ? & ?).
      split_and!; [by apply Hkeep|done|done].
Qed.

Lemma view_root_word lim mm c i d' k j :
  wf2 lim mm c → 0 <= i < COUNT → 0 <= k < COUNT → 0 <= j < COUNT →
  view (<[word (PMLEntry.page_directory_ c) i := d']> mm) c k j = view mm c k j.
Proof using HC Hsz Hpage.
  intros Hwf Hi Hk Hj. unfold view. destruct (table_at c k) as [pt|] eqn:Et; [|done]. cbn.
  destruct (wf2_child _ _ _ _ _ Hwf Hk Et) as (e & p & d & _ & _ & Hpt & [Hp _] & Hne & _).
  rewrite lookup_insert_ne; [done|]. intros E. destruct Hwf as (Hroot & _). rewrite <-Hpt in E.
  destruct (word_inj _ _ _ _ Hroot Hp Hi Hj E). congruence.
Qed.

Lemma at_pml2_protect_ok lim s c la flags :
  wf2 lim (mem (hw_ s)) c → 0 <= index2 la < COUNT →
  ∃ d', PML2.at_pml2_entry COUNT index2 la (λ s e, PML2.set_protection (F := F2) s e flags) s c
        = Ok (with_word s (word (PMLEntry.page_directory_ c) (index2 la)) d', c) ∧
    let mm' := <[word (PMLEntry.page_directory_ c) (index2 la) := d']> (mem (hw_ s)) in
    wf2 lim mm' c ∧
    (∀ k, 0 <= k < COUNT →
       dir_protection mm' c k
       = if decide (k = index2 la) then Some (dir_flags flags) else dir_protection (mem (hw_ s)) c k).
Proof using HK HC Hsz Hpage PagingEntryLaws1 flags2.
  intros Hwf Hi. pose proof Hwf as (Hroot & Hent & _).
  destruct (Hent _ Hi) as (e & d & H1 & H2 & H3 & H4 & _).
  assert (PMLEntry.pde_ e ≠ 0) as Hne by (rewrite H2; by apply word_positive).
  destruct (dir_protection_word s e d flags Hne H3 H4) as (d' & E & Hf & Ha & Hg).
  exists d'. rewrite <-H2. split; [|split].
  - unfold PML2.at_pml2_entry, PMLEntry.at_entry, PMLEntry.get_entry_by_address, PMLEntry.get_entry.
    decide_Z. rewrite H1. cbn [deref mbind result_bind]. unfold PML2.set_protection. rewrite E.
    cbn [mbind result_bind mret result_ret]. rewrite list_insert_id by done. by destruct c.
  - rewrite H2 in H3 |- *. by eapply wf2_root_word.
  - intros k Hk. unfold dir_protection. destruct (decide (k = index2 la)) as [->|Hkne].
    + rewrite <-H2, lookup_insert_eq. cbn. by rewrite <-Hg.
    + rewrite lookup_insert_ne; [done|]. rewrite H2. intros E'.
      destruct (word_inj _ _ _ _ Hroot Hroot Hi Hk E'). congruence.
Qed.

(** ** One word of one page table changes *)
Lemma view_pte_word lim mm c c' i j pt d' k l :
  wf2 lim mm c → 0 <= i < COUNT → 0 <= j < COUNT → 0 <= k < COUNT → 0 <= l < COUNT →
  table_at c i = Some pt → (∀ n, 0 <= n → table_at c' n = table_at c n) →
  view (<[word pt j := d']> mm) c' k l
  = if decide (k = i ∧ l = j) then decode d' else view mm c k l.
Proof using HC Hsz Hpage.
  intros Hwf Hi Hj Hk Hl Ht Hc. unfold view. rewrite Hc by lia.
  destruct (decide (k = i ∧ l = j)) as [[-> ->]|Hne]; [rewrite Ht; cbn; by rewrite lookup_insert_eq|].
  destruct (table_at c k) as [pk|] eqn:Ek; [|done]. cbn. rewrite lookup_insert_ne; [done|].
  intros E. destruct (wf2_child _ _ _ _ _ Hwf Hi Ht) as (_ & p & _ & _ & _ & Hp & [Hpt _] & _).
  destruct (wf2_child _ _ _ _ _ Hwf Hk Ek) as (_ & q & _ & _ & _ & Hq & [Hqt _] & _).
  rewrite Hp in Hpt. rewrite Hq in Hqt.
  destruct (word_inj _ _ _ _ Hpt Hqt Hj Hl E) as [-> ->]. destruct (decide (k = i)) as [->|Hki]; [by apply Hne|].
  destruct Hwf as (_ & _ & Hd). specialize (Hd k i Hk Hi Hki). rewrite Ek, Ht in Hd. by specialize (Hd eq_refl).
Qed.

Lemma dir_protection_pte_word lim mm c c' i j pt d' k :
  wf2 lim mm c → 0 <= i < COUNT → 0 <= j < COUNT → 0 <= k < COUNT →
  table_at c i = Some pt → PMLEntry.page_directory_ c' = PMLEntry.page_directory_ c →
  dir_protection (<[word pt j := d']> mm) c' k = dir_protection mm c k.
Proof using HC Hsz Hpage.
  intros Hwf Hi Hj Hk Ht Hc. unfold dir_protection. rewrite Hc, lookup_insert_ne; [done|].
  destruct (wf2_child _ _ _ _ _ Hwf Hi Ht) as (_ & p & _ & _ & _ & Hp & [Hpt _] & Hne & _).
  destruct Hwf as (Hroot & _). rewrite Hp in Hpt. intros E.
  by destruct (word_inj _ _ _ _ Hpt Hroot Hj Hk E).
Qed.

(** ** Creating a page table *)
Definition fresh_table mm (base : Z) : Prop :=
  is_table base ∧ ∀ i, 0 <= i < COUNT → mm !! word base i = None.

Lemma create_pml1_ok new_table s :
  fresh_table (mem (hw_ s)) (new_table s) →
  let mm' := mem (hw_ (clear_words sz (new_table s) COUNT s)) in
  ∃ p, PML2.create_pml1 COUNT sz new_table s = Ok (p, clear_words sz (new_table s) COUNT s) ∧
    PML1.page_table_ p = new_table s ∧ wf1 mm' p ∧
    (∀ i, 0 <= i < COUNT → mm' !! word (new_table s) i = Some 0) ∧
    (∀ a, mem (hw_ s) !! a ≠ None → mm' !! a = mem (hw_ s) !! a).
Proof using HK HC Hsz zero1.
  intros [Ht Hfresh] mm'. unfold PML2.create_pml1, PML1.init.
  assert (new_table s ≠ 0) as Hne by (destruct Ht; lia).
  unfold PML1.feed_ptes. rewrite (proj2 (Z.eqb_neq _ _) Hne).
  cbn [negb assert_then mbind result_bind mret result_ret].
  assert (∀ i, 0 <= i < COUNT → mm' !! word (new_table s) i = Some 0) as Hz
    by (intros; by apply clear_words_in).
  eexists. split; [done|]. split; [done|]. split; [|split; [done|]].
  - split; [done|]. intros i Hi. exists (PML1.mkentry (word (new_table s) i) None), 0.
    cbn [PML1.entries_ PML1.page_table_ PML1.pte_ PML1.frame_].
    split_and!; [|done|by apply Hz|split; [done|]|apply zero1|done|done].
    + by rewrite list_lookup_fmap, (proj2 (lookup_seqZ 0 COUNT (Z.to_nat i) i)) by lia.
    + apply Z.pow_pos_nonneg; [lia|apply zero1].
  - intros a Ha. apply clear_words_out. intros k Hk ->. by apply Ha, Hfresh.
Qed.

Lemma set_child_word s (e : PML2.Entry) p d :
  PMLEntry.pde_ e ≠ 0 → mem (hw_ s) !! PMLEntry.pde_ e = Some d → fits (pe_width (F := F2)) d →
  is_table (PML1.page_table_ p) →
  ∃ d', PML2.set_pml1_unlocked (F := F2) K s e (Some p)
        = Ok (with_word s (PMLEntry.pde_ e) d', PMLEntry.mkentry (PMLEntry.pde_ e) (Some p)) ∧
    fits (pe_width (F := F2)) d' ∧ pe_get_address (F := F2) d' = PML1.page_table_ p - K ∧
    pe_get (F := F2) pd_present d' = true ∧
    pe_get (F := F2) pd_readwrite d' = pe_get (F := F2) pd_readwrite d ∧
    pe_get (F := F2) pd_supervisor d' = pe_get (F := F2) pd_supervisor d.
Proof using HK PagingEntryLaws1 flags2.
  intros Ha Hd Hf (Hlt & _ & _ & Hadr). unfold PML2.set_pml1_unlocked, PMLEntry.set_child_unlocked.
  rewrite (proj2 (Z.eqb_neq _ _) Ha). cbn [negb assert_then].
  assert (PML1.get_underlying_object_physical_address K p = Ok (PML1.page_table_ p - K)) as Hphys.
  { unfold PML1.get_underlying_object_physical_address, convert_logical_to_physical_address.
    rewrite (proj2 (Z.eqb_neq _ 0)) by lia. cbn [negb]. by decide_Z. }
  unfold PMLEntry.has_page_table_unlocked. rewrite Hphys. cbn [mbind result_bind mret result_ret].
  rewrite (proj2 (Z.eqb_neq _ 0)) by lia. cbn [negb PMLEntry.pde_].
  destruct (pe_contract (F := F2) d Hf) as [_ Hset].
  destruct (Hset _ Hadr) as (d1 & E1 & Hf1 & Hg1 & Hfl).
  destruct (assign2 pd_present d1 true Hf1) as (Hf2 & Ha2 & Hg2).
  rewrite (update_entry_ok _ _ _ d d1) by done. cbn [mbind result_bind].
  rewrite (update_entry_ok _ _ _ d1 (pe_assign pd_present d1 true)) by (done || apply with_word_lookup).
  rewrite with_word_twice. cbn [mbind result_bind]. eexists. split; [done|].
  destruct distinct2 as (N1 & N2 & _). rewrite !Hg2, Ha2.
  rewrite (decide_True (P := (pd_present : F2) = pd_present)) by done.
  rewrite !decide_False by (by apply not_eq_sym). by rewrite !Hfl.
Qed.

(** A tree that gains a page table all of whose words are zero. *)
Lemma wf2_new_child lim mm mm' c i e p d' :
  wf2 lim mm c → 0 <= i < COUNT → PMLEntry.entries_ c !! Z.to_nat i = Some e →
  PMLEntry.child_ e = None → fresh_table mm (PML1.page_table_ p) → wf1 mm' p →
  (∀ a, mm !! a ≠ None → mm' !! a = mm !! a) →
  fits (pe_width (F := F2)) d' → pe_get_address (F := F2) d' = PML1.page_table_ p - K →
  wf2 lim (<[PMLEntry.pde_ e := d']> mm')
    (PMLEntry.mk (PMLEntry.page_directory_ c)
       (<[Z.to_nat i := PMLEntry.mkentry (PMLEntry.pde_ e) (Some p)]> (PMLEntry.entries_ c))) ∧
  (∀ k, 0 <= k → table_at (PMLEntry.mk (PMLEntry.page_directory_ c)
       (<[Z.to_nat i := PMLEntry.mkentry (PMLEntry.pde_ e) (Some p)]> (PMLEntry.entries_ c))) k
     = if decide (k = i) then Some (PML1.page_table_ p) else table_at c k) ∧
  (∀ k pt, 0 <= k < COUNT → table_at c k = Some pt → pt ≠ PML1.page_table_ p).
Proof using HC Hsz Hpage.
  intros Hwf Hi He Hc [Hpt Hfresh] Hp Hmm Hf Ha. pose proof Hwf as (Hroot & Hent & Hdist).
  destruct (Hent i Hi) as (e0 & d & H1 & H2 & H3 & _). rewrite He in H1. injection H1 as <-.
  set (e' := PMLEntry.mkentry _ (Some p)).
  assert (∀ q j, 0 <= j < COUNT → mm !! word q j ≠ None → q ≠ PML1.page_table_ p) as Hother
    by (intros q j Hj Hq ->; by apply Hq, Hfresh).
  assert (PMLEntry.page_directory_ c ≠ PML1.page_table_ p) as Hrp
    by (apply (Hother _ i Hi); by rewrite <-H2, H3).
  assert (∀ k pt, 0 <= k < COUNT → table_at c k = Some pt → pt ≠ PML1.page_table_ p) as Hnew.
  { intros k pt Hk Hkt. destruct (wf2_child _ _ _ _ _ Hwf Hk Hkt) as (_ & q & _ & _ & _ & <- & [_ Hq] & _).
    destruct (Hq 0 ltac:(lia)) as (eq & dq & _ & G2 & G3 & _). apply (Hother _ 0); [lia|].
    by rewrite <-G2, G3. }
  assert (∀ q, wf1 mm' q → PML1.page_table_ q ≠ PMLEntry.page_directory_ c →
    wf1 (<[PMLEntry.pde_ e := d']> mm') q) as Hkeep.
  { intros q Hq Hne. eapply wf1_frame; [|exact Hq]. intros j Hj. rewrite lookup_insert_ne; [done|].
    rewrite H2. intros E. destruct Hq as [Hq _]. destruct (word_inj _ _ _ _ Hroot Hq Hi Hj E). congruence. }
  assert (∀ q, wf1 mm q → wf1 mm' q) as Hold.
  { intros q Hq. eapply wf1_frame; [|exact Hq]. intros j Hj. apply Hmm.
    destruct (proj2 Hq j Hj) as (? & ? & _ & <- & -> & _). done. }
  assert (∀ k, 0 <= k → table_at (PMLEntry.mk (PMLEntry.page_directory_ c)
       (<[Z.to_nat i := e']> (PMLEntry.entries_ c))) k
     = if decide (k = i) then Some (PML1.page_table_ p) else table_at c k) as Htab.
  { intros k Hk. unfold table_at. cbn. destruct (decide (k = i)) as [->|].
    - by rewrite list_lookup_insert_eq by (by eapply lookup_lt_Some).
    - by rewrite list_lookup_insert_ne by lia. }
  split; [|done]. split_and!; [done| |].
  - intros k Hk. cbn [PMLEntry.entries_ PMLEntry.page_directory_].
    destruct (decide (k = i)) as [->|Hne].
    + exists e', d'. rewrite list_lookup_insert_eq by (by eapply lookup_lt_Some).
      cbn [PMLEntry.pde_ PMLEntry.child_ e']. rewrite lookup_insert_eq.
      split_and!; try done. apply Hkeep; [done|congruence].
    + destruct (Hent k Hk) as (ek & dk & G1 & G2 & G3 & G4 & G5). exists ek, dk.
      rewrite list_lookup_insert_ne by lia. split_and!; try done.
      * rewrite lookup_insert_ne; [rewrite Hmm; rewrite G3; done|]. rewrite H2, G2. intros E.
        destruct (word_inj _ _ _ _ Hroot Hroot Hi Hk E). congruence.
      * destruct (PMLEntry.child_ ek) as [q|]; [|done]. destruct G5 as (G6 & G7 & G8).
        split_and!; try done. by apply Hkeep; [apply Hold|].
  - intros k l Hk Hl Hkl. rewrite !Htab by lia. case_decide; case_decide; subst; try done.
    + intros Hl'. by destruct (Hnew l _ Hl (eq_sym Hl')).
    + intros Hk'. by destruct (Hnew k _ Hk Hk').
    + by apply Hdist.
Qed.

Definition populated lim s c s' c' (i pt : Z) : Prop :=
  alloc_ s' = alloc_ s ∧ cr3 (hw_ s') = cr3 (hw_ s) ∧ tlb (hw_ s') = tlb (hw_ s) ∧
  wf2 lim (mem (hw_ s')) c' ∧ PMLEntry.page_directory_ c' = PMLEntry.page_directory_ c ∧
  table_at c' i = Some pt ∧
  (∀ k l, 0 <= k < COUNT → 0 <= l < COUNT →
          view (mem (hw_ s')) c' k l = view (mem (hw_ s)) c k l) ∧
  (∀ k, 0 <= k < COUNT → dir_protection (mem (hw_ s')) c' k = dir_protection (mem (hw_ s)) c k).

Lemma populate_ok lim new_table s c la :
  wf2 lim (mem (hw_ s)) c → 0 <= index2 la < COUNT →
  fresh_table (mem (hw_ s)) (new_table s) →
  ∃ s' c' pt, PML2.populate (F := F2) K COUNT COUNT sz index2 new_table la s c = Ok (s', c') ∧
    populated lim s c s' c' (index2 la) pt ∧
    (s' = s ∨ table_at c (index2 la) = None ∧
       dom (mem (hw_ s')) ⊆ dom (mem (hw_ (clear_words sz (new_table s) COUNT s)))).
Proof using HK HC Hsz Hpage PagingEntryLaws1 zero1 flags2.
  intros Hwf Hi Hfresh. pose proof Hwf as (Hroot & Hent & _).
  destruct (Hent _ Hi) as (e & d & H1 & H2 & H3 & H4 & H5).
  unfold PML2.populate, PMLEntry.at_entry, PMLEntry.get_entry_by_address, PMLEntry.get_entry.
  decide_Z. rewrite H1. cbn [deref mbind result_bind]. unfold PML2.entry_populate.
  destruct (PMLEntry.child_ e) as [p|] eqn:Ec.
  { cbn [mbind result_bind mret result_ret]. exists s, c, (PML1.page_table_ p). split.
    - rewrite list_insert_id by done. by destruct c.
    - split; [|by left]. split_and!; try done. unfold table_at. rewrite H1. cbn. by rewrite Ec. }
  destruct (create_pml1_ok new_table s Hfresh) as (p & -> & Hp & Hwp & Hz & Hmm).
  cbn [mbind result_bind]. set (s1 := clear_words _ _ _ s) in *.
  assert (PMLEntry.pde_ e ≠ 0) as Hne by (rewrite H2; by apply word_positive).
  assert (mem (hw_ s1) !! PMLEntry.pde_ e = Some d) as Hd1 by (rewrite Hmm; [done|by rewrite H3]).
  destruct (set_child_word s1 e p d Hne Hd1 H4 (proj1 Hwp)) as (d' & -> & Hf & Ha & _ & Hrw & Hsv).
  cbn [mbind result_bind mret result_ret].
  rewrite <-Hp in Hfresh.
  destruct (wf2_new_child lim _ (mem (hw_ s1)) c (index2 la) e p d' Hwf Hi H1 Ec Hfresh Hwp Hmm Hf Ha)
    as (Hwf' & Htab & Hnew).
  eexists _, _, (PML1.page_table_ p). split; [done|]. split; [|right].
  - split_and!; try done.
    + rewrite Htab by lia. by rewrite decide_True.
    + intros k l Hk Hl. unfold view at 1. rewrite Htab by lia. cbn [hw_ mem with_word with_mem].
      case_decide as Hki.
      * subst k. cbn. rewrite lookup_insert_ne.
        -- rewrite Hp, Hz by done. cbn. unfold decode. rewrite (proj1 (proj2 (proj2 zero1))).
           unfold view, table_at. rewrite H1. cbn. by rewrite Ec.
        -- rewrite H2. intros E. destruct (word_inj _ _ _ _ Hroot (proj1 Hwp) Hi Hl E) as [E' _].
           destruct Hfresh as [_ Hfr]. specialize (Hfr (index2 la) Hi). rewrite <-E', <-H2, H3 in Hfr. done.
      * unfold view. destruct (table_at c k) as [pt|] eqn:Ek; [|done]. cbn.
        destruct (wf2_child _ _ _ _ _ Hwf Hk Ek) as (_ & q & _ & _ & _ & Hq & [Hqt Hqe] & Hqne & _).
        rewrite lookup_insert_ne.
        -- f_equal. apply Hmm. destruct (Hqe l Hl) as (? & ? & _ & G2 & G3 & _).
           rewrite <-Hq, <-G2, G3. done.
        -- rewrite H2, <-Hq. intros E. destruct (word_inj _ _ _ _ Hroot Hqt Hi Hl E). congruence.
    + intros k Hk. unfold dir_protection. cbn [hw_ mem with_word with_mem PMLEntry.page_directory_].
      destruct (decide (k = index2 la)) as [->|Hki].
      * rewrite <-H2, lookup_insert_eq, H3. cbn. by rewrite Hrw, Hsv.
      * rewrite lookup_insert_ne.
        -- destruct (Hent k Hk) as (? & ? & _ & G2 & G3 & _). rewrite Hmm; rewrite <-G2, G3; done.
        -- rewrite H2. intros E. destruct (word_inj _ _ _ _ Hroot Hroot Hi Hk E). congruence.
  - split; [unfold table_at; rewrite H1; cbn; by rewrite Ec|].
    cbn [hw_ mem with_word with_mem]. rewrite dom_insert_L. apply union_subseteq. split; [|done].
    apply singleton_subseteq_l, elem_of_dom. by eexists.
Qed.

(** ** What is done to one page-table entry *)
Notation contents := (option (Z * (bool * bool * bool))).

Lemma decode_present d m : decode d = Some m → pe_get (F := F1) UnmanagedMap.f_present d = true.
Proof. unfold decode. by destruct (pe_get _ d). Qed.

(** [f] works on an entry in place, and takes what it says and the allocator from one
    value to the other as [Q] says. *)
Definition entry_action (f : st S → PML1.Entry → result (st S * PML1.Entry))
    (Q : contents → S → contents → S → Prop) : Prop :=
  ∀ s e d, PML1.pte_ e ≠ 0 → mem (hw_ s) !! PML1.pte_ e = Some d → fits (pe_width (F := F1)) d →
    pe_get_address (F := F1) d = frame_address (PML1.frame_ e) → frame_ok (PML1.frame_ e) →
    (pe_get (F := F1) UnmanagedMap.f_present d = false → PML1.frame_ e = None) →
    pfa_inv (alloc_ s) →
    ∃ al d' fr, f s e = Ok (with_word (mkst (hw_ s) al) (PML1.pte_ e) d',
                            PML1.mkentry (PML1.pte_ e) fr) ∧
      fits (pe_width (F := F1)) d' ∧ pe_get_address (F := F1) d' = frame_address fr ∧ frame_ok fr ∧
      (pe_get (F := F1) UnmanagedMap.f_present d' = false → fr = None) ∧ pfa_inv al ∧
      Q (decode d) (alloc_ s) (decode d') al.

Lemma map_frame_word s e d o flags :
  PML1.pte_ e ≠ 0 → mem (hw_ s) !! PML1.pte_ e = Some d → fits (pe_width (F := F1)) d →
  pfa_inv (alloc_ s) → frame_ok (PML1.frame_ e) → pe_addressable (F := F1) (frame_address o) →
  ∃ al d', ('(s, e) ← PML1.set_page_frame_unlocked (F := F1) s e o;
            s ← PML1.set_protection_unlocked (F := F1) s e flags; mret (s, e))
           = Ok (with_word (mkst (hw_ s) al) (PML1.pte_ e) d', PML1.mkentry (PML1.pte_ e) o) ∧
    pfa_inv al ∧ fits (pe_width (F := F1)) d' ∧ pe_get_address (F := F1) d' = frame_address o ∧
    decode d' = Some (frame_address o, UnmanagedMap.protection flags) ∧
    (PML1.frame_ e = None → al = alloc_ s).
Proof using PagingEntryLaws0 PageFrameAllocatorLaws0 zero1 flags1.
  intros Ha Hd Hf Hinv Hfr Hadr.
  destruct (set_page_frame_word s e d o Ha Hd Hf Hinv Hfr Hadr) as (al & d1 & -> & Hal & Hf1 & Ha1 & Hn).
  cbn [mbind result_bind]. set (s1 := with_word _ _ _).
  destruct (set_protection_word s1 (PML1.mkentry (PML1.pte_ e) o) d1 flags) as (d2 & -> & Hf2 & Ha2 & Hd2);
    [done|apply with_word_lookup|done|].
  cbn [mbind result_bind mret result_ret PML1.pte_]. exists al, d2. unfold s1. rewrite with_word_twice.
  split_and!; try done; [by rewrite Ha2|by rewrite Hd2, Ha1].
Qed.

(** [set_mapping(physical_address, flags)] *)
Lemma set_mapping_action physical flags :
  pe_addressable (F := F1) physical →
  entry_action (λ s e, PML1.set_mapping (F := F1) s e physical flags)
    (λ m al m' al', m' = Some (physical, UnmanagedMap.protection flags) ∧ (m = None → al' = al)).
Proof using PagingEntryLaws0 PageFrameAllocatorLaws0 zero1 flags1.
  intros Hadr s e d Ha Hd Hf Hg Hfr Hpr Hinv.
  destruct (map_frame_word s e d (Some (frame_of_address physical)) flags Ha Hd Hf Hinv Hfr Hadr)
    as (al & d' & E & Hal & Hf' & Ha' & Hd' & Hn).
  exists al, d', (Some (frame_of_address physical)). split; [exact E|].
  split_and!; try done.
  - intros f [= <-]. done.
  - by rewrite (decode_present _ _ Hd').
  - intros Hm. apply Hn, Hpr. unfold decode in Hm. by destruct (pe_get _ d).
Qed.

Context (alloc_page : ∀ al, pfa_inv al → ∃ f al', pfa_allocate al PAGE_SIZE = Ok (f, al') ∧
           pfa_inv al' ∧ pe_addressable (F := F1) f ∧ 0 <= f / PAGE_SIZE < pfa_capacity).

(** The body of [map_page_internal]: a present page keeps its frame, another is given
    the frame the allocator answers. *)
Definition demand (flags : Z) (m : contents) (al : S) (m' : contents) (al' : S) : Prop :=
  match m with
  | Some (f, _) => m' = Some (f, UnmanagedMap.protection flags) ∧ al' = al
  | None => ∃ f, pfa_allocate al PAGE_SIZE = Ok (f, al') ∧
                 m' = Some (f, UnmanagedMap.protection flags)
  end.

Lemma demand_action flags :
  entry_action
    (λ s e, present ← PML1.is_present (F := F1) s e;
            if present : bool then s ← PML1.set_protection (F := F1) s e flags; mret (s, e)
            else PML1.set_mapping_allocate (F := F1) s e flags)
    (demand flags).
Proof using PagingEntryLaws0 PageFrameAllocatorLaws0 zero1 flags1 alloc_page.
  intros s e d Ha Hd Hf Hg Hfr Hpr Hinv. unfold PML1.is_present, PML1.get_flag, read_entry, load.
  rewrite (proj2 (Z.eqb_neq _ _) Ha), Hd. cbn [negb assert_then deref mbind result_bind mret result_ret].
  unfold decode at 1. destruct (pe_get _ d) eqn:Ep.
  - destruct (set_protection_word s e d flags Ha Hd Hf) as (d' & E & Hf' & Ha' & Hd').
    unfold PML1.set_protection. rewrite E. cbn [mbind result_bind mret result_ret].
    exists (alloc_ s), d', (PML1.frame_ e). split; [by destruct s, e|].
    split_and!; try done; [congruence|by rewrite (decode_present _ _ Hd')].
  - destruct (alloc_page (alloc_ s) Hinv) as (f & al & Eal & Hal & Hadr & Hcap).
    unfold PML1.set_mapping_allocate, frame_of_allocator. rewrite Eal.
    cbn [mbind result_bind mret result_ret].
    destruct (map_frame_word (mkst (hw_ s) al) e d (Some (mkframe true f)) flags)
      as (al' & d' & E & Hal' & Hf' & Ha' & Hd' & Hn); try done.
    exists al', d', (Some (mkframe true f)). split; [exact E|]. split_and!; try done.
    + intros g [= <-] _. done.
    + by rewrite (decode_present _ _ Hd').
    + rewrite (Hn (Hpr eq_refl)), Hd'. by exists f.
Qed.

(** [set_readwrite(false)] *)
Definition read_only (m : contents) : contents :=
  match m with Some (f, (_, g, u)) => Some (f, (false, g, u)) | None => None end.

Lemma read_only_action :
  entry_action (λ s e, s ← PML1.set_readwrite (F := F1) s e false; mret (s, e))
    (λ m al m' al', m' = read_only m ∧ al' = al).
Proof using PagingEntryLaws0 flags1.
  intros s e d Ha Hd Hf Hg Hfr Hpr Hinv. unfold PML1.set_readwrite, PML1.set_flag.
  rewrite (proj2 (Z.eqb_neq _ _) Ha). cbn [negb assert_then].
  destruct (assign1 UnmanagedMap.f_readwrite d false Hf) as (Hf' & Ha' & Hg').
  rewrite (update_entry_ok s _ _ d (pe_assign UnmanagedMap.f_readwrite d false)) by done.
  cbn [mbind result_bind mret result_ret].
  eexists (alloc_ s), _, (PML1.frame_ e). split; [by destruct s, e|].
  destruct distinct1 as (N1 & _ & _ & N4 & N5 & _).
  split_and!; try done; [by rewrite Ha'| |].
  - rewrite Hg', decide_False by done. done.
  - unfold decode. rewrite !Hg', Ha'. rewrite (decide_False (P := (UnmanagedMap.f_present : F1) = UnmanagedMap.f_readwrite)) by done.
    rewrite (decide_True (P := (UnmanagedMap.f_readwrite : F1) = UnmanagedMap.f_readwrite)) by done.
    rewrite !decide_False by (by apply not_eq_sym). by destruct (pe_get _ d).
Qed.

(** ** Mapping one page: populate, protect the directory entry, change the entry *)
Definition upd (g : Z → Z → contents) (i j : Z) (m : contents) (k l : Z) : contents :=
  if decide (k = i ∧ l = j) then m else g k l.

(** [s'] and [c'] differ from [s] and [c] in the contents [m'] of the entry [i], [j] and
    in the protection of the directory entry [i], which [dp] gives if it changes. *)
Definition remapped lim s c s' c' (i j : Z) (m' : contents) (dp : option (bool * bool)) : Prop :=
  cr3 (hw_ s') = cr3 (hw_ s) ∧ tlb (hw_ s') = tlb (hw_ s) ∧ pfa_inv (alloc_ s') ∧
  wf2 lim (mem (hw_ s')) c' ∧ PMLEntry.page_directory_ c' = PMLEntry.page_directory_ c ∧
  (∀ k l, 0 <= k < COUNT → 0 <= l < COUNT →
     view (mem (hw_ s')) c' k l = upd (view (mem (hw_ s)) c) i j m' k l) ∧
  (∀ k, 0 <= k < COUNT → dir_protection (mem (hw_ s')) c' k
     = match dp with
       | Some p => if decide (k = i) then Some p else dir_protection (mem (hw_ s)) c k
       | None => dir_protection (mem (hw_ s)) c k
       end).

Lemma entry_action_ok lim s c la pt f Q :
  wf2 lim (mem (hw_ s)) c → 0 <= index2 la < COUNT → 0 <= index1 la < COUNT →
  table_at c (index2 la) = Some pt → pfa_inv (alloc_ s) → entry_action f Q →
  ∃ s' c' m', PML2.at_pml1_entry COUNT COUNT index2 index1 la f s c = Ok (s', c') ∧
    remapped lim s c s' c' (index2 la) (index1 la) m' None ∧
    (∀ k, 0 <= k → table_at c' k = table_at c k) ∧
    dom (mem (hw_ s')) = dom (mem (hw_ s)) ∧
    Q (view (mem (hw_ s)) c (index2 la) (index1 la)) (alloc_ s) m' (alloc_ s').
Proof using HK HC Hsz Hpage.
  intros Hwf Hi Hj Ht Hinv Hf.
  destruct (at_pml1_entry_ok lim s c la pt f Hwf Hi Hj Ht)
    as (e & d & H1 & H2 & H3 & H4 & H5 & H6 & H7 & Hdo).
  destruct (Hf s e d H6 H2 H3 H4 H5 H7 Hinv) as (al & d' & fr & E & G1 & G2 & G3 & G4 & G5 & HQ).
  destruct (Hdo al d' fr E G1 G2 G3 G4) as (c' & -> & Hwf' & Hroot & Htab).
  exists (with_word (mkst (hw_ s) al) (PML1.pte_ e) d'), c', (decode d').
  cbn [hw_ mem with_word with_mem alloc_ cr3 tlb]. split; [done|]. split; [|split; [done|split]].
  - split_and!; try done; rewrite H1.
    + intros k l Hk Hl. unfold upd. by apply (view_pte_word lim (mem (hw_ s)) c c' _ _ pt).
    + intros k Hk. by apply (dir_protection_pte_word lim (mem (hw_ s)) c c' (index2 la) _ pt).
  - rewrite dom_insert_L. apply subseteq_union_1_L, singleton_subseteq_l, elem_of_dom. by eexists.
  - unfold view. rewrite Ht. cbn. rewrite <-H1, H2. cbn. done.
Qed.

Definition map_with new_table (la flags : Z) f s c : result (st S * PML2.t) :=
  '(s, c) ← PML2.populate (F := F2) K COUNT COUNT sz index2 new_table la s c;
  '(s, c) ← PML2.at_pml2_entry COUNT index2 la (λ s e, PML2.set_protection (F := F2) s e flags) s c;
  PML2.at_pml1_entry COUNT COUNT index2 index1 la f s c.

Lemma map_with_ok lim new_table s c la flags f Q :
  wf2 lim (mem (hw_ s)) c → 0 <= index2 la < COUNT → 0 <= index1 la < COUNT →
  fresh_table (mem (hw_ s)) (new_table s) → pfa_inv (alloc_ s) → entry_action f Q →
  ∃ s' c' m', map_with new_table la flags f s c = Ok (s', c') ∧
    remapped lim s c s' c' (index2 la) (index1 la) m' (Some (dir_flags flags)) ∧
    dom (mem (hw_ s')) ⊆ dom (mem (hw_ (clear_words sz (new_table s) COUNT s))) ∧
    Q (view (mem (hw_ s)) c (index2 la) (index1 la)) (alloc_ s) m' (alloc_ s').
Proof using HK HC Hsz Hpage PagingEntryLaws1 zero1 flags2.
  intros Hwf Hi Hj Hfresh Hinv Hf. unfold map_with.
  destruct (populate_ok lim new_table s c la Hwf Hi Hfresh)
    as (s1 & c1 & pt & -> & (Hal & Hcr & Htl & Hwf1 & Hroot & Ht & Hv1 & Hdp1) & Hdom).
  cbn [mbind result_bind].
  destruct (at_pml2_protect_ok lim s1 c1 la flags Hwf1 Hi) as (d' & -> & Hwf2 & Hdp2).
  cbn [mbind result_bind]. set (s2 := with_word _ _ _).
  assert (dom (mem (hw_ s2)) = dom (mem (hw_ s1))) as Hdom2.
  { unfold s2. cbn [hw_ mem with_word with_mem]. rewrite dom_insert_L.
    apply subseteq_union_1_L, singleton_subseteq_l, elem_of_dom.
    destruct (proj1 (proj2 Hwf1) _ Hi) as (? & ? & _ & <- & -> & _). by eexists. }
  destruct (entry_action_ok lim s2 c1 la pt f Q Hwf2 Hi Hj Ht) as (s3 & c3 & m' & -> & Hre & _ & Hdom3 & HQ);
    [by unfold s2; cbn; rewrite Hal|done|].
  destruct Hre as (R1 & R2 & R3 & R4 & R5 & R6 & R7).
  assert (∀ k l, 0 <= k < COUNT → 0 <= l < COUNT →
    view (mem (hw_ s2)) c1 k l = view (mem (hw_ s)) c k l) as Hv2.
  { intros k l Hk Hl. rewrite <-Hv1 by done. by eapply view_root_word. }
  exists s3, c3, m'. split; [done|]. split; [split_and!; try done|split].
  - by rewrite R1.
  - by rewrite R2.
  - by rewrite R5.
  - intros k l Hk Hl. rewrite R6 by done. unfold upd. by case_decide; [|apply Hv2].
  - intros k Hk. rewrite R7 by done. unfold s2 in *. rewrite Hdp2 by done.
    case_decide; [done|by apply Hdp1].
  - rewrite Hdom3, Hdom2. destruct Hdom as [->|[_ Hdom]]; [|done].
    intros a [x Hx]%elem_of_dom. apply elem_of_dom. exists x. rewrite clear_words_out; [done|].
    intros k Hk ->. destruct Hfresh as [_ Hfresh]. specialize (Hfresh k Hk). unfold word in Hfresh. congruence.
  - rewrite Hv2 in HQ by done. unfold s2 in HQ. cbn [alloc_ with_word] in HQ. by rewrite Hal in HQ.
Qed.
End Tree.

(** ** The managed memory map of i386

    Its tree has the 768 directory entries below the kernel to itself; what it says
    about them is what the hardware finds by walking the tables. *)
Module ManagedI386Laws.
Import I386Resolver.

Notation Pte := I386PageTableEntry.flag.
Notation Pde := I386PageDirectoryEntry.flag.
Notation K := KERNEL_VIRTUAL_START_ADDR.
Notation index2 := ManagedI386.get_index_of_pml2_entry_by_address.
Notation index1 := ManagedI386.get_index_of_pml1_entry_by_address.

Lemma i386_flags1 :
  NoDup (A := Pte) [UnmanagedMap.f_present; UnmanagedMap.f_readwrite; UnmanagedMap.f_global;
                    UnmanagedMap.f_supervisor].
Proof. by apply (bool_decide_unpack _). Qed.

Lemma i386_flags2 : NoDup (A := Pde) [pd_present; pd_readwrite; pd_supervisor].
Proof. by apply (bool_decide_unpack _). Qed.

Lemma i386_zero1 :
  pe_addressable (F := Pte) 0 ∧ pe_get_address (F := Pte) 0 = 0 ∧
  pe_get (F := Pte) UnmanagedMap.f_present 0 = false ∧ 0 <= pe_width (F := Pte).
Proof. by split_and!. Qed.

Lemma i386_index_of_page la : fits 32 la → la / PAGE_SIZE = 1024 * index2 la + index1 la.
Proof.
  intros Hla. unfold index2, index1. change 0x3FF with (Z.ones 10).
  rewrite shiftr_land_ones, Z.shiftr_div_pow2 by lia. change (2 ^ 22) with (2 ^ 12 * 2 ^ 10).
  rewrite <-Z.div_div by lia. change PAGE_SIZE with (2 ^ 12).
  apply (Z.div_mod (la / 2 ^ 12) (2 ^ 10)). done.
Qed.

Lemma i386_user_index la : 0 <= la < K → 0 <= index2 la < 768 ∧ 0 <= index1 la < 1024 ∧ fits 32 la.
Proof.
  intros Hla. unfold K in Hla. assert (fits 32 la) as Hf by (unfold fits; lia).
  destruct (I386Laws.i386_index_range la Hf) as [_ H1]. split; [|done].
  unfold index2. rewrite Z.shiftr_div_pow2 by lia.
  split; [apply Z.div_pos; lia|apply Z.div_lt_upper_bound; lia].
Qed.

(** Two addresses have the same entry when they are in the same page. *)
Lemma i386_same_entry la la' :
  0 <= la < K → 0 <= la' < K →
  index2 la' = index2 la ∧ index1 la' = index1 la ↔ la' / PAGE_SIZE = la / PAGE_SIZE.
Proof.
  intros H H'. destruct (i386_user_index la H) as (? & ? & Hf).
  destruct (i386_user_index la' H') as (? & ? & Hf').
  rewrite !i386_index_of_page by done. lia.
Qed.

Section Laws.
Context {S : Type} `{!PageFrameAllocator S} `{!PageFrameAllocatorLaws S} (new_table : st S → Z).
Implicit Types (m : ManagedI386.t S).

Notation tree_ok := (wf2 (F1 := Pte) (F2 := Pde) 32 K 1024 4 768).
Notation tree_view := (view (F1 := Pte) 4).
Notation fresh := (fresh_table (F2 := Pde) 32 K 1024 4).

Definition inv m : Prop :=
  tree_ok (mem (hw_ (ManagedI386.state m))) (ManagedI386.pml2_ m) ∧
  PMLEntry.page_directory_ (ManagedI386.pml2_ m) = p2l (cr3 (hw_ (ManagedI386.state m))) ∧
  pfa_inv (alloc_ (ManagedI386.state m)).

(** What the MMU finds in the tables for a linear address. *)
Definition mapping m (la : Z) : option (Z * (bool * bool * bool)) :=
  let h := hw_ (ManagedI386.state m) in UnmanagedMap.mapping (F := Pte) (cr3 h) h la.

(** The writable and supervisor bits of the directory entry of a linear address. *)
Definition region_protection m (la : Z) : option (bool * bool) :=
  let h := hw_ (ManagedI386.state m) in
  match get_page_directory_entry (get_page_directory (cr3 h)) la with
  | Ok pde => d ← mem h !! pde;
              Some (pe_get (F := Pde) pd_readwrite d, pe_get (F := Pde) pd_supervisor d)
  | Fault _ => None
  end.

(** Walking the tables in memory finds what the tree of controllers says. *)
Lemma mapping_is_view m la :
  inv m → 0 <= la < K →
  mapping m la = tree_view (mem (hw_ (ManagedI386.state m))) (ManagedI386.pml2_ m)
                   (index2 la) (index1 la).
Proof.
  intros (Hwf & Hroot & _) Hla. destruct (i386_user_index la Hla) as (Hi & Hj & Hf).
  set (mm := mem _) in *. set (c := ManagedI386.pml2_ m) in *.
  unfold mapping, UnmanagedMap.mapping. cbn [pr_get_page_table_entry I386Laws.i386_resolver].
  fold mm. rewrite I386Laws.i386_resolver_walks by done.
  pose proof Hwf as ((Hb & _) & Hent & _). unfold K in Hb.
  destruct (Hent (index2 la)) as (e & d & H1 & H2 & H3 & H4 & H5); [lia|].
  cbn [walk I386Laws.levels]. rewrite <-Hroot.
  change (get_page_directory_index la) with (index2 la).
  change (get_page_table_index la) with (index1 la).
  rewrite (proj2 (Z.eqb_neq _ 0)) by lia. unfold word in H2. unfold sizeof_entry.
  unfold load. rewrite <-H2, (proj2 (Z.eqb_neq _ 0)) by (rewrite H2; lia). rewrite H3.
  cbn [deref mbind result_bind]. unfold view, table_at. rewrite H1. cbn [option_bind mbind].
  change I386PageDirectoryEntry.get_address with (pe_get_address (F := Pde)).
  destruct (PMLEntry.child_ e) as [p|]; cbn [option_fmap option_map fmap].
  - destruct H5 as ([(Hp1 & Hp2 & _) _] & _ & ->). unfold K, W, PAGE_SIZE in *.
    rewrite (proj2 (Z.eqb_neq _ 0)) by lia. unfold convert_physical_to_logical_address.
    replace (PML1.page_table_ p - 0xC0000000 + 0xC0000000) with (PML1.page_table_ p) by lia.
    rewrite uwrap_small by (unfold fits; lia). rewrite (proj2 (Z.eqb_neq _ 0)) by lia.
    cbn [mret result_ret]. rewrite (proj2 (Z.eqb_neq _ 0)) by lia. done.
  - rewrite H5 by lia. done.
Qed.

Lemma region_is_dir_protection m la :
  inv m → 0 <= la < K →
  region_protection m la = dir_protection (F2 := Pde) 4 (mem (hw_ (ManagedI386.state m)))
                             (ManagedI386.pml2_ m) (index2 la).
Proof.
  intros (Hwf & Hroot & _) Hla. destruct (i386_user_index la Hla) as (Hi & _ & _).
  unfold region_protection, get_page_directory, get_page_directory_entry. rewrite <-Hroot.
  destruct Hwf as ((Hb & _) & _). unfold K in Hb. rewrite (proj2 (Z.eqb_neq _ 0)) by lia.
  change (get_page_directory_index la) with (index2 la). unfold PageDirectory_COUNT. by decide_Z.
Qed.

(** The contents of the user half after the entry of [la] was given [m'] and the region
    of [la] the protection [dp]. *)
Definition remapped_space m m' la (v : option (Z * (bool * bool * bool)))
    (dp : option (bool * bool)) : Prop :=
  inv m' ∧ tlb (hw_ (ManagedI386.state m')) = tlb (hw_ (ManagedI386.state m)) ∧
  (∀ la', 0 <= la' < K →
     mapping m' la' = if decide (la' / PAGE_SIZE = la / PAGE_SIZE) then v else mapping m la') ∧
  (∀ la', 0 <= la' < K →
     region_protection m' la'
     = match dp with
       | Some p => if decide (index2 la' = index2 la) then Some p else region_protection m la'
       | None => region_protection m la'
       end).

Lemma remapped_is_space m s' c' la v dp :
  inv m → 0 <= la < K →
  remapped (F1 := Pte) (F2 := Pde) 32 K 1024 4 768 (ManagedI386.state m) (ManagedI386.pml2_ m) s' c'
    (index2 la) (index1 la) v dp →
  remapped_space m (ManagedI386.mk s' c') la v dp.
Proof.
  intros Hinv Hla (R1 & R2 & R3 & R4 & R5 & R6 & R7).
  assert (inv (ManagedI386.mk s' c')) as Hinv'.
  { split_and!; try done. cbn. rewrite R5, R1. apply Hinv. }
  split_and!; try done.
  - intros la' Hla'. rewrite !mapping_is_view by done.
    destruct (i386_user_index la' Hla') as (? & ? & _). cbn. rewrite R6 by lia. unfold upd.
    pose proof (i386_same_entry la la' Hla Hla') as Hsame.
    case_decide; case_decide; try done; tauto.
  - intros la' Hla'. rewrite !region_is_dir_protection by done.
    destruct (i386_user_index la' Hla') as (? & _). cbn [ManagedI386.state ManagedI386.pml2_].
    rewrite R7 by lia. done.
Qed.

Lemma managed_map_with m la flags f :
  (m ← ManagedI386.populate new_table m la;
   m ← ManagedI386.at_pml2_entry m la (λ s e, PML2.set_protection (F := Pde) s e flags);
   ManagedI386.at_pml1_entry m la f)
  = '(s, c) ← map_with (F2 := Pde) K 1024 4 index2 index1 new_table la flags f
                (ManagedI386.state m) (ManagedI386.pml2_ m);
    mret (ManagedI386.mk s c).
Proof.
  unfold map_with, ManagedI386.populate, ManagedI386.at_pml2_entry, ManagedI386.at_pml1_entry,
    ManagedI386.on. cbn [mbind result_bind].
  change PageDirectory_COUNT with 1024. change PageTable_COUNT with 1024. change sizeof_entry with 4.
  destruct (PML2.populate _ _ _ _ _ _ _ _) as [[s c]|]; [|done]. cbn [mbind result_bind mret result_ret].
  cbn [ManagedI386.state ManagedI386.pml2_].
  destruct (PML2.at_pml2_entry _ _ _ _ _ _) as [[s' c']|]; [|done]. done.
Qed.

(** The two ways of mapping a page, by what they do to its page-table entry. *)
Lemma managed_map_with_ok m la flags f Q :
  inv m → 0 <= la < K →
  fresh (mem (hw_ (ManagedI386.state m))) (new_table (ManagedI386.state m)) →
  entry_action (F1 := Pte) f Q →
  ∃ m' v, (m ← ManagedI386.populate new_table m la;
           m ← ManagedI386.at_pml2_entry m la (λ s e, PML2.set_protection (F := Pde) s e flags);
           ManagedI386.at_pml1_entry m la f) = Ok m' ∧
    remapped_space m m' la v (Some (dir_flags flags)) ∧
    dom (mem (hw_ (ManagedI386.state m'))) ⊆
      dom (mem (hw_ (clear_words 4 (new_table (ManagedI386.state m)) 1024 (ManagedI386.state m)))) ∧
    Q (mapping m la) (alloc_ (ManagedI386.state m)) v (alloc_ (ManagedI386.state m')).
Proof using PageFrameAllocatorLaws0.
  intros Hinv Hla Hfresh Hf. destruct (i386_user_index la Hla) as (Hi & Hj & _).
  rewrite managed_map_with. pose proof Hinv as (Hwf & _ & Hal).
  destruct (map_with_ok (F1 := Pte) (F2 := Pde) 32 K 1024 4 index2 index1 ltac:(done) ltac:(done)
    ltac:(done) eq_refl i386_flags2 i386_zero1 768 new_table _ _ la flags f Q Hwf ltac:(lia) Hj Hfresh Hal Hf)
    as (s' & c' & v & -> & Hre & Hdom & HQ).
  cbn [mbind result_bind mret result_ret]. exists (ManagedI386.mk s' c'), v. split; [done|].
  split; [by apply remapped_is_space|]. split; [done|]. by rewrite mapping_is_view.
Qed.

Lemma remapped_space_flush m m' la v dp ev :
  remapped_space m m' la v dp →
  let h := hw_ (ManagedI386.state m') in
  let m'' := ManagedI386.with_hw m' (mk (cr3 h) (mem h) (tlb h ++ ev)) in
  inv m'' ∧ tlb (hw_ (ManagedI386.state m'')) = tlb (hw_ (ManagedI386.state m)) ++ ev ∧
  mapping m'' = mapping m' ∧ region_protection m'' = region_protection m'.
Proof. intros (Hinv & Htl & _). cbn. by rewrite Htl. Qed.

Lemma managed_map_page_ok m physical la flags :
  inv m → 0 <= la < K → pe_addressable (F := Pte) physical →
  fresh (mem (hw_ (ManagedI386.state m))) (new_table (ManagedI386.state m)) →
  ∃ m', ManagedI386.map_page new_table m physical la flags = Ok m' ∧ inv m' ∧
    tlb (hw_ (ManagedI386.state m')) = tlb (hw_ (ManagedI386.state m)) ++ [FlushPage la] ∧
    (∀ la', 0 <= la' < K →
       mapping m' la' = if decide (la' / PAGE_SIZE = la / PAGE_SIZE)
                        then Some (physical, UnmanagedMap.protection flags) else mapping m la') ∧
    (∀ la', 0 <= la' < K →
       region_protection m' la' = if decide (index2 la' = index2 la)
                                  then Some (dir_flags flags) else region_protection m la') ∧
    (mapping m la = None → alloc_ (ManagedI386.state m') = alloc_ (ManagedI386.state m)).
Proof using PageFrameAllocatorLaws0.
  intros Hinv Hla Hadr Hfresh.
  destruct (managed_map_with_ok m la flags _ _ Hinv Hla Hfresh
    (set_mapping_action (F1 := Pte) i386_flags1 i386_zero1 physical flags Hadr))
    as (m' & v & E & Hre & _ & -> & Hal).
  unfold ManagedI386.map_page.
  assert (∀ (g : ManagedI386.t S → result (ManagedI386.t S)),
    (m ← ManagedI386.populate new_table m la;
     m ← ManagedI386.at_pml2_entry m la (λ s e, PML2.set_protection (F := Pde) s e flags);
     m ← ManagedI386.at_pml1_entry m la (λ s e, PML1.set_mapping (F := Pte) s e physical flags); g m) = g m') as Hseq.
  { intros g. destruct (ManagedI386.populate _ _ _) as [m1|]; [|done]. cbn [mbind result_bind] in *.
    destruct (ManagedI386.at_pml2_entry _ _ _) as [m2|]; [|done]. cbn [mbind result_bind] in *.
    by rewrite E. }
  rewrite Hseq. eexists. split; [done|].
  destruct (remapped_space_flush m m' la _ _ [FlushPage la] Hre) as (F1 & F2 & F3 & F4).
  unfold invalidate_page in *. split; [done|]. split; [done|].
  destruct Hre as (_ & _ & Hmap & Hreg). rewrite F3, F4. done.
Qed.

(** ** Ranges of pages *)
Lemma page_fuel_exact b n :
  0 <= n → page_fuel (PAGE_SIZE * b) (PAGE_SIZE * (b + n)) = Z.to_nat n.
Proof.
  intros. unfold page_fuel, PAGE_SIZE. f_equal.
  replace (4096 * (b + n) - 4096 * b + 4096 - 1) with (n * 4096 + 4095) by lia.
  rewrite Z.div_add_l by lia. rewrite (Z.div_small 4095) by lia. lia.
Qed.

Lemma next_page b n :
  0 <= b → 0 < n → PAGE_SIZE * (b + n) <= K → uwrap 32 (PAGE_SIZE * b + PAGE_SIZE) = PAGE_SIZE * (b + 1).
Proof.
  unfold PAGE_SIZE, K. intros. rewrite uwrap_small; [lia|]. unfold fits. lia.
Qed.

(** The loop over the [n] pages from page [b] on, one page at a time. *)
Lemma for_pages_step {T : Type} (body : Z → T → result T) b n t :
  0 <= b → PAGE_SIZE * (b + Z.of_nat (1 + n)) <= K →
  for_pages 32 (1 + n) body (PAGE_SIZE * b) (PAGE_SIZE * (b + Z.of_nat (1 + n))) t
  = t ← body (PAGE_SIZE * b) t;
    for_pages 32 n body (PAGE_SIZE * (b + 1)) (PAGE_SIZE * (b + 1 + Z.of_nat n)) t.
Proof.
  intros Hb HK. replace (b + Z.of_nat (1 + n)) with (b + 1 + Z.of_nat n) in * by lia.
  cbn [for_pages Nat.add].
  rewrite (next_page b (1 + Z.of_nat n)) by lia.
  rewrite (proj2 (Z.ltb_lt _ _)) by (unfold PAGE_SIZE; lia). done.
Qed.

Lemma for_pages_done {T : Type} (body : Z → T → result T) b t :
  for_pages 32 0 body (PAGE_SIZE * b) (PAGE_SIZE * (b + Z.of_nat 0)) t = Ok t.
Proof. cbn [for_pages]. unfold PAGE_SIZE. by decide_Z. Qed.

Lemma seqZ_step b n : seqZ b (Z.of_nat (1 + n)) = b :: seqZ (b + 1) (Z.of_nat n).
Proof. rewrite seqZ_cons by lia. by replace (Z.pred (Z.of_nat (1 + n))) with (Z.of_nat n) by lia. Qed.

Definition flushes (b n : Z) : list tlb_event := (λ p, FlushPage (PAGE_SIZE * p)) <$> seqZ b n.

Lemma invalidate_pages_ok h b n :
  0 <= b → PAGE_SIZE * (b + Z.of_nat n) <= K →
  invalidate_pages 32 h (PAGE_SIZE * b) (PAGE_SIZE * (b + Z.of_nat n))
  = Ok (mk (cr3 h) (mem h) (tlb h ++ flushes b (Z.of_nat n))).
Proof.
  intros Hb HK. unfold invalidate_pages. rewrite page_fuel_exact, Nat2Z.id by lia.
  revert b h Hb HK. induction n as [|n IH]; intros b h Hb HK.
  { rewrite for_pages_done. cbn. rewrite app_nil_r. by destruct h. }
  rewrite (for_pages_step _ b n h Hb HK). cbn [mbind result_bind mret result_ret].
  rewrite IH by lia. unfold flushes. change (Datatypes.S n) with (1 + n)%nat.
  rewrite seqZ_step. cbn [fmap list_fmap invalidate_page cr3 mem tlb]. by rewrite <-app_assoc.
Qed.

(** ** Demand allocation, as a function on the address space alone *)
Fixpoint demand_pages (flags : Z) (pages : list Z) (M : Z → option (Z * (bool * bool * bool)))
    (al : S) : result ((Z → option (Z * (bool * bool * bool))) * S) :=
  match pages with
  | [] => mret (M, al)
  | page :: pages =>
      '(f, al) ← match M page with
                 | Some (f, _) => mret (f, al)
                 | None => pfa_allocate al PAGE_SIZE
                 end;
      demand_pages flags pages
        (λ p, if decide (p = page) then Some (f, UnmanagedMap.protection flags) else M p) al
  end.

(** Where page tables come from: there is room for so many more of them, given the
    words of memory in use. *)
Class TableHeap := {
  th_room : nat → gset Z → Prop;
  th_fresh n s :
    th_room (1 + n) (dom (mem (hw_ s))) → fresh (mem (hw_ s)) (new_table s);
  th_use n s D :
    th_room (1 + n) (dom (mem (hw_ s))) →
    D ⊆ dom (mem (hw_ (clear_words 4 (new_table s) 1024 s))) → th_room n D;
}.

Context `{!TableHeap}.
Context (alloc_page : ∀ al, pfa_inv al → ∃ f al', pfa_allocate al PAGE_SIZE = Ok (f, al') ∧
           pfa_inv al' ∧ pe_addressable (F := Pte) f ∧ 0 <= f / PAGE_SIZE < pfa_capacity).

Definition agree m (M : Z → option (Z * (bool * bool * bool))) : Prop :=
  ∀ la, 0 <= la < K → mapping m la = M (la / PAGE_SIZE).

Lemma map_page_internal_ok m M page pages flags n :
  inv m → agree m M → 0 <= PAGE_SIZE * page < K →
  th_room (1 + n) (dom (mem (hw_ (ManagedI386.state m)))) →
  ∃ m' M', ManagedI386.map_page_internal new_table (PAGE_SIZE * page) flags m = Ok m' ∧
    demand_pages flags (page :: pages) M (alloc_ (ManagedI386.state m))
    = demand_pages flags pages M' (alloc_ (ManagedI386.state m')) ∧
    inv m' ∧ agree m' M' ∧ th_room n (dom (mem (hw_ (ManagedI386.state m')))) ∧
    tlb (hw_ (ManagedI386.state m')) = tlb (hw_ (ManagedI386.state m)) ∧
    ∀ la', 0 <= la' < K →
       region_protection m' la' = if decide (index2 la' = index2 (PAGE_SIZE * page))
                                  then Some (dir_flags flags) else region_protection m la'.
Proof using All.
  intros Hinv HM Hla Hroom.
  destruct (managed_map_with_ok m (PAGE_SIZE * page) flags _ _ Hinv Hla (th_fresh _ _ Hroom)
    (demand_action (F1 := Pte) i386_flags1 i386_zero1 alloc_page flags))
    as (m' & v & E & (Hinv' & Htl & Hmap & Hreg) & Hdom & HQ).
  exists m', (λ p, if decide (p = page) then v else M p). split; [exact E|].
  assert (PAGE_SIZE * page / PAGE_SIZE = page) as Hdiv by apply ConcretePageFrameAllocator.page_div.
  split; [|split_and!; try done].
  - rewrite HM, Hdiv in HQ by done. cbn [demand_pages].
    unfold demand in HQ. destruct (M page) as [[f pr]|].
    + destruct HQ as [-> ->]. done.
    + destruct HQ as (f & -> & ->). done.
  - intros la' Hla'. rewrite Hmap, Hdiv, HM by done. done.
  - by eapply th_use.
Qed.

Lemma map_pages_loop_ok flags n :
  ∀ b m M, inv m → agree m M → 0 <= b → PAGE_SIZE * (b + Z.of_nat n) <= K →
  th_room n (dom (mem (hw_ (ManagedI386.state m)))) →
  ∃ m' M', for_pages 32 n (λ page, ManagedI386.map_page_internal new_table page flags)
             (PAGE_SIZE * b) (PAGE_SIZE * (b + Z.of_nat n)) m = Ok m' ∧
    demand_pages flags (seqZ b (Z.of_nat n)) M (alloc_ (ManagedI386.state m))
    = Ok (M', alloc_ (ManagedI386.state m')) ∧ inv m' ∧ agree m' M' ∧
    tlb (hw_ (ManagedI386.state m')) = tlb (hw_ (ManagedI386.state m)) ∧
    ∀ la', 0 <= la' < K →
      region_protection m' la' = if decide (index2 la' ∈ (λ p, index2 (PAGE_SIZE * p)) <$> seqZ b (Z.of_nat n))
                                 then Some (dir_flags flags) else region_protection m la'.
Proof using All.
  induction n as [|n IH]; intros b m M Hinv HM Hb HK Hroom.
  { exists m, M. rewrite for_pages_done. by split_and!. }
  change (Datatypes.S n) with (1 + n)%nat in *. rewrite for_pages_step, seqZ_step by done.
  destruct (map_page_internal_ok m M b (seqZ (b + 1) (Z.of_nat n)) flags n Hinv HM)
    as (m1 & M1 & -> & -> & Hinv1 & HM1 & Hroom1 & Htl1 & Hreg1); [unfold PAGE_SIZE, K in *; lia|done|].
  cbn [mbind result_bind].
  destruct (IH (b + 1) m1 M1) as (m2 & M2 & -> & -> & Hinv2 & HM2 & Htl2 & Hreg2); try done; [lia..|].
  exists m2, M2. split_and!; try done; [congruence|]. intros la' Hla'.
  rewrite Hreg2, Hreg1 by done. cbn [fmap list_fmap]. rewrite (decide_ext _ _ _ _ (elem_of_cons _ _ _)).
  repeat case_decide; tauto.
Qed.

Lemma flushed_ok m b n :
  inv m → 0 <= b → PAGE_SIZE * (b + Z.of_nat n) <= K →
  ∃ m', (h ← invalidate_pages 32 (hw_ (ManagedI386.state m)) (PAGE_SIZE * b) (PAGE_SIZE * (b + Z.of_nat n));
         mret (ManagedI386.with_hw m h)) = Ok m' ∧ inv m' ∧
    alloc_ (ManagedI386.state m') = alloc_ (ManagedI386.state m) ∧
    mapping m' = mapping m ∧ region_protection m' = region_protection m ∧
    tlb (hw_ (ManagedI386.state m')) = tlb (hw_ (ManagedI386.state m)) ++ flushes b (Z.of_nat n).
Proof. intros Hinv Hb HK. rewrite invalidate_pages_ok by done. eexists. by split_and!. Qed.

Lemma managed_map_pages_ok m b n flags :
  inv m → 0 <= b → (0 < n)%nat → PAGE_SIZE * (b + Z.of_nat n) <= K →
  th_room n (dom (mem (hw_ (ManagedI386.state m)))) →
  ∃ m' M', ManagedI386.map_pages new_table m (PAGE_SIZE * b) (PAGE_SIZE * (b + Z.of_nat n)) flags = Ok m' ∧
    demand_pages flags (seqZ b (Z.of_nat n)) (λ p, mapping m (PAGE_SIZE * p)) (alloc_ (ManagedI386.state m))
    = Ok (M', alloc_ (ManagedI386.state m')) ∧ inv m' ∧ agree m' M' ∧
    (∀ la', 0 <= la' < K →
      region_protection m' la'
      = if decide (index2 la' ∈ (λ p, index2 (PAGE_SIZE * p)) <$> seqZ b (Z.of_nat n))
        then Some (dir_flags flags) else region_protection m la') ∧
    tlb (hw_ (ManagedI386.state m')) = tlb (hw_ (ManagedI386.state m)) ++ flushes b (Z.of_nat n).
Proof using All.
  intros Hinv Hb Hn HK Hroom. unfold ManagedI386.map_pages.
  rewrite ConcretePageFrameAllocator.page_aligned_mul, page_fuel_exact, Nat2Z.id by lia. cbn [assert_then].
  rewrite (proj2 (Z.ltb_lt _ _)) by (unfold PAGE_SIZE; lia). cbn [assert_then].
  destruct (map_pages_loop_ok flags n b m (λ p, mapping m (PAGE_SIZE * p)) Hinv)
    as (m1 & M1 & E & -> & Hinv1 & HM1 & Htl1 & Hreg1); try done.
  { intros la Hla. rewrite !mapping_is_view; try done.
    - destruct (i386_same_entry la (PAGE_SIZE * (la / PAGE_SIZE))) as [_ Hs]; [done| |].
      + pose proof (Z.mul_div_le la PAGE_SIZE). pose proof (Z.div_pos la PAGE_SIZE). unfold PAGE_SIZE in *. lia.
      + rewrite ConcretePageFrameAllocator.page_div in Hs. destruct (Hs eq_refl) as [-> ->]. done.
    - pose proof (Z.mul_div_le la PAGE_SIZE). pose proof (Z.div_pos la PAGE_SIZE). unfold PAGE_SIZE in *. lia. }
  unfold W. rewrite E. cbn [mbind result_bind].
  destruct (flushed_ok m1 b n Hinv1 Hb HK) as (m2 & -> & Hinv2 & Hal & Hmap & Hreg & Htl).
  exists m2, M1. rewrite Hal, Htl, Htl1. split_and!; try done.
  - intros la Hla. rewrite Hmap. by apply HM1.
  - intros la' Hla'. rewrite Hreg. by apply Hreg1.
Qed.

(** ** set_readonly *)
Lemma set_readonly_page_ok m la :
  inv m → 0 <= la < K → mapping m la ≠ None →
  ∃ m', ManagedI386.set_readonly_page la m = Ok m' ∧
    remapped_space m m' la (read_only (mapping m la)) None.
Proof.
  intros Hinv Hla Hm. pose proof Hinv as (Hwf & _ & Hal).
  destruct (i386_user_index la Hla) as (Hi & Hj & _).
  rewrite mapping_is_view in Hm |- * by done.
  destruct (table_at (ManagedI386.pml2_ m) (index2 la)) as [pt|] eqn:Et;
    [|unfold view in Hm; by rewrite Et in Hm].
  unfold ManagedI386.set_readonly_page, ManagedI386.at_pml1_entry, ManagedI386.on.
  change PageDirectory_COUNT with 1024. change PageTable_COUNT with 1024.
  destruct (entry_action_ok (F1 := Pte) (F2 := Pde) 32 K 1024 4 index2 index1 ltac:(done) ltac:(done)
    ltac:(done) eq_refl 768 _ _ la pt _ _ Hwf ltac:(lia) Hj Et Hal (read_only_action (F1 := Pte) i386_flags1))
    as (s' & c' & v & -> & Hre & _ & _ & -> & _).
  cbn [mbind result_bind mret result_ret]. eexists. split; [done|]. by apply remapped_is_space.
Qed.

(** [get_pml1] is dereferenced without a test. *)
Lemma set_readonly_page_no_table m la :
  inv m → 0 <= la < K → table_at (ManagedI386.pml2_ m) (index2 la) = None →
  ManagedI386.set_readonly_page la m = Fault NullDereference.
Proof.
  intros Hinv Hla Ht. destruct (i386_user_index la Hla) as (Hi & _). destruct Hinv as ((_ & Hent & _) & _).
  destruct (Hent (index2 la)) as (e & d & H1 & _); [lia|].
  unfold ManagedI386.set_readonly_page, ManagedI386.at_pml1_entry, ManagedI386.on, PML2.at_pml1_entry,
    PMLEntry.at_child, PMLEntry.at_entry, PMLEntry.get_entry_by_address, PMLEntry.get_entry, PageDirectory_COUNT.
  decide_Z. unfold table_at in Ht. rewrite H1 in Ht |- *. cbn in Ht |- *. by destruct (PMLEntry.child_ e).
Qed.

Lemma set_readonly_loop_ok n :
  ∀ b m, inv m → 0 <= b → PAGE_SIZE * (b + Z.of_nat n) <= K →
  (∀ p, b <= p < b + Z.of_nat n → mapping m (PAGE_SIZE * p) ≠ None) →
  ∃ m', for_pages 32 n ManagedI386.set_readonly_page (PAGE_SIZE * b) (PAGE_SIZE * (b + Z.of_nat n)) m = Ok m' ∧
    inv m' ∧ tlb (hw_ (ManagedI386.state m')) = tlb (hw_ (ManagedI386.state m)) ∧
    (∀ la', 0 <= la' < K →
       mapping m' la' = if decide (b <= la' / PAGE_SIZE < b + Z.of_nat n)
                        then read_only (mapping m la') else mapping m la').
Proof.
  induction n as [|n IH]; intros b m Hinv Hb HK Hmap.
  { exists m. rewrite for_pages_done. split_and!; try done. intros la' _. rewrite decide_False by lia. done. }
  change (Datatypes.S n) with (1 + n)%nat in *. rewrite for_pages_step by done.
  assert (0 <= PAGE_SIZE * b < K) as Hla by (unfold PAGE_SIZE, K in *; lia).
  destruct (set_readonly_page_ok m (PAGE_SIZE * b) Hinv Hla) as (m1 & -> & Hinv1 & Htl1 & Hm1 & _);
    [apply Hmap; lia|]. cbn [mbind result_bind].
  assert (∀ p, PAGE_SIZE * p / PAGE_SIZE = p) as Hdiv by apply ConcretePageFrameAllocator.page_div.
  rewrite Hdiv in Hm1.
  destruct (IH (b + 1) m1 Hinv1) as (m2 & -> & Hinv2 & Htl2 & Hm2); [lia|lia| |].
  { intros p Hp. rewrite Hm1, Hdiv, decide_False by (unfold PAGE_SIZE, K in *; lia). apply Hmap. lia. }
  exists m2. split_and!; try done; [congruence|]. intros la' Hla'. rewrite Hm2, Hm1 by done.
  destruct (decide (la' / PAGE_SIZE = b)) as [Eb|Hne].
  - rewrite decide_False, decide_True by lia.
    rewrite !mapping_is_view by done.
    destruct (i386_same_entry (PAGE_SIZE * b) la' Hla Hla') as [_ Hs]. rewrite Hdiv in Hs.
    destruct (Hs Eb) as [-> ->]. done.
  - repeat case_decide; (done || lia).
Qed.

Lemma managed_set_readonly_ok m b n :
  inv m → 0 <= b → PAGE_SIZE * (b + Z.of_nat n) <= K →
  (∀ p, b <= p < b + Z.of_nat n → mapping m (PAGE_SIZE * p) ≠ None) →
  ∃ m', ManagedI386.set_readonly m (PAGE_SIZE * b) (PAGE_SIZE * (b + Z.of_nat n)) = Ok m' ∧ inv m' ∧
    (∀ la', 0 <= la' < K →
       mapping m' la' = if decide (b <= la' / PAGE_SIZE < b + Z.of_nat n)
                        then read_only (mapping m la') else mapping m la') ∧
    tlb (hw_ (ManagedI386.state m')) = tlb (hw_ (ManagedI386.state m)) ++ flushes b (Z.of_nat n).
Proof.
  intros Hinv Hb HK Hmap. unfold ManagedI386.set_readonly. rewrite page_fuel_exact, Nat2Z.id by lia.
  destruct (set_readonly_loop_ok n b m Hinv Hb HK Hmap) as (m1 & E & Hinv1 & Htl1 & Hm1).
  unfold W. rewrite E. cbn [mbind result_bind].
  destruct (flushed_ok m1 b n Hinv1 Hb HK) as (m2 & -> & Hinv2 & _ & Hm2 & _ & Htl2).
  exists m2. rewrite Htl2, Htl1, Hm2. done.
Qed.
End Laws.

(** The concrete allocator answers frames a page-table entry can hold. *)
Lemma concrete_alloc_page N al :
  0 < N → PAGE_SIZE * (N + 1) <= 2 ^ 32 → ConcretePageFrameAllocator.inv N al →
  ∃ f al', ConcretePageFrameAllocator.allocate 32 N al PAGE_SIZE = Ok (f, al') ∧
    ConcretePageFrameAllocator.inv N al' ∧ pe_addressable (F := Pte) f ∧ 0 <= f / PAGE_SIZE < N.
Proof.
  intros HN HW Hinv. unfold PAGE_SIZE in HW.
  destruct (ConcretePageFrameAllocator.allocate_ok 32 N al PAGE_SIZE) as (f & al' & E & Hinv' & Hspec);
    [unfold ConcretePageFrameAllocator.params_ok, PAGE_SIZE; lia|done|done|unfold PAGE_SIZE; lia|].
  exists f, al'. split; [done|]. split; [done|].
  destruct Hspec as [(-> & _)|(k & -> & Hk & _)].
  - split; [apply i386_zero1|]. rewrite Z.div_0_l by done. lia.
  - rewrite ConcretePageFrameAllocator.page_div. split; [|lia].
    split; [unfold fits, PAGE_SIZE; lia|]. rewrite Z.mul_comm. by apply Z.mod_mul.
Qed.

(** ** A heap of page tables: the first table of a list none of whose words is in use *)
Section Heap.
Context {S : Type} `{!PageFrameAllocator S} (tables : list Z).
Context (tables_ok : Forall (is_table (F2 := Pde) 32 K) tables) (tables_nodup : NoDup tables).

Definition table_words (table : Z) : list Z := (λ i, word 4 table i) <$> seqZ 0 1024.

Definition unused (D : gset Z) (table : Z) : Prop := Forall (λ w, w ∉ D) (table_words table).

#[global] Instance unused_dec D table : Decision (unused D table).
Proof. unfold unused. apply _. Defined.

Definition next_table (s : st S) : Z := default 0 (head (filter (unused (dom (mem (hw_ s)))) tables)).

Definition table_room (n : nat) (D : gset Z) : Prop := (n <= length (filter (unused D) tables))%nat.

Lemma elem_of_table_words w table :
  w ∈ table_words table ↔ ∃ i, 0 <= i < 1024 ∧ w = word 4 table i.
Proof.
  unfold table_words. rewrite list_elem_of_fmap. setoid_rewrite elem_of_seqZ.
  split; intros (i & ? & ?); exists i; split; (done || lia).
Qed.

Lemma table_room_split n s :
  table_room (1 + n) (dom (mem (hw_ s))) →
  ∃ rest, filter (unused (dom (mem (hw_ s)))) tables = next_table s :: rest ∧ (n <= length rest)%nat.
Proof.
  unfold table_room, next_table. destruct (filter _ tables) as [|t rest]; cbn; [lia|].
  intros. exists rest. split; [done|lia].
Qed.

Lemma list_heap_fresh n s :
  table_room (1 + n) (dom (mem (hw_ s))) →
  fresh_table (F2 := Pde) 32 K 1024 4 (mem (hw_ s)) (next_table s).
Proof using tables_ok.
  intros (rest & E & _)%table_room_split.
  assert (next_table s ∈ filter (unused (dom (mem (hw_ s)))) tables) as [Hun Hin]%list_elem_of_filter
    by (rewrite E; apply list_elem_of_here).
  split; [by eapply Forall_forall in tables_ok|]. intros i Hi. apply not_elem_of_dom.
  eapply Forall_forall in Hun; [exact Hun|]. apply elem_of_table_words. by exists i.
Qed.

Lemma list_heap_use n s D :
  table_room (1 + n) (dom (mem (hw_ s))) →
  D ⊆ dom (mem (hw_ (clear_words 4 (next_table s) 1024 s))) → table_room n D.
Proof using tables_ok tables_nodup.
  intros Hroom HD. destruct (table_room_split _ _ Hroom) as (rest & E & Hn).
  assert (NoDup (next_table s :: rest)) as [Hne Hnd]%NoDup_cons by (rewrite <-E; by apply NoDup_filter).
  unfold table_room. etransitivity; [exact Hn|]. apply submseteq_length, NoDup_submseteq; [done|].
  intros t Ht. assert (t ∈ filter (unused (dom (mem (hw_ s)))) tables) as [Hun Hin]%list_elem_of_filter
    by (rewrite E; by apply list_elem_of_further).
  apply list_elem_of_filter. split; [|done]. apply Forall_forall. intros w Hw HwD.
  assert (w ∉ dom (mem (hw_ s))) as Hfree by (by eapply Forall_forall in Hun).
  apply HD, elem_of_dom in HwD as [x Hx]. apply elem_of_table_words in Hw as (i & Hi & ->).
  rewrite clear_words_out in Hx; [by apply not_elem_of_dom in Hfree; rewrite Hx in Hfree|].
  intros k Hk Ek. assert (next_table s ∈ tables) as Hin'.
  { assert (next_table s ∈ filter (unused (dom (mem (hw_ s)))) tables) as [_ ?]%list_elem_of_filter
      by (rewrite E; apply list_elem_of_here). done. }
  eapply Forall_forall in Hin as H1; [|exact tables_ok]. eapply Forall_forall in Hin' as H2; [|exact tables_ok].
  destruct (word_inj (F2 := Pde) 32 K 1024 4 ltac:(done) ltac:(done) eq_refl t (next_table s) i k H1 H2 Hi Hk Ek)
    as [-> _]. done.
Qed.

#[global] Instance list_heap : TableHeap next_table := {|
  th_room := table_room;
  th_fresh := list_heap_fresh;
  th_use := list_heap_use;
|}.
End Heap.

Lemma i386_init_ok {S : Type} `{!PageFrameAllocator S} (s : st S) :
  is_table (F2 := Pde) 32 K (p2l (cr3 (hw_ s))) → pfa_inv (alloc_ s) →
  (∀ i, 0 <= i < 1024 →
     ∃ d, mem (hw_ s) !! word 4 (p2l (cr3 (hw_ s))) i = Some d ∧ fits 32 d ∧
          (i < 768 → pe_get_address (F := Pde) d = 0)) →
  ∃ m, ManagedI386.init s = Ok m ∧ inv m ∧ ManagedI386.state m = s.
Proof.
  intros Ht Hal Hw. unfold ManagedI386.init, PML2.init, PMLEntry.init, PMLEntry.feed_pdes, get_cr3.
  set (root := p2l (cr3 (hw_ s))) in *. assert (root ≠ 0) as Hne by (destruct Ht; unfold K in *; lia).
  rewrite (proj2 (Z.eqb_neq _ _) Hne). cbn [negb assert_then mbind result_bind mret result_ret].
  change PageDirectory_COUNT with 1024. change sizeof_entry with 4.
  eexists. split; [done|]. split; [|done].
  split; [|split; [done|done]]. cbn [ManagedI386.state ManagedI386.pml2_].
  assert (∀ i, 0 <= i < 1024 →
    ((λ i, PMLEntry.mkentry (Child := PML1.t) (root + i * 4) None) <$> seqZ 0 1024) !! Z.to_nat i
    = Some (PMLEntry.mkentry (root + i * 4) None)) as Hl.
  { intros i Hi. by rewrite list_lookup_fmap, (proj2 (lookup_seqZ 0 1024 (Z.to_nat i) i)) by lia. }
  split_and!; [done| |].
  - intros i Hi. destruct (Hw i Hi) as (d & H1 & H2 & H3).
    exists (PMLEntry.mkentry (word 4 root i) None), d. rewrite Hl by done. done.
  - intros i j Hi Hj _ _. unfold table_at. cbn [PMLEntry.entries_]. by rewrite Hl.
Qed.
End ManagedI386Laws.

(** ** Properties *)
Module PageMapProperties.
Import I386Resolver ManagedI386Laws.


(** A machine whose page directory, at 0x1000, is empty, with the frames 2, 3 and 5 free. *)
Definition demo_alloc : ConcretePageFrameAllocator.t :=
  let free a f := match ConcretePageFrameAllocator.deallocate 16 a (PAGE_SIZE * f) with
                  | Ok a => a | Fault _ => a end in
  free (free (free (ConcretePageFrameAllocator.init 16) 2) 3) 5.

#[local] Instance demo_pfa : PageFrameAllocator ConcretePageFrameAllocator.t :=
  ConcretePageFrameAllocator.concrete_pfa 32 16.
#[local] Instance demo_laws : PageFrameAllocatorLaws ConcretePageFrameAllocator.t :=
  ConcretePageFrameAllocator.concrete_pfa_laws 32 16.

Definition demo_state : st ConcretePageFrameAllocator.t :=
  clear_words 4 0xC0001000 1024 (mkst (Mmu.mk 0x1000 ∅ []) demo_alloc).

Definition demo_tables : list Z := [0xC0010000; 0xC0011000].

Lemma demo_alloc_inv : ConcretePageFrameAllocator.inv 16 demo_alloc.
Proof.
  split; [|vm_compute; reflexivity]. split; [reflexivity|]. repeat constructor; unfold fits; vm_compute; done.
Qed.

Lemma demo_init : ∃ m, ManagedI386.init demo_state = Ok m ∧ inv m ∧ ManagedI386.state m = demo_state.
Proof.
  apply i386_init_ok.
  - by split_and!.
  - exact demo_alloc_inv.
  - intros i Hi. exists 0. split; [|done]. unfold word, demo_state.
    change (p2l _) with 0xC0001000. by apply clear_words_in.
Qed.

Lemma demo_tables_ok : Forall (is_table (F2 := Pde) 32 KERNEL_VIRTUAL_START_ADDR) demo_tables.
Proof. unfold demo_tables. rewrite !Forall_cons. split; [by split_and!|]. split; [by split_and!|done]. Qed.

Lemma demo_room : table_room demo_tables 2 (dom (mem (hw_ demo_state))).
Proof. apply Nat.leb_le. vm_compute. reflexivity. Qed.

Lemma demo_nodup : NoDup demo_tables.
Proof. by apply (bool_decide_unpack _). Qed.




(** ** x86_64: which page tables exist *)
Section X64.
Import X64Resolver.
Context {S : Type} `{!PageFrameAllocator S} (new_table : st S → Z).
Implicit Types (m : ManagedX64.t S).

Notation index4 := ManagedX64.get_index_of_pml4_entry_by_address.
Notation index3 := ManagedX64.get_index_of_pml3_entry_by_address.
Notation index2 := ManagedX64.get_index_of_pml2_entry_by_address.
Notation index1 := ManagedX64.get_index_of_pml1_entry_by_address.

(** There is a level-three controller for the 512 GB region of [la]. *)
Definition has_pml3 m (la : Z) : bool :=
  match PML4.get_pml3 COUNT index4 (ManagedX64.pml4_ m) la with Ok (Some _) => true | _ => false end.

Definition page_table_of m (la : Z) : result (option PML1.t) :=
  pml3 ← PML4.get_pml3 COUNT index4 (ManagedX64.pml4_ m) la;
  pml3 ← deref NullDereference pml3;
  pml2 ← PML3.get_pml2 COUNT index3 pml3 la;
  pml2 ← deref NullDereference pml2;
  PML2.get_pml1 COUNT index2 pml2 la.

Definition has_page_table m (la : Z) : bool :=
  match page_table_of m la with Ok (Some _) => true | _ => false end.

Lemma at_entry_ok {Child : Type} count index (c : PMLEntry.t Child) la (s : st S) f s' c' :
  PMLEntry.at_entry count index c la s f = Ok (s', c') →
  ∃ e e', PMLEntry.get_entry_by_address count index c la = Ok e ∧ f s e = Ok (s', e') ∧
    (e' = e → c' = c).
Proof.
  intros (e & He & H)%bind_ok. apply bind_ok in H as ([s1 e'] & Hf & [= <- <-]).
  exists e, e'. split; [done|]. split; [done|]. intros ->.
  unfold PMLEntry.get_entry_by_address, PMLEntry.get_entry in He.
  destruct (index la <? count); [|done]. cbn [assert_then] in He.
  destruct (PMLEntry.entries_ c !! _) as [x|] eqn:Ex; [|done]. injection He as ->.
  rewrite list_insert_id by done. by destruct c.
Qed.

Lemma at_entry_same {Child : Type} count index (c : PMLEntry.t Child) la (s : st S)
    (f : st S → PMLEntry.Entry Child → result (st S)) s' c' :
  PMLEntry.at_entry count index c la s (λ s e, s ← f s e; mret (s, e)) = Ok (s', c') → c' = c.
Proof.
  intros (e & e' & _ & Hf & Hc)%at_entry_ok. apply bind_ok in Hf as (s1 & _ & [= <- <-]). by apply Hc.
Qed.

Lemma at_child_ok {Child : Type} count index (c : PMLEntry.t Child) la (s : st S) f s' c' :
  PMLEntry.at_child count index c la s f = Ok (s', c') →
  ∃ child child', PMLEntry.get_child count index c la = Ok (Some child) ∧
    f s child = Ok (s', child') ∧ (child' = child → c' = c).
Proof.
  intros (e & e' & He & Hf & Hc)%at_entry_ok.
  destruct (PMLEntry.child_ e) as [child|] eqn:Ec; [|done]. cbn [deref mbind result_bind] in Hf.
  apply bind_ok in Hf as ([s1 child'] & Hf & [= <- <-]). exists child, child'.
  split; [unfold PMLEntry.get_child; rewrite He; cbn; by rewrite Ec|]. split; [done|].
  intros ->. apply Hc. destruct e. cbn in *. by rewrite Ec.
Qed.

(** Working on the entries above the page table leaves the tree alone. *)
Lemma x64_upper_entries_same m la f4 f3 f2 m4 m3 m2 :
  ManagedX64.at_pml4_entry m la f4 = Ok m4 → ManagedX64.at_pml3_entry m4 la f3 = Ok m3 →
  ManagedX64.at_pml2_entry m3 la f2 = Ok m2 → ManagedX64.pml4_ m2 = ManagedX64.pml4_ m.
Proof.
  intros H4 H3 H2.
  apply bind_ok in H4 as ([s4 c4] & H4 & [= <-]). apply at_entry_same in H4 as ->.
  apply bind_ok in H3 as ([s3 c3] & H3 & [= <-]). cbn [ManagedX64.pml4_ ManagedX64.state] in H3.
  apply bind_ok in H3 as (o & _ & H3). destruct (negb _); [|done]. cbn [assert_then] in H3.
  apply at_child_ok in H3 as (p3 & p3' & _ & H3 & Hc3). apply at_entry_same in H3. rewrite (Hc3 H3) in *.
  apply bind_ok in H2 as ([s2 c2] & H2 & [= <-]). cbn [ManagedX64.pml4_ ManagedX64.state] in H2 |- *.
  apply at_child_ok in H2 as (q3 & q3' & _ & H2 & Hc2). apply Hc2.
  apply at_child_ok in H2 as (q2 & q2' & _ & H2 & Hc2'). apply Hc2'. by apply at_entry_same in H2.
Qed.

Lemma x64_pml1_entry_needs_table m la f m' :
  ManagedX64.at_pml1_entry m la f = Ok m' → has_page_table m la = true.
Proof.
  intros ([s c] & H & _)%bind_ok. unfold has_page_table, page_table_of.
  apply at_child_ok in H as (p3 & p3' & E3 & H & _). unfold PML4.get_pml3. rewrite E3.
  apply at_child_ok in H as (p2 & p2' & E2 & H & _). cbn [deref mbind result_bind].
  unfold PML3.get_pml2. rewrite E2. cbn [deref mbind result_bind].
  apply at_child_ok in H as (p1 & p1' & E1 & _). unfold PML2.get_pml1. by rewrite E1.
Qed.

(** A region with a level-three controller is taken to be populated. *)
Lemma x64_populate_stops m la : has_pml3 m la = true → ManagedX64.populate new_table m la = Ok m.
Proof.
  unfold has_pml3, PML4.get_pml3, PMLEntry.get_child. intros H.
  unfold ManagedX64.populate, ManagedX64.on, PML4.populate, PMLEntry.at_entry, PML4.entry_populate.
  destruct (PMLEntry.get_entry_by_address _ _ _ _) as [e|] eqn:Ee; [|done]. cbn [mbind result_bind mret result_ret] in *.
  destruct (PMLEntry.child_ e); [|done]. cbn [mbind result_bind mret result_ret].
  unfold PMLEntry.get_entry_by_address, PMLEntry.get_entry in Ee.
  destruct (_ <? _); [|done]. cbn [assert_then] in Ee.
  destruct (PMLEntry.entries_ _ !! _) as [x|] eqn:Ex; [|done]. injection Ee as ->.
  rewrite list_insert_id by done. by destruct m as [s []].
Qed.

Lemma x64_map_needs_table m la flags g m' :
  has_pml3 m la = true →
  (m ← ManagedX64.populate new_table m la; m ← ManagedX64.set_entries_protection m la flags; g m) = Ok m' →
  has_page_table m la = true.
Proof.
  intros H3 H. rewrite (x64_populate_stops m la H3) in H. cbn [mbind result_bind] in H.
  apply bind_ok in H as (m1 & H & _). apply bind_ok in H as (m4 & H4 & H).
  apply bind_ok in H as (m3 & Hm3 & H). apply bind_ok in H as (m2 & H2 & H).
  apply x64_pml1_entry_needs_table in H.
  unfold has_page_table, page_table_of in *. by rewrite (x64_upper_entries_same _ _ _ _ _ _ _ _ H4 Hm3 H2) in H.
Qed.
End X64.

(** On x86_64 [populate] descends only into controllers it has just created.  Where
    the 512 GB region of an address already has a level-three controller, it changes
    nothing, and then [map_page] and the step of [map_pages] never return if the page
    table of the address is missing: they follow a null pointer on the way to it. *)
Theorem x64_populate_is_incomplete {S : Type} `{!PageFrameAllocator S} (new_table : st S → Z)
    (m : ManagedX64.t S) (la : Z) :
  has_pml3 m la = true → has_page_table m la = false →
  ManagedX64.populate new_table m la = Ok m ∧
  (∀ f, ∃ e, ManagedX64.at_pml1_entry m la f = Fault e) ∧
  (∀ physical flags, ∃ e, ManagedX64.map_page new_table m physical la flags = Fault e) ∧
  (∀ flags, ∃ e, ManagedX64.map_page_internal new_table la flags m = Fault e).
Proof.
  intros H3 H1. split; [by apply x64_populate_stops|]. split_and!.
  - intros f. destruct (ManagedX64.at_pml1_entry m la f) as [m'|e] eqn:E; [|by exists e].
    apply x64_pml1_entry_needs_table in E. congruence.
  - intros physical flags. destruct (ManagedX64.map_page _ _ _ _ _) as [m'|e] eqn:E; [|by exists e].
    apply x64_map_needs_table in E; congruence.
  - intros flags. destruct (ManagedX64.map_page_internal _ _ _ _) as [m'|e] eqn:E; [|by exists e].
    apply x64_map_needs_table in E; congruence.
Qed.

(** An x86_64 machine with an empty level-four table, after its first page was mapped. *)
Definition demo_x64 : result (ManagedX64.t ConcretePageFrameAllocator.t) :=
  let root := 0xFFFFFFFFC0001000 in
  let new_table (s : st ConcretePageFrameAllocator.t) :=
    0xFFFFFFFFC0100000 + 8 * Z.of_nat (size (mem (hw_ s))) in
  m ← ManagedX64.init (clear_words 8 root 512 (mkst (Mmu.mk 0x1000 ∅ []) demo_alloc));
  ManagedX64.map_page new_table m 0x5000 0x100000 UnmanagedMap.WRITABLE.

(** The next 2 MB region has a level-three controller and no page table. *)
Definition second_region_missing (r : result (ManagedX64.t ConcretePageFrameAllocator.t)) : bool :=
  match r with
  | Ok m => has_pml3 m 0x200000 && negb (has_page_table m 0x200000)
  | Fault _ => false
  end.

Lemma demo_x64_second_region : second_region_missing demo_x64 = true.
Proof. vm_compute. reflexivity. Qed.

Lemma x64_populate_is_incomplete_witness :
  ∃ m, demo_x64 = Ok m ∧
    ∀ new_table, ∃ e, ManagedX64.map_page new_table m 0x6000 0x200000 UnmanagedMap.WRITABLE = Fault e.
Proof.
  generalize demo_x64_second_region. generalize demo_x64. intros [m|] Hc; [|discriminate Hc].
  exists m. split; [reflexivity|]. apply andb_true_iff in Hc as [H3 H1%negb_true_iff]. intros new_table.
  destruct (x64_populate_is_incomplete new_table m 0x200000 H3 H1) as (_ & _ & Hmap & _). apply Hmap.
Defined.

End PageMapProperties.
