(* ===== verification/TextDisplay.v ===== *)
(** * TextDisplay: the text display interface and the VGA driver behind it

    Models [isprint] (flapjack_libc/ctype.inc), the metrics of the console
    (common/terminal_metrics.hpp), [VGAChar] and the interface [TextDisplayDevice]
    (common/text_display_device.hpp, a class with its laws here) and its implementation
    [VGATextDisplayDevice] (src/Kernel/src/drivers/pc/vga_text_display_device.cpp,
    module [VGA]), which writes 16-bit cells to a memory-mapped buffer and moves the
    hardware cursor through two index/data port pairs. *)
From S2P Require Import Prelude.

(** ** Characters: [char] is a signed 8-bit integer *)
Definition isprint (c : Z) : bool := (32 <=? c) && (c <=? 126).
Definition isdigit (c : Z) : bool := (48 <=? c) && (c <=? 57).
Definition islower (c : Z) : bool := (97 <=? c) && (c <=? 122).
Definition isupper (c : Z) : bool := (65 <=? c) && (c <=? 90).

Definition SPACE : Z := 32.
Definition TAB : Z := 9.
Definition NEWLINE : Z := 10.
Definition BACKSPACE : Z := 8.

Definition CONSOLE_WIDTH : Z := 80.
Definition CONSOLE_HEIGHT : Z := 25.
Definition TAB_WIDTH : Z := 8.

(** ** The interface

    A position is the pair (x, y) of a [Point2], a [VGAChar] its 16-bit value. *)
Class TextDisplayDevice (D : Type) := {
  display_clear : D → D;
  draw_char : D → Z * Z → Z → D;
  get_char : D → Z * Z → Z;
  make_char : D → Z → Z;
  set_cursor_position : D → Z * Z → D;
  get_cursor_position : D → Z * Z;
  get_tab_width : D → Z;
  dimensions : D → Z * Z;
}.

Definition on_screen (p : Z * Z) : Prop :=
  0 <= p.1 < CONSOLE_WIDTH ∧ 0 <= p.2 < CONSOLE_HEIGHT.

#[global] Instance on_screen_dec p : Decision (on_screen p).
Proof. unfold on_screen. apply _. Defined.

(** The glyph a display shows for a character: nul is drawn as a space. *)
Definition glyph (c : Z) : Z := if c =? 0 then SPACE else c.

(** What the terminal relies on: drawing a printable character (or nul) changes the
    cell it is drawn at and nothing else, a position off the screen is ignored, the
    cursor is where it was put, and neither drawing nor moving the cursor changes the
    colours, the metrics or each other's state. *)
Class TextDisplayDeviceLaws (D : Type) `{TextDisplayDevice D} := {
  display_dimensions : ∀ d, dimensions d = (CONSOLE_WIDTH, CONSOLE_HEIGHT);
  display_tab_width : ∀ d, get_tab_width d = TAB_WIDTH;
  make_char_draw : ∀ d p v c, make_char (draw_char d p v) c = make_char d c;
  make_char_cursor : ∀ d p c, make_char (set_cursor_position d p) c = make_char d c;
  get_char_draw : ∀ d p q c, on_screen q → isprint c = true ∨ c = 0 →
    get_char (draw_char d p (make_char d c)) q
    = if decide (q = p) then make_char d (glyph c) else get_char d q;
  get_char_cursor : ∀ d p q, get_char (set_cursor_position d p) q = get_char d q;
  get_cursor_set : ∀ d p, get_cursor_position (set_cursor_position d p) = p;
  get_cursor_draw : ∀ d p v, get_cursor_position (draw_char d p v) = get_cursor_position d;
}.

(** ** VGATextDisplayDevice *)
Module VGA.

Definition LGRAY : Z := 0x7.
Definition BLACK : Z := 0x0.

Definition CRTC_IDX_REG : Z := 0x3d4.
Definition CRTC_DATA_REG : Z := 0x3d5.
Definition CRTC_CURSOR_LSB_IDX : Z := 15.
Definition CRTC_CURSOR_MSB_IDX : Z := 14.

(** [buffer] is the memory at [g_vga_text_buffer] by index, [ports] the bytes written
    with [outb], oldest first. *)
Record t := mk {
  buffer : Z → Z;
  ports : list (Z * Z);
  cursor_pos_ : Z * Z;
  current_foreground_color_ : Z;
  current_background_color_ : Z;
}.

Definition init (buf : Z → Z) (io : list (Z * Z)) : t := mk buf io (0, 0) LGRAY BLACK.

Definition vga_text_buffer_get (d : t) (index : Z) : Z := buffer d index.

Definition vga_text_buffer_set (d : t) (ch index : Z) : t :=
  mk (λ j, if j =? index then ch else buffer d j) (ports d) (cursor_pos_ d)
    (current_foreground_color_ d) (current_background_color_ d).

(** The bit fields of [VGAChar::attr]: ch:8, fg:4, bg:3, blink:1. *)
Definition attr_ch (v : Z) : Z := Z.land v 0xFF.

Definition pack (ch fg bg blink : Z) : Z :=
  Z.lor (Z.land ch 0xFF)
    (Z.lor (Z.shiftl (Z.land fg 0xF) 8)
       (Z.lor (Z.shiftl (Z.land bg 0x7) 12) (Z.shiftl (Z.land blink 1) 15))).

Definition make_char (d : t) (ch : Z) : Z :=
  pack ch (current_foreground_color_ d) (current_background_color_ d) 0.

Definition draw_char (d : t) (pos : Z * Z) (ch : Z) : t :=
  let ch := if ch =? make_char d 0 then make_char d SPACE else ch in
  if (0 <=? pos.1) && (0 <=? pos.2) && (pos.2 <? CONSOLE_HEIGHT) &&
     (pos.1 <? CONSOLE_WIDTH) && isprint (attr_ch ch)
  then vga_text_buffer_set d ch (pos.2 * CONSOLE_WIDTH + pos.1)
  else d.

Definition get_char (d : t) (pos : Z * Z) : Z :=
  if (0 <=? pos.1) && (0 <=? pos.2) && (pos.2 <? CONSOLE_HEIGHT) &&
     (pos.1 <? CONSOLE_WIDTH)
  then vga_text_buffer_get d (pos.2 * CONSOLE_WIDTH + pos.1)
  else make_char d SPACE.

Definition outb (d : t) (port value : Z) : t :=
  mk (buffer d) (ports d ++ [(port, value)]) (cursor_pos_ d)
    (current_foreground_color_ d) (current_background_color_ d).

Definition set_cursor_position (d : t) (pos : Z * Z) : t :=
  let d := mk (buffer d) (ports d) pos
             (current_foreground_color_ d) (current_background_color_ d) in
  let offset := uwrap 16 (pos.2 * CONSOLE_WIDTH + pos.1) in
  let d := outb d CRTC_IDX_REG CRTC_CURSOR_LSB_IDX in
  let d := outb d CRTC_DATA_REG (Z.land offset 0xFF) in
  let d := outb d CRTC_IDX_REG CRTC_CURSOR_MSB_IDX in
  outb d CRTC_DATA_REG (Z.land (Z.shiftr offset 8) 0xFF).

Definition get_cursor_position (d : t) : Z * Z := cursor_pos_ d.

(** The nested loops of [clear]: all columns of a row, all rows. *)
Definition clear_row (d : t) (y : Z) : t :=
  foldl (λ d x, draw_char d (x, y) (make_char d SPACE)) d (seqZ 0 CONSOLE_WIDTH).

Definition clear (d : t) : t :=
  set_cursor_position (foldl clear_row d (seqZ 0 CONSOLE_HEIGHT)) (0, 0).

#[global] Instance vga_device : TextDisplayDevice t := {|
  display_clear := clear;
  TextDisplay.draw_char := draw_char;
  TextDisplay.get_char := get_char;
  TextDisplay.make_char := make_char;
  TextDisplay.set_cursor_position := set_cursor_position;
  TextDisplay.get_cursor_position := get_cursor_position;
  get_tab_width := λ _, TAB_WIDTH;
  dimensions := λ _, (CONSOLE_WIDTH, CONSOLE_HEIGHT);
|}.

(** ** Cells *)
Lemma attr_ch_pack ch fg bg blink : 0 <= ch < 256 → attr_ch (pack ch fg bg blink) = ch.
Proof.
  intros Hch. unfold attr_ch, pack. change 0xFF with (Z.ones 8).
  apply Z.bits_inj'. intros i Hi.
  rewrite Z.land_spec, !Z.lor_spec, !Z.shiftl_spec, !Z.land_spec by done.
  rewrite Z.testbit_ones by lia. destruct (Z.ltb_spec i 8).
  - rewrite !(Z.testbit_neg_r _ (i - _)) by lia.
    destruct (Z.leb_spec 0 i); [|lia]. cbn. rewrite !andb_true_r, !orb_false_r. done.
  - rewrite andb_false_r, andb_false_r. symmetry.
    apply (fits_testbit_high 8); [split; lia|lia].
Qed.

Lemma printable_range c : isprint c = true ∨ c = 0 → 0 <= c < 256.
Proof. unfold isprint. rewrite andb_true_iff, !Z.leb_le. lia. Qed.

Lemma attr_ch_make_char d c : isprint c = true ∨ c = 0 → attr_ch (make_char d c) = c.
Proof. intros Hc. apply attr_ch_pack. by apply printable_range. Qed.

Lemma make_char_nul d c :
  isprint c = true ∨ c = 0 → (make_char d c =? make_char d 0) = (c =? 0).
Proof.
  intros Hc. destruct (Z.eqb_spec c 0) as [->|Hne]; [by rewrite Z.eqb_refl|].
  apply Z.eqb_neq. intros Heq. apply (f_equal attr_ch) in Heq.
  rewrite !attr_ch_make_char in Heq by auto. done.
Qed.

Lemma draw_char_visible d p c :
  on_screen p → isprint c = true ∨ c = 0 →
  draw_char d p (make_char d c)
  = vga_text_buffer_set d (make_char d (glyph c)) (p.2 * CONSOLE_WIDTH + p.1).
Proof.
  intros [Hx Hy] Hc. unfold draw_char, glyph. rewrite make_char_nul by done.
  destruct (Z.eqb_spec c 0) as [->|Hne].
  - rewrite attr_ch_make_char by (left; reflexivity). by decide_Z.
  - destruct Hc as [Hc|]; [|done]. rewrite attr_ch_make_char by auto. rewrite Hc. by decide_Z.
Qed.

Lemma draw_char_hidden d p v : ¬ on_screen p → draw_char d p v = d.
Proof.
  intros Hp. unfold draw_char. unfold on_screen in Hp.
  destruct (Z.leb_spec 0 p.1), (Z.leb_spec 0 p.2), (Z.ltb_spec p.2 CONSOLE_HEIGHT),
    (Z.ltb_spec p.1 CONSOLE_WIDTH); cbn [andb]; try done; exfalso; lia.
Qed.

Lemma get_char_on_screen d p :
  on_screen p → get_char d p = buffer d (p.2 * CONSOLE_WIDTH + p.1).
Proof. intros [Hx Hy]. unfold get_char. by decide_Z. Qed.

(** Distinct positions on the screen are distinct cells of the buffer. *)
Lemma cell_inj p q :
  on_screen p → on_screen q →
  p.2 * CONSOLE_WIDTH + p.1 = q.2 * CONSOLE_WIDTH + q.1 → p = q.
Proof.
  unfold on_screen, CONSOLE_WIDTH. destruct p, q; simpl. intros. f_equal; lia.
Qed.

Lemma get_char_draw_char d p q c :
  on_screen q → isprint c = true ∨ c = 0 →
  get_char (draw_char d p (make_char d c)) q
  = if decide (q = p) then make_char d (glyph c) else get_char d q.
Proof.
  intros Hq Hc. destruct (decide (on_screen p)) as [Hp|Hp].
  - rewrite draw_char_visible, !get_char_on_screen by done. cbn.
    destruct (decide (q = p)) as [->|Hne]; [by rewrite Z.eqb_refl|].
    rewrite (proj2 (Z.eqb_neq _ _)); [done|]. intros Heq. by apply Hne, cell_inj.
  - rewrite draw_char_hidden by done. destruct (decide (q = p)); [by subst|done].
Qed.

Lemma draw_char_keeps d p v :
  make_char (draw_char d p v) = make_char d ∧
  cursor_pos_ (draw_char d p v) = cursor_pos_ d.
Proof.
  unfold draw_char. generalize (if v =? make_char d 0 then make_char d SPACE else v).
  intros w. by destruct (_ && _).
Qed.

#[global] Instance vga_device_laws : TextDisplayDeviceLaws t.
Proof.
  split; try done.
  - intros d p v c. cbn. by rewrite (proj1 (draw_char_keeps d p v)).
  - intros. by apply get_char_draw_char.
  - intros d p v. apply draw_char_keeps.
Qed.

(** ** Clearing *)
Lemma draw_cells_blank (ps : list (Z * Z)) d q :
  on_screen q →
  get_char (foldl (λ d p, draw_char d p (make_char d SPACE)) d ps) q
  = if decide (q ∈ ps) then make_char d SPACE else get_char d q.
Proof.
  intros Hq. revert d. induction ps as [|p ps IH]; intros d; cbn [foldl].
  { by rewrite decide_False by set_solver. }
  rewrite IH, (proj1 (draw_char_keeps _ _ _)), get_char_draw_char by (done || by left).
  destruct (decide (q ∈ ps)), (decide (q = p)), (decide (q ∈ p :: ps)); set_solver.
Qed.

Lemma clear_row_cells d y :
  clear_row d y
  = foldl (λ d p, draw_char d p (make_char d SPACE)) d
      ((λ x, (x, y)) <$> seqZ 0 CONSOLE_WIDTH).
Proof.
  unfold clear_row. generalize (seqZ 0 CONSOLE_WIDTH). intros xs. revert d.
  induction xs as [|x xs IH]; intros d; [done|]. apply IH.
Qed.

Lemma clear_cells d :
  foldl clear_row d (seqZ 0 CONSOLE_HEIGHT)
  = foldl (λ d p, draw_char d p (make_char d SPACE)) d
      (seqZ 0 CONSOLE_HEIGHT ≫= λ y, (λ x, (x, y)) <$> seqZ 0 CONSOLE_WIDTH).
Proof.
  generalize (seqZ 0 CONSOLE_HEIGHT). intros ys. revert d.
  induction ys as [|y ys IH]; intros d; [done|].
  cbn [foldl]. rewrite bind_cons, foldl_app, IH, <-clear_row_cells. done.
Qed.

Lemma on_screen_cells q :
  on_screen q →
  q ∈ (seqZ 0 CONSOLE_HEIGHT ≫= λ y, (λ x, (x, y)) <$> seqZ 0 CONSOLE_WIDTH).
Proof.
  destruct q as [x y]. intros [Hx Hy]. cbn [fst snd] in *.
  rewrite list_elem_of_bind. exists y. rewrite elem_of_seqZ, list_elem_of_fmap.
  split; [|lia]. exists x. rewrite elem_of_seqZ. split; [done|lia].
Qed.

Lemma get_char_clear d q : on_screen q → get_char (clear d) q = make_char d SPACE.
Proof.
  intros Hq. unfold clear.
  assert (∀ e, get_char (set_cursor_position e (0, 0)) q = get_char e q) as -> by done.
  rewrite clear_cells, draw_cells_blank by done.
  rewrite decide_True; [done|]. by apply on_screen_cells.
Qed.

(** The VGA driver keeps the promises of the display interface. A printable character
    drawn on the screen shows at that cell (nul as a space) and changes no other cell;
    drawing off the screen changes nothing; [clear] blanks every cell and homes the
    cursor; and placing the cursor on the screen sends its offset, low byte first, to
    the CRT controller. *)
Theorem vga_implements_display d p q c v :
  on_screen q →
  (isprint c = true ∨ c = 0 →
   get_char (draw_char d p (make_char d c)) q
   = if decide (q = p) then make_char d (glyph c) else get_char d q) ∧
  (¬ on_screen p → draw_char d p v = d) ∧
  get_char (clear d) q = make_char d SPACE ∧ get_cursor_position (clear d) = (0, 0) ∧
  get_cursor_position (set_cursor_position d q) = q ∧
  (∃ lo hi, ports (set_cursor_position d q)
            = ports d ++ [(CRTC_IDX_REG, 15); (CRTC_DATA_REG, lo);
                          (CRTC_IDX_REG, 14); (CRTC_DATA_REG, hi)] ∧
            fits 8 lo ∧ fits 8 hi ∧ lo + 256 * hi = q.2 * CONSOLE_WIDTH + q.1).
Proof.
  intros Hq. split_and!.
  - by apply get_char_draw_char.
  - by apply draw_char_hidden.
  - by apply get_char_clear.
  - unfold clear. generalize (foldl clear_row d (seqZ 0 CONSOLE_HEIGHT)). done.
  - done.
  - unfold set_cursor_position, outb. cbn [ports]. rewrite <-!app_assoc. cbn [app].
    destruct Hq as [Hx Hy]. unfold CONSOLE_WIDTH, CONSOLE_HEIGHT in *.
    set (o := q.2 * 80 + q.1). assert (0 <= o < 2 ^ 11) as Ho by (unfold o; lia).
    rewrite (uwrap_small 16) by (split; lia). change 0xFF with (Z.ones 8).
    do 2 eexists. split; [reflexivity|].
    rewrite !Z.land_ones, Z.shiftr_div_pow2 by lia.
    split_and!; [apply Z.mod_pos_bound; lia..|].
    rewrite (Z.mod_small (o / 2 ^ 8)); [|split; [apply Z.div_pos; lia|apply Z.div_lt_upper_bound; lia]].
    change 256 with (2 ^ 8). pose proof (Z.div_mod o (2 ^ 8)). lia.
Qed.

Lemma vga_implements_display_witness :
  get_char (draw_char (init (λ _, 0) []) (3, 1) (make_char (init (λ _, 0) []) 65)) (3, 1)
  = 0x741.
Proof.
  pose proof (vga_implements_display (init (λ _, 0) []) (3, 1) (3, 1) 65 0) as Hd.
  destruct Hd as [Hd _]; [unfold on_screen, CONSOLE_WIDTH, CONSOLE_HEIGHT; simpl; lia|].
  rewrite Hd by (left; reflexivity). reflexivity.
Defined.

End VGA.
