(* ===== verification/Terminal.v ===== *)
(** * Terminal: lines of text and the text terminal

    Models [TextLine] (src/Common/src/text_line.cpp, common/text_line.hpp) and
    [UnlockedTextTerminal] (src/Common/src/text_terminal.cpp,
    common/text_terminal.hpp; [TextTerminal] is the same class behind a lock) over the
    display interface of [TextDisplay] and the containers of [RingBuffer] and
    [Vector].  [spec_putchar] and its companions say on plain lists of characters what
    the terminal does; [Screen.step] and [in_sync] relate what is stored to what the
    display shows. *)
From S2P Require Import Prelude Storage RingBuffer Vector TextDisplay.
Import Storage.

#[global] Instance ring_eq_dec {T} `{EqDecision T} : EqDecision (RingBuffer.t T).
Proof. solve_decision. Defined.

Lemma WIDTH_pos : 0 < CONSOLE_WIDTH.
Proof. done. Qed.

Lemma HEIGHT_pos : 0 < CONSOLE_HEIGHT.
Proof. done. Qed.

(** ** TextLine *)
Module TextLine.

Definition t : Type := RingBuffer.t Z.

Definition init : RingBuffer.t Z := RingBuffer.init CONSOLE_WIDTH.
Definition size (line : t) : Z := RingBuffer.size line.
Definition at_ (line : t) (index : Z) : result Z := RingBuffer.at_ CONSOLE_WIDTH line index.

(** The move constructor and the two assignments hand [data_] to those of RingBuffer. *)
Definition move_construct (line : t) : result (t * t) :=
  RingBuffer.move_construct CONSOLE_WIDTH line.
Definition copy_assign (line other : t) : result t :=
  RingBuffer.copy_assign CONSOLE_WIDTH line other.
Definition move_assign (line other : t) : result (t * t) :=
  RingBuffer.move_assign CONSOLE_WIDTH line other.

Definition push_back (line : t) (ch : Z) : result (bool * t) :=
  assert! negb (ch =? NEWLINE);
  assert! negb (ch =? BACKSPACE);
  RingBuffer.push_back CONSOLE_WIDTH line ch.

Definition pop_back (line : t) : result t :=
  if negb (RingBuffer.empty line) then RingBuffer.pop_back CONSOLE_WIDTH line
  else mret line.

Definition insert (line : t) (index ch : Z) : result (bool * t) :=
  assert! negb (ch =? NEWLINE);
  assert! negb (ch =? BACKSPACE);
  RingBuffer.insert CONSOLE_WIDTH line index ch.

Definition remove (line : t) (index : Z) : result t :=
  if negb (RingBuffer.empty line) then RingBuffer.remove CONSOLE_WIDTH line index
  else mret line.

(** The loop of [str]. *)
Fixpoint str_loop (n : nat) (i : Z) (line : t) (chars : Vector.t Z) : result (Vector.t Z) :=
  match n with
  | O => mret chars
  | S n =>
      ch ← at_ line i;
      chars ← Vector.push_back chars ch;
      str_loop n (i + 1) line chars
  end.

Definition str (line : t) : result (Vector.t Z) :=
  chars ← str_loop (Z.to_nat (size line)) 0 line Vector.init;
  Vector.push_back chars 0.

Definition step_for_char (tab_width col ch : Z) : Z :=
  if ch =? TAB then tab_width - Z.rem col tab_width
  else if isprint ch then 1 else 0.

Section Drawing.
Context {D : Type} `{TextDisplayDevice D}.

(** [for (j = ..; j < ..; ++j) display.draw_char(Point2{j, row}, vgachar);] *)
Fixpoint draw_cells (n : nat) (d : D) (j row vgachar : Z) : D :=
  match n with
  | O => d
  | S n => draw_cells n (draw_char d (j, row) vgachar) (j + 1) row vgachar
  end.

Fixpoint draw_loop (n : nat) (i tab_width max_columns : Z) (line : t) (d : D) (col row : Z)
  : result (D * Z * Z) :=
  match n with
  | O => mret (d, col, row)
  | S n =>
      ch ← at_ line i;
      let step := step_for_char tab_width col ch in
      let vgachar := make_char d (if ch =? TAB then SPACE else ch) in
      let d := draw_cells (Z.to_nat (Z.min (col + step) max_columns - col)) d col row
                 vgachar in
      let col := col + step in
      if max_columns <=? col
      then draw_loop n (i + 1) tab_width max_columns line d 0 (row + 1)
      else draw_loop n (i + 1) tab_width max_columns line d col row
  end.

Definition draw (line : t) (d : D) (row : Z) : result (Z * D) :=
  let tab_width := get_tab_width d in
  let max_columns := (dimensions d).1 in
  '(d, col, row) ←
    draw_loop (Z.to_nat (size line)) 0 tab_width max_columns line d 0 row;
  let d := draw_cells (Z.to_nat (max_columns - col)) d col row (make_char d 0) in
  mret (row + 1, d).

Fixpoint column_loop (n : nat) (i : Z) (line : t) (d : D) (col : Z) : result Z :=
  match n with
  | O => mret col
  | S n =>
      ch ← at_ line i;
      column_loop n (i + 1) line d (col + step_for_char (get_tab_width d) col ch)
  end.

Definition get_physical_column_for_index (line : t) (d : D) (index : Z) : result Z :=
  column_loop (Z.to_nat index) 0 line d 0.

(** ** Drawing and measuring a list of characters *)
Fixpoint paint_chars (tab_width max_columns : Z) (cs : list Z) (d : D) (col row : Z)
  : D * Z * Z :=
  match cs with
  | [] => (d, col, row)
  | ch :: cs =>
      let step := step_for_char tab_width col ch in
      let d := draw_cells (Z.to_nat (Z.min (col + step) max_columns - col)) d col row
                 (make_char d (if ch =? TAB then SPACE else ch)) in
      if max_columns <=? col + step
      then paint_chars tab_width max_columns cs d 0 (row + 1)
      else paint_chars tab_width max_columns cs d (col + step) row
  end.

Definition paint (cs : list Z) (d : D) (row : Z) : D :=
  let max_columns := (dimensions d).1 in
  let '(d, col, row) := paint_chars (get_tab_width d) max_columns cs d 0 row in
  draw_cells (Z.to_nat (max_columns - col)) d col row (make_char d 0).

Definition columns (tab_width : Z) (cs : list Z) : Z :=
  foldl (λ col ch, col + step_for_char tab_width col ch) 0 cs.

Lemma draw_loop_ok n i tab_width max_columns line xs d col row :
  RingBuffer.rep CONSOLE_WIDTH line xs → 0 <= i → i + Z.of_nat n = Z.of_nat (length xs) →
  draw_loop n i tab_width max_columns line d col row
  = Ok (paint_chars tab_width max_columns (drop (Z.to_nat i) xs) d col row).
Proof.
  intros Hrep. revert i d col row. induction n as [|n IH]; intros i d col row Hi Hn.
  { rewrite drop_ge by lia. done. }
  destruct (nthZ_Some xs i) as [_ [ch Hch]]; [lia|].
  cbn [draw_loop]. unfold at_. rewrite (RingBuffer.at_ok _ WIDTH_pos _ _ _ _ Hrep Hch).
  rewrite (drop_nthZ xs i ch) by done. cbn [mbind result_bind paint_chars].
  by destruct (_ <=? _); rewrite IH by lia.
Qed.

Lemma column_loop_ok n i line xs d col :
  RingBuffer.rep CONSOLE_WIDTH line xs → 0 <= i → i + Z.of_nat n <= Z.of_nat (length xs) →
  column_loop n i line d col
  = Ok (foldl (λ col ch, col + step_for_char (get_tab_width d) col ch) col
          (take n (drop (Z.to_nat i) xs))).
Proof.
  intros Hrep. revert i col. induction n as [|n IH]; intros i col Hi Hn; [done|].
  destruct (nthZ_Some xs i) as [_ [ch Hch]]; [lia|].
  cbn [column_loop]. unfold at_. rewrite (RingBuffer.at_ok _ WIDTH_pos _ _ _ _ Hrep Hch).
  rewrite (drop_nthZ xs i ch) by done. cbn [mbind result_bind take foldl].
  by rewrite IH by lia.
Qed.

Lemma get_physical_column_ok line xs d index :
  RingBuffer.rep CONSOLE_WIDTH line xs → 0 <= index <= Z.of_nat (length xs) →
  get_physical_column_for_index line d index
  = Ok (columns (get_tab_width d) (take (Z.to_nat index) xs)).
Proof.
  intros Hrep Hi. unfold get_physical_column_for_index.
  by rewrite (column_loop_ok _ _ _ xs) by (done || lia).
Qed.

Lemma size_ok line xs :
  RingBuffer.rep CONSOLE_WIDTH line xs → size line = Z.of_nat (length xs).
Proof. by intros (_ & ? & _). Qed.

Lemma draw_ok line xs d row :
  RingBuffer.rep CONSOLE_WIDTH line xs → ∃ r, draw line d row = Ok (r, paint xs d row).
Proof.
  intros Hrep. unfold draw, paint. rewrite (size_ok _ xs Hrep).
  rewrite (draw_loop_ok _ _ _ _ _ xs) by (done || lia). rewrite drop_0.
  cbn [mbind result_bind]. destruct (paint_chars _ _ _ _ _ _) as [[d' col] row']. by eexists.
Qed.

(** ** What drawing printable characters shows *)
Section Painting.
Context `{!TextDisplayDeviceLaws D}.

Definition printable (l : list Z) : Prop := Forall (λ c, isprint c = true) l.

Lemma draw_cells_make_char n d j row v c :
  make_char (draw_cells n d j row v) c = make_char d c.
Proof.
  revert d j. induction n as [|n IH]; intros d j; [done|]. cbn. by rewrite IH, make_char_draw.
Qed.

Lemma draw_cells_cursor n d j row v :
  get_cursor_position (draw_cells n d j row v) = get_cursor_position d.
Proof.
  revert d j. induction n as [|n IH]; intros d j; [done|]. cbn. by rewrite IH, get_cursor_draw.
Qed.

Lemma draw_cells_get n d j row c q :
  on_screen q → isprint c = true ∨ c = 0 →
  get_char (draw_cells n d j row (make_char d c)) q
  = if decide (q.2 = row ∧ j <= q.1 < j + Z.of_nat n)
    then make_char d (glyph c) else get_char d q.
Proof.
  intros Hq Hc. revert d j. induction n as [|n IH]; intros d j; cbn [draw_cells].
  { rewrite decide_False by lia. done. }
  rewrite <-(make_char_draw d (j, row) (make_char d c) c) at 2. rewrite IH.
  rewrite !make_char_draw, get_char_draw by done. destruct q as [x y]. cbn [fst snd].
  destruct (decide ((x, y) = (j, row))) as [[= -> ->]|Hne].
  - rewrite decide_False by lia. by rewrite decide_True by lia.
  - assert (x ≠ j ∨ y ≠ row) by (destruct (decide (x = j)); [right; congruence|by left]).
    destruct (decide (y = row ∧ j + 1 <= x < j + 1 + Z.of_nat n)),
      (decide (y = row ∧ j <= x < j + Z.of_nat (S n))); try done; exfalso; lia.
Qed.

Lemma printable_not_tab c : isprint c = true → c ≠ TAB.
Proof. unfold isprint, TAB. rewrite andb_true_iff, !Z.leb_le. lia. Qed.

Lemma step_printable w col c : isprint c = true → step_for_char w col c = 1.
Proof.
  intros Hc. pose proof (printable_not_tab c Hc). unfold step_for_char. decide_Z. by rewrite Hc.
Qed.

Lemma glyph_printable c : isprint c = true → glyph c = c.
Proof. unfold isprint, glyph. rewrite andb_true_iff, !Z.leb_le. intros. by decide_Z. Qed.

Lemma paint_chars_ok w cs d col row :
  printable cs → 0 <= col < CONSOLE_WIDTH →
  col + Z.of_nat (length cs) <= CONSOLE_WIDTH →
  ∃ d' col' row',
    paint_chars w CONSOLE_WIDTH cs d col row = (d', col', row') ∧
    (col', row') = (if col + Z.of_nat (length cs) =? CONSOLE_WIDTH then (0, row + 1)
                    else (col + Z.of_nat (length cs), row)) ∧
    (∀ c, make_char d' c = make_char d c) ∧
    get_cursor_position d' = get_cursor_position d ∧
    ∀ q, on_screen q →
      get_char d' q
      = if decide (q.2 = row ∧ col <= q.1 < col + Z.of_nat (length cs))
        then make_char d (default SPACE (cs !! Z.to_nat (q.1 - col))) else get_char d q.
Proof.
  intros Hp. revert d col row. induction Hp as [|c cs Hc Hcs IH]; intros d col row Hcol Hle.
  { cbn [length] in *. exists d, col, row. split_and!; [done| |done|done|].
    - destruct (Z.eqb_spec (col + Z.of_nat 0) CONSOLE_WIDTH); [lia|]. f_equal. lia.
    - intros q Hq. by rewrite decide_False by lia. }
  cbn [paint_chars length] in *. pose proof (printable_not_tab c Hc).
  rewrite step_printable by done. decide_Z.
  replace (Z.to_nat (Z.min (col + 1) CONSOLE_WIDTH - col)) with 1%nat by lia.
  set (d1 := draw_cells 1 d col row (make_char d c)).
  assert (∀ q, on_screen q → get_char d1 q
    = if decide (q.2 = row ∧ col <= q.1 < col + 1) then make_char d c else get_char d q) as Hd1.
  { intros q Hq. unfold d1. rewrite draw_cells_get by auto. by rewrite glyph_printable. }
  destruct (Z.leb_spec CONSOLE_WIDTH (col + 1)) as [Hend|Hmid].
  - assert (cs = []) as -> by (destruct cs; [done|cbn in *; lia]). cbn [paint_chars length] in *.
    exists d1, 0, (row + 1). split_and!; [done| | | |].
    + rewrite (proj2 (Z.eqb_eq _ _)) by lia. done.
    + apply draw_cells_make_char.
    + apply draw_cells_cursor.
    + intros q Hq. rewrite Hd1 by done.
      destruct (decide (q.2 = row ∧ col <= q.1 < col + 1)); [|by rewrite decide_False by lia].
      rewrite decide_True by lia. by replace (Z.to_nat (q.1 - col)) with 0%nat by lia.
  - destruct (IH d1 (col + 1) row) as (d' & col' & row' & -> & Ecr & Hmk & Hcu & Hget); [lia..|].
    exists d', col', row'. split_and!; [done| | | |].
    + by replace (col + Z.of_nat (S (length cs))) with (col + 1 + Z.of_nat (length cs)) by lia.
    + intros k. rewrite Hmk. apply draw_cells_make_char.
    + rewrite Hcu. apply draw_cells_cursor.
    + intros q Hq. rewrite Hget, Hd1 by done. unfold d1 at 1. rewrite draw_cells_make_char.
      destruct (decide (q.2 = row ∧ col + 1 <= q.1 < col + 1 + Z.of_nat (length cs))).
      * rewrite decide_True by lia.
        by replace (Z.to_nat (q.1 - col)) with (S (Z.to_nat (q.1 - (col + 1)))) by lia.
      * destruct (decide (q.2 = row ∧ col <= q.1 < col + 1)).
        -- rewrite decide_True by lia. by replace (Z.to_nat (q.1 - col)) with 0%nat by lia.
        -- by rewrite decide_False by lia.
Qed.

(** A line of printable characters fills its row, blank from its end on; when it is as
    wide as the display the row below is blanked too. *)
Lemma paint_printable l d row :
  printable l → Z.of_nat (length l) <= CONSOLE_WIDTH →
  (∀ c, make_char (paint l d row) c = make_char d c) ∧
  get_cursor_position (paint l d row) = get_cursor_position d ∧
  ∀ q, on_screen q →
    get_char (paint l d row) q
    = if q.2 =? row then make_char d (default SPACE (l !! Z.to_nat q.1))
      else if (q.2 =? row + 1) && (Z.of_nat (length l) =? CONSOLE_WIDTH)
      then make_char d SPACE else get_char d q.
Proof.
  intros Hp Hl. unfold paint. rewrite display_dimensions. cbn [fst].
  destruct (paint_chars_ok (get_tab_width d) l d 0 row Hp) as
    (d1 & col & row1 & -> & Ecr & Hmk & Hcu & Hget); [pose proof WIDTH_pos; lia|lia|].
  split_and!.
  - intros c. by rewrite draw_cells_make_char.
  - by rewrite draw_cells_cursor.
  - intros q Hq. rewrite draw_cells_get by auto. rewrite Hmk, Hget by done.
    rewrite Z.sub_0_r. pose proof Hq as [Hx Hy]. change (glyph 0) with SPACE.
    rewrite Z.add_0_l in *.
    destruct (Z.eqb_spec (Z.of_nat (length l)) CONSOLE_WIDTH) as [Ew|Ew];
      injection Ecr as -> ->; destruct (Z.eqb_spec q.2 row) as [->|Hr].
    + rewrite decide_False by lia. rewrite decide_True by lia. done.
    + rewrite andb_true_r. rewrite (decide_False (P := q.2 = row ∧ _)) by lia.
      destruct (Z.eqb_spec q.2 (row + 1)).
      * by rewrite decide_True by lia.
      * by rewrite decide_False by lia.
    + destruct (decide (q.1 < Z.of_nat (length l))).
      * rewrite decide_False by lia. by rewrite decide_True by lia.
      * rewrite decide_True by lia. rewrite (lookup_ge_None_2 l) by lia. done.
    + rewrite andb_false_r. rewrite decide_False by lia. by rewrite decide_False by lia.
Qed.

Lemma columns_printable w l : printable l → columns w l = Z.of_nat (length l).
Proof.
  intros Hp. unfold columns. enough (∀ col, foldl (λ col ch, col + step_for_char w col ch) col l
    = col + Z.of_nat (length l)) as H0 by apply H0.
  induction Hp as [|c cs Hc Hcs IH]; intros col; cbn [foldl length]; [lia|].
  rewrite IH, step_printable by done. lia.
Qed.

End Painting.
End Drawing.
End TextLine.

(** ** UnlockedTextTerminal *)
Module TextTerminal.

Record t (D : Type) := mk {
  display_ : D;
  cursor_ : Z * Z;
  lines_ : RingBuffer.t (RingBuffer.t Z);
}.
Arguments mk {D} _ _ _.
Arguments display_ {D} _.
Arguments cursor_ {D} _.
Arguments lines_ {D} _.

Section Methods.
Context {D : Type} `{TextDisplayDevice D}.
Implicit Types (s : t D).

Definition width s : Z := (dimensions (display_ s)).1.
Definition height s : Z := (dimensions (display_ s)).2.

Definition line_at s (y : Z) : result (RingBuffer.t Z) :=
  RingBuffer.at_ CONSOLE_HEIGHT (lines_ s) y.

(** [lines_.at(y)] is a reference: changing the line changes the buffer's element. *)
Definition set_line s (y : Z) (line : RingBuffer.t Z) : result (t D) :=
  lines ← RingBuffer.at_assign CONSOLE_HEIGHT (lines_ s) y line;
  mret (mk (display_ s) (cursor_ s) lines).

Definition with_cursor s (c : Z * Z) : t D := mk (display_ s) c (lines_ s).

Fixpoint init_loop (n : nat) (lines : RingBuffer.t (RingBuffer.t Z))
  : result (RingBuffer.t (RingBuffer.t Z)) :=
  match n with
  | O => mret lines
  | S n =>
      '(_, lines) ← RingBuffer.push_back CONSOLE_HEIGHT lines TextLine.init;
      init_loop n lines
  end.

Definition init (d : D) : result (t D) :=
  lines ← init_loop (Z.to_nat (dimensions d).2) (RingBuffer.init CONSOLE_HEIGHT);
  mret (mk d (0, 0) lines).

Definition redraw_line (y : Z) s : result (t D) :=
  assert! 0 <=? y;
  line ← line_at s y;
  '(_, d) ← TextLine.draw line (display_ s) y;
  mret (mk d (cursor_ s) (lines_ s)).

Definition redraw_current_line s : result (t D) := redraw_line (cursor_ s).2 s.

Definition move_cursor_for_newline s : t D := with_cursor s (0, (cursor_ s).2 + 1).

Definition set_display_cursor_position s : result (t D) :=
  line ← line_at s (cursor_ s).2;
  x ← TextLine.get_physical_column_for_index line (display_ s) (cursor_ s).1;
  mret (mk (set_cursor_position (display_ s) (x, (cursor_ s).2)) (cursor_ s) (lines_ s)).

Definition advance_cursor_forward s : result (t D) :=
  let s := with_cursor s ((cursor_ s).1 + 1, (cursor_ s).2) in
  let s := if width s <=? (cursor_ s).1 then move_cursor_for_newline s else s in
  set_display_cursor_position s.

Definition advance_cursor_backward s : t D :=
  if 0 <? (cursor_ s).1 then with_cursor s ((cursor_ s).1 - 1, (cursor_ s).2) else s.

Definition backspace s : result (t D) :=
  let s := advance_cursor_backward s in
  line ← line_at s (cursor_ s).2;
  line ← TextLine.remove line (cursor_ s).1;
  s ← set_line s (cursor_ s).2 line;
  redraw_current_line s.

Fixpoint redraw_loop (n : nat) (i : Z) s : result (t D) :=
  match n with
  | O => mret s
  | S n => s ← redraw_line i s; redraw_loop n (i + 1) s
  end.

Definition scroll_one_line s : result (t D) :=
  lines ← RingBuffer.pop_front CONSOLE_HEIGHT (lines_ s);
  '(_, lines) ← RingBuffer.push_back CONSOLE_HEIGHT lines TextLine.init;
  redraw_loop (Z.to_nat (height s)) 0 (mk (display_ s) (cursor_ s) lines).

Definition insert_char s (ch : Z) : result (t D) :=
  line ← line_at s (cursor_ s).2;
  '(_, line) ← TextLine.insert line (cursor_ s).1 ch;
  s ← set_line s (cursor_ s).2 line;
  redraw_current_line s.

Definition put_normal_character s (ch : Z) : result (t D) :=
  s ← (if height s <=? (cursor_ s).2
       then scroll_one_line (with_cursor s ((cursor_ s).1, height s - 1))
       else mret s);
  s ← insert_char s ch;
  advance_cursor_forward s.

Definition putchar s (ch : Z) : result (t D) :=
  s ← (if ch =? 0 then mret s
       else if ch =? NEWLINE then mret (move_cursor_for_newline s)
       else if ch =? BACKSPACE then backspace s
       else put_normal_character s ch);
  set_display_cursor_position s.

(** [puts] on the characters of a C string: it stops at the first nul. *)
Fixpoint puts s (str : list Z) : result (t D) :=
  match str with
  | [] => mret s
  | ch :: str => if ch =? 0 then mret s else s ← putchar s ch; puts s str
  end.

(** [putv] on a ring buffer: [for (i = 0, n = buf.size(); i < n; ++i) putchar(buf[i]);] *)
Fixpoint putv_loop (CAPACITY : Z) (n : nat) (i : Z) s (buf : RingBuffer.t Z) : result (t D) :=
  match n with
  | O => mret s
  | S n =>
      ch ← RingBuffer.at_ CAPACITY buf i;
      s ← putchar s ch;
      putv_loop CAPACITY n (i + 1) s buf
  end.

Definition putv (CAPACITY : Z) s (buf : RingBuffer.t Z) : result (t D) :=
  putv_loop CAPACITY (Z.to_nat (RingBuffer.size buf)) 0 s buf.

Definition get_line_width s : result Z :=
  line ← line_at s (cursor_ s).2; mret (TextLine.size line).

Definition move_cursor_left s : result (t D) :=
  set_display_cursor_position (advance_cursor_backward s).

Definition move_cursor_right s : result (t D) :=
  let s := with_cursor s ((cursor_ s).1 + 1, (cursor_ s).2) in
  line_width ← get_line_width s;
  let s := if line_width <? (cursor_ s).1
           then with_cursor s (line_width, (cursor_ s).2) else s in
  set_display_cursor_position s.

Definition move_cursor_to_end s : result (t D) :=
  line_width ← get_line_width s;
  set_display_cursor_position (with_cursor s (line_width, (cursor_ s).2)).

(** ** Specification on lists of characters *)
Record text := mkt { text_lines : list (list Z); text_x : Z; text_y : Z }.

Inductive op := Putchar (ch : Z) | Left | Right | End_ | Puts (str : list Z).

(** [lines_.at(y)]: one row below the last is the first line again. *)
Definition row_of (y : Z) : result Z :=
  if (0 <=? y) && (y <? CONSOLE_HEIGHT) then mret y
  else if y =? CONSOLE_HEIGHT then mret 0
  else Fault AssertionFailed.

Definition nth_line (ls : list (list Z)) (row : Z) : list Z :=
  default [] (ls !! Z.to_nat row).

Definition set_row (ls : list (list Z)) (row : Z) (l : list Z) : list (list Z) :=
  <[Z.to_nat row := l]> ls.

Definition spec_show (a : text) : result text := _ ← row_of (text_y a); mret a.

Definition spec_backspace (a : text) : result text :=
  row ← row_of (text_y a);
  let x := Z.max 0 (text_x a - 1) in
  let l := nth_line (text_lines a) row in
  mret (mkt (set_row (text_lines a) row (delete (Z.to_nat x) l)) x (text_y a)).

Definition spec_normal (a : text) (ch : Z) : result text :=
  let a := if CONSOLE_HEIGHT <=? text_y a
           then mkt (drop 1 (text_lines a) ++ [[]]) (text_x a) (CONSOLE_HEIGHT - 1)
           else a in
  let l := nth_line (text_lines a) (text_y a) in
  assert! text_x a <=? Z.of_nat (length l);
  let l := if Z.of_nat (length l) <? CONSOLE_WIDTH
           then RingBuffer.list_insert (text_x a) ch l else l in
  let ls := set_row (text_lines a) (text_y a) l in
  mret (if text_x a + 1 <? CONSOLE_WIDTH then mkt ls (text_x a + 1) (text_y a)
        else mkt ls 0 (text_y a + 1)).

Definition spec_putchar (a : text) (ch : Z) : result text :=
  a ← (if ch =? 0 then mret a
       else if ch =? NEWLINE then mret (mkt (text_lines a) 0 (text_y a + 1))
       else if ch =? BACKSPACE then spec_backspace a
       else spec_normal a ch);
  spec_show a.

Fixpoint spec_puts (a : text) (str : list Z) : result text :=
  match str with
  | [] => mret a
  | ch :: str => if ch =? 0 then mret a else a ← spec_putchar a ch; spec_puts a str
  end.

Definition line_length (a : text) : result Z :=
  row ← row_of (text_y a); mret (Z.of_nat (length (nth_line (text_lines a) row))).

Definition spec_op (o : op) (a : text) : result (unit * text) :=
  pair () <$>
  match o with
  | Putchar ch => spec_putchar a ch
  | Puts str => spec_puts a str
  | Left => spec_show (mkt (text_lines a) (Z.max 0 (text_x a - 1)) (text_y a))
  | Right => n ← line_length a;
             spec_show (mkt (text_lines a) (Z.min (text_x a + 1) n) (text_y a))
  | End_ => n ← line_length a; spec_show (mkt (text_lines a) n (text_y a))
  end.

Definition run_op (o : op) s : result (unit * t D) :=
  pair () <$>
  match o with
  | Putchar ch => putchar s ch
  | Puts str => puts s str
  | Left => move_cursor_left s
  | Right => move_cursor_right s
  | End_ => move_cursor_to_end s
  end.

Definition blank : text := mkt (replicate (Z.to_nat CONSOLE_HEIGHT) []) 0 0.

(** [view s ls c d]: the terminal holds the lines [ls], one per row of the display, with
    the cursor at [c], and its display is in the state [d]. *)
Definition view s (ls : list (list Z)) (c : Z * Z) (d : D) : Prop :=
  (∃ lines, RingBuffer.rep CONSOLE_HEIGHT (lines_ s) lines ∧
            Forall2 (RingBuffer.rep CONSOLE_WIDTH) lines ls) ∧
  length ls = Z.to_nat CONSOLE_HEIGHT ∧ cursor_ s = c ∧ display_ s = d.

(** In the states between two operations the cursor is never past the end of the line it
    is on (or, one row below the last, of the line the code takes for it). *)
Definition cursor_ok (a : text) : Prop :=
  ∃ row, row_of (text_y a) = Ok row ∧
         0 <= text_x a <= Z.of_nat (length (nth_line (text_lines a) row)).

Definition rep s (a : text) : Prop :=
  view s (text_lines a) (text_x a, text_y a) (display_ s) ∧ cursor_ok a.

(** ** The lines *)
Lemma row_of_ok y row :
  row_of y = Ok row →
  0 <= row < CONSOLE_HEIGHT ∧ 0 <= y <= CONSOLE_HEIGHT ∧
  (y = row ∨ y = CONSOLE_HEIGHT ∧ row = 0).
Proof.
  unfold row_of. destruct (Z.leb_spec 0 y), (Z.ltb_spec y CONSOLE_HEIGHT); cbn;
    try (destruct (Z.eqb_spec y CONSOLE_HEIGHT); cbn);
    intros [= <-]; unfold CONSOLE_HEIGHT in *; lia.
Qed.

Lemma row_of_lt y : 0 <= y < CONSOLE_HEIGHT → row_of y = Ok y.
Proof. intros. unfold row_of. by decide_Z. Qed.

Lemma row_of_fault y f : row_of y = Fault f → f = AssertionFailed ∧ ¬ 0 <= y <= CONSOLE_HEIGHT.
Proof.
  unfold row_of. destruct (Z.leb_spec 0 y), (Z.ltb_spec y CONSOLE_HEIGHT); cbn;
    try (destruct (Z.eqb_spec y CONSOLE_HEIGHT); cbn); intros [= <-]; (split; [done|lia]).
Qed.

(** The element a row number names in the ring of lines, for any reader of it. *)
Lemma index_at_row (lines : RingBuffer.t (RingBuffer.t Z)) Ls y row :
  RingBuffer.rep CONSOLE_HEIGHT lines Ls → length Ls = Z.to_nat CONSOLE_HEIGHT →
  row_of y = Ok row →
  RingBuffer.index_at CONSOLE_HEIGHT lines y = RingBuffer.index_at CONSOLE_HEIGHT lines row.
Proof.
  intros Hrep Hlen Hrow. destruct (row_of_ok _ _ Hrow) as (_ & _ & [-> | [-> ->]]); [done|].
  eapply RingBuffer.index_at_wraps; [done|done|]. rewrite Hlen. done.
Qed.

Lemma nth_line_lookup ls row l : ls !! Z.to_nat row = Some l → nth_line ls row = l.
Proof. unfold nth_line. by intros ->. Qed.

Lemma nth_set_row ls row row' l :
  length ls = Z.to_nat CONSOLE_HEIGHT → 0 <= row < CONSOLE_HEIGHT → 0 <= row' →
  nth_line (set_row ls row l) row' = if row' =? row then l else nth_line ls row'.
Proof.
  intros Hlen Hr Hr'. unfold nth_line, set_row. destruct (Z.eqb_spec row' row) as [->|].
  - by rewrite list_lookup_insert_eq by lia.
  - by rewrite list_lookup_insert_ne by lia.
Qed.

Lemma line_at_view s ls c d y row :
  view s ls c d → row_of y = Ok row →
  ∃ line, line_at s y = Ok line ∧ RingBuffer.rep CONSOLE_WIDTH line (nth_line ls row).
Proof.
  intros ((Ls & Hrep & Hall) & Hlen & _) Hrow.
  pose proof (row_of_ok _ _ Hrow) as (Hr & _). pose proof (Forall2_length _ _ _ Hall) as HL.
  destruct (lookup_lt_is_Some_2 ls (Z.to_nat row)) as [l Hl]; [lia|].
  destruct (Forall2_lookup_r _ _ _ _ _ Hall Hl) as (line & HLs & Hline).
  exists line. rewrite (nth_line_lookup _ _ _ Hl). split; [|done].
  unfold line_at, RingBuffer.at_. rewrite (index_at_row _ Ls y row) by (done || lia).
  apply (RingBuffer.at_ok _ HEIGHT_pos _ _ _ _ Hrep). unfold nthZ. by decide_Z.
Qed.

Lemma line_at_out s ls c d y f : view s ls c d → row_of y = Fault f → line_at s y = Fault f.
Proof.
  intros ((Ls & Hrep & Hall) & Hlen & _) Hrow.
  destruct (row_of_fault _ _ Hrow) as [-> Hy]. pose proof (Forall2_length _ _ _ Hall) as HL.
  eapply RingBuffer.at_out; [exact Hrep|]. rewrite HL, Hlen. unfold CONSOLE_HEIGHT in *. lia.
Qed.

Lemma set_line_view s ls c d y row line l :
  view s ls c d → row_of y = Ok row → RingBuffer.rep CONSOLE_WIDTH line l →
  ∃ s', set_line s y line = Ok s' ∧ view s' (set_row ls row l) c d.
Proof.
  intros ((Ls & Hrep & Hall) & Hlen & Hc & Hd) Hrow Hline.
  pose proof (row_of_ok _ _ Hrow) as (Hr & _). pose proof (Forall2_length _ _ _ Hall) as HL.
  destruct (RingBuffer.at_assign_ok _ HEIGHT_pos _ _ row line Hrep) as (lines & E & Hrep');
    [lia|].
  unfold set_line, RingBuffer.at_assign in *.
  rewrite (index_at_row _ Ls y row) by (done || lia). rewrite E. cbn.
  eexists. split; [done|]. split_and!; [|by unfold set_row; rewrite length_insert|done|done].
  exists (<[Z.to_nat row:=line]> Ls). split; [done|]. by apply Forall2_insert.
Qed.

Lemma redraw_line_view s ls c d y row :
  view s ls c d → row_of y = Ok row →
  ∃ s', redraw_line y s = Ok s' ∧ view s' ls c (TextLine.paint (nth_line ls row) d y).
Proof.
  intros Hv Hrow. destruct (line_at_view _ _ _ _ _ _ Hv Hrow) as (line & E & Hline).
  pose proof (row_of_ok _ _ Hrow) as (_ & Hy & _). unfold redraw_line. decide_Z. rewrite E.
  destruct Hv as (HLs & Hlen & Hc & <-). cbn [mbind result_bind].
  destruct (TextLine.draw_ok line _ (display_ s) y Hline) as (r & ->). cbn.
  eexists. split; [done|]. by split_and!.
Qed.

Lemma with_cursor_view s ls c d c' : view s ls c d → view (with_cursor s c') ls c' d.
Proof. intros (? & ? & _ & ?). by split_and!. Qed.

(** ** Moving the cursor and editing a line *)
Lemma show_view s ls x y d row :
  view s ls (x, y) d → row_of y = Ok row →
  0 <= x <= Z.of_nat (length (nth_line ls row)) →
  ∃ s', set_display_cursor_position s = Ok s' ∧
    view s' ls (x, y)
      (set_cursor_position d
         (TextLine.columns (get_tab_width d) (take (Z.to_nat x) (nth_line ls row)), y)).
Proof.
  intros Hv Hrow Hx. destruct (line_at_view _ _ _ _ _ _ Hv Hrow) as (line & E & Hline).
  destruct Hv as (HLs & Hlen & Hc & Hd). unfold set_display_cursor_position.
  rewrite Hc, Hd. cbn [fst snd]. rewrite E. cbn [mbind result_bind].
  rewrite (TextLine.get_physical_column_ok _ _ _ _ Hline Hx). cbn.
  eexists. split; [done|]. by split_and!.
Qed.

Lemma show_out s ls x y d f :
  view s ls (x, y) d → row_of y = Fault f → set_display_cursor_position s = Fault f.
Proof.
  intros Hv Hrow. pose proof Hv as (_ & _ & Hc & _). unfold set_display_cursor_position.
  rewrite Hc. cbn [snd]. by rewrite (line_at_out _ _ _ _ _ _ Hv Hrow).
Qed.

Lemma advance_backward_view s ls x y d :
  view s ls (x, y) d → 0 <= x →
  view (advance_cursor_backward s) ls (Z.max 0 (x - 1), y) d.
Proof.
  intros Hv Hx. pose proof Hv as (_ & _ & Hc & _). unfold advance_cursor_backward.
  rewrite Hc. cbn [fst snd]. destruct (Z.ltb_spec 0 x).
  - replace (Z.max 0 (x - 1)) with (x - 1) by lia. by eapply with_cursor_view.
  - by replace (Z.max 0 (x - 1)) with x by lia.
Qed.

Lemma remove_view line l x :
  RingBuffer.rep CONSOLE_WIDTH line l → 0 <= x <= Z.of_nat (length l) →
  ∃ line', TextLine.remove line (Z.max 0 (x - 1)) = Ok line' ∧
           RingBuffer.rep CONSOLE_WIDTH line' (delete (Z.to_nat (Z.max 0 (x - 1))) l).
Proof.
  intros Hline Hx. pose proof Hline as (_ & Hc & _).
  unfold TextLine.remove, RingBuffer.empty. rewrite Hc.
  destruct l as [|ch l]; [by exists line|]. cbn [length] in *. decide_Z.
  apply (RingBuffer.remove_ok _ WIDTH_pos); [done|]. cbn [length]. lia.
Qed.

Lemma backspace_view s ls x y d row :
  view s ls (x, y) d → row_of y = Ok row →
  0 <= x <= Z.of_nat (length (nth_line ls row)) →
  let x' := Z.max 0 (x - 1) in
  let l := delete (Z.to_nat x') (nth_line ls row) in
  ∃ s', backspace s = Ok s' ∧ view s' (set_row ls row l) (x', y) (TextLine.paint l d y).
Proof.
  intros Hv Hrow Hx x' l. unfold backspace.
  assert (view (advance_cursor_backward s) ls (x', y) d) as Hv1
    by (apply advance_backward_view; [done|lia]).
  destruct (line_at_view _ _ _ _ _ _ Hv1 Hrow) as (line & E & Hline).
  pose proof Hv1 as (_ & Hlen & Hc & _). rewrite Hc. cbn [fst snd]. rewrite E.
  destruct (remove_view _ _ _ Hline Hx) as (line' & E' & Hline').
  cbn [mbind result_bind]. unfold x'. rewrite E'. cbn [mbind result_bind].
  destruct (set_line_view _ _ _ _ _ _ _ _ Hv1 Hrow Hline') as (s1 & -> & Hv2).
  pose proof Hv2 as (_ & _ & Hc2 & _). cbn [mbind result_bind].
  unfold redraw_current_line. rewrite Hc2. cbn [snd].
  destruct (redraw_line_view _ _ _ _ _ _ Hv2 Hrow) as (s2 & -> & Hv3).
  exists s2. split; [done|].
  pose proof (row_of_ok _ _ Hrow) as (Hr & _).
  rewrite nth_set_row, Z.eqb_refl in Hv3 by (done || lia). done.
Qed.

(** ** Scrolling *)
Fixpoint repaint (n : nat) (i : Z) (ls : list (list Z)) (d : D) : D :=
  match n with
  | O => d
  | S n => repaint n (i + 1) ls (TextLine.paint (nth_line ls i) d i)
  end.

Definition scrolled (ls : list (list Z)) : list (list Z) := drop 1 ls ++ [[]].

Lemma redraw_loop_view n i s ls c d :
  view s ls c d → 0 <= i → i + Z.of_nat n <= CONSOLE_HEIGHT →
  ∃ s', redraw_loop n i s = Ok s' ∧ view s' ls c (repaint n i ls d).
Proof.
  revert i s d. induction n as [|n IH]; intros i s d Hv Hi Hn; [by exists s|].
  cbn [redraw_loop].
  destruct (redraw_line_view s ls c d i i Hv) as (s1 & -> & Hv1); [apply row_of_lt; lia|].
  cbn [mbind result_bind repaint]. apply IH; [done|lia|lia].
Qed.

Lemma scroll_view s ls c d :
  dimensions d = (CONSOLE_WIDTH, CONSOLE_HEIGHT) → view s ls c d →
  ∃ s', scroll_one_line s = Ok s' ∧
        view s' (scrolled ls) c (repaint (Z.to_nat CONSOLE_HEIGHT) 0 (scrolled ls) d).
Proof.
  intros Hdim ((Ls & Hrep & Hall) & Hlen & Hc & Hd). unfold scroll_one_line.
  pose proof (Forall2_length _ _ _ Hall) as HL.
  destruct Hall as [|L0 l0 Ls ls Hl0 Hall]; [done|].
  destruct (RingBuffer.pop_front_ok _ HEIGHT_pos _ _ _ Hrep) as (r1 & -> & Hr1).
  cbn [mbind result_bind].
  destruct (RingBuffer.push_back_ok _ HEIGHT_pos _ _ TextLine.init Hr1) as (r2 & -> & Hr2).
  cbn [mbind result_bind]. unfold height. rewrite Hd, Hdim. cbn [snd].
  cbn [length] in *. assert (Z.of_nat (length Ls) < CONSOLE_HEIGHT) as Hlt by lia.
  rewrite (proj2 (Z.ltb_lt _ _) Hlt) in Hr2. apply redraw_loop_view; [|lia|lia].
  split_and!; [|unfold scrolled; cbn; rewrite length_app, drop_0; cbn; lia|done|done].
  eexists. split; [exact Hr2|]. unfold scrolled. cbn [drop].
  apply Forall2_app; [by rewrite drop_0|]. constructor; [|constructor].
  apply RingBuffer.rep_init, WIDTH_pos.
Qed.

(** ** Typing *)
Definition typed (l : list Z) (x ch : Z) : list Z :=
  if Z.of_nat (length l) <? CONSOLE_WIDTH then RingBuffer.list_insert x ch l else l.

Lemma insert_char_view s ls x y d ch :
  view s ls (x, y) d → 0 <= y < CONSOLE_HEIGHT →
  0 <= x → ch ≠ NEWLINE → ch ≠ BACKSPACE →
  let l := nth_line ls y in
  if x <=? Z.of_nat (length l) then
    ∃ s', insert_char s ch = Ok s' ∧
      view s' (set_row ls y (typed l x ch)) (x, y) (TextLine.paint (typed l x ch) d y)
  else insert_char s ch = Fault AssertionFailed.
Proof.
  intros Hv Hy Hx Hn Hb l. pose proof (row_of_lt y Hy) as Hrow.
  destruct (line_at_view _ _ _ _ _ _ Hv Hrow) as (line & E & Hline).
  pose proof Hv as (_ & Hlen & Hc & _). unfold insert_char. rewrite Hc. cbn [fst snd].
  rewrite E. cbn [mbind result_bind]. unfold TextLine.insert. decide_Z.
  destruct (Z.leb_spec x (Z.of_nat (length l))) as [Hle|Hgt].
  - destruct (RingBuffer.insert_ok _ WIDTH_pos _ _ x ch Hline) as (line' & -> & Hline');
      [fold l; lia|].
    cbn [mbind result_bind].
    destruct (set_line_view _ _ _ _ _ _ _ _ Hv Hrow Hline') as (s1 & -> & Hv1).
    pose proof Hv1 as (_ & _ & Hc1 & _). cbn [mbind result_bind].
    unfold redraw_current_line. rewrite Hc1. cbn [snd].
    destruct (redraw_line_view _ _ _ _ _ _ Hv1 Hrow) as (s2 & -> & Hv2).
    exists s2. split; [done|]. rewrite nth_set_row, Z.eqb_refl in Hv2 by (done || lia).
    done.
  - pose proof Hline as (_ & Hcount & _). unfold RingBuffer.insert, RingBuffer.size.
    rewrite Hcount. fold l. decide_Z. done.
Qed.

(** What each operation does to the display, given the text it works on. *)
Definition show (a : text) (d : D) : D :=
  let row := if text_y a =? CONSOLE_HEIGHT then 0 else text_y a in
  set_cursor_position d
    (TextLine.columns (get_tab_width d)
       (take (Z.to_nat (text_x a)) (nth_line (text_lines a) row)), text_y a).

Definition make_room (a : text) : text :=
  if CONSOLE_HEIGHT <=? text_y a
  then mkt (scrolled (text_lines a)) (text_x a) (CONSOLE_HEIGHT - 1) else a.

Definition make_room_display (a : text) (d : D) : D :=
  if CONSOLE_HEIGHT <=? text_y a
  then repaint (Z.to_nat CONSOLE_HEIGHT) 0 (scrolled (text_lines a)) d else d.

Definition type_char (a : text) (ch : Z) : text :=
  let ls := set_row (text_lines a) (text_y a)
              (typed (nth_line (text_lines a) (text_y a)) (text_x a) ch) in
  if text_x a + 1 <? CONSOLE_WIDTH then mkt ls (text_x a + 1) (text_y a)
  else mkt ls 0 (text_y a + 1).

Definition type_char_display (a : text) (ch : Z) (d : D) : D :=
  show (type_char a ch)
    (TextLine.paint (typed (nth_line (text_lines a) (text_y a)) (text_x a) ch) d (text_y a)).

Lemma spec_normal_eq a ch :
  spec_normal a ch
  = (let a := make_room a in
     assert! text_x a <=? Z.of_nat (length (nth_line (text_lines a) (text_y a)));
     mret (type_char a ch)).
Proof. done. Qed.

Lemma show_ok s a d :
  view s (text_lines a) (text_x a, text_y a) d → cursor_ok a →
  ∃ s', set_display_cursor_position s = Ok s' ∧
        view s' (text_lines a) (text_x a, text_y a) (show a d).
Proof.
  intros Hv (row & Hrow & Hx). destruct (show_view _ _ _ _ _ _ Hv Hrow Hx) as (s' & -> & Hv').
  exists s'. split; [done|]. unfold show. destruct (row_of_ok _ _ Hrow) as (? & _ & Hy).
  replace (if text_y a =? CONSOLE_HEIGHT then 0 else text_y a) with row; [done|].
  destruct (Z.eqb_spec (text_y a) CONSOLE_HEIGHT); lia.
Qed.

Lemma typed_length l x ch :
  0 <= x <= Z.of_nat (length l) → Z.of_nat (length l) <= CONSOLE_WIDTH →
  Z.of_nat (length l) <= Z.of_nat (length (typed l x ch)) <= CONSOLE_WIDTH ∧
  (Z.of_nat (length l) < CONSOLE_WIDTH →
   Z.of_nat (length (typed l x ch)) = Z.of_nat (length l) + 1).
Proof.
  intros Hx Hl. unfold typed, RingBuffer.list_insert. destruct (Z.ltb_spec (Z.of_nat (length l)) CONSOLE_WIDTH); [|lia].
  rewrite length_app, length_take. cbn [length]. rewrite length_drop. lia.
Qed.

Lemma view_lengths s ls c d l : view s ls c d → l ∈ ls → Z.of_nat (length l) <= CONSOLE_WIDTH.
Proof.
  intros ((Ls & _ & Hall) & _) Hl. apply list_elem_of_lookup in Hl as [i Hi].
  destruct (Forall2_lookup_r _ _ _ _ _ Hall Hi) as (line & _ & (_ & Hc & Hle & _)). lia.
Qed.

Lemma nth_line_width s ls c d row :
  view s ls c d → Z.of_nat (length (nth_line ls row)) <= CONSOLE_WIDTH.
Proof.
  intros Hv. unfold nth_line. destruct (ls !! Z.to_nat row) as [l|] eqn:Hl; cbn.
  - eapply view_lengths; [done|]. by eapply list_elem_of_lookup_2.
  - pose proof WIDTH_pos. lia.
Qed.

Lemma type_char_view s a d ch :
  dimensions d = (CONSOLE_WIDTH, CONSOLE_HEIGHT) →
  dimensions (TextLine.paint (typed (nth_line (text_lines a) (text_y a)) (text_x a) ch) d
                (text_y a)) = (CONSOLE_WIDTH, CONSOLE_HEIGHT) →
  view s (text_lines a) (text_x a, text_y a) d → 0 <= text_y a < CONSOLE_HEIGHT →
  0 <= text_x a <= Z.of_nat (length (nth_line (text_lines a) (text_y a))) →
  ch ≠ NEWLINE → ch ≠ BACKSPACE →
  cursor_ok (type_char a ch) ∧
  ∃ s', (s ← insert_char s ch; advance_cursor_forward s) = Ok s' ∧
        view s' (text_lines (type_char a ch))
          (text_x (type_char a ch), text_y (type_char a ch)) (type_char_display a ch d).
Proof.
  intros Hdim Hdim' Hv Hy Hx Hn Hb. pose proof Hv as (_ & Hlen & _ & _).
  pose proof (insert_char_view s _ _ _ _ ch Hv Hy ltac:(lia) Hn Hb) as Hi.
  cbn zeta in Hi. rewrite (proj2 (Z.leb_le _ _)) in Hi by lia.
  destruct Hi as (s1 & -> & Hv1). cbn [mbind result_bind].
  set (l := nth_line (text_lines a) (text_y a)) in *.
  pose proof (nth_line_width _ _ _ _ (text_y a) Hv) as Hw. fold l in Hw.
  destruct (typed_length l (text_x a) ch Hx Hw) as [Hl1 Hl2].
  assert (cursor_ok (type_char a ch)) as Hok.
  { unfold type_char. fold l. destruct (Z.ltb_spec (text_x a + 1) CONSOLE_WIDTH).
    - exists (text_y a). cbn [text_x text_y text_lines]. rewrite row_of_lt by lia.
      rewrite nth_set_row, Z.eqb_refl by (done || lia). split; [done|lia].
    - destruct (Z.ltb_spec (text_y a + 1) CONSOLE_HEIGHT).
      + exists (text_y a + 1). cbn [text_x text_y]. rewrite row_of_lt by lia. split; [done|lia].
      + exists 0. cbn [text_x text_y]. unfold row_of. decide_Z. split; [done|lia]. }
  split; [done|]. pose proof Hv1 as (_ & _ & Hc1 & Hd1).
  unfold advance_cursor_forward, width, move_cursor_for_newline. cbn [display_ with_cursor].
  rewrite Hd1, Hdim'. cbn [fst snd]. rewrite Hc1. cbn [fst snd with_cursor cursor_].
  unfold type_char_display. fold l. apply show_ok; [|done].
  unfold type_char. fold l. destruct (Z.leb_spec CONSOLE_WIDTH (text_x a + 1)); decide_Z;
    cbn [text_lines text_x text_y cursor_ with_cursor fst snd];
    destruct Hv1 as (? & ? & ? & ?); by split_and!.
Qed.

(** ** Every operation does what its specification says *)
Section Refinement.
Context `{!TextDisplayDeviceLaws D}.

Definition putchar_display (a : text) (ch : Z) (d : D) : D :=
  if ch =? 0 then show a d
  else if ch =? NEWLINE then show (mkt (text_lines a) 0 (text_y a + 1)) d
  else if ch =? BACKSPACE then
    let row := if text_y a =? CONSOLE_HEIGHT then 0 else text_y a in
    let x := Z.max 0 (text_x a - 1) in
    let l := delete (Z.to_nat x) (nth_line (text_lines a) row) in
    show (mkt (set_row (text_lines a) row l) x (text_y a)) (TextLine.paint l d (text_y a))
  else show (type_char (make_room a) ch)
         (type_char_display (make_room a) ch (make_room_display a d)).

Lemma make_room_view s a d :
  view s (text_lines a) (text_x a, text_y a) d → cursor_ok a →
  let b := make_room a in
  ∃ s', (if height s <=? (cursor_ s).2
         then scroll_one_line (with_cursor s ((cursor_ s).1, height s - 1))
         else mret s) = Ok s' ∧
    view s' (text_lines b) (text_x b, text_y b) (make_room_display a d) ∧
    0 <= text_y b < CONSOLE_HEIGHT ∧ 0 <= text_x b.
Proof.
  intros Hv (row & Hrow & Hx) b. pose proof Hv as (_ & _ & Hc & Hd).
  pose proof (row_of_ok _ _ Hrow) as (_ & Hy & _).
  unfold height. rewrite Hd, display_dimensions, Hc. cbn [fst snd].
  unfold b, make_room, make_room_display.
  destruct (Z.leb_spec CONSOLE_HEIGHT (text_y a)); cbn [text_lines text_x text_y].
  - assert (view (with_cursor s (text_x a, CONSOLE_HEIGHT - 1)) (text_lines a)
              (text_x a, CONSOLE_HEIGHT - 1) d) as Hv1 by by eapply with_cursor_view.
    destruct (scroll_view _ _ _ _ (display_dimensions d) Hv1) as (s' & -> & Hv2).
    exists s'. pose proof HEIGHT_pos. split_and!; [done..|lia|lia|lia].
  - exists s. split_and!; [done..|lia|lia|lia].
Qed.

Lemma normal_view s a d ch :
  view s (text_lines a) (text_x a, text_y a) d → cursor_ok a →
  ch ≠ NEWLINE → ch ≠ BACKSPACE →
  match spec_normal a ch with
  | Ok a' =>
      cursor_ok a' ∧ a' = type_char (make_room a) ch ∧
      ∃ s', put_normal_character s ch = Ok s' ∧
            view s' (text_lines a') (text_x a', text_y a')
              (type_char_display (make_room a) ch (make_room_display a d))
  | Fault f => put_normal_character s ch = Fault f
  end.
Proof.
  intros Hv Hok Hn Hb. rewrite spec_normal_eq. cbn zeta.
  destruct (make_room_view _ _ _ Hv Hok) as (s1 & E1 & Hv1 & Hy1 & Hx1).
  unfold put_normal_character. rewrite E1. cbn [mbind result_bind].
  destruct (Z.leb_spec (text_x (make_room a))
    (Z.of_nat (length (nth_line (text_lines (make_room a)) (text_y (make_room a))))))
    as [Hle|Hgt]; cbn [assert_then].
  - destruct (type_char_view s1 (make_room a) (make_room_display a d) ch) as (Hok' & s2 & E & Hv2);
      [apply display_dimensions..|done|done|lia|done|done|].
    split; [done|]. split; [done|]. by exists s2.
  - pose proof (insert_char_view s1 _ _ _ _ ch Hv1 Hy1 Hx1 Hn Hb) as Hi. cbn zeta in Hi.
    rewrite (proj2 (Z.leb_gt _ _)) in Hi by lia. by rewrite Hi.
Qed.

Lemma cursor_ok_row a :
  cursor_ok a →
  row_of (text_y a) = Ok (if text_y a =? CONSOLE_HEIGHT then 0 else text_y a).
Proof.
  intros (row & Hrow & _). rewrite Hrow. f_equal. destruct (row_of_ok _ _ Hrow) as (? & _ & ?).
  destruct (Z.eqb_spec (text_y a) CONSOLE_HEIGHT); lia.
Qed.

Lemma spec_show_ok a : cursor_ok a → spec_show a = Ok a.
Proof. intros Hok. unfold spec_show. by rewrite cursor_ok_row. Qed.

Lemma putchar_view s a d ch :
  view s (text_lines a) (text_x a, text_y a) d → cursor_ok a →
  match spec_putchar a ch with
  | Ok a' => cursor_ok a' ∧
      ∃ s', putchar s ch = Ok s' ∧
            view s' (text_lines a') (text_x a', text_y a') (putchar_display a ch d)
  | Fault f => putchar s ch = Fault f
  end.
Proof.
  intros Hv Hok. unfold spec_putchar, putchar, putchar_display.
  destruct (Z.eqb_spec ch 0) as [->|Hz]; [|destruct (Z.eqb_spec ch NEWLINE) as [->|Hn];
    [|destruct (Z.eqb_spec ch BACKSPACE) as [->|Hb]]]; cbn [mbind result_bind mret result_ret].
  - rewrite spec_show_ok by done. split; [done|]. by apply show_ok.
  - assert (view (move_cursor_for_newline s) (text_lines a) (0, text_y a + 1) d) as Hv1.
    { pose proof Hv as (_ & _ & Hc & _). unfold move_cursor_for_newline. rewrite Hc.
      by eapply with_cursor_view. }
    destruct (row_of (text_y a + 1)) as [row|f] eqn:Hrow.
    + assert (cursor_ok (mkt (text_lines a) 0 (text_y a + 1))) as Hok1
        by (exists row; cbn; split; [done|lia]).
      rewrite spec_show_ok by done. split; [done|]. by apply (show_ok _ (mkt _ 0 _)).
    + unfold spec_show. cbn [text_y]. rewrite Hrow. by eapply show_out.
  - destruct Hok as (row & Hrow & Hx).
    assert (row = if text_y a =? CONSOLE_HEIGHT then 0 else text_y a) as Er.
    { apply (f_equal (λ r, match r with Ok z => z | Fault _ => 0 end)
        (eq_trans (eq_sym Hrow) (cursor_ok_row a (ex_intro _ row (conj Hrow Hx))))). }
    rewrite <-Er. unfold spec_backspace. rewrite Hrow. cbn [mbind result_bind mret result_ret].
    destruct (backspace_view _ _ _ _ _ _ Hv Hrow Hx) as (s1 & -> & Hv1).
    cbn [mbind result_bind]. pose proof (row_of_ok _ _ Hrow) as (Hr & _).
    pose proof Hv as (_ & Hlen & _).
    set (a1 := mkt _ _ _). assert (cursor_ok a1) as Hok1.
    { exists row. cbn [text_y text_x text_lines a1]. split; [done|].
      rewrite nth_set_row, Z.eqb_refl by (done || lia).
      destruct (nth_line (text_lines a) row) as [|c l] eqn:El; [cbn in *; lia|].
      rewrite length_delete; [lia|]. apply lookup_lt_is_Some. cbn [length] in *. lia. }
    rewrite spec_show_ok by done. split; [done|]. by apply (show_ok s1 a1).
  - pose proof (normal_view _ _ _ ch Hv Hok Hn Hb) as Hnv.
    destruct (spec_normal a ch) as [a'|f]; cbn [mbind result_bind]; [|by rewrite Hnv].
    destruct Hnv as (Hok' & Ha' & s1 & -> & Hv1). cbn [mbind result_bind].
    rewrite spec_show_ok by done. split; [done|].
    rewrite <-Ha'. by apply show_ok.
Qed.

Lemma rep_view s a : rep s a ↔ cursor_ok a ∧ ∃ d, view s (text_lines a) (text_x a, text_y a) d.
Proof.
  split; [intros [? ?]; eauto|]. intros (Hok & d & Hv). split; [|done].
  destruct Hv as (? & ? & ? & _). by split_and!.
Qed.

Lemma putchar_refines s a ch :
  rep s a → refines rep (pair () <$> spec_putchar a ch) (pair () <$> putchar s ch).
Proof.
  intros [Hv Hok]. pose proof (putchar_view s a _ ch Hv Hok) as Hp.
  destruct (spec_putchar a ch) as [a'|f]; cbn; [|by rewrite Hp].
  destruct Hp as (Hok' & s' & -> & Hv'). exists s'. split; [done|]. apply rep_view. eauto.
Qed.

Lemma puts_refines str s a :
  rep s a → refines rep (pair () <$> spec_puts a str) (pair () <$> puts s str).
Proof.
  revert s a. induction str as [|ch str IH]; intros s a Hr; cbn [puts spec_puts].
  { by exists s. }
  destruct (Z.eqb_spec ch 0); [by exists s|].
  pose proof (putchar_refines s a ch Hr) as Hp. cbn in Hp |- *.
  destruct (spec_putchar a ch) as [a'|f]; cbn in Hp |- *.
  - destruct Hp as (s' & E & Hr'). destruct (putchar s ch) as [s1|]; [|done].
    injection E as ->. by apply IH.
  - destruct (putchar s ch); [done|]. cbn in Hp |- *. congruence.
Qed.

(** Sending the characters of a list, one after the other. *)
Fixpoint put_list s (cs : list Z) : result (t D) :=
  match cs with [] => mret s | ch :: cs => s ← putchar s ch; put_list s cs end.

Lemma putv_loop_ok CAPACITY n i s buf cs :
  0 < CAPACITY → RingBuffer.rep CAPACITY buf cs → 0 <= i →
  i + Z.of_nat n = Z.of_nat (length cs) →
  putv_loop CAPACITY n i s buf = put_list s (drop (Z.to_nat i) cs).
Proof.
  intros Hcap Hrep. revert i s. induction n as [|n IH]; intros i s Hi Hn.
  { by rewrite drop_ge by lia. }
  destruct (nthZ_Some cs i) as [_ [ch Hch]]; [lia|]. cbn [putv_loop].
  rewrite (RingBuffer.at_ok _ Hcap _ _ _ _ Hrep Hch), (drop_nthZ cs i ch) by done.
  cbn [mbind result_bind put_list]. destruct (putchar s ch); [|done]. cbn. apply IH; lia.
Qed.

Lemma putv_ok CAPACITY s buf cs :
  0 < CAPACITY → RingBuffer.rep CAPACITY buf cs → putv CAPACITY s buf = put_list s cs.
Proof.
  intros Hcap Hrep. unfold putv, RingBuffer.size. pose proof Hrep as (_ & -> & _).
  rewrite (putv_loop_ok _ _ _ _ _ cs) by (done || lia). by rewrite drop_0.
Qed.

Lemma line_length_view s a d :
  view s (text_lines a) (text_x a, text_y a) d → cursor_ok a → ∀ x,
  ∃ n, line_length a = Ok n ∧ get_line_width (with_cursor s (x, text_y a)) = Ok n ∧
       0 <= n ∧ text_x a <= n ∧
       ∀ x', 0 <= x' <= n → cursor_ok (mkt (text_lines a) x' (text_y a)).
Proof.
  intros Hv (row & Hrow & Hx) x. unfold line_length. rewrite Hrow.
  cbn [mbind result_bind mret result_ret]. eexists. split; [done|].
  assert (view (with_cursor s (x, text_y a)) (text_lines a) (x, text_y a) d) as Hv1
    by by eapply with_cursor_view.
  destruct (line_at_view _ _ _ _ _ _ Hv1 Hrow) as (line & E & Hline).
  unfold get_line_width. change (cursor_ (with_cursor s (x, text_y a))).2 with (text_y a).
  rewrite E.
  cbn [mbind result_bind mret result_ret]. rewrite (TextLine.size_ok _ _ Hline).
  split_and!; [done|lia|lia|]. intros x' Hx'. exists row. done.
Qed.

(** The cursor moves: the text stays, the cursor goes to a column of its line and the
    hardware cursor follows. *)
Lemma moves_view s a d :
  view s (text_lines a) (text_x a, text_y a) d → cursor_ok a →
  ∃ n, line_length a = Ok n ∧
  ∀ m x', (m, x') ∈ [(move_cursor_left s, Z.max 0 (text_x a - 1));
                     (move_cursor_right s, Z.min (text_x a + 1) n);
                     (move_cursor_to_end s, n)] →
    let a' := mkt (text_lines a) x' (text_y a) in
    cursor_ok a' ∧ ∃ s', m = Ok s' ∧ view s' (text_lines a') (x', text_y a) (show a' d).
Proof.
  intros Hv Hok. pose proof Hv as (_ & _ & Hc & _).
  assert (0 <= text_x a) as H0 by (destruct Hok as (? & _ & ?); lia).
  destruct (line_length_view _ _ _ Hv Hok (text_x a + 1)) as (n & Hn & E1 & Hn0 & Hle & Hx).
  destruct (line_length_view _ _ _ Hv Hok (text_x a)) as (n' & Hn' & E2 & _).
  rewrite Hn in Hn'. injection Hn' as <-. exists n. split; [done|]. intros m x' Hm.
  assert (0 <= x' <= n) as Hx'.
  { rewrite !elem_of_cons, elem_of_nil in Hm. naive_solver lia. }
  pose proof (Hx x' Hx') as Hok'. cbn zeta. split; [done|].
  rewrite !elem_of_cons, elem_of_nil in Hm. destruct Hm as [[= -> ->]|[[= -> ->]|[[= -> ->]|[]]]].
  - apply (show_ok _ (mkt _ _ _)); [|done]. by apply advance_backward_view.
  - unfold move_cursor_right. rewrite Hc. cbn [fst snd]. rewrite E1.
    cbn [mbind result_bind cursor_ with_cursor fst snd].
    apply (show_ok _ (mkt _ _ _)); [|done]. cbn [text_lines text_x text_y].
    destruct (Z.ltb_spec n (text_x a + 1)).
    + replace (Z.min (text_x a + 1) n) with n by lia. by do 2 eapply with_cursor_view.
    + replace (Z.min (text_x a + 1) n) with (text_x a + 1) by lia. by eapply with_cursor_view.
  - unfold move_cursor_to_end.
    replace (with_cursor s (text_x a, text_y a)) with s in E2
      by (destruct s; cbn in Hc; by rewrite <-Hc).
    rewrite E2, Hc. cbn [mbind result_bind snd].
    apply (show_ok _ (mkt _ _ _)); [|done]. by eapply with_cursor_view.
Qed.

Lemma terminal_op_refines o s a : rep s a → refines rep (spec_op o a) (run_op o s).
Proof.
  intros Hr. pose proof Hr as [Hv Hok].
  destruct (moves_view _ _ _ Hv Hok) as (n & En & Hm).
  assert (∀ m x', (m, x') ∈ [(move_cursor_left s, Z.max 0 (text_x a - 1));
            (move_cursor_right s, Z.min (text_x a + 1) n); (move_cursor_to_end s, n)] →
    refines rep (pair () <$> spec_show (mkt (text_lines a) x' (text_y a))) (pair () <$> m))
    as Hmove.
  { intros m x' Hin. destruct (Hm m x' Hin) as (Hok' & s' & -> & Hv').
    rewrite spec_show_ok by done. exists s'. split; [done|]. apply rep_view. eauto. }
  destruct o as [ch| | | |str]; unfold spec_op, run_op; try rewrite En;
    cbn [mbind result_bind].
  - by apply putchar_refines.
  - apply Hmove. set_solver.
  - apply Hmove. set_solver.
  - apply Hmove. set_solver.
  - by apply puts_refines.
Qed.

Lemma init_loop_ok n lines Ls :
  RingBuffer.rep CONSOLE_HEIGHT lines Ls →
  Z.of_nat (length Ls + n) <= CONSOLE_HEIGHT →
  ∃ lines', init_loop n lines = Ok lines' ∧
            RingBuffer.rep CONSOLE_HEIGHT lines' (Ls ++ replicate n TextLine.init).
Proof.
  revert lines Ls. induction n as [|n IH]; intros lines Ls Hrep Hn; cbn [init_loop].
  { exists lines. by rewrite app_nil_r. }
  destruct (RingBuffer.push_back_ok _ HEIGHT_pos _ _ TextLine.init Hrep) as (l1 & -> & Hl1).
  cbn [mbind result_bind]. assert (Z.of_nat (length Ls) < CONSOLE_HEIGHT) as Hlt by lia.
  rewrite (proj2 (Z.ltb_lt _ _) Hlt) in Hl1.
  destruct (IH _ _ Hl1) as (l2 & -> & Hl2); [rewrite length_app; cbn; lia|].
  exists l2. by rewrite <-app_assoc in Hl2.
Qed.

Lemma init_view d :
  ∃ s, init d = Ok s ∧ view s (text_lines blank) (0, 0) d.
Proof.
  unfold init. rewrite display_dimensions. cbn [snd].
  destruct (init_loop_ok (Z.to_nat CONSOLE_HEIGHT) (RingBuffer.init CONSOLE_HEIGHT) [])
    as (lines & -> & Hl); [apply RingBuffer.rep_init, HEIGHT_pos|done|].
  cbn [mbind result_bind]. eexists. split; [done|]. split_and!; [|done..].
  eexists. split; [exact Hl|]. rewrite app_nil_l. unfold blank. cbn [text_lines].
  generalize (Z.to_nat CONSOLE_HEIGHT). intros n.
  induction n as [|n IH]; cbn; constructor; [|done]. apply RingBuffer.rep_init, WIDTH_pos.
Qed.

Lemma blank_cursor_ok : cursor_ok blank.
Proof. exists 0. split; [done|]. cbn. lia. Qed.

End Refinement.
End Methods.

(** C21: Any sequence of characters, strings and cursor movements sent to a new terminal
    does to its 25 lines exactly what the specification does to lists of characters:
    typing inserts at the cursor and wraps after column 80, backspace deletes, a
    newline moves down and typing below the last row scrolls; and the terminal stops in
    an assertion exactly where the specification says. *)
Theorem terminal_refines_text {D} `{TextDisplayDeviceLaws D} (d : D) (os : list op) :
  ∃ s, init d = Ok s ∧ refines rep (run_all spec_op os blank) (run_all run_op os s).
Proof.
  destruct (init_view d) as (s & E & Hv). exists s. split; [done|].
  apply run_all_refines; [intros; by apply terminal_op_refines|].
  apply rep_view. split; [apply blank_cursor_ok|eauto].
Qed.

(** ** The display shows the text *)
Section Screen.
Context {D : Type} `{TextDisplayDeviceLaws D}.
Implicit Types (s : t D) (d : D).

Definition plain (ls : list (list Z)) : Prop := Forall TextLine.printable ls.

(** Every cell of the display shows the character of the text at that position, or a
    blank. *)
Definition in_sync (ls : list (list Z)) d : Prop :=
  ∀ q, on_screen q →
    get_char d q = make_char d (default SPACE (nth_line ls q.2 !! Z.to_nat q.1)).

Definition synced (a : text) d : Prop :=
  plain (text_lines a) ∧ (∀ row, text_y a < row → nth_line (text_lines a) row = []) ∧
  in_sync (text_lines a) d ∧ get_cursor_position d = (text_x a, text_y a).

(** The editing operations on printable text; backspace only while the cursor is on the
    display. *)
Inductive edit s : t D → Prop :=
| edit_type ch s' :
    isprint ch = true ∨ ch = NEWLINE → putchar s ch = Ok s' → edit s s'
| edit_backspace s' :
    (cursor_ s).2 < CONSOLE_HEIGHT → putchar s BACKSPACE = Ok s' → edit s s'
| edit_left s' : move_cursor_left s = Ok s' → edit s s'
| edit_right s' : move_cursor_right s = Ok s' → edit s s'
| edit_end s' : move_cursor_to_end s = Ok s' → edit s s'.

Lemma plain_nth ls row : plain ls → TextLine.printable (nth_line ls row).
Proof.
  intros Hp. unfold nth_line. destruct (ls !! Z.to_nat row) as [l|] eqn:E; [|constructor].
  cbn. by eapply Forall_lookup_1.
Qed.

Lemma plain_set_row ls row l : plain ls → TextLine.printable l → plain (set_row ls row l).
Proof. intros Hp Hl. by apply Forall_insert. Qed.

Lemma plain_scrolled ls : plain ls → plain (scrolled ls).
Proof.
  intros Hp. apply Forall_app. split; [by apply Forall_drop|]. repeat constructor.
Qed.

Lemma printable_typed l x ch :
  TextLine.printable l → isprint ch = true → TextLine.printable (typed l x ch).
Proof.
  intros Hl Hc. unfold typed, RingBuffer.list_insert. destruct (_ <? _); [|done].
  apply Forall_app. split; [by apply Forall_take|]. constructor; [done|by apply Forall_drop].
Qed.

(** Repainting one row of a text whose rows further down are empty. *)
Lemma in_sync_paint ls l row d :
  length ls = Z.to_nat CONSOLE_HEIGHT → 0 <= row < CONSOLE_HEIGHT →
  TextLine.printable l → Z.of_nat (length l) <= CONSOLE_WIDTH →
  (∀ row', row < row' → nth_line ls row' = []) →
  in_sync ls d → in_sync (set_row ls row l) (TextLine.paint l d row).
Proof.
  intros Hlen Hrow Hl Hw Hbelow Hs q Hq. pose proof Hq as [Hx Hy].
  destruct (TextLine.paint_printable l d row Hl Hw) as (Hmk & _ & Hget).
  rewrite Hget, Hmk, nth_set_row by (done || lia).
  destruct (Z.eqb_spec q.2 row); [done|].
  destruct (Z.eqb_spec q.2 (row + 1)); cbn [andb]; [|by apply Hs].
  rewrite Hs, Hbelow by (done || lia). rewrite lookup_nil. cbn. by destruct (_ =? _).
Qed.

Lemma repaint_ok n i ls d :
  plain ls → (∀ row, Z.of_nat (length (nth_line ls row)) <= CONSOLE_WIDTH) →
  (∀ c, make_char (repaint n i ls d) c = make_char d c) ∧
  ∀ q, on_screen q →
    (q.2 < i → get_char (repaint n i ls d) q = get_char d q) ∧
    (i <= q.2 < i + Z.of_nat n →
     get_char (repaint n i ls d) q
     = make_char d (default SPACE (nth_line ls q.2 !! Z.to_nat q.1))).
Proof.
  intros Hp Hw. revert i d. induction n as [|n IH]; intros i d; cbn [repaint].
  { split; [done|]. intros q Hq. split; [done|lia]. }
  destruct (TextLine.paint_printable (nth_line ls i) d i (plain_nth _ _ Hp) (Hw i))
    as (Hmk & _ & Hget).
  destruct (IH (i + 1) (TextLine.paint (nth_line ls i) d i)) as [Hmk' IHq].
  split; [intros c; by rewrite Hmk'|]. intros q Hq. destruct (IHq q Hq) as [H1 H2]. split.
  - intros Hlt. rewrite H1, Hget by (done || lia). by decide_Z.
  - intros Hr. destruct (decide (q.2 = i)) as [<-|].
    + rewrite H1, Hget by (done || lia). by rewrite Z.eqb_refl.
    + rewrite H2, Hmk by lia. done.
Qed.

Lemma show_synced a d :
  cursor_ok a → plain (text_lines a) →
  (∀ row, text_y a < row → nth_line (text_lines a) row = []) →
  in_sync (text_lines a) d → synced a (show a d).
Proof.
  intros Hok Hp Hbelow Hs. pose proof (cursor_ok_row a Hok) as Hrow.
  destruct Hok as (row & Hrow' & Hx). rewrite Hrow in Hrow'. injection Hrow' as Hrow'.
  unfold show. rewrite Hrow'. split_and!; [done|done| |].
  - intros q Hq. rewrite get_char_cursor, make_char_cursor. by apply Hs.
  - rewrite get_cursor_set. f_equal.
    rewrite TextLine.columns_printable by apply Forall_take, plain_nth, Hp.
    rewrite length_take. lia.
Qed.

Lemma type_char_synced s a d ch :
  view s (text_lines a) (text_x a, text_y a) d → 0 <= text_y a < CONSOLE_HEIGHT →
  0 <= text_x a <= Z.of_nat (length (nth_line (text_lines a) (text_y a))) →
  cursor_ok (type_char a ch) → isprint ch = true → plain (text_lines a) →
  (∀ row, text_y a < row → nth_line (text_lines a) row = []) →
  in_sync (text_lines a) d → synced (type_char a ch) (type_char_display a ch d).
Proof.
  intros Hv Hy Hx Hok Hc Hp Hbelow Hs. pose proof Hv as (_ & Hlen & _).
  pose proof (nth_line_width _ _ _ _ (text_y a) Hv) as Hw.
  set (l := nth_line (text_lines a) (text_y a)) in *.
  assert (TextLine.printable (typed l (text_x a) ch)) as Hl
    by (apply printable_typed; [by apply plain_nth|done]).
  destruct (typed_length l (text_x a) ch Hx Hw) as [Hl1 _].
  unfold type_char_display. fold l. apply show_synced; [done|..]; unfold type_char; fold l;
    destruct (_ <? _); cbn [text_lines text_x text_y].
  1,2: by apply plain_set_row.
  1,2: intros row Hrow; rewrite nth_set_row by (done || lia); decide_Z; apply Hbelow; lia.
  1,2: apply in_sync_paint; done || lia.
Qed.

Lemma make_room_synced s a d :
  view s (text_lines a) (text_x a, text_y a) d → synced a d →
  plain (text_lines (make_room a)) ∧
  (∀ row, text_y (make_room a) < row → nth_line (text_lines (make_room a)) row = []) ∧
  in_sync (text_lines (make_room a)) (make_room_display a d).
Proof.
  intros Hv (Hp & Hbelow & Hs & _). pose proof Hv as (_ & Hlen & _).
  unfold make_room, make_room_display.
  destruct (Z.leb_spec CONSOLE_HEIGHT (text_y a)); cbn [text_lines text_y]; [|done].
  pose proof (plain_scrolled _ Hp) as Hp'. split_and!; [done| |].
  - intros row Hrow. unfold nth_line. rewrite lookup_ge_None_2; [done|].
    unfold scrolled. rewrite length_app, length_drop, Hlen. cbn [length].
    pose proof HEIGHT_pos. lia.
  - assert (∀ row, Z.of_nat (length (nth_line (scrolled (text_lines a)) row)) <= CONSOLE_WIDTH)
      as Hw.
    { intros row. unfold nth_line. destruct (scrolled _ !! _) as [l|] eqn:El; [|done].
      apply list_elem_of_lookup_2, elem_of_app in El as [El|El].
      - eapply view_lengths; [exact Hv|]. by eapply subseteq_drop.
      - apply list_elem_of_singleton in El as ->. done. }
    destruct (repaint_ok (Z.to_nat CONSOLE_HEIGHT) 0 _ d Hp' Hw) as [Hmk Hq'].
    intros q Hq. rewrite Hmk. apply Hq'; [done|]. destruct Hq as [_ Hy]. lia.
Qed.

Lemma putchar_synced s a d ch s' :
  view s (text_lines a) (text_x a, text_y a) d → cursor_ok a → synced a d →
  isprint ch = true ∨ ch = NEWLINE ∨ ch = BACKSPACE ∧ text_y a < CONSOLE_HEIGHT →
  putchar s ch = Ok s' →
  ∃ a' d', view s' (text_lines a') (text_x a', text_y a') d' ∧ cursor_ok a' ∧ synced a' d'.
Proof.
  intros Hv Hok Hsy Hch E. pose proof (putchar_view s a d ch Hv Hok) as Hp. rewrite E in Hp.
  destruct (spec_putchar a ch) as [a'|f] eqn:Ea; [|done].
  destruct Hp as (Hok' & s1 & [= <-] & Hv'). exists a', (putchar_display a ch d).
  split_and!; [done..|]. pose proof Hsy as (Hp & Hbelow & Hs & _).
  pose proof Hv as (_ & Hlen & _). revert Ea. unfold spec_putchar, putchar_display.
  destruct (Z.eqb_spec ch 0) as [->|Hz]; [by destruct Hch as [?|[?|[? _]]]|].
  destruct (Z.eqb_spec ch NEWLINE) as [->|Hn]; [|destruct (Z.eqb_spec ch BACKSPACE) as [->|Hb]];
    cbn [mbind result_bind mret result_ret].
  - unfold spec_show. intros Ea. apply bind_ok in Ea as (row & Hrow & [= <-]).
    apply show_synced; [done|done| |done]. cbn [text_y text_lines] in *. intros.
    apply Hbelow. lia.
  - destruct Hch as [Hch|[Hch|[_ Hlt]]]; [done..|].
    destruct Hok as (row & Hrow & Hx). destruct (row_of_ok _ _ Hrow) as (Hr & Hy & Hyr).
    assert (row = text_y a) as -> by lia.
    rewrite (proj2 (Z.eqb_neq _ _)) by lia. unfold spec_backspace. rewrite Hrow.
    cbn [mbind result_bind mret result_ret]. unfold spec_show. cbn [text_y]. rewrite Hrow.
    intros [= <-]. pose proof (nth_line_width _ _ _ _ (text_y a) Hv) as Hw.
    assert (TextLine.printable (delete (Z.to_nat (Z.max 0 (text_x a - 1)))
      (nth_line (text_lines a) (text_y a)))) as Hl by by apply Forall_delete, plain_nth.
    apply show_synced; [done|by apply plain_set_row| |]; cbn [text_lines text_y].
    + intros row Hlt'. rewrite nth_set_row by (done || lia). decide_Z. by apply Hbelow.
    + apply in_sync_paint; [done|done|done| |done|done].
      rewrite delete_take_drop, length_app, length_take, length_drop. lia.
  - destruct Hch as [Hch|[Hch|[Hch _]]]; [|done..]. intros Ea.
    apply bind_ok in Ea as (a1 & Ea1 & Ea). unfold spec_show in Ea.
    apply bind_ok in Ea as (row & Hrow & [= <-]).
    destruct (make_room_view _ _ _ Hv Hok) as (s2 & _ & Hv2 & Hy2 & Hx2).
    destruct (make_room_synced _ _ _ Hv Hsy) as (Hp2 & Hb2 & Hs2).
    rewrite spec_normal_eq in Ea1. cbn zeta in Ea1. apply assert_ok in Ea1 as [Hle [= <-]].
    apply Z.leb_le in Hle.
    pose proof (type_char_synced _ _ _ ch Hv2 Hy2 (conj Hx2 Hle) Hok' Hch Hp2 Hb2 Hs2)
      as (? & ? & ? & _).
    by apply show_synced.
Qed.

Lemma edit_synced s s' a d :
  view s (text_lines a) (text_x a, text_y a) d → cursor_ok a → synced a d → edit s s' →
  ∃ a' d', view s' (text_lines a') (text_x a', text_y a') d' ∧ cursor_ok a' ∧ synced a' d'.
Proof.
  intros Hv Hok Hsy Hedit. pose proof Hv as (_ & _ & Hc & _).
  destruct (moves_view _ _ _ Hv Hok) as (n & _ & Hm).
  assert (∀ m x', (m, x') ∈ [(move_cursor_left s, Z.max 0 (text_x a - 1));
            (move_cursor_right s, Z.min (text_x a + 1) n); (move_cursor_to_end s, n)] →
    m = Ok s' → ∃ a' d',
      view s' (text_lines a') (text_x a', text_y a') d' ∧ cursor_ok a' ∧ synced a' d') as Hmove.
  { intros m x' Hin ->. destruct (Hm _ x' Hin) as (Hok' & s1 & [= <-] & Hv').
    destruct Hsy as (? & ? & ? & _). do 2 eexists. split; [exact Hv'|]. split; [done|].
    by apply show_synced. }
  destruct Hedit as [ch s' Hch E|s' Hy E|s' E|s' E|s' E].
  - eapply putchar_synced; [done..| |exact E]. naive_solver.
  - eapply putchar_synced; [done..| |exact E]. rewrite Hc in Hy. cbn in Hy. auto.
  - eapply Hmove; [apply list_elem_of_here|exact E].
  - eapply Hmove; [apply list_elem_of_further, list_elem_of_here|exact E].
  - eapply Hmove; [do 2 apply list_elem_of_further; apply list_elem_of_here|exact E].
Qed.

Lemma blank_nth row : nth_line (text_lines blank) row = [].
Proof.
  unfold nth_line, blank. cbn [text_lines].
  destruct (replicate _ _ !! _) as [l|] eqn:E; [|done]. by apply lookup_replicate in E as [-> _].
Qed.

End Screen.

(** The display always shows the text: starting from a blank display with its cursor
    at home, after any sequence of printable characters, newlines, cursor movements and
    backspaces (these while the cursor is on the display), every cell shows the
    character the terminal stores at that row and column, or a blank, and the hardware
    cursor is at the terminal's cursor. *)
Theorem terminal_display_in_sync {D} `{TextDisplayDeviceLaws D} (d : D) (s0 s : t D) :
  (∀ q, on_screen q → get_char d q = make_char d SPACE) → get_cursor_position d = (0, 0) →
  init d = Ok s0 → rtc edit s0 s →
  ∃ a, rep s a ∧ in_sync (text_lines a) (display_ s) ∧
       get_cursor_position (display_ s) = (text_x a, text_y a).
Proof.
  intros Hblank Hcur E Hsteps. destruct (init_view d) as (s1 & E1 & Hv).
  rewrite E in E1. injection E1 as <-.
  assert (∃ a d', view s (text_lines a) (text_x a, text_y a) d' ∧ cursor_ok a ∧ synced a d')
    as (a & d' & Hv' & Hok & (_ & _ & Hs & Hc)).
  { assert (synced blank d) as Hsy.
    { split_and!; [by apply Forall_replicate; constructor|intros; apply blank_nth| |done].
      intros q Hq. rewrite blank_nth, lookup_nil. by apply Hblank. }
    assert (∃ a d', view s0 (text_lines a) (text_x a, text_y a) d' ∧ cursor_ok a ∧ synced a d')
      as Hinit by (exists blank, d; split_and!; [done|apply blank_cursor_ok|done]).
    clear Hv Hsy E. induction Hsteps as [|s1 s2 s3 Hstep _ IH]; [done|]. apply IH.
    destruct Hinit as (a & d' & ? & ? & ?). by eapply edit_synced. }
  exists a. pose proof Hv' as (_ & _ & _ & Hd). rewrite Hd. split_and!; [|done..].
  apply rep_view. eauto.
Qed.

(** Below the last row.  A newline there leaves the cursor one row below the display,
    and since [RingBuffer::at] lets the index [size()] through, the terminal then takes
    the top line for the current one: a backspace deletes a character of the top line,
    and another newline stops the kernel in an assertion. *)
Theorem terminal_below_last_row {D} `{TextDisplayDeviceLaws D} (s : t D) a :
  rep s a → text_y a = CONSOLE_HEIGHT - 1 →
  ∃ s1, putchar s NEWLINE = Ok s1 ∧
    rep s1 (mkt (text_lines a) 0 CONSOLE_HEIGHT) ∧
    (∃ s2, putchar s1 BACKSPACE = Ok s2 ∧
       rep s2 (mkt (set_row (text_lines a) 0 (delete 0%nat (nth_line (text_lines a) 0)))
                 0 CONSOLE_HEIGHT)) ∧
    putchar s1 NEWLINE = Fault AssertionFailed.
Proof.
  intros Hr Hy. pose proof (putchar_refines s a NEWLINE Hr) as H1.
  cbn -[putchar] in H1. rewrite Hy in H1. cbn -[putchar] in H1.
  destruct H1 as (s1 & E1 & Hr1). destruct (putchar s NEWLINE) as [s1'|]; [|done].
  injection E1 as ->. exists s1. change (Z.pos 25) with CONSOLE_HEIGHT in Hr1.
  split_and!; [done|done| |].
  - pose proof (putchar_refines s1 _ BACKSPACE Hr1) as H2. cbn -[putchar] in H2.
    destruct H2 as (s2 & E2 & Hr2). destruct (putchar s1 BACKSPACE) as [s2'|]; [|done].
    injection E2 as ->. by exists s2.
  - pose proof (putchar_refines s1 _ NEWLINE Hr1) as H2. cbn -[putchar] in H2.
    destruct (putchar s1 NEWLINE); [done|]. cbn in H2. congruence.
Qed.

(** ** Witnesses, on the VGA display *)
Definition demo_display : VGA.t := VGA.init (λ _, 0x720) [].

Lemma terminal_refines_text_witness :
  ∃ s s', init demo_display = Ok s ∧
    run_all run_op [Putchar 65; Putchar 66; Left; Putchar 67; Putchar NEWLINE; Puts [68; 0]] s
    = Ok (replicate 6 (), s') ∧
    rep s' (mkt (<[1%nat := [68]]> (<[0%nat := [65; 67; 66]]> (text_lines blank))) 1 1).
Proof.
  destruct (terminal_refines_text demo_display
    [Putchar 65; Putchar 66; Left; Putchar 67; Putchar NEWLINE; Puts [68; 0]])
    as (s & E & Href).
  match type of Href with refines _ ?r _ => let r' := eval vm_compute in r in
    assert (r = r') as Er by (vm_compute; reflexivity) end.
  rewrite Er in Href. destruct Href as (s' & E' & Hr'). exists s, s'.
  split; [exact E|]. split; [exact E'|exact Hr'].
Defined.

Lemma terminal_display_in_sync_witness :
  ∃ s0 s1 a, init demo_display = Ok s0 ∧ putchar s0 65 = Ok s1 ∧ rep s1 a ∧
    in_sync (text_lines a) (display_ s1).
Proof.
  destruct (init_view demo_display) as (s0 & E0 & Hv0).
  pose proof (putchar_view s0 blank _ 65 Hv0 blank_cursor_ok) as (_ & s1 & E1 & _).
  destruct (terminal_display_in_sync demo_display s0 s1) as (a & Hr & Hs & _).
  - intros q Hq. rewrite VGA.get_char_on_screen by done. reflexivity.
  - reflexivity.
  - exact E0.
  - apply rtc_once. apply (edit_type s0 65); [left; reflexivity|exact E1].
  - exists s0, s1, a. split_and!; [exact E0|exact E1|exact Hr|exact Hs].
Defined.

Lemma terminal_below_last_row_witness :
  ∃ s1 s2 : t VGA.t, putchar s1 BACKSPACE = Ok s2 ∧ cursor_ s1 = (0, 25) ∧
    rep s1 (mkt ([66; 67] :: replicate 24 []) 0 25) ∧
    rep s2 (mkt ([67] :: replicate 24 []) 0 25).
Proof.
  set (os := Puts [66; 67; 0] :: replicate 24 (Putchar NEWLINE)).
  destruct (init_view demo_display) as (s0 & _ & Hv0).
  assert (rep s0 blank) as Hr0 by (apply rep_view; split; [apply blank_cursor_ok|eauto]).
  pose proof (run_all_refines run_op spec_op rep terminal_op_refines os s0 blank Hr0) as Href.
  match type of Href with refines _ ?r _ => let r' := eval vm_compute in r in
    assert (r = r') as Er by (vm_compute; reflexivity) end.
  rewrite Er in Href. destruct Href as (s & _ & Hr).
  destruct (terminal_below_last_row s _ Hr) as (s1 & _ & Hr1 & (s2 & E2 & Hr2) & _);
    [reflexivity|].
  exists s1, s2. pose proof Hr1 as [(_ & _ & Hc & _) _].
  split; [exact E2|]. split; [exact Hc|]. split; [exact Hr1|exact Hr2].
Defined.

End TextTerminal.
