(* ===== verification/LinkedList.v ===== *)
(** * LinkedList: the doubly linked list of heap-allocated nodes

    Models [LinkedList<T>] of src/Common/include/common/linked_list.hpp.  The nodes live
    in a store [heap] from addresses to nodes; reading through an address that holds no
    node is a fault, so a dangling pointer that is followed shows up as one.  The global
    [operator new] is not part of the class: it is the parameter [new], which returns an
    address that holds no node yet and is not null.

    [rep l xs] says that the chain from [head_] holds exactly [xs], correctly linked, and
    that no other node is alive; every method refines the list specification [spec_op]. *)
From S2P Require Import Prelude Storage.
Import Storage.

Module LinkedList.

Record node (T : Type) := mkn { prev : Z; next : Z; value : T }.
Arguments mkn {T} _ _ _.
Arguments prev {T} _.
Arguments next {T} _.
Arguments value {T} _.

Record t (T : Type) := mk { heap : gmap Z (node T); head_ : Z; count_ : Z }.
Arguments mk {T} _ _ _.
Arguments heap {T} _.
Arguments head_ {T} _.
Arguments count_ {T} _.

Section Methods.
Context {T : Type}.
Implicit Types (h : gmap Z (node T)) (l : t T) (xs : list T) (v : T).

Definition load h (a : Z) : result (node T) :=
  if a =? 0 then Fault NullDereference else deref InvalidAccess (h !! a).

Definition set_prev h (a p : Z) : result (gmap Z (node T)) :=
  n ← load h a; mret (<[a := mkn p (next n) (value n)]> h).

Definition set_next h (a x : Z) : result (gmap Z (node T)) :=
  n ← load h a; mret (<[a := mkn (prev n) x (value n)]> h).

Definition init : t T := mk ∅ 0 0.
Definition size l : Z := count_ l.
Definition empty l : bool := count_ l =? 0.

(** [for (tail = head_; tail->next; tail = tail->next);] *)
Fixpoint tail_loop (fuel : nat) h (tail : Z) : result Z :=
  match fuel with
  | O => Fault OutOfFuel
  | S fuel =>
      n ← load h tail;
      if next n =? 0 then mret tail else tail_loop fuel h (next n)
  end.

Definition push_back (new : gmap Z (node T) → Z) l v : result (t T) :=
  let count := count_ l + 1 in
  let node := new (heap l) in
  let h := <[node := mkn 0 0 v]> (heap l) in
  if negb (head_ l =? 0) then
    tail ← tail_loop (base.size h) h (head_ l);
    h ← set_next h tail node;
    h ← set_prev h node tail;
    mret (mk h (head_ l) count)
  else mret (mk h node count).

Definition push_front (new : gmap Z (node T) → Z) l v : result (t T) :=
  let count := count_ l + 1 in
  let node := new (heap l) in
  let h := <[node := mkn 0 0 v]> (heap l) in
  h ← (if negb (head_ l =? 0) then
         h ← set_prev h (head_ l) node;
         set_next h node (head_ l)
       else mret h);
  mret (mk h node count).

(** [node_at]: [assert(head && head->next)] before every step. *)
Fixpoint node_at (n : nat) h (head : Z) : result Z :=
  match n with
  | O => mret head
  | S n =>
      assert! negb (head =? 0);
      d ← load h head;
      assert! negb (next d =? 0);
      node_at n h (next d)
  end.

Definition at_ l (index : Z) : result T :=
  assert! (0 <=? index) && (index <? count_ l);
  node ← node_at (Z.to_nat index) (heap l) (head_ l);
  assert! negb (node =? 0);
  n ← load (heap l) node;
  mret (value n).

Definition remove l (index : Z) : result (T * t T) :=
  assert! (0 <=? index) && (index <? count_ l);
  assert! 0 <? count_ l;
  let count := count_ l - 1 in
  if index =? 0 then
    n ← load (heap l) (head_ l);
    mret (value n, mk (delete (head_ l) (heap l)) (next n) count)
  else
    node ← node_at (Z.to_nat index) (heap l) (head_ l);
    n ← load (heap l) node;
    h ← (if prev n =? 0 then mret (heap l) else set_next (heap l) (prev n) (next n));
    h ← (if next n =? 0 then mret h else set_prev h (next n) (prev n));
    mret (value n, mk (delete node h) (head_ l) count).

(** The destructor: [while (!empty()) remove(0);] *)
Fixpoint destroy_loop (fuel : nat) l : result (t T) :=
  if empty l then mret l
  else match fuel with
       | O => Fault OutOfFuel
       | S fuel => '(_, l) ← remove l 0; destroy_loop fuel l
       end.

Definition destroy l : result (t T) := destroy_loop (Z.to_nat (count_ l)) l.

(** ** Specification *)
Inductive op := PushBack (v : T) | PushFront (v : T) | At (index : Z) | Remove (index : Z).

Definition run_op (new : gmap Z (node T) → Z) (o : op) l : result (option T * t T) :=
  match o with
  | PushBack v => pair None <$> push_back new l v
  | PushFront v => pair None <$> push_front new l v
  | At i => v ← at_ l i; mret (Some v, l)
  | Remove i => '(v, l) ← remove l i; mret (Some v, l)
  end.

Definition spec_op (o : op) xs : result (option T * list T) :=
  match o with
  | PushBack v => mret (None, xs ++ [v])
  | PushFront v => mret (None, v :: xs)
  | At i => v ← deref AssertionFailed (nthZ xs i); mret (Some v, xs)
  | Remove i => v ← deref AssertionFailed (nthZ xs i);
                mret (Some v, delete (Z.to_nat i) xs)
  end.

(** ** The chain

    [seg h p addrs xs n]: the nodes at [addrs] hold [xs]; the first one's [prev] is [p],
    the last one's [next] is [n], and neighbours are linked to each other. *)
Definition first (n : Z) (addrs : list Z) : Z := default n (head addrs).

Fixpoint seg h (p : Z) (addrs : list Z) xs (n : Z) : Prop :=
  match addrs, xs with
  | [], [] => True
  | a :: addrs, x :: xs => h !! a = Some (mkn p (first n addrs) x) ∧ seg h a addrs xs n
  | _, _ => False
  end.

Definition rep l xs : Prop :=
  ∃ addrs p, seg (heap l) p addrs xs 0 ∧ NoDup addrs ∧ 0 ∉ addrs ∧
    head_ l = first 0 addrs ∧ count_ l = Z.of_nat (length xs) ∧
    ∀ a, is_Some (heap l !! a) ↔ a ∈ addrs.

Definition last_or (p : Z) (addrs : list Z) : Z := default p (last addrs).

Lemma seg_length h p addrs xs n : seg h p addrs xs n → length addrs = length xs.
Proof.
  revert p xs. induction addrs as [|a addrs IH]; intros p [|x xs]; cbn; try done.
  intros [_ Hs]. f_equal. by eapply IH.
Qed.

Lemma seg_frame h h' p addrs xs n :
  (∀ a, a ∈ addrs → h' !! a = h !! a) → seg h p addrs xs n → seg h' p addrs xs n.
Proof.
  revert p xs. induction addrs as [|a addrs IH]; intros p [|x xs] Hf; cbn; try done.
  intros [Ha Hs]. split; [by rewrite Hf by set_solver|]. apply IH; [set_solver|done].
Qed.

Lemma first_app n (l r : list Z) : first n (l ++ r) = first (first n r) l.
Proof. by destruct l. Qed.

Lemma last_or_cons p a (l : list Z) : last_or p (a :: l) = last_or a l.
Proof. unfold last_or. rewrite last_cons. by destruct (last l). Qed.

Lemma ll_last_or_snoc p (l : list Z) a : last_or p (l ++ [a]) = a.
Proof. unfold last_or. by rewrite last_snoc. Qed.

Lemma ll_seg_app h p (l r : list Z) xs ys n :
  length l = length xs →
  seg h p (l ++ r) (xs ++ ys) n ↔ seg h p l xs (first n r) ∧ seg h (last_or p l) r ys n.
Proof.
  revert p xs. induction l as [|a l IH]; intros p [|x xs] Hlen; cbn [app seg]; try done.
  { naive_solver. }
  rewrite last_or_cons, first_app, IH by (cbn in Hlen; lia). naive_solver.
Qed.

Lemma load_some h a n : a ≠ 0 → h !! a = Some n → load h a = Ok n.
Proof. intros Ha Hn. unfold load. decide_Z. by rewrite Hn. Qed.

Lemma set_prev_ok h a p n :
  a ≠ 0 → h !! a = Some n → set_prev h a p = Ok (<[a := mkn p (next n) (value n)]> h).
Proof. intros Ha Hn. unfold set_prev. by rewrite (load_some _ _ n). Qed.

Lemma set_next_ok h a x n :
  a ≠ 0 → h !! a = Some n → set_next h a x = Ok (<[a := mkn (prev n) x (value n)]> h).
Proof. intros Ha Hn. unfold set_next. by rewrite (load_some _ _ n). Qed.

(** Splitting a chain at a position. *)
Lemma split_at xs i x :
  nthZ xs i = Some x →
  ∃ ys zs, xs = ys ++ x :: zs ∧ length ys = Z.to_nat i.
Proof.
  unfold nthZ. case_Z; [|done]. intros Hx. exists (take (Z.to_nat i) xs), (drop (S (Z.to_nat i)) xs).
  split; [by rewrite take_drop_middle|]. rewrite length_take.
  apply lookup_lt_Some in Hx. lia.
Qed.

Lemma node_at_ok h p (l : list Z) a r xs :
  seg h p (l ++ a :: r) xs 0 → 0 ∉ l ++ a :: r →
  node_at (length l) h (first 0 (l ++ a :: r)) = Ok a.
Proof.
  revert p xs. induction l as [|b l IH]; intros p [|x xs]; cbn [app seg]; try done.
  intros [Hb Hs] H0. cbn [length node_at]. change (first 0 (b :: l ++ a :: r)) with b.
  assert (b ≠ 0) by set_solver. decide_Z. rewrite (load_some _ _ _ ltac:(done) Hb).
  cbn [mbind result_bind next].
  assert (first 0 (l ++ a :: r) ≠ 0) by (destruct l; cbn; set_solver). decide_Z.
  eapply IH; [exact Hs|set_solver].
Qed.

Lemma tail_loop_ok h p (l : list Z) a xs fuel :
  seg h p (l ++ [a]) xs 0 → 0 ∉ l ++ [a] → (length l < fuel)%nat →
  tail_loop fuel h (first 0 (l ++ [a])) = Ok a.
Proof.
  revert p xs fuel. induction l as [|b l IH]; intros p [|x xs] [|fuel]; cbn [app seg length];
    try (done || lia); intros [Hb Hs] H0 Hf; cbn [tail_loop].
  - change (first 0 [a]) with a. assert (a ≠ 0) as Hz by set_solver.
    by rewrite (load_some _ _ _ Hz Hb).
  - change (first 0 (b :: l ++ [a])) with b. assert (b ≠ 0) as Hz by set_solver.
    rewrite (load_some _ _ _ Hz Hb).
    cbn [mbind result_bind next].
    assert (first 0 (l ++ [a]) ≠ 0) by (destruct l; cbn; set_solver). decide_Z.
    eapply IH; [exact Hs|set_solver|lia].
Qed.

Lemma ll_rep_init : rep init [].
Proof.
  exists [], 0. split_and!; [done|constructor|set_solver|done|done|].
  intros a. cbn. rewrite lookup_empty. split; [by intros [? ?]|set_solver].
Qed.

Lemma rep_empty_head l xs : rep l xs → (head_ l =? 0) = bool_decide (xs = []).
Proof.
  intros (addrs & p & Hs & _ & H0 & -> & _). apply seg_length in Hs.
  destruct addrs as [|a addrs], xs as [|x xs]; try done.
  rewrite bool_decide_false by done. apply Z.eqb_neq. cbn. set_solver.
Qed.

Section Allocation.
Context (new : gmap Z (node T) → Z) (new_fresh : ∀ h, h !! new h = None ∧ new h ≠ 0).

Lemma ll_push_front_ok l xs v : rep l xs → ∃ l', push_front new l v = Ok l' ∧ rep l' (v :: xs).
Proof.
  intros Hrep. pose proof (rep_empty_head _ _ Hrep) as Hh.
  destruct Hrep as (addrs & p & Hs & Hnd & H0 & Hhead & Hc & Hdom).
  destruct (new_fresh (heap l)) as [Hnone Hnz]. set (a := new (heap l)) in *.
  assert (a ∉ addrs) as Ha by (rewrite <-Hdom, Hnone; by intros [? ?]).
  unfold push_front. fold a. rewrite Hh. pose proof (seg_length _ _ _ _ _ Hs) as Hlen.
  destruct addrs as [|b addrs], xs as [|x xs]; try done.
  - rewrite bool_decide_true by done. cbn. eexists. split; [done|].
    exists [a], 0. split_and!; [by cbn; rewrite lookup_insert_eq|apply NoDup_singleton|set_solver|done|cbn in *; lia|].
    intros c. cbn. destruct (decide (c = a)) as [->|];
      [rewrite lookup_insert_eq|rewrite lookup_insert_ne by done; rewrite Hdom]; set_solver.
  - rewrite bool_decide_false by done. cbn [negb]. rewrite Hhead. change (first 0 (b :: addrs)) with b.
    destruct Hs as [Hb Hs]. assert (b ≠ 0 ∧ a ≠ b) as [Hbz Hab] by set_solver.
    rewrite (set_prev_ok _ _ _ (mkn p (first 0 addrs) x)) by
      (done || by rewrite lookup_insert_ne).
    cbn [mbind result_bind]. rewrite (set_next_ok _ _ _ (mkn 0 0 v)) by
      (done || by rewrite lookup_insert_ne, lookup_insert_eq by done).
    cbn. eexists. split; [done|]. exists (a :: b :: addrs), 0.
    split_and!; [|by constructor|set_solver|done|cbn in *; lia|].
    + cbn [seg heap]. rewrite lookup_insert_eq, lookup_insert_ne, lookup_insert_eq by done.
      split_and!; [done|done|]. eapply seg_frame, Hs. intros c Hc'.
      apply NoDup_cons in Hnd as [Hnb _].
      rewrite !lookup_insert_ne by set_solver. done.
    + intros c. cbn [heap]. destruct (decide (c = a)) as [->|].
      { rewrite lookup_insert_eq. set_solver. }
      rewrite lookup_insert_ne by done. destruct (decide (c = b)) as [->|].
      { rewrite lookup_insert_eq. set_solver. }
      rewrite !lookup_insert_ne, Hdom by done. rewrite !elem_of_cons. naive_solver.
Qed.

Lemma ll_push_back_ok l xs v : rep l xs → ∃ l', push_back new l v = Ok l' ∧ rep l' (xs ++ [v]).
Proof.
  intros Hrep. pose proof (rep_empty_head _ _ Hrep) as Hh.
  destruct Hrep as (addrs & p & Hs & Hnd & H0 & Hhead & Hc & Hdom).
  destruct (new_fresh (heap l)) as [Hnone Hnz]. set (a := new (heap l)) in *.
  assert (a ∉ addrs) as Ha by (rewrite <-Hdom, Hnone; by intros [? ?]).
  unfold push_back. fold a. rewrite Hh. pose proof (seg_length _ _ _ _ _ Hs) as Hlen.
  destruct addrs as [|b addrs _] using rev_ind.
  { destruct xs; [|done]. rewrite bool_decide_true by done. cbn. eexists. split; [done|].
    exists [a], 0. split_and!; [by cbn; rewrite lookup_insert_eq|apply NoDup_singleton|set_solver|done|cbn in *; lia|].
    intros c. cbn. destruct (decide (c = a)) as [->|];
      [rewrite lookup_insert_eq|rewrite lookup_insert_ne by done; rewrite Hdom]; set_solver. }
  destruct xs as [|x xs _] using rev_ind; [rewrite length_app in Hlen; cbn in Hlen; lia|].
  rewrite bool_decide_false by (by destruct xs). cbn [negb].
  rewrite !length_app in Hlen. cbn [length] in Hlen.
  assert (length addrs = length xs) as Hlen' by lia.
  assert (b ≠ 0 ∧ a ≠ b) as [Hbz Hab] by set_solver.
  assert (seg (<[a:=mkn 0 0 v]> (heap l)) p (addrs ++ [b]) (xs ++ [x]) 0) as Hs1.
  { eapply seg_frame, Hs. intros c Hc'. by rewrite lookup_insert_ne by set_solver. }
  rewrite Hhead, (tail_loop_ok _ p addrs b (xs ++ [x])); [|done|done|].
  2:{ assert (length (addrs ++ [b]) <= base.size (<[a:=mkn 0 0 v]> (heap l)))%nat as Hsz.
      { apply store_size; [done|]. intros c Hc'. rewrite lookup_insert_ne by set_solver.
        by apply Hdom. }
      rewrite length_app in Hsz. cbn in Hsz. lia. }
  apply ll_seg_app in Hs1 as [Hs1 [Hb _]]; [|done]. cbn [mbind result_bind].
  rewrite (set_next_ok _ _ _ _ Hbz Hb). cbn [mbind result_bind prev value].
  rewrite (set_prev_ok _ _ _ (mkn 0 0 v)) by
    (done || by rewrite lookup_insert_ne, lookup_insert_eq by done).
  cbn. eexists. split; [done|]. exists (addrs ++ [b; a]), p.
  assert (b ∉ addrs) as Hnb by (apply NoDup_app in Hnd; set_solver).
  split_and!.
  - rewrite <-app_assoc. cbn [app]. apply ll_seg_app; [done|]. split.
    + eapply seg_frame, Hs1. intros c Hc'. cbn [heap].
      rewrite !lookup_insert_ne by set_solver. done.
    + cbn [seg heap]. rewrite lookup_insert_ne, lookup_insert_eq by done.
      by rewrite lookup_insert_eq.
  - change [b; a] with ([b] ++ [a]). rewrite app_assoc. apply NoDup_app.
    split_and!; [done|set_solver|apply NoDup_singleton].
  - set_solver.
  - by destruct addrs.
  - rewrite !length_app in *. cbn in *. lia.
  - intros c. cbn [heap]. destruct (decide (c = a)) as [->|].
    { rewrite lookup_insert_eq. set_solver. }
    rewrite lookup_insert_ne by done. destruct (decide (c = b)) as [->|].
    { rewrite lookup_insert_eq. set_solver. }
    rewrite !lookup_insert_ne, Hdom by done.
    rewrite !elem_of_app, !elem_of_cons, elem_of_nil. naive_solver.
Qed.

End Allocation.

(** ** Reading and removing *)
Lemma ll_at_ok l xs i x : rep l xs → nthZ xs i = Some x → at_ l i = Ok x.
Proof.
  intros (addrs & p & Hs & Hnd & H0 & Hhead & Hc & Hdom) Hx.
  assert (0 <= i < Z.of_nat (length xs)) by (apply nthZ_Some; eauto).
  pose proof (seg_length _ _ _ _ _ Hs) as Hlen. unfold at_. rewrite Hc. decide_Z.
  destruct (split_at _ _ _ Hx) as (ys & zs & -> & Hys).
  destruct (lookup_lt_is_Some_2 addrs (length ys)) as [a Ha];
    [rewrite Hlen, length_app; cbn; lia|].
  rewrite <-(take_drop_middle _ _ _ Ha) in Hs, H0, Hhead.
  assert (length (take (length ys) addrs) = length ys) as Ht
    by (rewrite length_take; apply lookup_lt_Some in Ha; lia).
  pose proof (node_at_ok _ _ _ _ _ _ Hs H0) as E. rewrite Ht in E.
  rewrite Hhead, <-Hys, E. cbn [mbind result_bind].
  apply ll_seg_app in Hs as [_ [Hb _]]; [|done].
  assert (a ≠ 0) as Haz by set_solver. decide_Z. by rewrite (load_some _ _ _ Haz Hb).
Qed.

Lemma remove_head_ok l x xs :
  rep l (x :: xs) → ∃ l', remove l 0 = Ok (x, l') ∧ rep l' xs.
Proof.
  intros (addrs & p & Hs & Hnd & H0 & Hhead & Hc & Hdom).
  destruct addrs as [|a addrs]; [done|]. destruct Hs as [Ha Hs]. cbn [length] in Hc.
  unfold remove. rewrite Hc, Hhead. decide_Z. change (first 0 (a :: addrs)) with a.
  assert (a ≠ 0) as Haz by set_solver. rewrite (load_some _ _ _ Haz Ha). cbn.
  eexists. split; [done|]. apply NoDup_cons in Hnd as [Hna Hnd].
  exists addrs, a. cbn [heap head_ count_]. split_and!; [|done|set_solver|done|lia|].
  - eapply seg_frame, Hs. intros c Hc'. by rewrite lookup_delete_ne by set_solver.
  - intros c. destruct (decide (c = a)) as [->|].
    + rewrite lookup_delete_eq. split; [by intros [? ?]|done].
    + rewrite lookup_delete_ne, Hdom, elem_of_cons by done. naive_solver.
Qed.

(** Unlinking node [a] from between [b] and what follows it. *)
Lemma unlink_ok h p (l : list Z) b a r ys y x zs :
  seg h p (l ++ b :: a :: r) (ys ++ y :: x :: zs) 0 → length l = length ys →
  NoDup (l ++ b :: a :: r) → 0 ∉ l ++ b :: a :: r →
  ∃ h1 h2, set_next h b (first 0 r) = Ok h1 ∧
    (if first 0 r =? 0 then mret h1 else set_prev h1 (first 0 r) b) = Ok h2 ∧
    seg (delete a h2) p (l ++ b :: r) (ys ++ y :: zs) 0 ∧
    ∀ c, is_Some (h2 !! c) ↔ is_Some (h !! c).
Proof.
  intros Hs Hlen Hnd H0. apply ll_seg_app in Hs as [Hl (Hb & Ha & Hr)]; [|done].
  apply NoDup_app in Hnd as (Hndl & Hlr & Hnd2).
  apply NoDup_cons in Hnd2 as [Hb' Hnd3]. apply NoDup_cons in Hnd3 as [Ha' Hndr].
  assert (b ≠ 0) as Hbz by set_solver. assert (a ≠ b) as Hab by set_solver.
  assert (∀ c, c ∈ l → c ≠ a ∧ c ≠ b) as Hl' by (intros c Hc; specialize (Hlr c Hc); set_solver).
  assert (∀ c, c ∈ r → c ≠ a ∧ c ≠ b) as Hr' by (intros c Hc; set_solver).
  rewrite (set_next_ok _ _ _ _ Hbz Hb). cbn [prev value].
  exists (<[b := mkn (last_or p l) (first 0 r) y]> h).
  destruct r as [|e r]; [change (first 0 []) with 0|change (first 0 (e :: r)) with e].
  - eexists. split; [done|]. split; [done|]. destruct zs; [|done]. split.
    + apply ll_seg_app; [done|]. split.
      * eapply seg_frame, Hl. intros c Hc. destruct (Hl' c Hc).
        by rewrite lookup_delete_ne, lookup_insert_ne by done.
      * cbn. by rewrite lookup_delete_ne, lookup_insert_eq by done.
    + intros c. destruct (decide (c = b)) as [->|];
        [rewrite lookup_insert_eq, Hb|rewrite lookup_insert_ne by done]; naive_solver.
  - destruct zs as [|z zs]; [done|]. destruct Hr as [He Hr].
    apply NoDup_cons in Hndr as [Hne Hndr].
    destruct (Hr' e ltac:(apply list_elem_of_here)) as [Hea Heb].
    assert (e ≠ 0) as Hez by (intros ->; apply H0; rewrite elem_of_app, !elem_of_cons; auto).
    assert (e ∉ l) as Hel by (intros Hc; apply (Hlr e Hc); rewrite !elem_of_cons; auto).
    rewrite (proj2 (Z.eqb_neq _ _)) by done.
    rewrite (set_prev_ok _ _ _ (mkn a (first 0 r) z)) by
      (done || by rewrite lookup_insert_ne).
    eexists. split; [done|]. split; [done|]. cbn [next value]. split.
    + apply ll_seg_app; [done|]. split.
      * eapply seg_frame, Hl. intros c Hc. destruct (Hl' c Hc).
        rewrite lookup_delete_ne, lookup_insert_ne, lookup_insert_ne; try done. by intros ->.
      * cbn [seg]. change (first 0 (e :: r)) with e. split_and!.
        -- by rewrite lookup_delete_ne, lookup_insert_ne, lookup_insert_eq by done.
        -- by rewrite lookup_delete_ne, lookup_insert_eq by done.
        -- eapply seg_frame, Hr. intros c Hc. destruct (Hr' c) as [? ?]; [by apply list_elem_of_further|].
           rewrite lookup_delete_ne, lookup_insert_ne, lookup_insert_ne; try done. by intros ->.
    + intros c. destruct (decide (c = e)) as [->|];
        [rewrite lookup_insert_eq, He; naive_solver|rewrite lookup_insert_ne by done].
      destruct (decide (c = b)) as [->|];
        [rewrite lookup_insert_eq, Hb|rewrite lookup_insert_ne by done]; naive_solver.
Qed.

Lemma ll_remove_ok l xs i x :
  rep l xs → nthZ xs i = Some x →
  ∃ l', remove l i = Ok (x, l') ∧ rep l' (delete (Z.to_nat i) xs).
Proof.
  intros Hrep Hx. assert (0 <= i < Z.of_nat (length xs)) as Hi by (apply nthZ_Some; eauto).
  destruct (decide (i = 0)) as [->|Hi0].
  { destruct xs as [|x' xs]; [done|]. injection Hx as ->. by apply remove_head_ok. }
  destruct Hrep as (addrs & p & Hs & Hnd & H0 & Hhead & Hc & Hdom).
  pose proof (seg_length _ _ _ _ _ Hs) as Hlen. unfold remove. rewrite Hc. decide_Z.
  destruct (split_at _ _ _ Hx) as (ys1 & zs & -> & Hys).
  destruct ys1 as [|y ys _] using rev_ind; [cbn in Hys; lia|].
  rewrite length_app in Hys. cbn [length] in Hys.
  destruct (lookup_lt_is_Some_2 addrs (S (length ys))) as [a Ha];
    [rewrite Hlen, !length_app; cbn; lia|].
  destruct (lookup_lt_is_Some_2 addrs (length ys)) as [b Hb];
    [apply lookup_lt_Some in Ha; lia|].
  assert (addrs = take (length ys) addrs ++ b :: a :: drop (S (S (length ys))) addrs) as Haddrs.
  { rewrite <-(take_drop_middle _ _ _ Hb) at 1. f_equal. f_equal. by apply drop_S. }
  assert (length (take (length ys) addrs) = length ys) as Ht
    by (rewrite length_take; apply lookup_lt_Some in Hb; lia).
  set (al := take (length ys) addrs) in *. set (ar := drop (S (S (length ys))) addrs) in *.
  rewrite <-app_assoc in Hs. cbn [app] in Hs.
  rewrite Haddrs in Hs, Hnd, H0, Hhead, Hdom.
  assert (node_at (Z.to_nat i) (heap l) (head_ l) = Ok a) as E.
  { pose proof Hs as Hs'. replace (al ++ b :: a :: ar) with ((al ++ [b]) ++ a :: ar) in *
      by by rewrite <-app_assoc.
    pose proof (node_at_ok _ _ _ _ _ _ Hs' H0) as E. rewrite length_app, Ht in E. cbn in E.
    by rewrite Hhead, <-Hys. }
  rewrite E. cbn [mbind result_bind].
  destruct (unlink_ok _ _ _ _ _ _ _ _ _ _ Hs Ht Hnd H0) as (h1 & h2 & E1 & E2 & Hs2 & Hd2).
  pose proof Hs as Hs'. apply ll_seg_app in Hs' as [_ (Hb' & Ha' & _)]; [|done].
  assert (a ≠ 0 ∧ b ≠ 0) as [Haz Hbz] by set_solver.
  rewrite (load_some _ _ _ Haz Ha'). cbn [mbind result_bind prev next value]. decide_Z.
  rewrite E1. cbn [mbind result_bind]. rewrite E2. cbn. eexists. split; [done|].
  replace (delete (Z.to_nat i) ((ys ++ [y]) ++ x :: zs)) with (ys ++ y :: zs).
  2:{ rewrite <-Hys, delete_take_drop. rewrite take_app_length' by (rewrite length_app; cbn; lia).
      rewrite drop_app_ge by (rewrite length_app; cbn; lia). rewrite length_app. cbn [length].
      replace (S (length ys + 1) - (length ys + 1))%nat with 1%nat by lia.
      by rewrite <-app_assoc. }
  exists (al ++ b :: ar), p. cbn [heap head_ count_].
  apply NoDup_app in Hnd as (Hndl & Hlr & Hnd2). apply NoDup_cons in Hnd2 as [Hb2 Hnd3].
  apply NoDup_cons in Hnd3 as [Ha2 Hndr].
  split_and!; [done| |set_solver|by rewrite Hhead; destruct al| |].
  - apply NoDup_app. split_and!; [done|set_solver|]. apply NoDup_cons. split; [set_solver|done].
  - rewrite !length_app. cbn [length]. lia.
  - intros c. destruct (decide (c = a)) as [->|].
    + rewrite lookup_delete_eq. split; [by intros [? ?]|]. intros Hin. exfalso.
      rewrite elem_of_app, elem_of_cons in Hin. destruct Hin as [Hin|[->|Hin]];
        [apply (Hlr a Hin); set_solver|set_solver|done].
    + rewrite lookup_delete_ne, Hd2, Hdom by done. rewrite !elem_of_app, !elem_of_cons. naive_solver.
Qed.

Lemma nthZ_out l xs i :
  rep l xs → nthZ xs i = None → (0 <=? i) && (i <? count_ l) = false.
Proof.
  intros (? & ? & _ & _ & _ & _ & Hc & _) Hx. apply nthZ_None in Hx. rewrite Hc.
  destruct (Z.leb_spec 0 i), (Z.ltb_spec i (Z.of_nat (length xs))); cbn; lia || done.
Qed.

Lemma ll_destroy_ok l xs :
  rep l xs → ∃ l', destroy l = Ok l' ∧ heap l' = ∅.
Proof.
  intros Hrep. unfold destroy. assert (Z.to_nat (count_ l) = length xs) as ->
    by (destruct Hrep as (? & ? & _ & _ & _ & _ & Hc & _); lia).
  revert l Hrep. induction xs as [|x xs IH]; intros l Hrep;
    pose proof Hrep as (addrs & p & Hs & _ & _ & _ & Hc & Hdom);
    cbn [length destroy_loop]; unfold empty; rewrite Hc.
  - exists l. split; [done|]. destruct addrs; [|done]. apply map_empty. intros a.
    apply eq_None_not_Some. rewrite Hdom. set_solver.
  - cbn [length]. decide_Z. destruct (remove_head_ok _ _ _ Hrep) as (l1 & -> & Hr1).
    cbn [mbind result_bind]. by apply IH.
Qed.

End Methods.

(** Any sequence of insertions at both ends, reads and removals on a new list behaves
    like the same sequence on a plain list: the same values are returned and an index
    out of range, and only that, stops in an assertion; no dangling pointer is ever
    followed, and destroying the list at the end frees every node. *)
Theorem linked_list_refines_list {T} (new : gmap Z (node T) → Z) (os : list (@op T)) :
  (∀ h, h !! new h = None ∧ new h ≠ 0) →
  refines (λ l xs, rep l xs ∧ ∃ l', destroy l = Ok l' ∧ heap l' = ∅)
    (run_all spec_op os []) (run_all (run_op new) os init).
Proof.
  intros Hnew. assert (∀ l xs, rep l xs → rep l xs ∧ ∃ l' : t T, destroy l = Ok l' ∧ heap l' = ∅)
    as Hd by (intros l xs ?; split; [done|by apply (ll_destroy_ok l xs)]).
  apply run_all_refines; [|by apply Hd, ll_rep_init].
  intros o l xs [Hrep _]. destruct o as [v|v|i|i]; cbn.
  - destruct (ll_push_back_ok new Hnew l xs v Hrep) as (l' & -> & Hr'). cbn. eauto.
  - destruct (ll_push_front_ok new Hnew l xs v Hrep) as (l' & -> & Hr'). cbn. eauto.
  - destruct (nthZ xs i) as [x|] eqn:Hx; cbn.
    + rewrite (ll_at_ok l xs i x) by done. cbn. eauto.
    + unfold at_. by rewrite (nthZ_out l xs i).
  - destruct (nthZ xs i) as [x|] eqn:Hx; cbn.
    + destruct (ll_remove_ok l xs i x Hrep Hx) as (l' & -> & Hr'). cbn. eauto.
    + unfold remove. by rewrite (nthZ_out l xs i).
Qed.

(** An allocator: an address above every one in use. *)
Definition bump {T} (h : gmap Z (node T)) : Z :=
  1 + foldr Z.max 0 (elements (dom h : gset Z)).

Lemma bump_fresh {T} (h : gmap Z (node T)) : h !! bump h = None ∧ bump h ≠ 0.
Proof.
  assert (∀ zs : list Z, 0 <= foldr Z.max 0 zs ∧ ∀ z, z ∈ zs → z <= foldr Z.max 0 zs) as Hmax.
  { induction zs as [|z zs [IH1 IH2]]; cbn; split; [lia|set_solver|lia|].
    intros y [->|Hy]%elem_of_cons; [lia|]. specialize (IH2 y Hy). lia. }
  destruct (Hmax (elements (dom h : gset Z))) as [H1 H2]. unfold bump. split; [|lia].
  apply not_elem_of_dom. rewrite <-elem_of_elements. intros Hin. specialize (H2 _ Hin). lia.
Qed.

Lemma linked_list_refines_list_witness :
  ∃ l, run_all (run_op bump) [PushBack 5; PushFront 4; PushBack 6; Remove 1; At 1; Remove 0] init
       = Ok ([None; None; None; Some 5; Some 6; Some 4], l) ∧ rep l [6].
Proof.
  destruct (linked_list_refines_list bump
    [PushBack 5; PushFront 4; PushBack 6; Remove 1; At 1; Remove 0] bump_fresh)
    as (l & E & Hr & _).
  exists l. split; [exact E|exact Hr].
Defined.

End LinkedList.
