(* ===== verification/LineEditor.v ===== *)
(** * LineEditor: reading a line of user input

    Models [LineEditor] (src/Common/src/line_editor.cpp, common/line_editor.hpp) and the
    events of common/keyboard_device.hpp, over [TextTerminal], [RingBuffer] and
    [LinkedList].  The keyboard is the list of the events it is going to deliver;
    [getline] answers [None] when it is still waiting for one.

    [spec_key] says on plain lists what a key does to the line being edited; the theorems
    show that [getline] returns the line so edited and that the terminal shows it. *)
From S2P Require Import Prelude Storage RingBuffer Vector TextDisplay Terminal LinkedList.
Import Storage TextTerminal.

Module LineEditor.

Definition MAXPROMPT : Z := 3.
Definition LINE_CAPACITY : Z := CONSOLE_WIDTH - MAXPROMPT.

(** ** Keyboard events *)
Definition KEYCODE_UP_ARROW : Z := 77.
Definition KEYCODE_LEFT_ARROW : Z := 78.
Definition KEYCODE_DOWN_ARROW : Z := 79.
Definition KEYCODE_RIGHT_ARROW : Z := 80.
Definition KEYCODE_NUMPAD_2 : Z := 90.
Definition KEYCODE_NUMPAD_4 : Z := 92.
Definition KEYCODE_NUMPAD_6 : Z := 94.
Definition KEYCODE_NUMPAD_8 : Z := 96.

Inductive KeycodeKeyState := PRESSED | RELEASED.

Record KeyboardEvent := mke { key : Z; state : KeycodeKeyState; ch : Z }.

(** ** State *)
Record t (D : Type) := mk {
  terminal_ : TextTerminal.t D;
  prompt_ : RingBuffer.t Z;
  history_ : LinkedList.t (RingBuffer.t Z);
}.
Arguments mk {D} _ _ _.
Arguments terminal_ {D} _.
Arguments prompt_ {D} _.
Arguments history_ {D} _.

(** The local variables of [getline]. *)
Record locals := mkl {
  user_input : RingBuffer.t Z;
  stashed_user_input : RingBuffer.t Z;
  linear_cursor : Z;
  history_cursor : Z;
}.

Section Methods.
Context {D : Type} `{TextDisplayDevice D}.
Implicit Types (ed : t D) (w : locals).

Definition with_terminal ed (s : TextTerminal.t D) : t D := mk s (prompt_ ed) (history_ ed).

(** [strnlen] of a C string: the characters before its nul, at most [size] of them. *)
Fixpoint strnlen (size : nat) (str : list Z) : Z :=
  match size, str with
  | S size, c :: str => if c =? 0 then 0 else 1 + strnlen size str
  | _, _ => 0
  end.

Fixpoint prompt_loop (n : nat) (i : nat) (str : list Z) (prompt : RingBuffer.t Z)
  : result (RingBuffer.t Z) :=
  match n with
  | O => mret prompt
  | S n =>
      c ← deref InvalidAccess (str !! i);
      '(_, prompt) ← RingBuffer.push_back MAXPROMPT prompt c;
      prompt_loop n (S i) str prompt
  end.

Definition set_prompt ed (size : Z) (str : list Z) : result (t D) :=
  prompt ← RingBuffer.clear MAXPROMPT (prompt_ ed);
  prompt ← prompt_loop (Z.to_nat (Z.min MAXPROMPT (strnlen (Z.to_nat size) str))) 0 str prompt;
  mret (mk (terminal_ ed) prompt (history_ ed)).

(** The constructor: the prompt is [">"]. *)
Definition init (s : TextTerminal.t D) : result (t D) :=
  set_prompt (mk s (RingBuffer.init MAXPROMPT) LinkedList.init) 1 [62; 0].

Definition add_history (new : gmap Z (LinkedList.node (RingBuffer.t Z)) → Z) ed
    (entry : RingBuffer.t Z) : result (t D) :=
  history ← LinkedList.push_front new (history_ ed) entry;
  mret (mk (terminal_ ed) (prompt_ ed) history).

(** Erase the input on the terminal: [terminal_.move_cursor_to_end()] and one backspace
    per character. *)
Definition erase_input ed w : result (t D) :=
  s ← move_cursor_to_end (terminal_ ed);
  s ← put_list s (replicate (Z.to_nat (RingBuffer.size (user_input w))) BACKSPACE);
  mret (with_terminal ed s).

(** [user_input] becomes the stashed input or the history entry the cursor names, and is
    echoed to the terminal. *)
Definition recall ed (input stashed : RingBuffer.t Z) (hc : Z) : result (t D * locals) :=
  input ← (if hc =? -1 then RingBuffer.copy_assign LINE_CAPACITY input stashed
           else entry ← LinkedList.at_ (history_ ed) hc;
                RingBuffer.copy_assign LINE_CAPACITY input entry);
  s ← putv LINE_CAPACITY (terminal_ ed) input;
  mret (with_terminal ed s, mkl input stashed (RingBuffer.size input) hc).

Definition key_left ed w : result (t D * locals) :=
  if 0 <? linear_cursor w then
    s ← move_cursor_left (terminal_ ed);
    mret (with_terminal ed s,
          mkl (user_input w) (stashed_user_input w) (linear_cursor w - 1) (history_cursor w))
  else mret (ed, w).

Definition key_right ed w : result (t D * locals) :=
  if linear_cursor w <? RingBuffer.size (user_input w) then
    s ← move_cursor_right (terminal_ ed);
    mret (with_terminal ed s,
          mkl (user_input w) (stashed_user_input w) (linear_cursor w + 1) (history_cursor w))
  else mret (ed, w).

Definition key_down ed w : result (t D * locals) :=
  if negb (history_cursor w =? -1) then
    ed ← erase_input ed w;
    recall ed (user_input w) (stashed_user_input w) (Z.max (history_cursor w - 1) (-1))
  else mret (ed, w).

Definition key_up ed w : result (t D * locals) :=
  if history_cursor w <? LinkedList.size (history_ ed) - 1 then
    ed ← erase_input ed w;
    stashed ← (if history_cursor w =? -1
               then RingBuffer.copy_assign LINE_CAPACITY (stashed_user_input w) (user_input w)
               else mret (stashed_user_input w));
    recall ed (user_input w) stashed
      (Z.min (history_cursor w + 1) (LinkedList.size (history_ ed) - 1))
  else mret (ed, w).

Definition key_backspace ed w : result (t D * locals) :=
  if 0 <? RingBuffer.size (user_input w) then
    let linear_cursor := linear_cursor w - 1 in
    if 0 <=? linear_cursor then
      input ← RingBuffer.remove LINE_CAPACITY (user_input w) linear_cursor;
      s ← putchar (terminal_ ed) BACKSPACE;
      mret (with_terminal ed s,
            mkl input (stashed_user_input w) linear_cursor (history_cursor w))
    else mret (ed, mkl (user_input w) (stashed_user_input w) linear_cursor (history_cursor w))
  else mret (ed, w).

Definition key_char ed w (ch : Z) : result (t D * locals) :=
  if (isprint ch || (ch =? TAB)) && (RingBuffer.size (user_input w) <? LINE_CAPACITY) then
    '(_, input) ← RingBuffer.insert LINE_CAPACITY (user_input w) (linear_cursor w) ch;
    s ← putchar (terminal_ ed) ch;
    mret (with_terminal ed s,
          mkl input (stashed_user_input w) (linear_cursor w + 1) (history_cursor w))
  else mret (ed, w).

(** The body of the loop, after [event.state] has been found to be [PRESSED]: the first
    component tells whether the line is complete. *)
Definition handle_key ed w (key ch : Z) : result (bool * (t D * locals)) :=
  if (key =? KEYCODE_NUMPAD_4) || (key =? KEYCODE_LEFT_ARROW) then pair false <$> key_left ed w
  else if (key =? KEYCODE_NUMPAD_6) || (key =? KEYCODE_RIGHT_ARROW)
  then pair false <$> key_right ed w
  else if (key =? KEYCODE_NUMPAD_2) || (key =? KEYCODE_DOWN_ARROW)
  then pair false <$> key_down ed w
  else if (key =? KEYCODE_NUMPAD_8) || (key =? KEYCODE_UP_ARROW) then pair false <$> key_up ed w
  else if ch =? BACKSPACE then pair false <$> key_backspace ed w
  else if ch =? NEWLINE then
    s ← putchar (terminal_ ed) NEWLINE; mret (true, (with_terminal ed s, w))
  else pair false <$> key_char ed w ch.

Fixpoint getline_loop (events : list KeyboardEvent) ed w
  : result (option (RingBuffer.t Z * list KeyboardEvent) * t D) :=
  match events with
  | [] => mret (None, ed)
  | e :: events =>
      match state e with
      | RELEASED => getline_loop events ed w
      | PRESSED =>
          '(have_a_newline, (ed, w)) ← handle_key ed w (key e) (ch e);
          if have_a_newline : bool then mret (Some (user_input w, events), ed)
          else getline_loop events ed w
      end
  end.

(** The line read, with the events left, or [None] while waiting for the keyboard. *)
Definition getline (events : list KeyboardEvent) ed
  : result (option (RingBuffer.t Z * list KeyboardEvent) * t D) :=
  s ← putv MAXPROMPT (terminal_ ed) (prompt_ ed);
  s ← putchar s SPACE;
  getline_loop events (with_terminal ed s)
    (mkl (RingBuffer.init LINE_CAPACITY) (RingBuffer.init LINE_CAPACITY) 0 (-1)).

(** The keys leave the prompt alone. *)
Ltac step_prompt :=
  repeat match goal with
  | |- (if ?c then _ else _) = Ok _ → _ => destruct c
  | |- _ ≫= _ = Ok _ → _ => intros (? & ? & ?)%bind_ok
  | |- mret _ = Ok _ → _ => intros [= <- <-]
  | H : mret _ = Ok _ |- _ => injection H as <- <-
  | H : _ ≫= _ = Ok _ |- _ => apply bind_ok in H as (? & ? & ?)
  | |- prompt_ _ = prompt_ _ => done
  end.

Lemma recall_prompt ed input stashed hc ed' w' :
  recall ed input stashed hc = Ok (ed', w') → prompt_ ed' = prompt_ ed.
Proof. unfold recall. by step_prompt. Qed.

Lemma erase_prompt ed w ed' : erase_input ed w = Ok ed' → prompt_ ed' = prompt_ ed.
Proof. unfold erase_input. by intros (? & _ & (? & _ & [= <-])%bind_ok)%bind_ok. Qed.

Lemma key_down_prompt ed w ed' w' : key_down ed w = Ok (ed', w') → prompt_ ed' = prompt_ ed.
Proof.
  unfold key_down. destruct (negb _); [|by intros [= <- <-]].
  intros (ed1 & E & Hr)%bind_ok. by rewrite (recall_prompt _ _ _ _ _ _ Hr), (erase_prompt _ _ _ E).
Qed.

Lemma key_up_prompt ed w ed' w' : key_up ed w = Ok (ed', w') → prompt_ ed' = prompt_ ed.
Proof.
  unfold key_up. destruct (_ <? _); [|by intros [= <- <-]].
  intros (ed1 & E & (st & _ & Hr)%bind_ok)%bind_ok.
  by rewrite (recall_prompt _ _ _ _ _ _ Hr), (erase_prompt _ _ _ E).
Qed.

Lemma key_left_prompt ed w ed' w' : key_left ed w = Ok (ed', w') → prompt_ ed' = prompt_ ed.
Proof. unfold key_left. by step_prompt. Qed.

Lemma key_right_prompt ed w ed' w' : key_right ed w = Ok (ed', w') → prompt_ ed' = prompt_ ed.
Proof. unfold key_right. by step_prompt. Qed.

Lemma key_backspace_prompt ed w ed' w' : key_backspace ed w = Ok (ed', w') → prompt_ ed' = prompt_ ed.
Proof. unfold key_backspace. cbn zeta. by step_prompt. Qed.

Lemma key_char_prompt ed w ch ed' w' : key_char ed w ch = Ok (ed', w') → prompt_ ed' = prompt_ ed.
Proof.
  unfold key_char. destruct (_ && _); [|by intros [= <- <-]].
  by intros ([? ?] & _ & (? & _ & [= <- <-])%bind_ok)%bind_ok.
Qed.

Lemma pair_ok {A B} (b b' : A) (m : result B) y : pair b <$> m = Ok (b', y) → m = Ok y.
Proof. destruct m; [|done]. by intros [= _ <-]. Qed.

Lemma handle_key_prompt ed w key ch b ed' w' :
  handle_key ed w key ch = Ok (b, (ed', w')) → prompt_ ed' = prompt_ ed.
Proof.
  unfold handle_key.
  destruct (_ || _); [intros E%pair_ok; by eapply key_left_prompt|].
  destruct (_ || _); [intros E%pair_ok; by eapply key_right_prompt|].
  destruct (_ || _); [intros E%pair_ok; by eapply key_down_prompt|].
  destruct (_ || _); [intros E%pair_ok; by eapply key_up_prompt|].
  destruct (_ =? _); [intros E%pair_ok; by eapply key_backspace_prompt|].
  destruct (_ =? _); [by intros (? & _ & [= <- <- <-])%bind_ok|].
  intros E%pair_ok. by eapply key_char_prompt.
Qed.

Lemma getline_loop_prompt events ed w r ed' :
  getline_loop events ed w = Ok (r, ed') → prompt_ ed' = prompt_ ed.
Proof.
  revert ed w. induction events as [|e events IH]; intros ed w; cbn; [by intros [= <- <-]|].
  destruct (state e); [|apply IH]. destruct (handle_key ed w (key e) (ch e)) as [[b [ed1 w1]]|] eqn:E; [|done].
  cbn. apply handle_key_prompt in E. rewrite <-E. destruct b; [by intros [= <- <-]|apply IH].
Qed.

(** ** Specification: editing a list of characters *)
Record line := mks { inp : list Z; cur : Z; stash : list Z; hc : Z }.

Definition spec_recall (hist : list (list Z)) (stash : list Z) (hc : Z) : line :=
  let inp := if hc =? -1 then stash else default [] (nthZ hist hc) in
  mks inp (Z.of_nat (length inp)) stash hc.

(** [None]: backspace at the beginning of a line that is not empty, after which the
    position of the cursor is lost. *)
Definition spec_key (hist : list (list Z)) (key ch : Z) (x : line) : option (bool * line) :=
  let n := Z.of_nat (length (inp x)) in
  if (key =? KEYCODE_NUMPAD_4) || (key =? KEYCODE_LEFT_ARROW) then
    Some (false, mks (inp x) (Z.max 0 (cur x - 1)) (stash x) (hc x))
  else if (key =? KEYCODE_NUMPAD_6) || (key =? KEYCODE_RIGHT_ARROW) then
    Some (false, mks (inp x) (Z.min n (cur x + 1)) (stash x) (hc x))
  else if (key =? KEYCODE_NUMPAD_2) || (key =? KEYCODE_DOWN_ARROW) then
    Some (false, if hc x =? -1 then x else spec_recall hist (stash x) (hc x - 1))
  else if (key =? KEYCODE_NUMPAD_8) || (key =? KEYCODE_UP_ARROW) then
    Some (false, if hc x <? Z.of_nat (length hist) - 1
                 then spec_recall hist (if hc x =? -1 then inp x else stash x) (hc x + 1)
                 else x)
  else if ch =? BACKSPACE then
    if n =? 0 then Some (false, x)
    else if cur x =? 0 then None
    else Some (false, mks (delete (Z.to_nat (cur x - 1)) (inp x)) (cur x - 1) (stash x) (hc x))
  else if ch =? NEWLINE then Some (true, x)
  else if (isprint ch || (ch =? TAB)) && (n <? LINE_CAPACITY) then
    Some (false, mks (RingBuffer.list_insert (cur x) ch (inp x)) (cur x + 1) (stash x) (hc x))
  else Some (false, x).

Fixpoint spec_line (hist : list (list Z)) (events : list KeyboardEvent) (x : line)
  : option (list Z * list KeyboardEvent) :=
  match events with
  | [] => None
  | e :: events =>
      match state e with
      | RELEASED => spec_line hist events x
      | PRESSED =>
          match spec_key hist (key e) (ch e) x with
          | Some (true, x) => Some (inp x, events)
          | Some (false, x) => spec_line hist events x
          | None => None
          end
      end
  end.

(** None of the events completes the line. *)
Fixpoint spec_waits (hist : list (list Z)) (events : list KeyboardEvent) (x : line) : bool :=
  match events with
  | [] => true
  | e :: events =>
      match state e with
      | RELEASED => spec_waits hist events x
      | PRESSED =>
          match spec_key hist (key e) (ch e) x with
          | Some (false, x) => spec_waits hist events x
          | _ => false
          end
      end
  end.

Lemma spec_line_rest hist events x l rest :
  spec_line hist events x = Some (l, rest) → (length rest < length events)%nat.
Proof.
  revert x. induction events as [|e events IH]; intros x; cbn; [done|].
  destruct (state e); [|intros E%IH; lia].
  destruct (spec_key hist (key e) (ch e) x) as [[[] x']|]; [intros [= _ <-]; lia|intros E%IH; lia|done].
Qed.

(** ** What the terminal shows of the line being edited

    The row [y] of the terminal holds [pre] (the prompt and a space) and the input, the
    cursor is [cur] characters into the input, and nothing is below. *)
Definition echoes (a : text) (y : Z) (above : Z → list Z) (pre inp : list Z) (cur : Z) : Prop :=
  text_y a = y ∧ 0 <= y < CONSOLE_HEIGHT ∧
  length (text_lines a) = Z.to_nat CONSOLE_HEIGHT ∧
  nth_line (text_lines a) y = pre ++ inp ∧
  text_x a = Z.of_nat (length pre) + cur ∧ 0 <= cur <= Z.of_nat (length inp) ∧
  (∀ row, y < row → nth_line (text_lines a) row = []) ∧
  (∀ row, 0 <= row < y → nth_line (text_lines a) row = above row).

(** A character that the terminal just stores. *)
Definition storable (ch : Z) : Prop := ch ≠ 0 ∧ ch ≠ NEWLINE ∧ ch ≠ BACKSPACE.

Lemma accepted_storable ch : isprint ch || (ch =? TAB) = true → storable ch.
Proof.
  unfold storable, isprint, NEWLINE, BACKSPACE, TAB.
  rewrite orb_true_iff, andb_true_iff, !Z.leb_le, Z.eqb_eq. lia.
Qed.

Lemma echoes_show a y above pre inp cur :
  echoes a y above pre inp cur → spec_show a = Ok a.
Proof.
  intros (Hy & Hr & _). unfold spec_show. rewrite Hy, row_of_lt by done. done.
Qed.

(** Replacing the input on the row of the cursor. *)
Lemma echoes_set_row a y above pre inp cur inp' cur' :
  echoes a y above pre inp cur → 0 <= cur' <= Z.of_nat (length inp') →
  echoes (mkt (set_row (text_lines a) y (pre ++ inp')) (Z.of_nat (length pre) + cur') y)
    y above pre inp' cur'.
Proof.
  intros (Hy & Hr & Hlen & Hl & Hx & Hc & Hb & Ha) Hc'. unfold echoes.
  cbn [text_x text_y text_lines]. split_and!; [done|lia|lia| | |done|lia|lia| |].
  - unfold set_row. by rewrite length_insert.
  - by rewrite nth_set_row, Z.eqb_refl by (done || lia).
  - intros row Hrow. rewrite nth_set_row by (done || lia). decide_Z. by apply Hb.
  - intros row Hrow. rewrite nth_set_row by (done || lia). decide_Z. by apply Ha.
Qed.

Lemma echoes_move a y above pre inp cur cur' :
  echoes a y above pre inp cur → 0 <= cur' <= Z.of_nat (length inp) →
  echoes (mkt (text_lines a) (Z.of_nat (length pre) + cur') (text_y a)) y above pre inp cur'.
Proof.
  intros (Hy & Hr & Hlen & Hl & Hx & Hc & Hb & Ha) Hc'. unfold echoes.
  cbn [text_x text_y text_lines]. by split_and!; [done|lia|lia|done|done|done|lia|lia|done|done].
Qed.

Lemma list_insert_app (pre inp : list Z) cur ch :
  0 <= cur <= Z.of_nat (length inp) →
  RingBuffer.list_insert (Z.of_nat (length pre) + cur) ch (pre ++ inp)
  = pre ++ RingBuffer.list_insert cur ch inp.
Proof.
  intros Hc. unfold RingBuffer.list_insert.
  rewrite take_app_ge, drop_app_ge by lia.
  replace (Z.to_nat (Z.of_nat (length pre) + cur) - length pre)%nat with (Z.to_nat cur) by lia.
  by rewrite <-app_assoc.
Qed.

Lemma list_insert_length (l : list Z) cur ch :
  0 <= cur <= Z.of_nat (length l) →
  length (RingBuffer.list_insert cur ch l) = S (length l).
Proof.
  intros Hc. unfold RingBuffer.list_insert. rewrite length_app, length_take. cbn [length].
  rewrite length_drop. lia.
Qed.

Lemma echoes_type a y above pre inp cur ch :
  echoes a y above pre inp cur → storable ch →
  Z.of_nat (length pre) + Z.of_nat (length inp) + 1 < CONSOLE_WIDTH →
  ∃ a', spec_putchar a ch = Ok a' ∧
        echoes a' y above pre (RingBuffer.list_insert cur ch inp) (cur + 1).
Proof.
  intros He (Hz & Hn & Hb) Hw. pose proof He as (Hy & Hr & Hlen & Hl & Hx & Hc & _).
  unfold spec_putchar. decide_Z. rewrite spec_normal_eq. unfold make_room. rewrite Hy.
  decide_Z. cbn zeta. rewrite Hy, Hl, Hx, length_app. decide_Z.
  cbn [mbind result_bind mret result_ret]. unfold type_char. rewrite Hy, Hl, Hx. decide_Z.
  assert (typed (pre ++ inp) (Z.of_nat (length pre) + cur) ch
    = pre ++ RingBuffer.list_insert cur ch inp) as ->.
  { unfold typed. rewrite length_app. decide_Z. by apply list_insert_app. }
  pose proof (list_insert_length inp cur ch Hc).
  pose proof (echoes_set_row _ _ _ _ _ _ (RingBuffer.list_insert cur ch inp) (cur + 1) He
    ltac:(lia)) as He'.
  rewrite <-Z.add_assoc. eexists. split; [by eapply echoes_show|done].
Qed.

Lemma echoes_backspace a y above pre inp cur :
  echoes a y above pre inp cur → 0 < cur →
  ∃ a', spec_putchar a BACKSPACE = Ok a' ∧
        echoes a' y above pre (delete (Z.to_nat (cur - 1)) inp) (cur - 1).
Proof.
  intros He H0. pose proof He as (Hy & Hr & Hlen & Hl & Hx & Hc & _).
  unfold spec_putchar, spec_backspace. rewrite Hy, row_of_lt by done.
  cbn [Z.eqb BACKSPACE NEWLINE mbind result_bind mret result_ret]. rewrite Hl, Hx.
  replace (Z.max 0 (Z.of_nat (length pre) + cur - 1)) with (Z.of_nat (length pre) + (cur - 1))
    by lia.
  assert (delete (Z.to_nat (Z.of_nat (length pre) + (cur - 1))) (pre ++ inp)
    = pre ++ delete (Z.to_nat (cur - 1)) inp) as ->.
  { rewrite delete_take_drop, take_app_ge, drop_app_ge by lia.
    rewrite <-app_assoc. f_equal. rewrite delete_take_drop. f_equal; f_equal; lia. }
  assert (length (delete (Z.to_nat (cur - 1)) inp) = length inp - 1)%nat as Hdl
    by (apply length_delete, lookup_lt_is_Some; lia).
  assert (0 <= cur - 1 <= Z.of_nat (length (delete (Z.to_nat (cur - 1)) inp))) as Hc'.
  { rewrite Hdl. lia. }
  pose proof (echoes_set_row _ _ _ _ _ _ _ _ He Hc') as He'.
  eexists. split; [by eapply echoes_show|done].
Qed.

Section Correctness.
Context `{!TextDisplayDeviceLaws D}.

Definition session (s : TextTerminal.t D) y above pre inp cur : Prop :=
  ∃ a, TextTerminal.rep s a ∧ echoes a y above pre inp cur.

Lemma term_put_ok (s : TextTerminal.t D) a c a' :
  TextTerminal.rep s a → spec_putchar a c = Ok a' →
  ∃ s', putchar s c = Ok s' ∧ TextTerminal.rep s' a'.
Proof.
  intros Hr E. pose proof (putchar_refines s a c Hr) as Hp. rewrite E in Hp.
  destruct Hp as (s' & E' & Hr'). destruct (putchar s c) as [s1|]; [|done].
  injection E' as ->. eauto.
Qed.

Lemma move_ok (s : TextTerminal.t D) a o m a' :
  TextTerminal.rep s a → run_op o s = pair () <$> m → spec_op o a = Ok ((), a') →
  ∃ s', m = Ok s' ∧ TextTerminal.rep s' a'.
Proof.
  intros Hr Em E. pose proof (terminal_op_refines o s a Hr) as Hp. rewrite E, Em in Hp.
  destruct Hp as (s' & E' & Hr'). destruct m as [s1|]; [|done]. injection E' as ->. eauto.
Qed.

Lemma session_type s y above pre inp cur c :
  session s y above pre inp cur → storable c →
  Z.of_nat (length pre) + Z.of_nat (length inp) + 1 < CONSOLE_WIDTH →
  ∃ s', putchar s c = Ok s' ∧
        session s' y above pre (RingBuffer.list_insert cur c inp) (cur + 1).
Proof.
  intros (a & Hr & He) Hc Hw. destruct (echoes_type _ _ _ _ _ _ c He Hc Hw) as (a' & E & He').
  destruct (term_put_ok _ _ _ _ Hr E) as (s' & E' & Hr'). exists s'. split; [done|]. by exists a'.
Qed.

Lemma session_backspace s y above pre inp cur :
  session s y above pre inp cur → 0 < cur →
  ∃ s', putchar s BACKSPACE = Ok s' ∧
        session s' y above pre (delete (Z.to_nat (cur - 1)) inp) (cur - 1).
Proof.
  intros (a & Hr & He) Hc. destruct (echoes_backspace _ _ _ _ _ _ He Hc) as (a' & E & He').
  destruct (term_put_ok _ _ _ _ Hr E) as (s' & E' & Hr'). exists s'. split; [done|]. by exists a'.
Qed.

(** A cursor movement to column [cur'] of the input. *)
Lemma session_goto s y above pre inp cur o m cur' :
  session s y above pre inp cur → run_op o s = pair () <$> m →
  0 <= cur' <= Z.of_nat (length inp) →
  (∀ a, echoes a y above pre inp cur →
     spec_op o a
     = pair () <$> spec_show (mkt (text_lines a) (Z.of_nat (length pre) + cur') (text_y a))) →
  ∃ s', m = Ok s' ∧ session s' y above pre inp cur'.
Proof.
  intros (a & Hr & He) Em Hc Hspec. pose proof (echoes_move _ _ _ _ _ _ _ He Hc) as He'.
  pose proof (Hspec a He) as E. rewrite (echoes_show _ _ _ _ _ _ He') in E.
  destruct (move_ok _ _ _ _ _ Hr Em E) as (s' & E' & Hr'). exists s'. split; [done|]. eexists. eauto.
Qed.

Lemma echoes_line_length a y above pre inp cur :
  echoes a y above pre inp cur →
  line_length a = Ok (Z.of_nat (length pre) + Z.of_nat (length inp)).
Proof.
  intros (Hy & Hrow & _ & Hl & _). unfold line_length. rewrite Hy, row_of_lt by done.
  cbn. rewrite Hl, length_app. f_equal. lia.
Qed.

Lemma session_left s y above pre inp cur :
  session s y above pre inp cur → 0 < cur →
  ∃ s', move_cursor_left s = Ok s' ∧ session s' y above pre inp (cur - 1).
Proof.
  intros Hs H0. pose proof Hs as (_ & _ & _ & _ & _ & _ & _ & Hc & _).
  eapply (session_goto _ _ _ _ _ _ Left); [exact Hs|done|lia|].
  intros a (_ & _ & _ & _ & Hx & _). unfold spec_op. rewrite Hx. do 3 f_equal. lia.
Qed.

Lemma session_right s y above pre inp cur :
  session s y above pre inp cur → cur < Z.of_nat (length inp) →
  ∃ s', move_cursor_right s = Ok s' ∧ session s' y above pre inp (cur + 1).
Proof.
  intros Hs H0. pose proof Hs as (_ & _ & _ & _ & _ & _ & _ & Hc & _).
  eapply (session_goto _ _ _ _ _ _ Right); [exact Hs|done|lia|].
  intros a He. unfold spec_op. rewrite (echoes_line_length _ _ _ _ _ _ He).
  pose proof He as (_ & _ & _ & _ & Hx & _). rewrite Hx. cbn [mbind result_bind].
  do 3 f_equal. lia.
Qed.

Lemma session_end s y above pre inp cur :
  session s y above pre inp cur →
  ∃ s', move_cursor_to_end s = Ok s' ∧ session s' y above pre inp (Z.of_nat (length inp)).
Proof.
  intros Hs. eapply (session_goto _ _ _ _ _ _ End_); [exact Hs|done|lia|].
  intros a He. unfold spec_op. by rewrite (echoes_line_length _ _ _ _ _ _ He).
Qed.

(** Erasing the whole input, and echoing a new one. *)
Lemma session_erase inp s y above pre :
  session s y above pre inp (Z.of_nat (length inp)) →
  ∃ s', put_list s (replicate (length inp) BACKSPACE) = Ok s' ∧ session s' y above pre [] 0.
Proof.
  revert s. induction inp as [|c inp IH] using rev_ind; intros s Hs; [by exists s|].
  rewrite length_app in *. cbn [length] in *.
  destruct (session_backspace _ _ _ _ _ _ Hs) as (s1 & E1 & Hs1); [lia|].
  rewrite Nat.add_1_r. cbn [replicate put_list]. rewrite E1. cbn [mbind result_bind].
  apply IH. replace (Z.of_nat (length inp + 1) - 1) with (Z.of_nat (length inp)) in Hs1 by lia.
  by rewrite Nat2Z.id, delete_middle, app_nil_r in Hs1.
Qed.

Lemma session_echo cs s y above pre inp :
  session s y above pre inp (Z.of_nat (length inp)) → Forall storable cs →
  Z.of_nat (length pre) + Z.of_nat (length inp) + Z.of_nat (length cs) < CONSOLE_WIDTH →
  ∃ s', put_list s cs = Ok s' ∧
        session s' y above pre (inp ++ cs) (Z.of_nat (length (inp ++ cs))).
Proof.
  intros Hs Hcs. revert s inp Hs. induction Hcs as [|c cs Hc Hcs IH]; intros s inp Hs Hw.
  { exists s. by rewrite app_nil_r. }
  cbn [length put_list] in *.
  destruct (session_type _ _ _ _ _ _ c Hs Hc) as (s1 & -> & Hs1); [lia|].
  cbn [mbind result_bind].
  assert (RingBuffer.list_insert (Z.of_nat (length inp)) c inp = inp ++ [c]) as Hins.
  { unfold RingBuffer.list_insert. rewrite Nat2Z.id, take_ge, drop_ge by lia. done. }
  rewrite Hins in Hs1. change (inp ++ c :: cs) with (inp ++ [c] ++ cs). rewrite app_assoc.
  apply IH; rewrite ?length_app; cbn [length]; [|lia].
  by replace (Z.of_nat (length inp + 1)) with (Z.of_nat (length inp) + 1) by lia.
Qed.

(** ** Keys *)
Lemma ring_size_ok {CAPACITY} (b : RingBuffer.t Z) xs :
  RingBuffer.rep CAPACITY b xs →
  RingBuffer.size b = Z.of_nat (length xs) ∧ Z.of_nat (length xs) <= CAPACITY.
Proof. intros (_ & Hc & Hle & _). unfold RingBuffer.size. lia. Qed.

Lemma LINE_CAPACITY_pos : 0 < LINE_CAPACITY.
Proof. done. Qed.

Definition holds_history ed (hist : list (list Z)) : Prop :=
  Forall (Forall storable) hist ∧
  ∃ hs, LinkedList.rep (history_ ed) hs ∧ Forall2 (RingBuffer.rep LINE_CAPACITY) hs hist.

Section Session.
Context (y : Z) (above : Z → list Z) (pre : list Z) (hist : list (list Z)).
Context (pre_short : Z.of_nat (length pre) + LINE_CAPACITY < CONSOLE_WIDTH).

Definition edits ed w (x : line) : Prop :=
  session (terminal_ ed) y above pre (inp x) (cur x) ∧
  RingBuffer.rep LINE_CAPACITY (user_input w) (inp x) ∧
  RingBuffer.rep LINE_CAPACITY (stashed_user_input w) (stash x) ∧
  linear_cursor w = cur x ∧ history_cursor w = hc x ∧
  -1 <= hc x < Z.of_nat (length hist) ∧
  Forall storable (inp x) ∧ Forall storable (stash x) ∧ holds_history ed hist.

Lemma edits_history ed w x : edits ed w x → holds_history ed hist.
Proof. by intros (_ & _ & _ & _ & _ & _ & _ & _ & ?). Qed.

Lemma history_entry ed i l :
  holds_history ed hist → nthZ hist i = Some l →
  ∃ b, LinkedList.at_ (history_ ed) i = Ok b ∧ RingBuffer.rep LINE_CAPACITY b l ∧
       Forall storable l.
Proof.
  intros (Hst & hs & Hrep & Hall) Hl. unfold nthZ in Hl.
  destruct (Z.leb_spec 0 i); [|done].
  destruct (Forall2_lookup_r _ _ _ _ _ Hall Hl) as (b & Hb & Hrb).
  exists b. split_and!; [|done|by eapply Forall_lookup_1].
  eapply LinkedList.ll_at_ok; [done|]. unfold nthZ. by decide_Z.
Qed.

Lemma recall_ok ed input stashed inp0 st h :
  session (terminal_ ed) y above pre [] 0 → holds_history ed hist →
  RingBuffer.rep LINE_CAPACITY input inp0 → RingBuffer.rep LINE_CAPACITY stashed st →
  Forall storable st → -1 <= h < Z.of_nat (length hist) →
  ∃ ed' w', recall ed input stashed h = Ok (ed', w') ∧ edits ed' w' (spec_recall hist st h).
Proof.
  intros Hs Hh Hin Hst Hsto Hr.
  set (l := if h =? -1 then st else default [] (nthZ hist h)).
  assert (∃ input', (if h =? -1 then RingBuffer.copy_assign LINE_CAPACITY input stashed
     else entry ← LinkedList.at_ (history_ ed) h;
          RingBuffer.copy_assign LINE_CAPACITY input entry) = Ok input' ∧
     RingBuffer.rep LINE_CAPACITY input' l ∧ Forall storable l) as (input' & E & Hin' & Hl).
  { unfold l. destruct (Z.eqb_spec h (-1)).
    - destruct (RingBuffer.copy_assign_ok _ LINE_CAPACITY_pos input stashed _ _ Hin Hst)
        as (b & ? & ?). eauto.
    - destruct (nthZ_Some hist h) as [_ [e He]]; [lia|]. rewrite He. cbn [default].
      destruct (history_entry _ _ _ Hh He) as (b & -> & Hb & Hsb). cbn [mbind result_bind].
      destruct (RingBuffer.copy_assign_ok _ LINE_CAPACITY_pos input b _ _ Hin Hb)
        as (b' & ? & ?). eauto. }
  unfold recall. rewrite E. cbn [mbind result_bind].
  rewrite (putv_ok _ _ _ l LINE_CAPACITY_pos Hin').
  destruct (ring_size_ok _ _ Hin') as [Hsz Hle].
  destruct (session_echo l _ _ _ _ [] Hs Hl) as (s' & -> & Hs'); [cbn; lia|].
  cbn. do 2 eexists. split; [done|]. unfold edits, spec_recall. fold l.
  cbn [inp cur stash hc]. split_and!; done || lia.
Qed.

Lemma erase_ok ed w x :
  edits ed w x →
  ∃ ed', erase_input ed w = Ok ed' ∧ session (terminal_ ed') y above pre [] 0 ∧
         holds_history ed' hist ∧ history_ ed' = history_ ed.
Proof.
  intros (Hs & Hin & _ & _ & _ & _ & _ & _ & Hh). unfold erase_input.
  destruct (session_end _ _ _ _ _ _ Hs) as (s1 & -> & Hs1). cbn [mbind result_bind].
  destruct (ring_size_ok _ _ Hin) as [-> _]. rewrite Nat2Z.id.
  destruct (session_erase _ _ _ _ _ Hs1) as (s2 & -> & Hs2). cbn. eexists. by split_and!.
Qed.

Lemma key_left_ok ed w x :
  edits ed w x →
  ∃ ed' w', key_left ed w = Ok (ed', w') ∧
            edits ed' w' (mks (inp x) (Z.max 0 (cur x - 1)) (stash x) (hc x)).
Proof.
  intros He. pose proof He as (Hs & ? & ? & Hlc & Hhc & ? & ? & ? & ?).
  pose proof Hs as (_ & _ & _ & _ & _ & _ & _ & Hc & _). unfold key_left. rewrite Hlc.
  destruct (Z.ltb_spec 0 (cur x)).
  - destruct (session_left _ _ _ _ _ _ Hs) as (s' & -> & Hs'); [done|]. cbn.
    replace (Z.max 0 (cur x - 1)) with (cur x - 1) by lia.
    do 2 eexists. split; [done|]. unfold edits. cbn [inp cur stash hc]. split_and!; done || lia.
  - replace (Z.max 0 (cur x - 1)) with (cur x) by lia. by exists ed, w.
Qed.

Lemma key_right_ok ed w x :
  edits ed w x →
  ∃ ed' w', key_right ed w = Ok (ed', w') ∧
    edits ed' w' (mks (inp x) (Z.min (Z.of_nat (length (inp x))) (cur x + 1)) (stash x) (hc x)).
Proof.
  intros He. pose proof He as (Hs & Hin & ? & Hlc & Hhc & ? & ? & ? & ?).
  pose proof Hs as (_ & _ & _ & _ & _ & _ & _ & Hc & _). unfold key_right. rewrite Hlc.
  destruct (ring_size_ok _ _ Hin) as [-> _].
  destruct (Z.ltb_spec (cur x) (Z.of_nat (length (inp x)))).
  - destruct (session_right _ _ _ _ _ _ Hs) as (s' & -> & Hs'); [done|]. cbn.
    replace (Z.min (Z.of_nat (length (inp x))) (cur x + 1)) with (cur x + 1) by lia.
    do 2 eexists. split; [done|]. unfold edits. cbn [inp cur stash hc]. split_and!; done || lia.
  - replace (Z.min (Z.of_nat (length (inp x))) (cur x + 1)) with (cur x) by lia.
    by exists ed, w.
Qed.

Lemma key_down_ok ed w x :
  edits ed w x →
  ∃ ed' w', key_down ed w = Ok (ed', w') ∧
    edits ed' w' (if hc x =? -1 then x else spec_recall hist (stash x) (hc x - 1)).
Proof.
  intros He. pose proof He as (Hs & Hin & Hst & Hlc & Hhc & Hr & ? & ? & Hh).
  unfold key_down. rewrite Hhc. destruct (Z.eqb_spec (hc x) (-1)); cbn [negb]; [by exists ed, w|].
  destruct (erase_ok _ _ _ He) as (ed1 & -> & Hs1 & Hh1 & _). cbn [mbind result_bind].
  replace (Z.max (hc x - 1) (-1)) with (hc x - 1) by lia.
  eapply recall_ok; try done. lia.
Qed.

Lemma key_up_ok ed w x :
  edits ed w x →
  ∃ ed' w', key_up ed w = Ok (ed', w') ∧
    edits ed' w' (if hc x <? Z.of_nat (length hist) - 1
                  then spec_recall hist (if hc x =? -1 then inp x else stash x) (hc x + 1)
                  else x).
Proof.
  intros He. pose proof He as (Hs & Hin & Hst & Hlc & Hhc & Hr & Hsi & Hss & Hh).
  assert (LinkedList.size (history_ ed) = Z.of_nat (length hist)) as Hsize.
  { destruct Hh as (_ & hs & (? & ? & _ & _ & _ & _ & Hc & _) & Hall).
    unfold LinkedList.size. rewrite Hc. by rewrite (Forall2_length _ _ _ Hall). }
  unfold key_up. rewrite Hhc, Hsize.
  destruct (Z.ltb_spec (hc x) (Z.of_nat (length hist) - 1)); [|by exists ed, w].
  destruct (erase_ok _ _ _ He) as (ed1 & -> & Hs1 & Hh1 & Hhist1). cbn [mbind result_bind].
  assert (∃ st, (if hc x =? -1
      then RingBuffer.copy_assign LINE_CAPACITY (stashed_user_input w) (user_input w)
      else mret (stashed_user_input w)) = Ok st ∧
    RingBuffer.rep LINE_CAPACITY st (if hc x =? -1 then inp x else stash x)) as (st & -> & Hst').
  { destruct (Z.eqb_spec (hc x) (-1)); [|by eexists].
    destruct (RingBuffer.copy_assign_ok _ LINE_CAPACITY_pos (stashed_user_input w)
      (user_input w) _ _ Hst Hin) as (b & ? & ?). eauto. }
  cbn [mbind result_bind]. rewrite Hhist1, Hsize.
  replace (Z.min (hc x + 1) (Z.of_nat (length hist) - 1)) with (hc x + 1) by lia.
  eapply recall_ok; try done; [by destruct (hc x =? -1)|lia].
Qed.

Lemma key_backspace_ok ed w x :
  edits ed w x → inp x = [] ∨ 0 < cur x →
  ∃ ed' w', key_backspace ed w = Ok (ed', w') ∧
    edits ed' w' (if Z.of_nat (length (inp x)) =? 0 then x
                  else mks (delete (Z.to_nat (cur x - 1)) (inp x)) (cur x - 1) (stash x) (hc x)).
Proof.
  intros He Hpos. pose proof He as (Hs & Hin & Hst & Hlc & Hhc & Hr & Hsi & Hss & Hh).
  pose proof Hs as (_ & _ & _ & _ & _ & _ & _ & Hc & _).
  unfold key_backspace. rewrite Hlc. destruct (ring_size_ok _ _ Hin) as [-> _].
  destruct (Z.eqb_spec (Z.of_nat (length (inp x))) 0) as [E|E].
  { rewrite E. by exists ed, w. }
  destruct Hpos as [Hn|Hpos]; [by rewrite Hn in E|]. decide_Z.
  destruct (RingBuffer.remove_ok _ LINE_CAPACITY_pos _ _ (cur x - 1) Hin) as (b & -> & Hb); [lia|].
  cbn [mbind result_bind].
  destruct (session_backspace _ _ _ _ _ _ Hs Hpos) as (s' & -> & Hs'). cbn.
  do 2 eexists. split; [done|]. unfold edits. cbn [inp cur stash hc].
  split_and!; done || lia || by apply Forall_delete.
Qed.

Lemma key_char_ok ed w x c :
  edits ed w x →
  ∃ ed' w', key_char ed w c = Ok (ed', w') ∧
    edits ed' w'
      (if (isprint c || (c =? TAB)) && (Z.of_nat (length (inp x)) <? LINE_CAPACITY)
       then mks (RingBuffer.list_insert (cur x) c (inp x)) (cur x + 1) (stash x) (hc x) else x).
Proof.
  intros He. pose proof He as (Hs & Hin & Hst & Hlc & Hhc & Hr & Hsi & Hss & Hh).
  pose proof Hs as (_ & _ & _ & _ & _ & _ & _ & Hc & _).
  unfold key_char. rewrite Hlc. destruct (ring_size_ok _ _ Hin) as [-> Hle].
  destruct (isprint c || (c =? TAB)) eqn:Hacc; cbn [andb]; [|by exists ed, w].
  destruct (Z.ltb_spec (Z.of_nat (length (inp x))) LINE_CAPACITY) as [Hlt|]; [|by exists ed, w].
  apply accepted_storable in Hacc.
  destruct (RingBuffer.insert_ok _ LINE_CAPACITY_pos _ _ (cur x) c Hin Hc) as (b & -> & Hb).
  rewrite (proj2 (Z.ltb_lt _ _) Hlt) in Hb. cbn [mbind result_bind].
  destruct (session_type _ _ _ _ _ _ c Hs Hacc) as (s' & -> & Hs'); [lia|]. cbn.
  do 2 eexists. split; [done|]. unfold edits. cbn [inp cur stash hc].
  split_and!; try (done || lia). apply Forall_app. split; [by apply Forall_take|]. constructor; [done|by apply Forall_drop].
Qed.

(** After Enter the cursor is at the start of the row below the line. *)
Definition finished (s : TextTerminal.t D) (l : list Z) : Prop :=
  ∃ a, TextTerminal.rep s a ∧ text_x a = 0 ∧ text_y a = y + 1 ∧
    nth_line (text_lines a) y = pre ++ l ∧
    (∀ row, y < row → nth_line (text_lines a) row = []) ∧
    (∀ row, 0 <= row < y → nth_line (text_lines a) row = above row).

Lemma session_newline s l c :
  session s y above pre l c → ∃ s', putchar s NEWLINE = Ok s' ∧ finished s' l.
Proof.
  intros (a & Hr & He). pose proof He as (Hy & Hrow & _ & Hl & _ & _ & Hb & Ha).
  destruct (term_put_ok s a NEWLINE (mkt (text_lines a) 0 (y + 1)) Hr) as (s' & E & Hr').
  { unfold spec_putchar. change (NEWLINE =? 0) with false. change (NEWLINE =? NEWLINE) with true.
    cbn [mbind result_bind mret result_ret]. unfold spec_show. cbn [text_y]. rewrite Hy.
    destruct (row_of (y + 1)) as [row|f] eqn:E; [done|].
    apply row_of_fault in E as [_ E]. lia. }
  exists s'. split; [done|]. eexists. by split_and!.
Qed.

Lemma handle_key_ok ed w x k c b x' :
  edits ed w x → spec_key hist k c x = Some (b, x') →
  ∃ ed' w', handle_key ed w k c = Ok (b, (ed', w')) ∧ holds_history ed' hist ∧
    if b then finished (terminal_ ed') (inp x') ∧
              RingBuffer.rep LINE_CAPACITY (user_input w') (inp x') ∧ Forall storable (inp x')
    else edits ed' w' x'.
Proof.
  intros He. unfold spec_key, handle_key.
  pose proof (key_left_ok _ _ _ He) as (e1 & w1 & K1 & R1).
  pose proof (key_right_ok _ _ _ He) as (e2 & w2 & K2 & R2).
  pose proof (key_down_ok _ _ _ He) as (e3 & w3 & K3 & R3).
  pose proof (key_up_ok _ _ _ He) as (e4 & w4 & K4 & R4).
  pose proof (key_char_ok _ _ _ c He) as (e5 & w5 & K5 & R5).
  destruct ((k =? KEYCODE_NUMPAD_4) || (k =? KEYCODE_LEFT_ARROW)).
  { intros [= <- <-]. rewrite K1. do 2 eexists. split; [done|].
    split; [by eapply edits_history|exact R1]. }
  destruct ((k =? KEYCODE_NUMPAD_6) || (k =? KEYCODE_RIGHT_ARROW)).
  { intros [= <- <-]. rewrite K2. do 2 eexists. split; [done|].
    split; [by eapply edits_history|exact R2]. }
  destruct ((k =? KEYCODE_NUMPAD_2) || (k =? KEYCODE_DOWN_ARROW)).
  { intros [= <- <-]. rewrite K3. do 2 eexists. split; [done|].
    split; [by eapply edits_history|exact R3]. }
  destruct ((k =? KEYCODE_NUMPAD_8) || (k =? KEYCODE_UP_ARROW)).
  { intros [= <- <-]. rewrite K4. do 2 eexists. split; [done|].
    split; [by eapply edits_history|exact R4]. }
  destruct (Z.eqb_spec c BACKSPACE).
  - intros Hk. pose proof He as ((_ & _ & _ & _ & _ & _ & _ & Hc & _) & _).
    destruct (key_backspace_ok _ _ _ He) as (e6 & w6 & K6 & R6).
    { destruct (inp x); [by left|]. right. cbn [length] in Hk.
      destruct (Z.eqb_spec (cur x) 0); [done|]. lia. }
    rewrite K6. assert (b = false ∧ x' = if Z.of_nat (length (inp x)) =? 0 then x
      else mks (delete (Z.to_nat (cur x - 1)) (inp x)) (cur x - 1) (stash x) (hc x)) as [-> ->].
    { destruct (_ =? 0); [naive_solver|]. destruct (_ =? 0); naive_solver. }
    do 2 eexists. split; [done|]. split; [by eapply edits_history|exact R6].
  - destruct (Z.eqb_spec c NEWLINE).
    + intros [= <- <-]. pose proof He as (Hs & Hin & _ & _ & _ & _ & Hsi & _ & Hh).
      destruct (session_newline _ _ _ Hs) as (s' & -> & Hf). cbn.
      do 2 eexists. split; [done|]. by split_and!.
    + intros Hk. rewrite K5. assert (b = false ∧ x' =
        if (isprint c || (c =? TAB)) && (Z.of_nat (length (inp x)) <? LINE_CAPACITY)
        then mks (RingBuffer.list_insert (cur x) c (inp x)) (cur x + 1) (stash x) (hc x)
        else x) as [-> ->] by (destruct (_ && _); naive_solver).
      do 2 eexists. split; [done|]. split; [by eapply edits_history|exact R5].
Qed.

Lemma getline_loop_ok events ed w x l rest :
  edits ed w x → spec_line hist events x = Some (l, rest) →
  ∃ b ed', getline_loop events ed w = Ok (Some (b, rest), ed') ∧
    RingBuffer.rep LINE_CAPACITY b l ∧ Forall storable l ∧ finished (terminal_ ed') l ∧
    holds_history ed' hist.
Proof.
  revert ed w x. induction events as [|e events IH]; intros ed w x He; cbn; [done|].
  destruct (state e); [|by apply IH].
  destruct (spec_key hist (key e) (ch e) x) as [[b x']|] eqn:Hk; [|done].
  destruct (handle_key_ok _ _ _ _ _ _ _ He Hk) as (ed1 & w1 & -> & Hh & Hb). cbn.
  destruct b; [|by apply IH]. intros [= <- <-]. destruct Hb as (Hf & Hu & Hst).
  do 2 eexists. by split_and!.
Qed.

(** Without Enter the editor goes on waiting. *)
Lemma getline_loop_waits events ed w x :
  edits ed w x → spec_waits hist events x = true →
  ∃ ed', getline_loop events ed w = Ok (None, ed') ∧ holds_history ed' hist.
Proof.
  revert ed w x. induction events as [|e events IH]; intros ed w x He; cbn.
  { eexists. split; [done|]. by eapply edits_history. }
  destruct (state e); [|by apply IH].
  destruct (spec_key hist (key e) (ch e) x) as [[[] x']|] eqn:Hk; [done| |done].
  destruct (handle_key_ok _ _ _ _ _ _ _ He Hk) as (ed1 & w1 & -> & Hh & Hb). cbn. by apply IH.
Qed.

End Session.

(** ** Starting a line *)
Definition fresh (s : TextTerminal.t D) (a : text) : Prop :=
  TextTerminal.rep s a ∧ text_x a = 0 ∧
  ∀ row, text_y a <= row → nth_line (text_lines a) row = [].

Lemma finished_fresh y above pre s l :
  finished y above pre s l → ∃ a, fresh s a.
Proof.
  intros (a & Hr & Hx & Hy & _ & Hb & _). exists a. split_and!; [done..|].
  intros row Hrow. apply Hb. lia.
Qed.

Lemma make_room_echoes s a :
  fresh s a →
  let b := make_room a in
  echoes b (text_y b) (nth_line (text_lines b)) [] [] 0.
Proof.
  intros ([Hv Hok] & Hx & Hb). pose proof Hv as (_ & Hlen & _). cbn zeta.
  destruct Hok as (row & Hrow & _). destruct (row_of_ok _ _ Hrow) as (_ & Hy & _).
  unfold make_room. destruct (Z.leb_spec CONSOLE_HEIGHT (text_y a)); unfold echoes;
    cbn [text_x text_y text_lines length app].
  - assert (∀ row, CONSOLE_HEIGHT - 1 <= row → nth_line (scrolled (text_lines a)) row = []) as Hs.
    { intros r Hr. unfold nth_line, scrolled.
      destruct (decide (r = CONSOLE_HEIGHT - 1)) as [->|].
      - rewrite lookup_app_r by (rewrite length_drop, Hlen; done).
        by rewrite length_drop, Hlen.
      - rewrite lookup_ge_None_2; [done|]. rewrite length_app, length_drop, Hlen. cbn [length].
        pose proof HEIGHT_pos. lia. }
    split_and!; try done; try lia.
    + unfold scrolled. by rewrite length_app, length_drop, Hlen.
    + apply Hs. lia.
    + intros r Hr. apply Hs. lia.
  - split_and!; try done; try lia.
    + apply Hb. lia.
    + intros r Hr. apply Hb. lia.
Qed.

Lemma make_room_idem a : make_room (make_room a) = make_room a.
Proof.
  unfold make_room. destruct (Z.leb_spec CONSOLE_HEIGHT (text_y a)).
  - cbn [text_y]. by decide_Z.
  - by decide_Z.
Qed.

Lemma start_echo s a cs :
  fresh s a → Forall storable cs → cs ≠ [] → Z.of_nat (length cs) < CONSOLE_WIDTH →
  let b := make_room a in
  ∃ s', put_list s cs = Ok s' ∧ session s' (text_y b) (nth_line (text_lines b)) cs [] 0.
Proof.
  intros Hf Hcs Hne Hw b. pose proof (make_room_echoes s a Hf) as He. fold b in He.
  destruct Hcs as [|c cs Hc Hcs]; [done|]. cbn [length put_list] in *.
  assert (spec_putchar a c = spec_putchar b c) as Eab.
  { unfold spec_putchar. destruct Hc as (? & ? & ?). decide_Z.
    unfold b. by rewrite !spec_normal_eq, make_room_idem. }
  destruct (echoes_type _ _ _ _ _ _ c He Hc) as (a1 & E1 & He1); [cbn; lia|].
  rewrite <-Eab in E1. destruct Hf as [Hr _].
  destruct (term_put_ok _ _ _ _ Hr E1) as (s1 & -> & Hr1). cbn [mbind result_bind].
  destruct (session_echo cs s1 (text_y b) (nth_line (text_lines b)) [] [c]) as (s2 & -> & Hs2);
    [by exists a1|done|cbn; lia|].
  exists s2. split; [done|]. destruct Hs2 as (a2 & Hr2 & He2). exists a2. split; [done|].
  destruct He2 as (? & ? & ? & Hl & Hx & ? & ? & ?). unfold echoes.
  rewrite app_nil_r. cbn [app length] in *. split_and!; done || lia.
Qed.

Lemma put_list_app (s : TextTerminal.t D) l r :
  put_list s (l ++ r) = (s ← put_list s l; put_list s r).
Proof.
  revert s. induction l as [|c l IH]; intros s; [done|]. cbn.
  destruct (putchar s c); cbn; [apply IH|done].
Qed.

(** The state in which the loop of [getline] starts. *)
Definition start : locals :=
  mkl (RingBuffer.init LINE_CAPACITY) (RingBuffer.init LINE_CAPACITY) 0 (-1).

Lemma getline_start ed a prompt hist :
  RingBuffer.rep MAXPROMPT (prompt_ ed) prompt → Forall storable prompt →
  Z.of_nat (length prompt) <= 1 → holds_history ed hist → fresh (terminal_ ed) a →
  let b := make_room a in
  Z.of_nat (length (prompt ++ [SPACE])) + LINE_CAPACITY < CONSOLE_WIDTH ∧
  ∃ s', (s ← putv MAXPROMPT (terminal_ ed) (prompt_ ed); putchar s SPACE) = Ok s' ∧
    edits (text_y b) (nth_line (text_lines b)) (prompt ++ [SPACE]) hist
      (with_terminal ed s') start (mks [] 0 [] (-1)).
Proof.
  intros Hp Hsp Hlen Hh Hf b.
  assert (Z.of_nat (length (prompt ++ [SPACE])) + LINE_CAPACITY < CONSOLE_WIDTH) as Hw
    by (rewrite length_app; unfold LINE_CAPACITY, CONSOLE_WIDTH, MAXPROMPT; cbn; lia).
  split; [done|]. rewrite (putv_ok MAXPROMPT _ _ prompt) by done.
  assert (Forall storable (prompt ++ [SPACE])) as Hcs
    by (apply Forall_app; split; [done|repeat constructor; done]).
  destruct (start_echo (terminal_ ed) a (prompt ++ [SPACE]) Hf Hcs) as (s' & E & Hs);
    [by destruct prompt|pose proof LINE_CAPACITY_pos; lia|].
  rewrite put_list_app in E. apply bind_ok in E as (s1 & -> & E).
  cbn [put_list mbind result_bind mret result_ret] in E |- *.
  destruct (putchar s1 SPACE) as [s2|]; [|done]. cbn in E. injection E as ->.
  exists s'. split; [done|]. pose proof (RingBuffer.rep_init (T := Z) _ LINE_CAPACITY_pos).
  unfold edits. cbn [inp cur stash hc]. split_and!; done || lia || constructor.
Qed.

(** The whole of [getline], on complete lines and on incomplete ones. *)
Lemma getline_ok ed a prompt hist events l rest :
  RingBuffer.rep MAXPROMPT (prompt_ ed) prompt → Forall storable prompt →
  Z.of_nat (length prompt) <= 1 → holds_history ed hist → fresh (terminal_ ed) a →
  spec_line hist events (mks [] 0 [] (-1)) = Some (l, rest) →
  let b := make_room a in
  ∃ r ed', getline events ed = Ok (Some (r, rest), ed') ∧ prompt_ ed' = prompt_ ed ∧
    RingBuffer.rep LINE_CAPACITY r l ∧ Forall storable l ∧ holds_history ed' hist ∧
    finished (text_y b) (nth_line (text_lines b)) (prompt ++ [SPACE]) (terminal_ ed') l.
Proof.
  intros Hp Hsp Hlen Hh Hf Hspec b. unfold getline.
  destruct (getline_start ed a prompt hist Hp Hsp Hlen Hh Hf) as (Hw & s' & E & He).
  apply bind_ok in E as (s1 & -> & E). cbn [mbind result_bind]. rewrite E.
  cbn [mbind result_bind]. fold start.
  destruct (getline_loop_ok _ _ _ _ Hw events _ _ _ l rest He Hspec)
    as (r & ed' & E' & Hr & Hst & Hfin & Hh').
  rewrite E'. exists r, ed'. split_and!; try done. by rewrite (getline_loop_prompt _ _ _ _ _ E').
Qed.

Lemma getline_waits ed a prompt hist events :
  RingBuffer.rep MAXPROMPT (prompt_ ed) prompt → Forall storable prompt →
  Z.of_nat (length prompt) <= 1 → holds_history ed hist → fresh (terminal_ ed) a →
  spec_waits hist events (mks [] 0 [] (-1)) = true →
  ∃ ed', getline events ed = Ok (None, ed') ∧ holds_history ed' hist.
Proof.
  intros Hp Hsp Hlen Hh Hf Hspec. unfold getline.
  destruct (getline_start ed a prompt hist Hp Hsp Hlen Hh Hf) as (Hw & s' & E & He).
  apply bind_ok in E as (s1 & -> & E). cbn [mbind result_bind]. rewrite E.
  cbn [mbind result_bind]. fold start. by eapply getline_loop_waits.
Qed.

(** ** The prompt *)
Lemma strnlen_bounds n str : 0 <= strnlen n str <= Z.of_nat (length str).
Proof.
  revert str. induction n as [|n IH]; intros [|c str]; cbn [strnlen length]; try lia.
  destruct (c =? 0); [lia|]. specialize (IH str). lia.
Qed.

Lemma prompt_loop_ok n i str b xs :
  RingBuffer.rep MAXPROMPT b xs → (i + n <= length str)%nat →
  Z.of_nat (length xs + n) <= MAXPROMPT →
  ∃ b', prompt_loop n i str b = Ok b' ∧
        RingBuffer.rep MAXPROMPT b' (xs ++ take n (drop i str)).
Proof.
  revert i b xs. induction n as [|n IH]; intros i b xs Hb Hi Hn; cbn [prompt_loop].
  { exists b. by rewrite take_0, app_nil_r. }
  destruct (lookup_lt_is_Some_2 str i) as [c Hc]; [lia|]. rewrite Hc. cbn [deref mbind result_bind].
  destruct (RingBuffer.push_back_ok MAXPROMPT ltac:(done) _ _ c Hb) as (b1 & -> & Hb1).
  assert (Z.of_nat (length xs) < MAXPROMPT) as Hlt by lia.
  rewrite (proj2 (Z.ltb_lt _ _) Hlt) in Hb1. cbn [mbind result_bind].
  destruct (IH (S i) _ _ Hb1) as (b2 & -> & Hb2); [lia|rewrite length_app; cbn; lia|].
  exists b2. split; [done|]. rewrite (drop_S str c i Hc). cbn [take]. by rewrite <-app_assoc in Hb2.
Qed.

Lemma set_prompt_ok ed size str p0 :
  RingBuffer.rep MAXPROMPT (prompt_ ed) p0 →
  ∃ ed', set_prompt ed size str = Ok ed' ∧ terminal_ ed' = terminal_ ed ∧
    history_ ed' = history_ ed ∧
    RingBuffer.rep MAXPROMPT (prompt_ ed')
      (take (Z.to_nat (Z.min MAXPROMPT (strnlen (Z.to_nat size) str))) str).
Proof.
  intros Hp. unfold set_prompt.
  destruct (RingBuffer.ring_clear_ok MAXPROMPT ltac:(done) (prompt_ ed)) as (b & -> & Hb);
    [by eapply RingBuffer.rep_drainable|].
  cbn [mbind result_bind]. pose proof (strnlen_bounds (Z.to_nat size) str).
  destruct (prompt_loop_ok (Z.to_nat (Z.min MAXPROMPT (strnlen (Z.to_nat size) str))) 0 str b [] Hb)
    as (b' & -> & Hb'); [lia|cbn [length]; unfold MAXPROMPT; lia|].
  cbn. eexists. split; [done|]. by rewrite drop_0 in Hb'.
Qed.

End Correctness.
End Methods.


(** Backspace at the beginning of a line that is not empty leaves the cursor of the
    editor at -1 (the terminal's stays where it is), and the next character typed then
    stops the kernel in an assertion. *)
Theorem backspace_at_start_breaks_editor {D} `{TextDisplayDeviceLaws D}
    (ed : t D) w k k' c y above pre hist x :
  edits y above pre hist ed w x → inp x ≠ [] → cur x = 0 →
  Z.of_nat (length (inp x)) < LINE_CAPACITY → KEYCODE_NUMPAD_8 < k → KEYCODE_NUMPAD_8 < k' →
  isprint c = true →
  ∃ w', handle_key ed w k BACKSPACE = Ok (false, (ed, w')) ∧ linear_cursor w' = -1 ∧
        handle_key ed w' k' c = Fault AssertionFailed.
Proof.
  intros (_ & Hin & _ & Hlc & _) Hne Hcur Hlt Hk Hk' Hc.
  destruct (ring_size_ok _ _ Hin) as [Hsz _].
  assert (0 < Z.of_nat (length (inp x))) as Hpos by (destruct (inp x); [done|cbn; lia]).
  unfold handle_key, KEYCODE_NUMPAD_8, KEYCODE_NUMPAD_6, KEYCODE_NUMPAD_4, KEYCODE_NUMPAD_2,
    KEYCODE_LEFT_ARROW, KEYCODE_RIGHT_ARROW, KEYCODE_DOWN_ARROW, KEYCODE_UP_ARROW in *.
  decide_Z. unfold key_backspace. rewrite Hlc, Hcur, Hsz. decide_Z.
  eexists. split; [done|]. split; [done|].
  assert (c ≠ BACKSPACE ∧ c ≠ NEWLINE) as [? ?]
    by (destruct (accepted_storable c) as (? & ? & ?); [by rewrite Hc|done]).
  decide_Z. unfold key_char. cbn [user_input linear_cursor]. rewrite Hsz, Hc. cbn [orb]. decide_Z.
  unfold RingBuffer.insert. by decide_Z.
Qed.

(** ** Witnesses *)
Lemma demo_editor :
  ∃ ed : t VGA.t, (s ← TextTerminal.init demo_display; init s) = Ok ed ∧
    RingBuffer.rep MAXPROMPT (prompt_ ed) [62] ∧ holds_history ed [] ∧
    fresh (terminal_ ed) blank.
Proof.
  destruct (init_view demo_display) as (s & -> & Hv). cbn [mbind result_bind]. unfold init.
  destruct (set_prompt_ok (mk s (RingBuffer.init MAXPROMPT) LinkedList.init) 1 [62; 0] [])
    as (ed & -> & Ht & Hh & Hp); [by apply RingBuffer.rep_init|].
  exists ed. split_and!; [done|done| |].
  - split; [constructor|]. exists []. rewrite Hh. split; [apply LinkedList.ll_rep_init|constructor].
  - rewrite Ht. split_and!; [|done|intros; apply blank_nth].
    apply rep_view. split; [apply blank_cursor_ok|eauto].
Qed.

Definition press (k c : Z) : KeyboardEvent := mke k PRESSED c.


Lemma backspace_at_start_breaks_editor_witness :
  ∃ (ed : t VGA.t) w w', handle_key ed w 100 BACKSPACE = Ok (false, (ed, w')) ∧
    handle_key ed w' 101 98 = Fault AssertionFailed.
Proof.
  destruct demo_editor as (ed & _ & Hp & Hh & Hf).
  destruct (getline_start ed blank [62] [] Hp) as (Hw & s' & _ & He);
    [repeat constructor; discriminate|cbn; lia|exact Hh|exact Hf|].
  destruct (key_char_ok _ _ _ _ Hw _ _ _ 97 He) as (ed1 & w1 & _ & He1).
  destruct (key_left_ok _ _ _ _ _ _ _ He1) as (ed2 & w2 & _ & He2).
  destruct (backspace_at_start_breaks_editor ed2 w2 100 101 98 _ _ _ _ _ He2) as (w' & E & _ & E');
    [discriminate|reflexivity|reflexivity|reflexivity|reflexivity|reflexivity|].
  exists ed2, w2, w'. split; [exact E|exact E'].
Defined.

End LineEditor.
