(* ===== verification/Keyboard.v ===== *)
(** * Keyboard: the PS/2 keyboard driver

    Models [PS2KeyboardDevice] (drivers/pc/ps2_keyboard_device.hpp and
    src/drivers/pc/ps2_keyboard_device/), with its tables of scan codes and characters,
    over [RingBuffer].  The I/O port is a parameter: [inb] answers the byte at the data
    port and the port after the read.  While [get_event] halts the CPU, interrupts come
    in; [None] is one of another device. *)
From S2P Require Import Prelude Storage RingBuffer LineEditor.
Import Storage.

Module Keyboard.
Import LineEditor.

Definition KEYCODE_LEFT_SHIFT : Z := 44.
Definition KEYCODE_LEFT_GUI : Z := 46.
Definition KEYCODE_RIGHT_SHIFT : Z := 48.
Definition KEYCODE_HOME : Z := 72.
Definition KEYCODE_MAX : Z := 125.
Definition MAX_SCANCODE_BYTES : nat := 6.

(** ** Tables *)
Definition g_scancodes_make : list Z :=
 [0x1E; 0x30; 0x2E; 0x20; 0x12; 0x21; 0x22; 0x23; 0x17; 0x24; 0x25; 0x26; 0x32; 0x31; 0x18;
   0x19; 0x10; 0x13; 0x1F; 0x14; 0x16; 0x2F; 0x11; 0x2D; 0x15; 0x2C; 0x0B; 0x2; 0x3; 0x4;
   0x5; 0x6; 0x7; 0x8; 0x9; 0x0A; 0x29; 0x0C; 0x0D; 0x2B; 0x0E; 0x39; 0x0F; 0x3A; 0x2A;
   0x1D; 0x0; 0x38; 0x36; 0x0; 0x0; 0x0; 0x0; 0x1C; 0x1; 0x3B; 0x3C; 0x3D; 0x3E; 0x3F;
   0x40; 0x41; 0x42; 0x43; 0x44; 0x57; 0x58; 0x0; 0x46; 0x0; 0x1A; 0x0; 0x0; 0x0; 0x0; 0x0;
   0x0; 0x0; 0x0; 0x0; 0x0; 0x45; 0x0; 0x37; 0x4A; 0x4E; 0x0; 0x53; 0x52; 0x4F; 0x50; 0x51;
   0x4B; 0x4C; 0x4D; 0x47; 0x48; 0x49; 0x1B; 0x27; 0x28; 0x33; 0x34; 0x35; 0x0; 0x0; 0x0;
   0x0; 0x0; 0x0; 0x0; 0x0; 0x0; 0x0; 0x0; 0x0; 0x0; 0x0; 0x0; 0x0; 0x0; 0x0; 0x0; 0x0; 0x0].

Definition g_scancodes_break : list Z :=
 [0x9E; 0xB0; 0xAE; 0xA0; 0x92; 0xA1; 0xA2; 0xA3; 0x97; 0xA4; 0xA5; 0xA6; 0xB2; 0xB1; 0x98;
   0x99; 0x90; 0x93; 0x9F; 0x94; 0x96; 0xAF; 0x91; 0xAD; 0x95; 0xAC; 0x8B; 0x82; 0x83;
   0x84; 0x85; 0x86; 0x87; 0x88; 0x89; 0x8A; 0xA9; 0x8C; 0x8D; 0xAB; 0x8E; 0xB9; 0x8F;
   0xBA; 0xAA; 0x9D; 0x0; 0xB8; 0xB6; 0x0; 0x0; 0x0; 0x0; 0x9C; 0x81; 0xBB; 0xBC; 0xBD;
   0xBE; 0xBF; 0xC0; 0xC1; 0xC2; 0xC3; 0xC4; 0xD7; 0xD8; 0x0; 0xC6; 0x0; 0x9A; 0x0; 0x0;
   0x0; 0x0; 0x0; 0x0; 0x0; 0x0; 0x0; 0x0; 0xC5; 0x0; 0xB7; 0xCA; 0xCE; 0x0; 0xD3; 0xD2;
   0xCF; 0xD0; 0xD1; 0xCB; 0xCC; 0xCD; 0xC7; 0xC8; 0xC9; 0x9B; 0xA7; 0xA8; 0xB3; 0xB4;
   0xB5; 0x0; 0x0; 0x0; 0x0; 0x0; 0x0; 0x0; 0x0; 0x0; 0x0; 0x0; 0x0; 0x0; 0x0; 0x0; 0x0;
   0x0; 0x0; 0x0; 0x0; 0x0].

Definition g_scancodes_make_escaped : list Z :=
 [0x0; 0x0; 0x0; 0x0; 0x0; 0x0; 0x0; 0x0; 0x0; 0x0; 0x0; 0x0; 0x0; 0x0; 0x0; 0x0; 0x0; 0x0;
   0x0; 0x0; 0x0; 0x0; 0x0; 0x0; 0x0; 0x0; 0x0; 0x0; 0x0; 0x0; 0x0; 0x0; 0x0; 0x0; 0x0;
   0x0; 0x0; 0x0; 0x0; 0x0; 0x0; 0x0; 0x0; 0x0; 0x0; 0x0; 0x5B; 0x0; 0x0; 0x1D; 0x5C; 0x38;
   0x5D; 0x0; 0x0; 0x0; 0x0; 0x0; 0x0; 0x0; 0x0; 0x0; 0x0; 0x0; 0x0; 0x0; 0x0; 0x0; 0x0;
   0x0; 0x0; 0x52; 0x47; 0x49; 0x53; 0x4F; 0x51; 0x48; 0x4B; 0x50; 0x4D; 0x0; 0x35; 0x0;
   0x0; 0x0; 0x1C; 0x0; 0x0; 0x0; 0x0; 0x0; 0x0; 0x0; 0x0; 0x0; 0x0; 0x0; 0x0; 0x0; 0x0;
   0x0; 0x0; 0x0; 0x5E; 0x5F; 0x63; 0x19; 0x10; 0x24; 0x22; 0x20; 0x30; 0x2E; 0x6D; 0x6C;
   0x21; 0x6B; 0x65; 0x32; 0x6A; 0x69; 0x68; 0x67; 0x66].

Definition g_scancodes_break_escape : list Z :=
 [0x0; 0x0; 0x0; 0x0; 0x0; 0x0; 0x0; 0x0; 0x0; 0x0; 0x0; 0x0; 0x0; 0x0; 0x0; 0x0; 0x0; 0x0;
   0x0; 0x0; 0x0; 0x0; 0x0; 0x0; 0x0; 0x0; 0x0; 0x0; 0x0; 0x0; 0x0; 0x0; 0x0; 0x0; 0x0;
   0x0; 0x0; 0x0; 0x0; 0x0; 0x0; 0x0; 0x0; 0x0; 0x0; 0x0; 0xDB; 0x0; 0x0; 0x9D; 0xDC; 0xB8;
   0xDD; 0x0; 0x0; 0x0; 0x0; 0x0; 0x0; 0x0; 0x0; 0x0; 0x0; 0x0; 0x0; 0x0; 0x0; 0x0; 0x0;
   0x0; 0x0; 0xD2; 0x97; 0xC9; 0xD3; 0xCF; 0xD1; 0xC8; 0xCB; 0xD0; 0xCD; 0x0; 0xB5; 0x0;
   0x0; 0x0; 0x9C; 0x0; 0x0; 0x0; 0x0; 0x0; 0x0; 0x0; 0x0; 0x0; 0x0; 0x0; 0x0; 0x0; 0x0;
   0x0; 0x0; 0x0; 0xDE; 0xDF; 0xE3; 0x99; 0x90; 0xA4; 0xA2; 0xA0; 0xB0; 0xAE; 0xED; 0xEC;
   0xA1; 0xEB; 0xE5; 0xB2; 0xEA; 0xE9; 0xE8; 0xE7; 0xE6].

Definition g_keyboard_keycode_ascii_lowercase : list Z :=
 [97; 98; 99; 100; 101; 102; 103; 104; 105; 106; 107; 108; 109; 110; 111; 112; 113; 114;
   115; 116; 117; 118; 119; 120; 121; 122; 48; 49; 50; 51; 52; 53; 54; 55; 56; 57; 96; 45;
   61; 92; 8; 32; 9; 0; 0; 0; 0; 0; 0; 0; 0; 48; 0; 10; 27; 0; 0; 0; 0; 0; 0; 0; 0; 0; 0;
   0; 0; 0; 0; 0; 91; 0; 0; 0; 0; 0; 0; 0; 0; 0; 0; 0; 47; 42; 45; 43; 10; 46; 48; 49; 50;
   51; 52; 53; 54; 55; 56; 57; 93; 59; 39; 44; 46; 47; 0; 0; 0; 0; 0; 0; 0; 0; 0; 0; 0; 0;
   0; 0; 0; 0; 0; 0; 0; 0; 0].

Definition g_keyboard_keycode_ascii_uppercase : list Z :=
 [65; 66; 67; 68; 69; 70; 71; 72; 73; 74; 75; 76; 77; 78; 79; 80; 81; 82; 83; 84; 85; 86;
   87; 88; 89; 90; 41; 33; 64; 35; 36; 37; 94; 38; 42; 40; 126; 95; 43; 124; 8; 32; 9; 0;
   0; 0; 0; 0; 0; 0; 0; 48; 0; 10; 27; 0; 0; 0; 0; 0; 0; 0; 0; 0; 0; 0; 0; 0; 0; 0; 123; 0;
   0; 0; 0; 0; 0; 0; 0; 0; 0; 0; 47; 42; 45; 43; 10; 46; 48; 49; 50; 51; 52; 53; 54; 55;
   56; 57; 125; 58; 34; 60; 62; 63; 0; 0; 0; 0; 0; 0; 0; 0; 0; 0; 0; 0; 0; 0; 0; 0; 0; 0;
   0; 0; 0].

Definition g_keycode_names : list string :=
 ["KEYCODE_A"; "KEYCODE_B"; "KEYCODE_C"; "KEYCODE_D"; "KEYCODE_E"; "KEYCODE_F";
   "KEYCODE_G"; "KEYCODE_H"; "KEYCODE_I"; "KEYCODE_J"; "KEYCODE_K"; "KEYCODE_L";
   "KEYCODE_M"; "KEYCODE_N"; "KEYCODE_O"; "KEYCODE_P"; "KEYCODE_Q"; "KEYCODE_R";
   "KEYCODE_S"; "KEYCODE_T"; "KEYCODE_U"; "KEYCODE_V"; "KEYCODE_W"; "KEYCODE_X";
   "KEYCODE_Y"; "KEYCODE_Z"; "KEYCODE_0"; "KEYCODE_1"; "KEYCODE_2"; "KEYCODE_3";
   "KEYCODE_4"; "KEYCODE_5"; "KEYCODE_6"; "KEYCODE_7"; "KEYCODE_8"; "KEYCODE_9";
   "KEYCODE_GRAVE"; "KEYCODE_MINUS"; "KEYCODE_EQUALS"; "KEYCODE_BACKSLASH";
   "KEYCODE_BACKSPACE"; "KEYCODE_SPACE"; "KEYCODE_TAB"; "KEYCODE_CAPSLOCK";
   "KEYCODE_LEFT_SHIFT"; "KEYCODE_LEFT_CONTROL"; "KEYCODE_LEFT_GUI"; "KEYCODE_LEFT_ALT";
   "KEYCODE_RIGHT_SHIFT"; "KEYCODE_RIGHT_CONTROL"; "KEYCODE_RIGHT_GUI";
   "KEYCODE_RIGHT_ALT"; "KEYCODE_APPS"; "KEYCODE_ENTER"; "KEYCODE_ESCAPE"; "KEYCODE_F1";
   "KEYCODE_F2"; "KEYCODE_F3"; "KEYCODE_F4"; "KEYCODE_F5"; "KEYCODE_F6"; "KEYCODE_F7";
   "KEYCODE_F8"; "KEYCODE_F9"; "KEYCODE_F10"; "KEYCODE_F11"; "KEYCODE_F12";
   "KEYCODE_PRINT_SCREEN"; "KEYCODE_SCROLL"; "KEYCODE_PAUSE"; "KEYCODE_OPEN_BRACKET";
   "KEYCODE_INSERT"; "KEYCODE_HOME"; "KEYCODE_PAGE_UP"; "KEYCODE_DELETE"; "KEYCODE_END";
   "KEYCODE_PAGE_DOWN"; "KEYCODE_UP_ARROW"; "KEYCODE_LEFT_ARROW"; "KEYCODE_DOWN_ARROW";
   "KEYCODE_RIGHT_ARROW"; "KEYCODE_NUM"; "KEYCODE_NUMPAD_SLASH"; "KEYCODE_NUMPAD_ASTERISK";
   "KEYCODE_NUMPAD_MINUS"; "KEYCODE_NUMPAD_PLUS"; "KEYCODE_NUMPAD_ENTER";
   "KEYCODE_NUMPAD_PERIOD"; "KEYCODE_NUMPAD_0"; "KEYCODE_NUMPAD_1"; "KEYCODE_NUMPAD_2";
   "KEYCODE_NUMPAD_3"; "KEYCODE_NUMPAD_4"; "KEYCODE_NUMPAD_5"; "KEYCODE_NUMPAD_6";
   "KEYCODE_NUMPAD_7"; "KEYCODE_NUMPAD_8"; "KEYCODE_NUMPAD_9"; "KEYCODE_CLOSE_BRACKET";
   "KEYCODE_SEMICOLON"; "KEYCODE_QUOTE"; "KEYCODE_COMMA"; "KEYCODE_PERIOD";
   "KEYCODE_SLASH"; "KEYCODE_POWER"; "KEYCODE_SLEEP"; "KEYCODE_WAKE"; "KEYCODE_NEXT_TRACK";
   "KEYCODE_PREV_TRACK"; "KEYCODE_STOP"; "KEYCODE_PLAY_PAUSE"; "KEYCODE_MUTE";
   "KEYCODE_VOLUME_UP"; "KEYCODE_VOLUME_DOWN"; "KEYCODE_MEDIA_SELECT"; "KEYCODE_EMAIL";
   "KEYCODE_CALCULATOR"; "KEYCODE_MY_COMPUTER"; "KEYCODE_WWW_SEARCH"; "KEYCODE_WWW_HOME";
   "KEYCODE_WWW_BACK"; "KEYCODE_WWW_FORWARD"; "KEYCODE_WWW_STOP"; "KEYCODE_WWW_REFRESH";
   "KEYCODE_WWW_FAVORITES"].

Inductive KeyboardDriverState := IDLE | PROCESSING_ESCAPE_CODE.

#[global] Instance driver_state_eq_dec : EqDecision KeyboardDriverState.
Proof. solve_decision. Defined.

#[global] Instance key_state_eq_dec : EqDecision KeycodeKeyState.
Proof. solve_decision. Defined.

Record t := mkd { key_state_ : list KeycodeKeyState; events_ : RingBuffer.t KeyboardEvent }.

Section Methods.
Context {P : Type} (inb : P → Z * P).
Implicit Types (p : P) (d : t).

Definition init : t :=
  mkd (replicate (Z.to_nat KEYCODE_MAX) RELEASED) (RingBuffer.init 32).

Definition keycode_name (key : Z) : result string :=
  if key <? KEYCODE_MAX then deref InvalidAccess (nthZ g_keycode_names key)
  else mret "Unknown Key Code"%string.

(** [for (i = 0; i < MAX_SCANCODE_BYTES; ++i) (void)inb(KEYBOARD_DATA_PORT);] *)
Fixpoint clear_loop (n : nat) p : P :=
  match n with O => p | S n => clear_loop n (snd (inb p)) end.

Definition clear_input p : P := clear_loop MAX_SCANCODE_BYTES p.

(** The least key whose entry in the table is the scan code. *)
Fixpoint find_key (scancodes : list Z) (scancode key : Z) : option Z :=
  match scancodes with
  | [] => None
  | c :: scancodes => if scancode =? c then Some key else find_key scancodes scancode (key + 1)
  end.

(** Answers whether more bytes are needed, the state, the event and the port. *)
Definition step_state_machine p (state : KeyboardDriverState) (output : KeyboardEvent)
  : bool * KeyboardDriverState * KeyboardEvent * P :=
  let '(scancode, p) := inb p in
  let escape := bool_decide (state = PROCESSING_ESCAPE_CODE) in
  if scancode =? 0xE0 then (true, PROCESSING_ESCAPE_CODE, output, p)
  else
    let make := if escape then g_scancodes_make_escaped else g_scancodes_make in
    let break := if escape then g_scancodes_break_escape else g_scancodes_break in
    match find_key make scancode 0 with
    | Some key => (false, state, mke key PRESSED (ch output), p)
    | None =>
        match find_key break scancode 0 with
        | Some key => (false, state, mke key RELEASED (ch output), p)
        | None => (true, state, output, clear_input p)
        end
    end.

(** [for (i = 0; i < MAX_SCANCODE_BYTES && step_state_machine(state, event); ++i);] *)
Fixpoint read_event (n : nat) p (state : KeyboardDriverState) (event : KeyboardEvent)
  : KeyboardEvent * P :=
  match n with
  | O => (event, p)
  | S n =>
      let '(more, state, event, p) := step_state_machine p state event in
      if more : bool then read_event n p state event else (event, p)
  end.

Definition on_interrupt p d : result (t * P) :=
  let '(event, p) := read_event MAX_SCANCODE_BYTES p IDLE (mke KEYCODE_MAX RELEASED 0) in
  if key event <? KEYCODE_MAX then
    let key_state := <[Z.to_nat (key event) := state event]> (key_state_ d) in
    left ← deref InvalidAccess (nthZ key_state KEYCODE_LEFT_SHIFT);
    right ← deref InvalidAccess (nthZ key_state KEYCODE_RIGHT_SHIFT);
    let shift := bool_decide (left = PRESSED) || bool_decide (right = PRESSED) in
    let char_tbl := if shift then g_keyboard_keycode_ascii_uppercase
                    else g_keyboard_keycode_ascii_lowercase in
    ch ← deref InvalidAccess (nthZ char_tbl (key event));
    '(_, events) ← RingBuffer.push_back 32 (events_ d) (mke (key event) (state event) ch);
    mret (mkd key_state events, p)
  else mret (d, p).

(** The body of the loop of [get_event]: an event if there is one. *)
Definition try_event d : result (option KeyboardEvent * t) :=
  if RingBuffer.empty (events_ d) then mret (None, d)
  else
    event ← RingBuffer.front (events_ d);
    events ← RingBuffer.pop_front 32 (events_ d);
    mret (Some event, mkd (key_state_ d) events).

(** [hlt] returns after the next interrupt; with none to come the CPU stays halted. *)
Fixpoint get_event (interrupts : list (option P)) d : result (option (KeyboardEvent * t)) :=
  '(event, d) ← try_event d;
  match interrupts with
  | [] => mret None
  | interrupt :: interrupts =>
      d ← match interrupt with
          | Some p => '(d, _) ← on_interrupt p d; mret d
          | None => mret d
          end;
      match event with
      | Some event => mret (Some (event, d))
      | None => get_event interrupts d
      end
  end.

End Methods.

(** ** The tables *)
Definition table (escaped : bool) (st : KeycodeKeyState) : list Z :=
  match escaped, st with
  | false, PRESSED => g_scancodes_make
  | false, RELEASED => g_scancodes_break
  | true, PRESSED => g_scancodes_make_escaped
  | true, RELEASED => g_scancodes_break_escape
  end.

(** What the state machine makes of a scan code. *)
Definition decode (escaped : bool) (scancode : Z) : option (Z * KeycodeKeyState) :=
  match find_key (table escaped PRESSED) scancode 0 with
  | Some key => Some (key, PRESSED)
  | None => (λ key, (key, RELEASED)) <$> find_key (table escaped RELEASED) scancode 0
  end.

Definition all_keys : list (bool * KeycodeKeyState * Z) :=
  esc ← [false; true]; st ← [PRESSED; RELEASED]; key ← seqZ 0 KEYCODE_MAX; [(esc, st, key)].

(** Every nonzero entry of the tables decodes to its key. *)
Lemma tables_checked :
  forallb (λ '(esc, st, key),
    match nthZ (table esc st) key with
    | Some code => (code =? 0) || bool_decide (code ≠ 0xE0 ∧ decode esc code = Some (key, st))
    | None => false
    end) all_keys = true.
Proof. vm_compute. reflexivity. Qed.

Lemma elem_of_all_keys esc st key : 0 <= key < KEYCODE_MAX → (esc, st, key) ∈ all_keys.
Proof.
  intros Hk. unfold all_keys. apply list_elem_of_bind. exists esc. split; [|by destruct esc; set_solver].
  apply list_elem_of_bind. exists st. split; [|by destruct st; set_solver].
  apply list_elem_of_bind. exists key. split; [apply list_elem_of_here|apply elem_of_seqZ; lia].
Qed.

Lemma table_decodes esc st key code :
  0 <= key < KEYCODE_MAX → nthZ (table esc st) key = Some code → code ≠ 0 →
  code ≠ 0xE0 ∧ decode esc code = Some (key, st).
Proof.
  intros Hk Hc Hne. pose proof tables_checked as Hall. rewrite forallb_forall in Hall.
  specialize (Hall (esc, st, key)). rewrite <-list_elem_of_In in Hall.
  specialize (Hall (elem_of_all_keys esc st key Hk)). cbv beta iota in Hall. rewrite Hc in Hall.
  apply orb_true_iff in Hall as [?%Z.eqb_eq|Hall%bool_decide_eq_true]; done.
Qed.

(** ** The driver *)
Section Laws.
Context {P : Type} (inb : P → Z * P).
Implicit Types (p : P) (d : t).

(** The bytes the controller sends for a key event, and the port after they are read. *)
Definition sends p (esc : bool) (code : Z) p' : Prop :=
  if esc then ∃ p1, inb p = (0xE0, p1) ∧ inb p1 = (code, p') else inb p = (code, p').

Definition inv d (xs : list KeyboardEvent) : Prop :=
  length (key_state_ d) = Z.to_nat KEYCODE_MAX ∧ RingBuffer.rep 32 (events_ d) xs.

Lemma step_decodes p p' st0 event code key st :
  inb p = (code, p') → code ≠ 0xE0 →
  decode (bool_decide (st0 = PROCESSING_ESCAPE_CODE)) code = Some (key, st) →
  step_state_machine inb p st0 event = (false, st0, mke key st (ch event), p').
Proof.
  intros Hp Hne Hd. unfold step_state_machine. rewrite Hp, (proj2 (Z.eqb_neq _ _) Hne).
  unfold decode, table in Hd. destruct (bool_decide (st0 = PROCESSING_ESCAPE_CODE)).
  - destruct (find_key g_scancodes_make_escaped code 0) as [k|]; [by injection Hd as <- <-|].
    destruct (find_key g_scancodes_break_escape code 0) as [k|]; [by injection Hd as <- <-|done].
  - destruct (find_key g_scancodes_make code 0) as [k|]; [by injection Hd as <- <-|].
    destruct (find_key g_scancodes_break code 0) as [k|]; [by injection Hd as <- <-|done].
Qed.

Lemma read_event_ok p p' esc st key code :
  sends p esc code p' → code ≠ 0xE0 → decode esc code = Some (key, st) →
  read_event inb MAX_SCANCODE_BYTES p IDLE (mke KEYCODE_MAX RELEASED 0) = (mke key st 0, p').
Proof.
  intros Hs Hne Hd. unfold MAX_SCANCODE_BYTES. destruct esc; cbn [read_event].
  - destruct Hs as (p1 & Hp & Hp1).
    assert (∀ ev, step_state_machine inb p IDLE ev = (true, PROCESSING_ESCAPE_CODE, ev, p1)) as ->
      by (intros; unfold step_state_machine; by rewrite Hp).
    by rewrite (step_decodes p1 p' PROCESSING_ESCAPE_CODE _ code key st).
  - by rewrite (step_decodes p p' IDLE _ code key st).
Qed.

(** The character of a key, by the state of the shift keys. *)
Definition shifted (key_state : list KeycodeKeyState) : bool :=
  bool_decide (nthZ key_state KEYCODE_LEFT_SHIFT = Some PRESSED) ||
  bool_decide (nthZ key_state KEYCODE_RIGHT_SHIFT = Some PRESSED).

Definition char_of (shift : bool) (key : Z) : Z :=
  default 0 (nthZ (if shift then g_keyboard_keycode_ascii_uppercase
                   else g_keyboard_keycode_ascii_lowercase) key).

Lemma nthZ_in_range {A} (l : list A) i :
  length l = Z.to_nat KEYCODE_MAX → 0 <= i < KEYCODE_MAX → ∃ x, nthZ l i = Some x.
Proof. intros Hl Hi. apply nthZ_Some. rewrite Hl. unfold KEYCODE_MAX in *. lia. Qed.

Lemma on_interrupt_ok d xs p p' esc st key code :
  inv d xs → 0 <= key < KEYCODE_MAX → nthZ (table esc st) key = Some code → code ≠ 0 →
  sends p esc code p' →
  let key_state := <[Z.to_nat key := st]> (key_state_ d) in
  ∃ d', on_interrupt inb p d = Ok (d', p') ∧ key_state_ d' = key_state ∧
    inv d' (if Z.of_nat (length xs) <? 32 then xs ++ [mke key st (char_of (shifted key_state) key)] else xs).
Proof.
  intros (Hlen & Hrep) Hk Hc Hne Hs key_state. destruct (table_decodes esc st key code Hk Hc Hne) as [HE0 Hd].
  unfold on_interrupt. rewrite (read_event_ok p p' esc st key code Hs HE0 Hd).
  cbn [LineEditor.key LineEditor.state]. rewrite (proj2 (Z.ltb_lt _ _)) by lia. fold key_state.
  assert (length key_state = Z.to_nat KEYCODE_MAX) as Hlen' by (unfold key_state; by rewrite length_insert).
  destruct (nthZ_in_range key_state KEYCODE_LEFT_SHIFT Hlen' ltac:(done)) as [l Hl].
  destruct (nthZ_in_range key_state KEYCODE_RIGHT_SHIFT Hlen' ltac:(done)) as [r Hr].
  rewrite Hl, Hr. cbn [deref mbind result_bind].
  assert (bool_decide (l = PRESSED) || bool_decide (r = PRESSED) = shifted key_state) as ->.
  { unfold shifted. rewrite Hl, Hr. f_equal; apply bool_decide_ext; split; congruence. }
  assert (nthZ (if shifted key_state then g_keyboard_keycode_ascii_uppercase
                else g_keyboard_keycode_ascii_lowercase) key = Some (char_of (shifted key_state) key)) as ->.
  { unfold char_of. destruct (nthZ_in_range (if shifted key_state then g_keyboard_keycode_ascii_uppercase
      else g_keyboard_keycode_ascii_lowercase) key) as [x ->]; [by destruct (shifted key_state)|done|done]. }
  cbn [deref mbind result_bind].
  destruct (RingBuffer.push_back_ok 32 ltac:(done) (events_ d) xs
    (mke key st (char_of (shifted key_state) key)) Hrep) as (b & -> & Hb).
  cbn [mbind result_bind mret result_ret]. eexists. by split_and!.
Qed.

Lemma front_ok {A} (b : RingBuffer.t A) x xs : RingBuffer.rep 32 b (x :: xs) → RingBuffer.front b = Ok x.
Proof.
  intros (Hf & Hc & Hle & Hb & Hh). unfold RingBuffer.front, RingBuffer.empty. cbn in Hc. decide_Z.
  assert (RingBuffer.pos 32 (RingBuffer.front_pos_ b) 0 = RingBuffer.front_pos_ b) as Hpos
    by (by apply RingBuffer.pos_0).
  pose proof (holds_live _ _ _ _ 0 x Hh ltac:(lia) eq_refl) as Hl. rewrite Hpos in Hl.
  unfold read. by rewrite Hl.
Qed.

Lemma try_event_ok d x xs :
  inv d (x :: xs) → ∃ d', try_event d = Ok (Some x, d') ∧ inv d' xs ∧ key_state_ d' = key_state_ d.
Proof.
  intros (Hlen & Hrep). unfold try_event, RingBuffer.empty. pose proof Hrep as (_ & Hc & _). cbn in Hc.
  decide_Z. rewrite (front_ok _ x xs Hrep). cbn [mbind result_bind].
  destruct (RingBuffer.pop_front_ok 32 ltac:(done) _ x xs Hrep) as (b & -> & Hb).
  cbn [mbind result_bind mret result_ret]. eexists. by split_and!.
Qed.
End Laws.

(** ** The specification: keys pressed and released, and the queue of events *)
Definition spec_key (key : Z) (st : KeycodeKeyState) (a : list KeycodeKeyState * list KeyboardEvent)
  : list KeycodeKeyState * list KeyboardEvent :=
  let key_state := <[Z.to_nat key := st]> (fst a) in
  (key_state,
   if Z.of_nat (length (snd a)) <? 32
   then snd a ++ [mke key st (char_of (shifted key_state) key)] else snd a).

(** A keyboard interrupt: what is at the port, and the key event it stands for. *)
Record keystroke (P : Type) := mkk { port : P; after : P; esc : bool; st : KeycodeKeyState; kkey : Z }.
Arguments port {P} _.
Arguments after {P} _.
Arguments esc {P} _.
Arguments st {P} _.
Arguments kkey {P} _.

Definition stroke_ok {P : Type} (inb : P → Z * P) (k : keystroke P) : Prop :=
  0 <= kkey k < KEYCODE_MAX ∧
  ∃ code, nthZ (table (esc k) (st k)) (kkey k) = Some code ∧ code ≠ 0 ∧ sends inb (port k) (esc k) code (after k).

Fixpoint run_interrupts {P : Type} (inb : P → Z * P) (ps : list P) (d : t) : result t :=
  match ps with
  | [] => mret d
  | p :: ps => '(d, _) ← on_interrupt inb p d; run_interrupts inb ps d
  end.

Lemma run_interrupts_ok {P : Type} (inb : P → Z * P) ks : ∀ d a,
  Forall (stroke_ok inb) ks → inv d (snd a) → key_state_ d = fst a →
  ∃ d', run_interrupts inb (port <$> ks) d = Ok d' ∧
    let a' := foldl (λ a k, spec_key (kkey k) (st k) a) a ks in inv d' (snd a') ∧ key_state_ d' = fst a'.
Proof.
  induction ks as [|k ks IH]; intros d a Hks Hinv Hst; [by exists d|].
  apply Forall_cons in Hks as [(Hk & code & Hc & Hne & Hs) Hks]. cbn [fmap list_fmap run_interrupts foldl].
  destruct (on_interrupt_ok inb d (snd a) (port k) (after k) (esc k) (st k) (kkey k) code Hinv Hk Hc Hne Hs)
    as (d1 & -> & Hst1 & Hinv1). cbn [mbind result_bind]. rewrite Hst in Hst1, Hinv1. by apply IH.
Qed.

Lemma init_inv : inv init [].
Proof. split; [done|]. by apply RingBuffer.rep_init. Qed.



(** The break code of every key is its make code with bit 7 set, except that of Home,
    whose entry is 0x97: the bytes E0 C7 of its release are unknown to the driver.  Zero
    marks a key without a code, but a byte 0 at the port is decoded as the left GUI key. *)
Lemma home_release_is_unknown :
  decode true 0xC7 = None ∧ nthZ g_scancodes_break_escape KEYCODE_HOME = Some 0x97 ∧
  decode false 0 = Some (KEYCODE_LEFT_GUI, PRESSED) ∧
  forallb (λ '(make, break), (make =? 0) || (break =? make + 0x80))
    (zip g_scancodes_make g_scancodes_break) = true.
Proof. by split_and!. Qed.

End Keyboard.
