(* ===== verification/Strings.v ===== *)
(** * Strings: the C string and memory functions of the kernel

    Models src/Common/src/string.cpp and [StringToLongConverter]
    (common/string_to_long_converter.hpp), on a memory of [char]s (signed 8-bit) by
    address; reading or writing an address that is not mapped is a fault.  [W] is the
    width of [size_t] and of [long].

    [cstr m s cs] says that a nul-terminated string of the characters [cs] lies at [s]. *)
From S2P Require Import Prelude TextDisplay.

Module Strings.

Section Functions.
Context (W : Z).
Implicit Types (m : gmap Z Z) (cs : list Z).

Definition load m (a : Z) : result Z :=
  if a =? 0 then Fault NullDereference else deref InvalidAccess (m !! a).

Definition store m (a v : Z) : result (gmap Z Z) :=
  _ ← load m a; mret (<[a := v]> m).

(** No loop below visits an address twice. *)
Definition fuel_for m : nat := S (base.size m).

Fixpoint strlen_loop (fuel : nat) m (s c : Z) : result Z :=
  match fuel with
  | O => Fault OutOfFuel
  | S fuel => x ← load m s; if x =? 0 then mret c else strlen_loop fuel m (s + 1) (uwrap W (c + 1))
  end.

Definition strlen m (s : Z) : result Z :=
  if s =? 0 then mret 0 else strlen_loop (fuel_for m) m s 0.

(** The loop of [strnlen], with [n = maxlen - c]. *)
Fixpoint strnlen_loop (n : nat) m (s c : Z) : result Z :=
  match n with
  | O => mret c
  | S n => x ← load m s; if x =? 0 then mret c else strnlen_loop n m (s + 1) (c + 1)
  end.

Definition strnlen m (s maxlen : Z) : result Z :=
  if s =? 0 then mret 0 else strnlen_loop (Z.to_nat maxlen) m s 0.

Fixpoint strncmp (n : nat) m (s1 s2 : Z) : result Z :=
  match n with
  | O => mret 0
  | S n =>
      x ← load m s1;
      y ← load m s2;
      if negb (x =? 0) && (x =? y) then strncmp n m (s1 + 1) (s2 + 1) else mret (x - y)
  end.

(** [for (i = 0; i < n; ++i) dst[i] = src[i];], with [n] iterations left. *)
Fixpoint memcpy_loop (n : nat) (i : Z) m (dst src : Z) : result (gmap Z Z) :=
  match n with
  | O => mret m
  | S n =>
      x ← load m (src + i);
      m ← store m (dst + i) x;
      memcpy_loop n (i + 1) m dst src
  end.

Definition memcpy m (dst src n : Z) : result (gmap Z Z) :=
  memcpy_loop (Z.to_nat n) 0 m dst src.

(** [for (i = begin; i != end; i += step) dst[i] = src[i];] in [size_t] arithmetic. *)
Fixpoint memmove_loop (fuel : nat) (i end_ step : Z) m (dst src : Z) : result (gmap Z Z) :=
  if i =? end_ then mret m
  else match fuel with
       | O => Fault OutOfFuel
       | S fuel =>
           x ← load m (src + i);
           m ← store m (dst + i) x;
           memmove_loop fuel (uwrap W (i + step)) end_ step m dst src
       end.

Definition memmove m (dst src n : Z) : result (gmap Z Z) :=
  if negb (src =? dst) then
    if src <? dst then memmove_loop (Z.to_nat n) (uwrap W (n - 1)) (uwrap W (-1)) (-1) m dst src
    else memmove_loop (Z.to_nat n) 0 n 1 m dst src
  else mret m.

Fixpoint memset_loop (n : nat) (i : Z) m (dst value : Z) : result (gmap Z Z) :=
  match n with
  | O => mret m
  | S n => m ← store m (dst + i) (swrap 8 (uwrap 8 value)); memset_loop n (i + 1) m dst value
  end.

Definition memset m (dst value n : Z) : result (gmap Z Z) :=
  memset_loop (Z.to_nat n) 0 m dst value.

(** [strdup], when [malloc] answers [new]. *)
Definition strdup m (s new : Z) : result (gmap Z Z) :=
  length ← strlen m s;
  m ← memcpy m new s length;
  store m (new + length) 0.

Fixpoint memcmp (n : nat) m (s1 s2 : Z) : result Z :=
  match n with
  | O => mret 0
  | S n =>
      x ← load m s1;
      y ← load m s2;
      let u1 := uwrap 8 x in
      let u2 := uwrap 8 y in
      if negb (u1 =? u2) then mret (u1 - u2) else memcmp n m (s1 + 1) (s2 + 1)
  end.

Fixpoint strstr_loop (fuel : nat) m (haystack needle : Z) : result Z :=
  match fuel with
  | O => Fault OutOfFuel
  | S fuel =>
      n ← load m needle;
      if n =? 0 then mret haystack
      else
        h ← load m haystack;
        if h =? 0 then mret 0
        else
          found ← (if h =? n
                   then r ← strstr_loop fuel m (haystack + 1) (needle + 1);
                        mret (r =? haystack + 1)
                   else mret false);
          if found : bool then mret haystack else strstr_loop fuel m (haystack + 1) needle
  end.

Definition strstr m (haystack needle : Z) : result Z :=
  strstr_loop (fuel_for m) m haystack needle.

(** ** StringToLongConverter: [str_] and [base_] are passed along *)
Definition eat_sign m (str : Z) : result (Z * Z) :=
  c ← load m str;
  if c =? 43 then mret (1, str + 1)
  else if c =? 45 then mret (-1, str + 1)
  else mret (1, str).

Definition has_octal_prefix m (str : Z) : result bool :=
  c ← load m str;
  if c =? 48 then d ← load m (str + 1); mret (negb (d =? 120)) else mret false.

Definition has_hex_prefix m (str : Z) : result bool :=
  c ← load m str;
  if c =? 48 then d ← load m (str + 1); mret (d =? 120) else mret false.

Definition eat_base_prefix m (str base : Z) : result (Z * Z) :=
  octal ← (if (base =? 0) || (base =? 8) then has_octal_prefix m str else mret false);
  if octal : bool then mret (8, str + 1)
  else
    hex ← (if (base =? 0) || (base =? 16) then has_hex_prefix m str else mret false);
    if hex : bool then mret (16, str + 2)
    else mret (if base =? 0 then 10 else base, str).

Definition is_alphanumeric (c : Z) : bool := isdigit c || islower c || isupper c.

Definition get_digit_for_char (c : Z) : Z :=
  if isdigit c then c - 48
  else if islower c then c - 97 + 10
  else if isupper c then c - 65 + 10
  else 0.

Definition is_valid_digit_for_char (base c : Z) : bool :=
  is_alphanumeric c && (get_digit_for_char c <? base).

Fixpoint scan_to_end_of_number (fuel : nat) m (base str : Z) : result Z :=
  match fuel with
  | O => Fault OutOfFuel
  | S fuel =>
      c ← load m str;
      if is_valid_digit_for_char base c then scan_to_end_of_number fuel m base (str + 1)
      else mret str
  end.

Fixpoint pow_long (base : Z) (exponent : nat) : Z :=
  match exponent with
  | O => 1
  | S exponent => swrap W (pow_long base exponent * base)
  end.

(** The loop of [parse_number_digits]: [*p] is read before [p >= str_] is tested. *)
Fixpoint parse_loop (fuel : nat) m (base str p accum : Z) (exponent : nat) : result Z :=
  match fuel with
  | O => Fault OutOfFuel
  | S fuel =>
      c ← load m p;
      if is_valid_digit_for_char base c && (str <=? p) then
        let value := swrap W (get_digit_for_char c * pow_long base exponent) in
        parse_loop fuel m base str (p - 1) (swrap W (accum + value)) (S exponent)
      else mret accum
  end.

Definition parse_number_digits m (base str endptr : Z) : result Z :=
  parse_loop (S (Z.to_nat (endptr - str))) m base str (endptr - 1) 0 0.

(** The value converted and what is written to the end pointer, if anything. *)
Definition strtol m (original base : Z) : result (Z * option Z) :=
  if original =? 0 then mret (0, None)
  else if (base <? 0) || (35 <=? base) then mret (0, None)
  else
    '(multiplier, str) ← eat_sign m original;
    '(base, str) ← eat_base_prefix m str base;
    endptr ← scan_to_end_of_number (fuel_for m) m base str;
    if endptr =? str then mret (0, Some original)
    else
      unsigned_result ← parse_number_digits m base str endptr;
      mret (swrap W (unsigned_result * multiplier), Some endptr).

(** ** Strings and blocks in memory *)
Fixpoint cstr m (s : Z) cs : Prop :=
  0 < s ∧
  match cs with
  | [] => m !! s = Some 0
  | c :: cs => c ≠ 0 ∧ m !! s = Some c ∧ cstr m (s + 1) cs
  end.

Lemma str_load m a x : 0 < a → m !! a = Some x → load m a = Ok x.
Proof. intros Ha Hx. unfold load. decide_Z. by rewrite Hx. Qed.

Lemma str_store m a x v : 0 < a → m !! a = Some x → store m a v = Ok (<[a := v]> m).
Proof. intros Ha Hx. unfold store. by rewrite (str_load _ _ x). Qed.

Lemma cstr_positive m s cs : cstr m s cs → 0 < s.
Proof. by destruct cs; intros [? ?]. Qed.

Lemma cstr_mapped m s cs a :
  cstr m s cs → s <= a <= s + Z.of_nat (length cs) → is_Some (m !! a).
Proof.
  revert s. induction cs as [|c cs IH]; intros s; cbn [cstr length].
  - intros [_ Hm] Ha. replace a with s by lia. eauto.
  - intros (_ & _ & Hm & Hcs) Ha. destruct (decide (a = s)) as [->|]; [eauto|].
    apply (IH (s + 1)); [done|lia].
Qed.

Lemma cstr_moved m m' s s' cs :
  0 < s' → (∀ i, 0 <= i <= Z.of_nat (length cs) → m' !! (s' + i) = m !! (s + i)) →
  cstr m s cs → cstr m' s' cs.
Proof.
  revert s s'. induction cs as [|c cs IH]; intros s s' Hs' H; cbn [cstr length] in *;
    pose proof (H 0 ltac:(lia)) as H0; rewrite !Z.add_0_r in H0; rewrite H0; [by intros [_ ?]|].
  intros (Ha & Hc & Hm & Hcs). split_and!; [done..|]. apply (IH (s + 1)); [lia| |done].
  intros i Hi. rewrite <-!Z.add_assoc. apply H. lia.
Qed.

Lemma cstr_frame m m' s cs :
  (∀ a, s <= a <= s + Z.of_nat (length cs) → m' !! a = m !! a) → cstr m s cs → cstr m' s cs.
Proof.
  intros H Hcs. apply (cstr_moved m m' s s); [by eapply cstr_positive| |done]. intros i Hi. apply H. lia.
Qed.

Lemma cstr_end m s cs : cstr m s cs → m !! (s + Z.of_nat (length cs)) = Some 0.
Proof.
  revert s. induction cs as [|c cs IH]; intros s; cbn [cstr length]; [by rewrite Z.add_0_r; intros [_ ?]|].
  intros (_ & _ & _ & Hcs). rewrite <-(IH _ Hcs). f_equal. lia.
Qed.

Lemma cstr_fuel m s cs : cstr m s cs → (length cs < base.size m)%nat.
Proof.
  intros Hcs. pose proof (store_size m (seqZ s (Z.of_nat (S (length cs)))) (NoDup_seqZ _ _)) as Hsz.
  rewrite length_seqZ, Nat2Z.id in Hsz. apply Hsz. intros a Ha. apply elem_of_seqZ in Ha.
  apply (cstr_mapped m s cs); [done|lia].
Qed.

(** ** Lengths *)
Lemma strlen_loop_ok m s cs c fuel :
  cstr m s cs → (length cs < fuel)%nat → 0 <= c → c + Z.of_nat (length cs) < 2 ^ W →
  strlen_loop fuel m s c = Ok (c + Z.of_nat (length cs)).
Proof.
  revert s c fuel. induction cs as [|x cs IH]; intros s c [|fuel]; cbn [cstr length strlen_loop];
    try lia.
  - intros [Hs Hm] _ _ _. rewrite (str_load _ _ _ Hs Hm). cbn. f_equal. lia.
  - intros (Hs & Hx & Hm & Hcs) Hf Hc Hw. rewrite (str_load _ _ _ Hs Hm). cbn. decide_Z.
    rewrite uwrap_small by (split; lia). rewrite IH by (done || lia). f_equal. lia.
Qed.

Lemma strnlen_loop_ok m s cs c n :
  cstr m s cs → strnlen_loop n m s c = Ok (c + Z.of_nat (length (take n cs))).
Proof.
  revert s c n. induction cs as [|x cs IH]; intros s c [|n]; cbn [cstr strnlen_loop take length].
  1,3: intros; cbn; f_equal; lia.
  - intros [Hs Hm]. rewrite (str_load _ _ _ Hs Hm). cbn. f_equal. lia.
  - intros (Hs & Hx & Hm & Hcs). rewrite (str_load _ _ _ Hs Hm). cbn. decide_Z.
    rewrite IH by done. f_equal. lia.
Qed.

(** ** Comparisons *)

(** The difference of the first characters that differ among the first [n]. *)
Fixpoint compare_chars (n : nat) (xs ys : list Z) : Z :=
  match n, xs, ys with
  | S n, x :: xs, y :: ys => if x =? y then compare_chars n xs ys else x - y
  | S _, x :: _, [] => x
  | S _, [], y :: _ => - y
  | _, _, _ => 0
  end.

Lemma strncmp_ok n m s1 s2 xs ys :
  cstr m s1 xs → cstr m s2 ys → strncmp n m s1 s2 = Ok (compare_chars n xs ys).
Proof.
  revert s1 s2 xs ys. induction n as [|n IH]; intros s1 s2 [|x xs] [|y ys];
    cbn [cstr strncmp compare_chars]; try done.
  - intros [H1 Hx] [H2 Hy]. by rewrite (str_load _ _ _ H1 Hx), (str_load _ _ _ H2 Hy).
  - intros [H1 Hx] (H2 & Hy0 & Hy & _). by rewrite (str_load _ _ _ H1 Hx), (str_load _ _ _ H2 Hy).
  - intros (H1 & Hx0 & Hx & _) [H2 Hy]. rewrite (str_load _ _ _ H1 Hx), (str_load _ _ _ H2 Hy).
    cbn. decide_Z. cbn. f_equal. lia.
  - intros (H1 & Hx0 & Hx & Hxs) (H2 & Hy0 & Hy & Hys).
    rewrite (str_load _ _ _ H1 Hx), (str_load _ _ _ H2 Hy). cbn. decide_Z.
    destruct (Z.eqb_spec x y); [by apply IH|done].
Qed.

Lemma compare_chars_zero n xs ys :
  Forall (λ c, c ≠ 0) xs → Forall (λ c, c ≠ 0) ys →
  compare_chars n xs ys = 0 ↔ take n xs = take n ys.
Proof.
  intros Hxs. revert n ys. induction Hxs as [|x xs Hx Hxs IH]; intros [|n] ys Hys; try done;
    destruct Hys as [|y ys Hy Hys]; cbn [compare_chars take]; cbv beta in *; try done.
  { split; [lia|done]. }
  destruct (Z.eqb_spec x y) as [->|].
  - rewrite IH by done. split; [by intros ->|by intros [= ?]].
  - split; [lia|intros [= ? ?]; done].
Qed.

Lemma cstr_nonzero m s cs : cstr m s cs → Forall (λ c, c ≠ 0) cs.
Proof.
  revert s. induction cs as [|c cs IH]; intros s; cbn [cstr]; [constructor|].
  intros (_ & Hc & _ & Hcs). constructor; [done|by eapply IH].
Qed.

Lemma uwrap_8_inj x y :
  -128 <= x < 128 → -128 <= y < 128 → uwrap 8 x = uwrap 8 y → x = y.
Proof. unfold uwrap. intros Hx Hy E. change (2 ^ 8) with 256 in E. Z.to_euclidean_division_equations. lia. Qed.

(** ** Searching *)

(** The position of the first occurrence of [ys] in [xs]. *)
Fixpoint first_occurrence (xs ys : list Z) : option nat :=
  if decide (ys `prefix_of` xs) then Some O
  else match xs with [] => None | _ :: xs => S <$> first_occurrence xs ys end.

Lemma strstr_loop_ok fuel m h n xs ys :
  cstr m h xs → cstr m n ys → (length xs < fuel)%nat →
  strstr_loop fuel m h n
  = Ok (match first_occurrence xs ys with Some i => h + Z.of_nat i | None => 0 end).
Proof.
  revert h n xs ys. induction fuel as [|fuel IH]; intros h n xs ys Hxs Hys Hf; [lia|].
  cbn [strstr_loop]. destruct ys as [|y ys].
  { destruct Hys as [Hn Hy]. rewrite (str_load _ _ _ Hn Hy). cbn.
    destruct xs; cbn; rewrite decide_True by apply prefix_nil; by rewrite Z.add_0_r. }
  pose proof Hys as (Hn & Hy0 & Hy & Hys'). rewrite (str_load _ _ _ Hn Hy). cbn [mbind result_bind].
  decide_Z. destruct xs as [|x xs].
  { destruct Hxs as [Hh Hx]. rewrite (str_load _ _ _ Hh Hx). cbn.
    by rewrite decide_False by (intros Hp; by apply prefix_nil_not in Hp). }
  pose proof Hxs as (Hh & Hx0 & Hx & Hxs'). rewrite (str_load _ _ _ Hh Hx). cbn [mbind result_bind].
  decide_Z. cbn [length] in Hf.
  pose proof (IH (h + 1) n xs (y :: ys) Hxs' Hys ltac:(lia)) as Hrest.
  assert (∀ b : bool, b = bool_decide (y :: ys `prefix_of` x :: xs) →
    (if b then mret h else strstr_loop fuel m (h + 1) n)
    = Ok (match first_occurrence (x :: xs) (y :: ys) with
          | Some i => h + Z.of_nat i | None => 0 end)) as Hfin.
  { intros b ->. cbn [first_occurrence].
    destruct (decide (y :: ys `prefix_of` x :: xs)) as [Hp|Hp].
    - rewrite bool_decide_true by done. cbn. f_equal. lia.
    - rewrite bool_decide_false by done. rewrite Hrest.
      destruct (first_occurrence xs (y :: ys)); cbn; f_equal. lia. }
  destruct (Z.eqb_spec x y) as [->|Hne].
  - rewrite (IH (h + 1) (n + 1) xs ys) by (done || lia). cbn [mbind result_bind mret result_ret].
    apply Hfin. assert (y :: ys `prefix_of` y :: xs ↔ ys `prefix_of` xs) as Hpp
      by (split; [apply prefix_cons_inv_2|apply prefix_cons]).
    rewrite (bool_decide_ext _ _ Hpp).
    destruct xs as [|x' xs']; cbn [first_occurrence];
      destruct (decide (ys `prefix_of` _)) as [Hp|Hp];
      rewrite ?bool_decide_true, ?bool_decide_false by done.
    1,3: apply Z.eqb_eq; lia.
    + apply Z.eqb_neq. lia.
    + destruct (first_occurrence xs' ys); cbn [fmap option_fmap option_map];
        apply Z.eqb_neq; lia.
  - cbn [mbind result_bind mret result_ret]. apply (Hfin false).
    rewrite bool_decide_false; [done|]. intros Hp. by apply prefix_cons_inv_1 in Hp.
Qed.

(** ** Copying *)

(** The memory after the [n] bytes at [src] have been written at [dst]. *)
Definition copied m (m' : gmap Z Z) (dst src n : Z) : Prop :=
  ∀ a, m' !! a = if (dst <=? a) && (a <? dst + n) then m !! (src + (a - dst)) else m !! a.

Definition readable m (a n : Z) : Prop := ∀ i, 0 <= i < n → 0 < a + i ∧ is_Some (m !! (a + i)).

(** One step of a copy: [k] tells which bytes have been copied already, byte [i] has not
    been overwritten yet. *)
Lemma copy_step m (mi : gmap Z Z) dst src n i (k : Z → bool) :
  readable m dst n → readable m src n → 0 <= i < n →
  (∀ a, mi !! a = if (dst <=? a) && (a <? dst + n) && k (a - dst)
                  then m !! (src + (a - dst)) else m !! a) →
  mi !! (src + i) = m !! (src + i) →
  ∃ x, load mi (src + i) = Ok x ∧ store mi (dst + i) x = Ok (<[dst + i := x]> mi) ∧
    ∀ a, <[dst + i := x]> mi !! a
         = if (dst <=? a) && (a <? dst + n) && ((a - dst =? i) || k (a - dst))
           then m !! (src + (a - dst)) else m !! a.
Proof.
  intros Hd Hs Hi Hmi Hsrc. destruct (Hs i Hi) as [Hs0 [x Hx]], (Hd i Hi) as [Hd0 [y Hy]].
  exists x. rewrite Hx in Hsrc. split; [by apply str_load|].
  assert (is_Some (mi !! (dst + i))) as [z Hz].
  { rewrite Hmi. destruct (_ && _); [|eauto]. replace (src + (dst + i - dst)) with (src + i) by lia.
    eauto. }
  split; [by eapply str_store|]. intros a. destruct (decide (a = dst + i)) as [->|Hne].
  - rewrite lookup_insert_eq. replace (dst + i - dst) with i by lia.
    rewrite Z.eqb_refl. decide_Z. done.
  - rewrite lookup_insert_ne, Hmi by done.
    rewrite (proj2 (Z.eqb_neq (a - dst) i)) by lia. done.
Qed.

(** Bytes outside the part already copied are those of the original memory. *)
Lemma copy_source m (mi : gmap Z Z) dst src n i (k : Z → bool) :
  (∀ a, mi !! a = if (dst <=? a) && (a <? dst + n) && k (a - dst)
                  then m !! (src + (a - dst)) else m !! a) →
  (0 <= src + i - dst < n → k (src + i - dst) = false) →
  mi !! (src + i) = m !! (src + i).
Proof.
  intros Hmi Hk. rewrite Hmi.
  destruct (Z.leb_spec dst (src + i)), (Z.ltb_spec (src + i) (dst + n)); cbn [andb]; try done.
  by rewrite Hk by lia.
Qed.

(** A memory of [char]s. *)
Definition chars m : Prop := map_Forall (λ _ c, -128 <= c < 128) m.

Lemma readable_step m a n : readable m a (Z.of_nat (S n)) → readable m (a + 1) (Z.of_nat n).
Proof.
  intros Ha i Hi. replace (a + 1 + i) with (a + (i + 1)) by lia. apply Ha. lia.
Qed.

Lemma memcmp_ok n m a b :
  chars m → readable m a (Z.of_nat n) → readable m b (Z.of_nat n) →
  ∃ r, memcmp n m a b = Ok r ∧
    (r = 0 ↔ ∀ i, 0 <= i < Z.of_nat n → m !! (a + i) = m !! (b + i)).
Proof.
  intros Hm. revert a b. induction n as [|n IH]; intros a b Ha Hb; cbn [memcmp].
  { exists 0. split; [done|]. split; [lia|done]. }
  destruct (Ha 0 ltac:(lia)) as [Ha0 [x Hx]], (Hb 0 ltac:(lia)) as [Hb0 [y Hy]].
  rewrite Z.add_0_r in Ha0, Hx, Hb0, Hy. rewrite (str_load _ a x), (str_load _ b y) by done.
  cbn [mbind result_bind]. cbv zeta.
  destruct (Z.eqb_spec (uwrap 8 x) (uwrap 8 y)) as [E|E]; cbn [negb].
  - apply uwrap_8_inj in E as <-; [|by eapply Hm|by eapply Hm].
    destruct (IH (a + 1) (b + 1)) as (r & -> & Hr); [by apply readable_step..|].
    exists r. split; [done|]. rewrite Hr. split; intros H i Hi.
    + destruct (decide (i = 0)) as [->|]; [rewrite !Z.add_0_r; congruence|].
      specialize (H (i - 1) ltac:(lia)). replace (a + i) with (a + 1 + (i - 1)) by lia.
      rewrite H. f_equal. lia.
    + specialize (H (i + 1) ltac:(lia)). replace (a + 1 + i) with (a + (i + 1)) by lia.
      rewrite H. f_equal. lia.
  - exists (uwrap 8 x - uwrap 8 y). split; [done|]. split; [lia|]. intros H.
    specialize (H 0 ltac:(lia)). rewrite !Z.add_0_r, Hx, Hy in H. congruence.
Qed.

Lemma memset_loop_ok k i m (mi : gmap Z Z) dst value n :
  readable m dst n → 0 <= i → i + Z.of_nat k = n →
  (∀ a, mi !! a = if (dst <=? a) && (a <? dst + i)
                  then Some (swrap 8 (uwrap 8 value)) else m !! a) →
  ∃ m', memset_loop k i mi dst value = Ok m' ∧
    ∀ a, m' !! a = if (dst <=? a) && (a <? dst + n)
                   then Some (swrap 8 (uwrap 8 value)) else m !! a.
Proof.
  intros Hd. revert i mi. induction k as [|k IH]; intros i mi Hi Hn Hmi; cbn [memset_loop].
  { exists mi. split; [done|]. by replace n with i by lia. }
  destruct (Hd i ltac:(lia)) as [Hd0 [y Hy]].
  rewrite (str_store _ _ y); [|done|by rewrite Hmi, (proj2 (Z.ltb_ge _ _)), andb_false_r by lia].
  apply IH; [lia|lia|]. intros a. destruct (decide (a = dst + i)) as [->|Hne].
  - rewrite lookup_insert_eq. by decide_Z.
  - rewrite lookup_insert_ne, Hmi by done.
    destruct (Z.leb_spec dst a), (Z.ltb_spec a (dst + i)), (Z.ltb_spec a (dst + (i + 1)));
      done || lia.
Qed.

Lemma memcpy_loop_ok fuel i m (mi : gmap Z Z) dst src n :
  readable m dst n → readable m src n → 0 <= i → i + Z.of_nat fuel = n →
  dst <= src ∨ src + n <= dst →
  (∀ a, mi !! a = if (dst <=? a) && (a <? dst + n) && (a - dst <? i)
                  then m !! (src + (a - dst)) else m !! a) →
  ∃ m', memcpy_loop fuel i mi dst src = Ok m' ∧ copied m m' dst src n.
Proof.
  intros Hd Hs. revert i mi. induction fuel as [|fuel IH]; intros i mi Hi Hn Hov Hmi.
  { exists mi. split; [done|]. intros a. rewrite Hmi.
    destruct (Z.leb_spec dst a), (Z.ltb_spec a (dst + n)); cbn [andb]; try done. by decide_Z. }
  destruct (copy_step m mi dst src n i (λ j, j <? i) Hd Hs ltac:(lia) Hmi) as (x & E1 & E2 & Hm').
  { eapply (copy_source _ _ _ _ n i (λ j, j <? i)); [exact Hmi|]. intros. apply Z.ltb_ge. lia. }
  cbn [memcpy_loop]. rewrite E1. cbn [mbind result_bind]. rewrite E2. cbn [mbind result_bind].
  apply IH; [lia|lia|done|]. intros a. rewrite Hm'.
  replace ((a - dst =? i) || (a - dst <? i)) with (a - dst <? i + 1); [done|].
  destruct (Z.eqb_spec (a - dst) i), (Z.ltb_spec (a - dst) i), (Z.ltb_spec (a - dst) (i + 1));
    cbn; lia || done.
Qed.

Lemma memmove_up_ok fuel i m (mi : gmap Z Z) dst src n :
  readable m dst n → readable m src n → 0 <= i → i + Z.of_nat fuel = n → n < 2 ^ W →
  dst <= src →
  (∀ a, mi !! a = if (dst <=? a) && (a <? dst + n) && (a - dst <? i)
                  then m !! (src + (a - dst)) else m !! a) →
  ∃ m', memmove_loop fuel i n 1 mi dst src = Ok m' ∧ copied m m' dst src n.
Proof.
  intros Hd Hs Hi Hn Hw Hle Hmi.
  enough (memmove_loop fuel i n 1 mi dst src = memcpy_loop fuel i mi dst src) as ->
    by (eapply memcpy_loop_ok; try done; by left).
  clear Hmi. revert i mi Hi Hn. induction fuel as [|fuel IH]; intros i mi Hi Hn;
    cbn [memmove_loop memcpy_loop].
  - by rewrite (proj2 (Z.eqb_eq i n)) by lia.
  - rewrite (proj2 (Z.eqb_neq i n)) by lia. destruct (load mi (src + i)); [|done].
    cbn [mbind result_bind]. destruct (store mi (dst + i) a); [|done]. cbn [mbind result_bind].
    rewrite uwrap_small by (split; lia). apply IH; lia.
Qed.

Lemma memmove_down_ok fuel m (mi : gmap Z Z) dst src n :
  0 < W → readable m dst n → readable m src n → Z.of_nat fuel <= n → n < 2 ^ W → src < dst →
  (∀ a, mi !! a = if (dst <=? a) && (a <? dst + n) && (Z.of_nat fuel <=? a - dst)
                  then m !! (src + (a - dst)) else m !! a) →
  ∃ m', memmove_loop fuel (uwrap W (Z.of_nat fuel - 1)) (uwrap W (-1)) (-1) mi dst src = Ok m' ∧
        copied m m' dst src n.
Proof.
  intros HW Hd Hs. revert mi. induction fuel as [|fuel IH]; intros mi Hle Hw Hlt Hmi.
  { cbn [memmove_loop]. change (Z.of_nat 0 - 1) with (-1). rewrite Z.eqb_refl.
    exists mi. split; [done|]. intros a. rewrite Hmi.
    destruct (Z.leb_spec dst a), (Z.ltb_spec a (dst + n)); cbn [andb]; try done. by decide_Z. }
  set (i := Z.of_nat fuel). replace (Z.of_nat (S fuel) - 1) with i by lia.
  assert (2 ^ W ≠ 1) by (pose proof (Z.pow_gt_1 2 W); lia).
  assert (uwrap W (-1) = 2 ^ W - 1) as Hm1.
  { unfold uwrap. rewrite <-(Z_mod_plus_full (-1) 1), Z.mod_small; lia. }
  rewrite (uwrap_small W i) by (split; lia). cbn [memmove_loop]. rewrite Hm1.
  rewrite (proj2 (Z.eqb_neq i (2 ^ W - 1))) by lia.
  destruct (copy_step m mi dst src n i (λ j, Z.of_nat (S fuel) <=? j) Hd Hs ltac:(lia) Hmi)
    as (x & E1 & E2 & Hm').
  { eapply (copy_source _ _ _ _ n i (λ j, Z.of_nat (S fuel) <=? j)); [exact Hmi|].
    intros. apply Z.leb_gt. lia. }
  rewrite E1. cbn [mbind result_bind]. rewrite E2. cbn [mbind result_bind].
  rewrite <-Hm1. apply IH; [lia|done|done|]. intros a. rewrite Hm'.
  replace ((a - dst =? i) || (Z.of_nat (S fuel) <=? a - dst)) with (Z.of_nat fuel <=? a - dst); [done|].
  destruct (Z.eqb_spec (a - dst) i), (Z.leb_spec (Z.of_nat (S fuel)) (a - dst)),
    (Z.leb_spec (Z.of_nat fuel) (a - dst)); cbn; lia || done.
Qed.


(** ** Numbers *)

(** The sign a string starts with, and its length. *)
Definition sign_of cs : Z * nat :=
  match cs with
  | c :: _ => if c =? 43 then (1, 1%nat) else if c =? 45 then (-1, 1%nat) else (1, O)
  | [] => (1, O)
  end.

(** The base a number is written in, given the base asked for, and the length of its
    prefix: a leading 0 not followed by x for octal, 0x for hexadecimal. *)
Definition base_prefix (base : Z) cs : Z * nat :=
  let zero := match cs with c :: _ => c =? 48 | [] => false end in
  let x := match cs with _ :: c :: _ => c =? 120 | _ => false end in
  if ((base =? 0) || (base =? 8)) && (zero && negb x) then (8, 1%nat)
  else if ((base =? 0) || (base =? 16)) && (zero && x) then (16, 2%nat)
  else (if base =? 0 then 10 else base, O).

Fixpoint leading_digits (base : Z) cs : list Z :=
  match cs with
  | c :: cs => if is_valid_digit_for_char base c then c :: leading_digits base cs else []
  | [] => []
  end.

Definition digits_value (base : Z) (ds : list Z) : Z :=
  foldl (λ acc c, acc * base + get_digit_for_char c) 0 ds.

Lemma cstr_drop m s cs i :
  cstr m s cs → (i <= length cs)%nat → cstr m (s + Z.of_nat i) (drop i cs).
Proof.
  revert s i. induction cs as [|c cs IH]; intros s [|i] Hcs Hi; cbn [length] in *; try lia.
  1,2: by rewrite drop_0, Z.add_0_r.
  destruct Hcs as (_ & _ & _ & Hcs). cbn [drop].
  replace (s + Z.of_nat (S i)) with (s + 1 + Z.of_nat i) by lia. apply IH; [done|lia].
Qed.

Lemma cstr_head m s cs :
  cstr m s cs → load m s = Ok (match cs with c :: _ => c | [] => 0 end).
Proof.
  destruct cs; [intros [Hs Hm]|intros (Hs & _ & Hm & _)]; by rewrite (str_load _ _ _ Hs Hm).
Qed.

Lemma cstr_second m s c cs :
  cstr m s (c :: cs) → load m (s + 1) = Ok (match cs with d :: _ => d | [] => 0 end).
Proof. intros (_ & _ & _ & Hcs). by apply cstr_head. Qed.

Lemma sign_of_ok m s cs :
  cstr m s cs →
  eat_sign m s = Ok ((sign_of cs).1, s + Z.of_nat (sign_of cs).2) ∧
  ((sign_of cs).2 <= length cs)%nat.
Proof.
  intros Hcs. unfold eat_sign. rewrite (cstr_head _ _ _ Hcs). cbn [mbind result_bind].
  destruct cs as [|c cs]; cbn [sign_of length].
  - cbn. rewrite Z.add_0_r. split; [done|lia].
  - destruct (c =? 43), (c =? 45); cbn; rewrite ?Z.add_0_r; split; done || lia.
Qed.

Lemma base_prefix_ok m s cs base :
  cstr m s cs →
  eat_base_prefix m s base = Ok ((base_prefix base cs).1, s + Z.of_nat (base_prefix base cs).2) ∧
  ((base_prefix base cs).2 <= length cs)%nat.
Proof.
  intros Hcs. unfold eat_base_prefix, base_prefix, has_octal_prefix, has_hex_prefix.
  rewrite (cstr_head _ _ _ Hcs). destruct cs as [|c cs].
  { cbn [mbind result_bind]. change (0 =? 48) with false.
    destruct ((base =? 0) || (base =? 8)), ((base =? 0) || (base =? 16));
      cbn; rewrite Z.add_0_r; split; done || lia. }
  rewrite (cstr_second _ _ _ _ Hcs). cbn [mbind result_bind].
  destruct (Z.eqb_spec c 48) as [->|].
  - destruct cs as [|d cs].
    + change (0 =? 120) with false. cbn [length negb].
      destruct ((base =? 0) || (base =? 8)), ((base =? 0) || (base =? 16));
        cbn; rewrite ?Z.add_0_r; split; done || lia.
    + destruct (d =? 120);
        destruct ((base =? 0) || (base =? 8)), ((base =? 0) || (base =? 16));
        cbn; rewrite ?Z.add_0_r; split; done || lia.
  - destruct ((base =? 0) || (base =? 8)), ((base =? 0) || (base =? 16));
      cbn; rewrite ?Z.add_0_r; split; done || lia.
Qed.

Lemma scan_ok fuel m base s cs :
  cstr m s cs → (length cs < fuel)%nat →
  scan_to_end_of_number fuel m base s = Ok (s + Z.of_nat (length (leading_digits base cs))).
Proof.
  revert s fuel. induction cs as [|c cs IH]; intros s [|fuel] Hcs Hf; cbn [length] in *; try lia;
    cbn [scan_to_end_of_number leading_digits]; rewrite (cstr_head _ _ _ Hcs);
    cbn [mbind result_bind].
  - change (is_valid_digit_for_char base 0) with false. cbn. by rewrite Z.add_0_r.
  - destruct (is_valid_digit_for_char base c); cbn [length].
    + destruct Hcs as (_ & _ & _ & Hcs). rewrite IH by (done || lia). f_equal. lia.
    + cbn. by rewrite Z.add_0_r.
Qed.

Lemma leading_digits_spec base cs :
  Forall (λ c, is_valid_digit_for_char base c = true) (leading_digits base cs) ∧
  leading_digits base cs `prefix_of` cs.
Proof.
  induction cs as [|c cs [IH1 IH2]]; cbn [leading_digits]; [done|].
  destruct (is_valid_digit_for_char base c) eqn:E; [|split; [done|apply prefix_nil]].
  split; [by constructor|by apply prefix_cons].
Qed.

Lemma pow_long_ok base e : 0 < W → swrap W (pow_long base e) = swrap W (base ^ Z.of_nat e).
Proof.
  intros HW. induction e as [|e IH]; [done|]. cbn [pow_long].
  rewrite swrap_idem, <-swrap_mul_l, IH, swrap_mul_l by done.
  replace (Z.of_nat (S e)) with (Z.of_nat e + 1) by lia.
  rewrite Z.pow_add_r by lia. f_equal. lia.
Qed.

Lemma cstr_prefix_block m s cs ds :
  cstr m s cs → ds `prefix_of` cs →
  ∀ i c, ds !! i = Some c → m !! (s + Z.of_nat i) = Some c.
Proof.
  intros Hcs [r ->] i c Hc. pose proof (lookup_lt_Some _ _ _ Hc).
  pose proof (cstr_drop _ _ _ i Hcs ltac:(rewrite length_app; lia)) as Hd.
  rewrite (drop_S _ c) in Hd by by apply lookup_app_l_Some. by destruct Hd as (_ & _ & ? & _).
Qed.

Lemma swrap_zero : 0 < W → swrap W 0 = 0.
Proof.
  intros HW. unfold swrap. rewrite Z.add_0_l, Z.mod_small; [lia|].
  split; [apply Z.pow_nonneg; lia|apply Z.pow_lt_mono_r; lia].
Qed.

Lemma digit_step base ds c e accum :
  0 < W →
  swrap W (accum + base ^ Z.of_nat (S e) * digits_value base ds +
           swrap W (get_digit_for_char c * pow_long base e))
  = swrap W (accum + base ^ Z.of_nat e * digits_value base (ds ++ [c])).
Proof.
  intros HW. rewrite swrap_add_r by done.
  rewrite <-(swrap_add_r W _ (get_digit_for_char c * pow_long base e)) by done.
  rewrite <-(swrap_mul_r W _ (pow_long base e)), pow_long_ok, swrap_mul_r, swrap_add_r by done.
  unfold digits_value. rewrite foldl_app. cbn [foldl]. fold (digits_value base ds).
  f_equal. replace (Z.of_nat (S e)) with (Z.of_nat e + 1) by lia.
  rewrite Z.pow_add_r by lia. lia.
Qed.

(** Reading the digits [ds] at [s] from the last one down adds their value, scaled by
    what has been read already; it reads one byte before them. *)
Lemma parse_loop_ok m base s ds fuel accum e :
  0 < W → 1 < s →
  (∀ i c, ds !! i = Some c → m !! (s + Z.of_nat i) = Some c) →
  Forall (λ c, is_valid_digit_for_char base c = true) ds → (length ds < fuel)%nat →
  swrap W accum = accum →
  parse_loop fuel m base s (s + Z.of_nat (length ds) - 1) accum e
  = (_ ← deref InvalidAccess (m !! (s - 1));
     mret (swrap W (accum + base ^ Z.of_nat e * digits_value base ds))).
Proof.
  intros HW Hs. revert fuel accum e. induction ds as [|c ds IH] using rev_ind;
    intros fuel accum e Hm Hv Hf Hacc; (destruct fuel as [|fuel]; [lia|]); cbn [parse_loop].
  - replace (s + Z.of_nat (length []) - 1) with (s - 1) by (cbn; lia).
    unfold load. rewrite (proj2 (Z.eqb_neq (s - 1) 0)) by lia.
    destruct (deref _ _); cbn [mbind result_bind]; [|done].
    rewrite (proj2 (Z.leb_gt s (s - 1))), andb_false_r by lia. cbn.
    by rewrite Z.mul_0_r, Z.add_0_r, Hacc.
  - rewrite length_app in *. cbn [length] in *.
    replace (s + Z.of_nat (length ds + 1) - 1) with (s + Z.of_nat (length ds)) by lia.
    rewrite (str_load _ _ c) by (lia || by apply Hm, list_lookup_middle).
    apply Forall_app in Hv as [Hv Hc]. apply Forall_cons in Hc as [Hc _].
    cbn [mbind result_bind]. rewrite Hc. decide_Z.
    rewrite (IH fuel _ (S e)); [|..|lia|by apply swrap_idem].
    + destruct (deref _ _); cbn [mbind result_bind mret result_ret]; [|done]. f_equal.
      rewrite <-(digit_step base ds c e accum HW), swrap_add_l by done. f_equal. lia.
    + intros i d Hd. apply Hm. by apply lookup_app_l_Some.
    + done.
Qed.

End Functions.

Lemma strtol_ok W m s base cs :
  0 < W → cstr m s cs → 1 < s → 0 <= base < 35 →
  let '(multiplier, i) := sign_of cs in
  let '(b, j) := base_prefix base (drop i cs) in
  let ds := leading_digits b (drop j (drop i cs)) in
  let start := s + Z.of_nat i + Z.of_nat j in
  strtol W m s base
  = if decide (ds = []) then Ok (0, Some s)
    else match m !! (start - 1) with
         | None => Fault InvalidAccess
         | Some _ => Ok (swrap W (multiplier * digits_value b ds),
                         Some (start + Z.of_nat (length ds)))
         end.
Proof.
  intros HW Hcs Hs Hb. destruct (sign_of_ok m s cs Hcs) as [Esign Hi].
  destruct (sign_of cs) as [multiplier i]. cbn [fst snd] in *.
  pose proof (cstr_drop _ _ _ i Hcs Hi) as Hcs1.
  destruct (base_prefix_ok m _ _ base Hcs1) as [Eprefix Hj].
  destruct (base_prefix base (drop i cs)) as [b j]. cbn [fst snd] in *.
  pose proof (cstr_drop _ _ _ j Hcs1 Hj) as Hcs2.
  set (ds := leading_digits b (drop j (drop i cs))). set (start := s + Z.of_nat i + Z.of_nat j).
  destruct (leading_digits_spec b (drop j (drop i cs))) as [Hvalid Hprefix].
  fold ds in Hvalid, Hprefix.
  pose proof (cstr_fuel _ _ _ Hcs2) as Hfuel.
  assert (strtol W m s base =
    if start + Z.of_nat (length ds) =? start then Ok (0, Some s)
    else unsigned_result ← parse_number_digits W m b start (start + Z.of_nat (length ds));
         mret (swrap W (unsigned_result * multiplier), Some (start + Z.of_nat (length ds)))) as E.
  { unfold strtol. decide_Z. rewrite Esign. cbn [mbind result_bind]. rewrite Eprefix.
    cbn [mbind result_bind]. rewrite (scan_ok _ _ _ _ _ Hcs2) by (unfold fuel_for; lia). done. }
  rewrite E. destruct (decide (ds = [])) as [->|Hne].
  { cbn [length]. by rewrite (proj2 (Z.eqb_eq _ _)) by lia. }
  assert (length ds ≠ O) by (by destruct ds).
  rewrite (proj2 (Z.eqb_neq _ _)) by lia. unfold parse_number_digits.
  replace (start + Z.of_nat (length ds) - start) with (Z.of_nat (length ds)) by lia.
  rewrite Nat2Z.id, (parse_loop_ok W m b start ds _ 0 0);
    [|done|lia|by eapply cstr_prefix_block|done|lia|by apply swrap_zero].
  destruct (m !! (start - 1)); [|done].
  cbn [deref mbind result_bind mret result_ret]. rewrite swrap_mul_l by done.
  do 3 f_equal. rewrite Z.add_0_l. change (Z.of_nat 0) with 0. rewrite Z.pow_0_r. lia.
Qed.

(** The case of a number with digits, given how it splits. *)
Lemma strtol_digits W m s base cs multiplier i b j ds y :
  0 < W → cstr m s cs → 1 < s → 0 <= base < 35 →
  sign_of cs = (multiplier, i) → base_prefix base (drop i cs) = (b, j) →
  leading_digits b (drop j (drop i cs)) = ds → ds ≠ [] →
  m !! (s + Z.of_nat i + Z.of_nat j - 1) = Some y →
  strtol W m s base
  = Ok (swrap W (multiplier * digits_value b ds),
        Some (s + Z.of_nat i + Z.of_nat j + Z.of_nat (length ds))).
Proof.
  intros HW Hcs Hs Hb E1 E2 <- Hne Hy. pose proof (strtol_ok W m s base cs HW Hcs Hs Hb) as H.
  rewrite E1 in H. cbv beta iota in H. rewrite E2 in H. cbv beta iota zeta in H.
  by rewrite H, decide_False, Hy by done.
Qed.

(** The memory that holds just [bs], from the address [a] on. *)
Definition bytes_at (a : Z) (bs : list Z) : gmap Z Z :=
  list_to_map (zip (seqZ a (Z.of_nat (length bs))) bs).

(** [memmove] copies a block exactly, whatever the overlap of source and destination:
    afterwards the destination holds the bytes the source held before, and no other byte
    has changed.  [memcpy] does the same when the blocks do not overlap or the
    destination is the lower one.  [memset] fills the destination with the low byte of the
    value and changes nothing else; [memcmp] is zero exactly on equal blocks. *)
Theorem memory_functions_correct W m dst src n value :
  0 < W → chars m → readable m dst n → readable m src n → 0 <= n < 2 ^ W →
  (∃ m', memmove W m dst src n = Ok m' ∧ copied m m' dst src n) ∧
  (dst <= src ∨ src + n <= dst →
   ∃ m', memcpy m dst src n = Ok m' ∧ copied m m' dst src n) ∧
  (∃ m', memset m dst value n = Ok m' ∧
     ∀ a, m' !! a = if (dst <=? a) && (a <? dst + n)
                    then Some (swrap 8 (uwrap 8 value)) else m !! a) ∧
  (∃ r, memcmp (Z.to_nat n) m dst src = Ok r ∧
     (r = 0 ↔ ∀ i, 0 <= i < n → m !! (dst + i) = m !! (src + i))).
Proof.
  intros HW Hm Hd Hs Hn.
  assert (∀ k : Z → bool, (∀ j, 0 <= j < n → k j = false) →
    ∀ a, m !! a = if (dst <=? a) && (a <? dst + n) && k (a - dst)
                  then m !! (src + (a - dst)) else m !! a) as Hinit.
  { intros k Hk a. destruct (Z.leb_spec dst a), (Z.ltb_spec a (dst + n)); cbn [andb]; try done.
    by rewrite Hk by lia. }
  split_and!.
  - unfold memmove. destruct (Z.eqb_spec src dst) as [->|Hne]; cbn [negb].
    { exists m. split; [done|]. intros a. destruct (_ && _); [|done]. f_equal. lia. }
    destruct (Z.ltb_spec src dst).
    + pose proof (memmove_down_ok W (Z.to_nat n) m m dst src n) as H0.
      rewrite Z2Nat.id in H0 by lia. apply H0; try done; try lia.
      apply (Hinit (λ j, n <=? j)). intros. apply Z.leb_gt. lia.
    + apply memmove_up_ok; try done; try lia.
      apply (Hinit (λ j, j <? 0)). intros. apply Z.ltb_ge. lia.
  - intros Hov. unfold memcpy. apply memcpy_loop_ok; try done; try lia.
    apply (Hinit (λ j, j <? 0)). intros. apply Z.ltb_ge. lia.
  - apply (memset_loop_ok _ 0 m); [done|lia|lia|]. intros a.
    destruct (Z.leb_spec dst a), (Z.ltb_spec a (dst + 0)); done || lia.
  - pose proof (memcmp_ok (Z.to_nat n) m dst src Hm) as H. rewrite Z2Nat.id in H by lia. by apply H.
Qed.

Lemma memory_functions_correct_witness :
  let m := bytes_at 16 [1; 2; 3; 4; 5] in
  readable m 18 3 ∧ readable m 16 3 ∧
  ∃ m', memmove 64 m 18 16 3 = Ok m' ∧ copied m m' 18 16 3.
Proof.
  intros m.
  assert (readable m 18 3 ∧ readable m 16 3) as [Hd Hs].
  { split; intros i Hi; (split; [lia|]);
      assert (i = 0 ∨ i = 1 ∨ i = 2) as [->|[->| ->]] by lia; vm_compute; eauto. }
  split; [done|]. split; [done|].
  assert (chars m) as Hm.
  { apply map_Forall_to_list. unfold m. vm_compute map_to_list. repeat constructor; cbn; lia. }
  apply (memory_functions_correct 64 m 18 16 3 0 ltac:(lia) Hm Hd Hs ltac:(lia)).
Defined.

(** The string functions on nul-terminated strings [xs] and [ys], wherever they lie in
    memory: [strlen] and [strnlen] measure them; [strncmp] is zero exactly when the
    first [n] characters agree; [strstr] answers the address of the first occurrence of
    the second string in the first, or null when there is none.  None of them reads
    outside the strings or fails to return. *)
Theorem string_functions_correct W m s1 s2 xs ys n :
  cstr m s1 xs → cstr m s2 ys → Z.of_nat (length xs) < 2 ^ W →
  strlen W m s1 = Ok (Z.of_nat (length xs)) ∧
  strnlen m s1 (Z.of_nat n) = Ok (Z.of_nat (length (take n xs))) ∧
  (∃ r, strncmp n m s1 s2 = Ok r ∧ (r = 0 ↔ take n xs = take n ys)) ∧
  strstr m s1 s2
  = Ok (match first_occurrence xs ys with Some i => s1 + Z.of_nat i | None => 0 end).
Proof.
  intros Hx Hy Hw. pose proof (cstr_positive _ _ _ Hx). pose proof (cstr_fuel _ _ _ Hx).
  unfold strlen, strnlen, strstr, fuel_for. decide_Z. split_and!.
  - apply (strlen_loop_ok W m s1 xs 0); [done|lia|lia|lia].
  - rewrite (strnlen_loop_ok m s1 xs 0) by done. by rewrite Nat2Z.id.
  - rewrite (strncmp_ok n m s1 s2 xs ys) by done. eexists. split; [done|].
    by apply compare_chars_zero; eapply cstr_nonzero.
  - apply strstr_loop_ok; [done|done|lia].
Qed.

Lemma string_functions_correct_witness :
  let m := bytes_at 16 [97; 98; 99; 97; 98; 0] ∪ bytes_at 32 [99; 97; 0] in
  cstr m 16 [97; 98; 99; 97; 98] ∧ cstr m 32 [99; 97] ∧ strstr m 16 32 = Ok 18.
Proof.
  intros m.
  assert (cstr m 16 [97; 98; 99; 97; 98] ∧ cstr m 32 [99; 97]) as [H1 H2]
    by (subst m; repeat split; try lia; vm_compute; done).
  split; [done|]. split; [done|].
  apply (string_functions_correct 64 m 16 32 _ _ 3 H1 H2 ltac:(cbn; lia)).
Defined.

(** [strtol] on a nul-terminated string reads an optional sign, the prefix of the base
    (0 for octal, 0x for hexadecimal, where the base asked for allows them) and the
    longest run of digits of that base.  Its value is the number they denote with that
    sign, modulo the width of [long], and the end pointer is left after the digits;
    without digits (a lone 0 in octal included) the value is 0 and the end pointer is
    the start of the string.  The parser also reads the byte before the first digit, which
    is outside the string when there is no sign or prefix: it faults exactly when that
    byte is not mapped. *)
Theorem strtol_value W m s base cs :
  0 < W → cstr m s cs → 1 < s → 0 <= base < 35 →
  let '(multiplier, i) := sign_of cs in
  let '(b, j) := base_prefix base (drop i cs) in
  let ds := leading_digits b (drop j (drop i cs)) in
  let start := s + Z.of_nat i + Z.of_nat j in
  strtol W m s base
  = if decide (ds = []) then Ok (0, Some s)
    else match m !! (start - 1) with
         | None => Fault InvalidAccess
         | Some _ => Ok (swrap W (multiplier * digits_value b ds),
                         Some (start + Z.of_nat (length ds)))
         end.
Proof. apply strtol_ok. Qed.

(** "-0x1F" in base 0. *)
Lemma strtol_value_witness :
  let m := bytes_at 16 [45; 48; 120; 49; 70; 0] in
  cstr m 16 [45; 48; 120; 49; 70] ∧ strtol 64 m 16 0 = Ok (-31, Some 21).
Proof.
  intros m.
  assert (cstr m 16 [45; 48; 120; 49; 70]) as H1
    by (subst m; repeat split; try lia; vm_compute; done).
  split; [done|].
  exact (strtol_value 64 m 16 0 _ ltac:(lia) H1 ltac:(lia) ltac:(lia)).
Defined.

(** [strdup] leaves a copy of the string in the new block, whose last byte is its
    terminator, and nothing else changes. *)
Theorem strdup_correct W m s new cs :
  0 < W → chars m → cstr m s cs → Z.of_nat (length cs) + 1 < 2 ^ W →
  readable m new (Z.of_nat (length cs) + 1) →
  new + Z.of_nat (length cs) < s ∨ s + Z.of_nat (length cs) < new →
  ∃ m', strdup W m s new = Ok m' ∧ cstr m' new cs ∧ cstr m' s cs ∧
    ∀ a, ¬ new <= a <= new + Z.of_nat (length cs) → m' !! a = m !! a.
Proof.
  intros HW Hm Hcs Hl Hnew Hap. set (n := Z.of_nat (length cs)) in *. pose proof (cstr_positive _ _ _ Hcs).
  assert (strlen W m s = Ok n) as Es.
  { unfold strlen, fuel_for. pose proof (cstr_fuel _ _ _ Hcs). decide_Z.
    by rewrite (strlen_loop_ok W m s cs 0) by (done || lia). }
  unfold strdup. rewrite Es. cbn [mbind result_bind].
  destruct (memory_functions_correct W m new s n 0) as (_ & (m1 & E1 & Hc) & _); [done|done| | |lia|lia|].
  { intros i Hi. apply Hnew. lia. }
  { intros i Hi. split; [lia|]. apply (cstr_mapped m s cs); [done|unfold n in *; lia]. }
  rewrite E1. cbn [mbind result_bind].
  destruct (Hnew n ltac:(lia)) as [Hpos [x Hx]].
  assert (m1 !! (new + n) = Some x) as Hx1 by (rewrite Hc; decide_Z; done).
  rewrite (str_store _ _ x) by done. eexists. split; [done|].
  assert (∀ a, ¬ new <= a <= new + n → <[new + n := 0]> m1 !! a = m !! a) as Hout.
  { intros a Ha. rewrite lookup_insert_ne by lia. rewrite Hc.
    destruct (Z.leb_spec new a), (Z.ltb_spec a (new + n)); try done. lia. }
  split_and!; [| |done].
  - apply (cstr_moved m _ s); [destruct (Hnew 0); lia| |done]. intros i Hi. fold n in Hi.
    destruct (decide (i = n)) as [->|Hne]; [by rewrite lookup_insert_eq; symmetry; apply (cstr_end m s cs)|].
    rewrite lookup_insert_ne, Hc by lia. decide_Z. cbn [andb]. f_equal. lia.
  - apply (cstr_frame m); [|done]. intros a Ha. apply Hout. fold n in Ha. lia.
Qed.

End Strings.
