(* ===== verification/Elf.v ===== *)
(** * Elf: parsing and loading executable images

    Models the parsers [Elf::Parser32] and [Elf::Parser64] (common/elf32_parser.hpp,
    common/elf64_parser.hpp) with the structures of common/elf32.hpp and
    common/elf64.hpp, and the loaders [ElfLoaderBase], [ElfLoader32], [ElfLoader64] and
    [ElfLoaderFactory] (elf_loader*.hpp, src/elf_loader_factory.cpp).

    A structure is the list of the widths of its fields in order, none of which needs
    padding; a field is read from memory, low byte first, where the code reads it through
    a reference.  The two parsers are the same code over the structures of a [format].
    The loader works on an [AddressSpace], the interface of a physical memory map together
    with the memory it makes accessible.  Running the loaded program is not modelled. *)
From S2P Require Import Prelude Strings PageFrameAllocator Paging.
Import Strings.

Module Elf.

(** ** elf.hpp *)
Definition EI_CLASS : Z := 4.
Definition EI_DATA : Z := 5.
Definition EI_VERSION : Z := 6.
Definition ELFMAG0 : Z := 0x7F.
Definition ELFMAG1 : Z := 69.
Definition ELFMAG2 : Z := 76.
Definition ELFMAG3 : Z := 70.
Definition ELFCLASS32 : Z := 1.
Definition ELFCLASS64 : Z := 2.
Definition ELFDATA2LSB : Z := 1.
Definition ET_EXEC : Z := 2.
Definition EM_386 : Z := 3.
Definition EM_X86_64 : Z := 62.
Definition EV_CURRENT : Z := 1.
Definition SHN_UNDEF : Z := 0.
Definition SHT_STRTAB : Z := 3.
Definition PT_LOAD : Z := 1.
Definition PF_W : Z := 0x2.

(** ** Structures *)
Definition layout := list Z.

Definition sizeof (s : layout) : Z := foldr Z.add 0 s.
Definition offset (s : layout) (k : nat) : Z := sizeof (take k s).
Definition width (s : layout) (k : nat) : nat := Z.to_nat (default 0 (s !! k)).

(** An unsigned number of [n] bytes, low byte first. *)
Fixpoint read_le (m : gmap Z Z) (a : Z) (n : nat) : result Z :=
  match n with
  | O => mret 0
  | S n => x ← load m a; y ← read_le m (a + 1) n; mret (uwrap 8 x + 256 * y)
  end.

Definition read_field (s : layout) (m : gmap Z Z) (a : Z) (k : nat) : result Z :=
  read_le m (a + offset s k) (width s k).

Definition Elf32_Ehdr : layout := [16; 2; 2; 4; 4; 4; 4; 4; 2; 2; 2; 2; 2; 2].
Definition Elf64_Ehdr : layout := [16; 2; 2; 4; 8; 8; 8; 4; 2; 2; 2; 2; 2; 2].
Definition Elf32_Shdr : layout := [4; 4; 4; 4; 4; 4; 4; 4; 4; 4].
Definition Elf64_Shdr : layout := [4; 4; 8; 8; 8; 8; 4; 4; 8; 8].
Definition Elf32_Phdr : layout := [4; 4; 4; 4; 4; 4; 4; 4].
Definition Elf64_Phdr : layout := [4; 4; 8; 8; 8; 8; 8; 8].

(** The fields of the two headers come in the same order. *)
Definition e_type := 1%nat.
Definition e_machine := 2%nat.
Definition e_version := 3%nat.
Definition e_entry := 4%nat.
Definition e_phoff := 5%nat.
Definition e_shoff := 6%nat.
Definition e_flags := 7%nat.
Definition e_ehsize := 8%nat.
Definition e_phentsize := 9%nat.
Definition e_phnum := 10%nat.
Definition e_shentsize := 11%nat.
Definition e_shnum := 12%nat.
Definition e_shstrndx := 13%nat.
Definition sh_type := 1%nat.
Definition sh_offset := 4%nat.
Definition sh_size := 5%nat.

(** The structures of a parser and the places of the fields of a program header. *)
Record format := mk_format {
  class64 : bool;
  ehdr : layout;
  shdr : layout;
  phdr : layout;
  p_type : nat;
  p_flags : nat;
  p_offset : nat;
  p_vaddr : nat;
  p_filesz : nat;
  p_memsz : nat;
}.

Definition Parser32 : format := mk_format false Elf32_Ehdr Elf32_Shdr Elf32_Phdr 0 6 1 2 4 5.
Definition Parser64 : format := mk_format true Elf64_Ehdr Elf64_Shdr Elf64_Phdr 0 1 2 3 5 6.

(** [Elf32_Addr] and [Elf64_Addr]: the sum of an address and a size wraps at this width. *)
Definition address_width (fmt : format) : Z := if class64 fmt then 64 else 32.

(** [a && b] where [b] is only evaluated if [a] holds. *)
Definition and_then (a b : result bool) : result bool :=
  x ← a; if x : bool then b else mret false.
Infix "&&&" := and_then (at level 40, left associativity).

(** ** The parser *)
Record parser := mk_parser { count_ : Z; data_ : Z }.

Section Parser.
Context (fmt : format) (m : gmap Z Z).
Implicit Types (p : parser).

Definition init (count data : Z) : result parser :=
  assert! sizeof (ehdr fmt) <? count;
  assert! negb (data =? 0);
  mret (mk_parser count data).

Definition header p (k : nat) : result Z := read_field (ehdr fmt) m (data_ p) k.

Definition e_ident p (i : Z) : result Z := read_le m (data_ p + i) 1.

Definition equals (a : result Z) (b : Z) : result bool := x ← a; mret (x =? b).

Definition has_expected_magic p : result bool :=
  equals (e_ident p 0) ELFMAG0 &&& equals (e_ident p 1) ELFMAG1 &&& equals (e_ident p 2) ELFMAG2
    &&& equals (e_ident p 3) ELFMAG3.

Definition is_header_size_valid p : result bool := equals (header p e_ehsize) (sizeof (ehdr fmt)).

Definition is_version_valid p : result bool :=
  equals (header p e_version) EV_CURRENT &&& equals (e_ident p EI_VERSION) EV_CURRENT.

Definition is_ia32 p : result bool :=
  has_expected_magic p &&& is_header_size_valid p &&& is_version_valid p
    &&& equals (e_ident p EI_CLASS) ELFCLASS32 &&& equals (e_ident p EI_DATA) ELFDATA2LSB
    &&& equals (header p e_machine) EM_386 &&& equals (header p e_flags) 0.

Definition is_ia32e p : result bool :=
  if class64 fmt then
    has_expected_magic p &&& is_header_size_valid p &&& is_version_valid p
      &&& equals (e_ident p EI_CLASS) ELFCLASS64 &&& equals (e_ident p EI_DATA) ELFDATA2LSB
      &&& equals (header p e_machine) EM_X86_64
  else mret false.

Definition is_executable p : result bool := equals (header p e_type) ET_EXEC.

Definition get_start_address p : result Z := header p e_entry.

Definition get_number_of_section_headers p : result Z := header p e_shnum.

Definition is_section_header_size_valid p : result bool :=
  equals (header p e_shentsize) (sizeof (shdr fmt)).

Definition get_section_headers p : result Z :=
  b ← is_section_header_size_valid p;
  assert! b;
  off ← header p e_shoff;
  mret (data_ p + off).

(** The address of the section header. *)
Definition get_section_header p (index : Z) : result Z :=
  n ← get_number_of_section_headers p;
  assert! index <? n;
  b ← is_section_header_size_valid p;
  assert! b;
  headers ← get_section_headers p;
  mret (headers + index * sizeof (shdr fmt)).

Definition get_section_name_string_table_section p : result Z :=
  x ← header p e_shstrndx;
  assert! negb (x =? SHN_UNDEF);
  section ← get_section_header p x;
  type ← read_field (shdr fmt) m section sh_type;
  assert! type =? SHT_STRTAB;
  size ← read_field (shdr fmt) m section sh_size;
  assert! 0 <? size;
  mret section.

Definition get_section_name_string_table p : result Z :=
  section ← get_section_name_string_table_section p;
  off ← read_field (shdr fmt) m section sh_offset;
  mret (data_ p + off).

Definition get_section_name p (index : Z) : result Z :=
  table ← get_section_name_string_table p; mret (table + index).

Definition get_number_of_program_headers p : result Z := header p e_phnum.

Definition is_program_header_size_valid p : result bool :=
  equals (header p e_phentsize) (sizeof (phdr fmt)).

Definition get_program_headers p : result Z :=
  b ← is_program_header_size_valid p;
  assert! b;
  off ← header p e_phoff;
  mret (data_ p + off).

(** The address of the program header. *)
Definition get_program_header p (index : Z) : result Z :=
  n ← get_number_of_program_headers p;
  assert! index <? n;
  b ← is_program_header_size_valid p;
  assert! b;
  headers ← get_program_headers p;
  mret (headers + index * sizeof (phdr fmt)).

End Parser.

(** ** The interface of the memory the loader works on *)
Class AddressSpace (M : Type) := {
  as_mem : M → gmap Z Z;
  as_with_mem : M → gmap Z Z → M;
  as_map_pages : M → Z → Z → Z → result M;
  as_mappable : M → Z → Z → Prop;
  as_flags : M → Z → option Z;
}.

(** ** The loader *)
Section Loader.
Context (fmt : format) {M : Type} `{AddressSpace M}.
(** [image_] *)
Context (image_length image_bytes : Z).
Implicit Types (s : M).

Definition create_parser : result parser := init fmt image_length image_bytes.

Definition can_exec s : result bool :=
  p ← create_parser;
  (if class64 fmt then is_ia32e fmt (as_mem s) p else is_ia32 fmt (as_mem s) p)
    &&& is_executable fmt (as_mem s) p.

(** A field of the program header at [h], read when it is used. *)
Definition field s (h : Z) (k : format → nat) : result Z :=
  read_field (phdr fmt) (as_mem s) h (k fmt).

Definition get_protection_flags s (h : Z) : result Z :=
  flags ← field s h p_flags;
  mret (if Z.land flags PF_W =? 0 then 0 else UnmanagedMap.WRITABLE).

Definition map_segment s (h flags : Z) : result M :=
  vaddr ← field s h p_vaddr;
  memsz ← field s h p_memsz;
  as_map_pages s vaddr (uwrap (address_width fmt) (vaddr + memsz)) flags.

Definition action_load s (h : Z) : result M :=
  s ← map_segment s h (Z.lor UnmanagedMap.WRITABLE UnmanagedMap.SUPERVISOR);
  vaddr ← field s h p_vaddr;
  memsz ← field s h p_memsz;
  m ← memset (as_mem s) vaddr 0 memsz;
  let s := as_with_mem s m in
  vaddr ← field s h p_vaddr;
  off ← field s h p_offset;
  filesz ← field s h p_filesz;
  m ← memcpy (as_mem s) vaddr (image_bytes + off) filesz;
  let s := as_with_mem s m in
  flags ← get_protection_flags s h;
  map_segment s h flags.

Definition process_program_header s (h : Z) : result M :=
  type ← field s h p_type;
  if type =? PT_LOAD then action_load s h else mret s.

(** [for (i = 0, n = get_number_of_program_headers(); i < n; ++i) fn(get_program_header(i));],
    [k] iterations left. *)
Fixpoint enumerate_loop (k : nat) (p : parser) (i : Z) s : result M :=
  match k with
  | O => mret s
  | S k =>
      h ← get_program_header fmt (as_mem s) p i;
      s ← process_program_header s h;
      enumerate_loop k p (i + 1) s
  end.

Definition enumerate (p : parser) s : result M :=
  n ← get_number_of_program_headers fmt (as_mem s) p;
  enumerate_loop (Z.to_nat n) p 0 s.

(** Answers the start address and the memory. *)
Definition load s : result (Z * M) :=
  b ← can_exec s;
  assert! b;
  p ← create_parser;
  s ← enumerate p s;
  start ← get_start_address fmt (as_mem s) p;
  mret (start, s).

End Loader.

(** [ElfLoaderFactory::create_loader]: the format of the loader, or [None] for the
    exception. *)
Definition create_loader {M : Type} `{AddressSpace M} (image_length image_bytes : Z) (s : M)
  : result (option format) :=
  b ← can_exec Parser32 image_length image_bytes s;
  if b : bool then mret (Some Parser32)
  else
    b ← can_exec Parser64 image_length image_bytes s;
    if b : bool then mret (Some Parser64) else mret None.

(** ** Reading from memory that two memories share *)
Lemma read_le_agree m m' n : ∀ a,
  (∀ i, 0 <= i < Z.of_nat n → m' !! (a + i) = m !! (a + i)) → read_le m' a n = read_le m a n.
Proof.
  induction n as [|n IH]; intros a Ha; [done|]. cbn [read_le]. unfold Strings.load.
  pose proof (Ha 0 ltac:(lia)) as H0. rewrite Z.add_0_r in H0. rewrite H0, (IH (a + 1)); [done|].
  intros i Hi. replace (a + 1 + i) with (a + (1 + i)) by lia. apply Ha. lia.
Qed.

Lemma field_in_struct s k :
  Forall (λ w, 0 <= w) s → 0 <= offset s k ∧ offset s k + Z.of_nat (width s k) <= sizeof s.
Proof.
  intros Hs. unfold offset, width. revert k. induction Hs as [|w s Hw Hs IH]; intros k.
  { destruct k; cbn; lia. }
  assert (0 <= sizeof s) as Hsz by (clear - Hs; induction Hs as [|w' s' Hw' Hs' IH']; [done|]; cbn [sizeof foldr] in *; unfold sizeof in *; lia).
  unfold sizeof in *. destruct k as [|k]; [cbn; lia|].
  specialize (IH k). destruct IH as [IH1 IH2]. cbn [take foldr]. split; [lia|].
  rewrite <-Z.add_assoc. apply Z.add_le_mono_l. exact IH2.
Qed.

Lemma widths_nonneg fmt :
  fmt = Parser32 ∨ fmt = Parser64 → Forall (λ w, 0 <= w) (ehdr fmt) ∧ Forall (λ w, 0 <= w) (phdr fmt) ∧
  0 <= sizeof (ehdr fmt) ∧ 0 < sizeof (phdr fmt).
Proof. intros [->| ->]; (split_and!; [repeat constructor; lia..|by vm_compute|by vm_compute]). Qed.

(** ** Laws of the memory *)
Class AddressSpaceLaws (M : Type) `{AddressSpace M} := {
  as_mem_with s m : as_mem (as_with_mem s m) = m;
  as_flags_with s m : as_flags (as_with_mem s m) = as_flags s;
  as_mappable_with s m b e : as_mappable s b e → as_mappable (as_with_mem s m) b e;
  as_map_ok s b e flags :
    as_mappable s b e → b < e →
    ∃ s', as_map_pages s b e flags = Ok s' ∧
      (∀ a, is_Some (as_mem s !! a) → as_mem s' !! a = as_mem s !! a) ∧
      (∀ a, b <= a < e → is_Some (as_mem s' !! a)) ∧
      (∀ p, as_flags s' p = if decide (b < (p + 1) * PAGE_SIZE ∧ p * PAGE_SIZE < e)
                            then Some flags else as_flags s p) ∧
      ∀ b' e', as_mappable s b' e' → as_mappable s' b' e';
}.

(** A program header. *)
Record segment := mk_segment {
  s_type : Z; s_flags : Z; s_offset : Z; s_vaddr : Z; s_filesz : Z; s_memsz : Z
}.

Section Laws.
Context (fmt : format) (Hfmt : fmt = Parser32 ∨ fmt = Parser64).
Context {M : Type} `{!AddressSpace M} `{!AddressSpaceLaws M}.
Context (L B : Z) (HB : 0 < B).
Implicit Types (s : M) (m : gmap Z Z) (sg : segment).

Definition segment_at m (h : Z) sg : Prop :=
  let f k := read_field (phdr fmt) m h (k fmt) in
  f p_type = Ok (s_type sg) ∧ f p_flags = Ok (s_flags sg) ∧ f p_offset = Ok (s_offset sg) ∧
  f p_vaddr = Ok (s_vaddr sg) ∧ f p_filesz = Ok (s_filesz sg) ∧ f p_memsz = Ok (s_memsz sg).

(** The image, [L] bytes at [B], is the same in both memories. *)
Definition same_image m m' : Prop := ∀ a, B <= a < B + L → m' !! a = m !! a.

Definition protection_of sg : Z := if Z.land (s_flags sg) PF_W =? 0 then 0 else UnmanagedMap.WRITABLE.

(** A segment the loader can place: file bytes inside the image, memory outside of it. *)
Definition loadable s sg : Prop :=
  0 <= s_filesz sg <= s_memsz sg ∧ 0 < s_memsz sg ∧ 0 < s_vaddr sg ∧
  s_vaddr sg + s_memsz sg < 2 ^ address_width fmt ∧
  0 <= s_offset sg ∧ s_offset sg + s_filesz sg <= L ∧
  (s_vaddr sg + s_memsz sg <= B ∨ B + L <= s_vaddr sg) ∧
  as_mappable s (s_vaddr sg) (s_vaddr sg + s_memsz sg).

Definition in_segment (a : Z) sg : Prop := s_vaddr sg <= a < s_vaddr sg + s_memsz sg.

Definition on_page (p : Z) sg : Prop :=
  s_vaddr sg < (p + 1) * PAGE_SIZE ∧ p * PAGE_SIZE < s_vaddr sg + s_memsz sg.

(** The byte of the segment at [a]: of the file, or zero past its end. *)
Definition content m sg (a : Z) : option Z :=
  let i := a - s_vaddr sg in if i <? s_filesz sg then m !! (B + s_offset sg + i) else Some 0.

(** [s'] is [s] with the segment placed. *)
Definition placed m s s' sg : Prop :=
  (∀ a, in_segment a sg → as_mem s' !! a = content m sg a) ∧
  (∀ a, is_Some (as_mem s !! a) → ¬ in_segment a sg → as_mem s' !! a = as_mem s !! a) ∧
  (∀ p, as_flags s' p = if decide (s_vaddr sg < (p + 1) * PAGE_SIZE ∧
                                   p * PAGE_SIZE < s_vaddr sg + s_memsz sg)
                        then Some (protection_of sg) else as_flags s p) ∧
  (∀ b e, as_mappable s b e → as_mappable s' b e).

Lemma header_agree m m' p k :
  sizeof (ehdr fmt) <= L → data_ p = B → same_image m m' → header fmt m' p k = header fmt m p k.
Proof using Hfmt.
  intros HL Hp Hm. unfold header, read_field. apply read_le_agree. intros i Hi. apply Hm.
  destruct (widths_nonneg fmt Hfmt) as (H1 & _). destruct (field_in_struct _ k H1). rewrite Hp. lia.
Qed.

Lemma segment_agree m m' h sg :
  B <= h → h + sizeof (phdr fmt) <= B + L → same_image m m' → segment_at m h sg → segment_at m' h sg.
Proof using Hfmt.
  intros H1 H2 Hm. unfold segment_at.
  assert (∀ k, read_field (phdr fmt) m' h k = read_field (phdr fmt) m h k) as Hf.
  { intros k. unfold read_field. apply read_le_agree. intros i Hi. apply Hm.
    destruct (widths_nonneg fmt Hfmt) as (_ & H3 & _). destruct (field_in_struct _ k H3). lia. }
  by rewrite !Hf.
Qed.

Lemma map_segment_ok s h sg flags :
  segment_at (as_mem s) h sg → loadable s sg →
  ∃ s', map_segment fmt s h flags = Ok s' ∧
    (∀ a, is_Some (as_mem s !! a) → as_mem s' !! a = as_mem s !! a) ∧
    (∀ a, in_segment a sg → is_Some (as_mem s' !! a)) ∧
    (∀ p, as_flags s' p = if decide (s_vaddr sg < (p + 1) * PAGE_SIZE ∧
                                     p * PAGE_SIZE < s_vaddr sg + s_memsz sg)
                          then Some flags else as_flags s p) ∧
    ∀ b' e', as_mappable s b' e' → as_mappable s' b' e'.
Proof using AddressSpaceLaws0.
  intros (_ & _ & _ & Hv & _ & Hz) (_ & Hpos & Hv0 & Hw & _ & _ & _ & Hmap).
  unfold map_segment, field. rewrite Hv, Hz. cbn [mbind result_bind].
  rewrite uwrap_small by (unfold fits; lia). apply as_map_ok; [done|lia].
Qed.

Lemma loadable_step s s' sg :
  (∀ b e, as_mappable s b e → as_mappable s' b e) → loadable s sg → loadable s' sg.
Proof using Type. intros Hm (H1 & H2 & H3 & H4 & H5 & H6 & H7 & H8). do 7 (split; [done|]). by apply Hm. Qed.

Lemma fill_segment_ok s m h sg :
  (∀ a, B <= a < B + L → is_Some (m !! a)) → same_image m (as_mem s) →
  B <= h → h + sizeof (phdr fmt) <= B + L → segment_at m h sg → loadable s sg →
  (∀ a, in_segment a sg → is_Some (as_mem s !! a)) →
  ∃ m1 m2, memset (as_mem s) (s_vaddr sg) 0 (s_memsz sg) = Ok m1 ∧
    memcpy m1 (s_vaddr sg) (B + s_offset sg) (s_filesz sg) = Ok m2 ∧
    same_image m m1 ∧ same_image m m2 ∧
    (∀ a, in_segment a sg → m2 !! a = content m sg a) ∧
    (∀ a, ¬ in_segment a sg → m2 !! a = as_mem s !! a).
Proof using HB.
  intros Himg Hsame H1 H2 Hsg (Hfs & Hpos & Hv0 & Hw & Ho & HoL & Hdis & _) Hin. unfold in_segment in *.
  assert (readable (as_mem s) (s_vaddr sg) (s_memsz sg)) as Hrd.
  { intros i Hi. split; [lia|]. apply Hin. lia. }
  destruct (memset_loop_ok (Z.to_nat (s_memsz sg)) 0 (as_mem s) (as_mem s) (s_vaddr sg) 0 (s_memsz sg) Hrd)
    as (m1 & E1 & Hm1); [lia|lia| |].
  { intros a. rewrite Z.add_0_r. by destruct (Z.leb_spec (s_vaddr sg) a), (Z.ltb_spec a (s_vaddr sg)); try lia. }
  change (swrap 8 (uwrap 8 0)) with 0 in Hm1.
  assert (∀ a, ¬ (s_vaddr sg <= a < s_vaddr sg + s_memsz sg) → m1 !! a = as_mem s !! a) as Hout1.
  { intros a Ha. rewrite Hm1. destruct (Z.leb_spec (s_vaddr sg) a), (Z.ltb_spec a (s_vaddr sg + s_memsz sg));
      cbn [andb]; done || lia. }
  assert (∀ a, s_vaddr sg <= a < s_vaddr sg + s_memsz sg → m1 !! a = Some 0) as Hin1.
  { intros a Ha. rewrite Hm1. by decide_Z. }
  assert (same_image m m1) as Hs1.
  { intros a Ha. rewrite Hout1 by lia. by apply Hsame. }
  assert (readable m1 (s_vaddr sg) (s_filesz sg)) as Hrd1.
  { intros i Hi. split; [lia|]. rewrite Hin1 by lia. by eexists. }
  assert (readable m1 (B + s_offset sg) (s_filesz sg)) as Hrs1.
  { intros i Hi. split; [lia|]. rewrite Hs1 by lia. apply Himg. lia. }
  destruct (memcpy_loop_ok (Z.to_nat (s_filesz sg)) 0 m1 m1 (s_vaddr sg) (B + s_offset sg) (s_filesz sg) Hrd1 Hrs1)
    as (m2 & E2 & Hm2); [lia|lia|lia| |].
  { intros a. destruct (Z.leb_spec (s_vaddr sg) a), (Z.ltb_spec a (s_vaddr sg + s_filesz sg)),
      (Z.ltb_spec (a - s_vaddr sg) 0); cbn [andb]; done || lia. }
  exists m1, m2. split; [exact E1|]. split; [exact E2|]. split; [done|].
  assert (∀ a, ¬ (s_vaddr sg <= a < s_vaddr sg + s_filesz sg) → m2 !! a = m1 !! a) as Hout2.
  { intros a Ha. rewrite Hm2. destruct (Z.leb_spec (s_vaddr sg) a), (Z.ltb_spec a (s_vaddr sg + s_filesz sg));
      cbn [andb]; done || lia. }
  split_and!.
  - intros a Ha. rewrite Hout2 by lia. by apply Hs1.
  - intros a Ha. unfold content. destruct (Z.ltb_spec (a - s_vaddr sg) (s_filesz sg)).
    + rewrite Hm2. decide_Z. apply Hs1. lia.
    + rewrite Hout2 by lia. by apply Hin1.
  - intros a Ha. rewrite Hout2 by lia. by apply Hout1.
Qed.

Lemma action_load_ok s m h sg :
  (∀ a, B <= a < B + L → is_Some (m !! a)) → same_image m (as_mem s) →
  B <= h → h + sizeof (phdr fmt) <= B + L → segment_at m h sg → loadable s sg →
  ∃ s', action_load fmt B s h = Ok s' ∧ placed m s s' sg.
Proof using HB Hfmt AddressSpaceLaws0.
  intros Himg Hsame H1 H2 Hsg Hld.
  assert (∀ m', same_image m m' → segment_at m' h sg) as Hat by (intros; by eapply segment_agree).
  destruct (map_segment_ok s h sg (Z.lor UnmanagedMap.WRITABLE UnmanagedMap.SUPERVISOR) (Hat _ Hsame) Hld)
    as (s1 & E1 & Hkeep1 & Hin1 & Hfl1 & Hmap1).
  assert (same_image m (as_mem s1)) as Hs1.
  { intros a Ha. rewrite Hkeep1; [by apply Hsame|]. rewrite Hsame by done. by apply Himg. }
  destruct (fill_segment_ok s1 m h sg Himg Hs1 H1 H2 Hsg (loadable_step _ _ _ Hmap1 Hld) Hin1)
    as (m1 & m2 & Em1 & Em2 & Hsm1 & Hsm2 & Hcont & Hout).
  unfold action_load. rewrite E1. cbn [mbind result_bind]. unfold field.
  destruct (Hat _ Hs1) as (_ & _ & _ & F1 & _ & F2). rewrite F1, F2. cbn [mbind result_bind].
  rewrite Em1. cbn [mbind result_bind]. rewrite !as_mem_with.
  destruct (Hat _ Hsm1) as (_ & _ & G1 & G2 & G3 & _). rewrite G1, G2, G3. cbn [mbind result_bind].
  rewrite Em2. cbn [mbind result_bind]. set (s2 := as_with_mem _ m2).
  assert (as_mem s2 = m2) as Hm2 by apply as_mem_with.
  unfold get_protection_flags, field. rewrite Hm2.
  destruct (Hat _ Hsm2) as (_ & K1 & _). rewrite K1. cbn [mbind result_bind mret result_ret].
  destruct (map_segment_ok s2 h sg (protection_of sg)) as (s3 & E3 & Hkeep3 & _ & Hfl3 & Hmap3).
  { rewrite Hm2. by apply Hat. }
  { eapply loadable_step; [|exact Hld]. intros b e Hbe. unfold s2. by do 2 apply as_mappable_with; apply Hmap1. }
  exists s3. split; [exact E3|]. rewrite Hm2 in Hkeep3. split_and!.
  - intros a Ha. rewrite Hkeep3; [by apply Hcont|]. rewrite Hcont by done. unfold content.
    destruct Hld as (? & _ & _ & _ & ? & ? & _). unfold in_segment in Ha.
    destruct (Z.ltb_spec (a - s_vaddr sg) (s_filesz sg)); [apply Himg; lia|by eexists].
  - intros a Ha Hno. rewrite Hkeep3, Hout by (done || (rewrite Hout by done; by rewrite Hkeep1)). by apply Hkeep1.
  - intros p. rewrite Hfl3. unfold s2. rewrite !as_flags_with, Hfl1. by case_decide.
  - intros b e Hbe. apply Hmap3. unfold s2. by do 2 apply as_mappable_with; apply Hmap1.
Qed.

Lemma in_segment_on_page a sg : in_segment a sg → on_page (a / PAGE_SIZE) sg.
Proof using Type.
  unfold in_segment, on_page. pose proof (Z.div_mod a PAGE_SIZE ltac:(done)).
  pose proof (Z.mod_pos_bound a PAGE_SIZE ltac:(done)). unfold PAGE_SIZE in *. lia.
Qed.

Lemma content_is_Some m s sg a :
  (∀ a, B <= a < B + L → is_Some (m !! a)) → loadable s sg → in_segment a sg → is_Some (content m sg a).
Proof using Type.
  intros Himg (? & _ & _ & _ & ? & ? & _) Ha. unfold content, in_segment in *.
  destruct (Z.ltb_spec (a - s_vaddr sg) (s_filesz sg)); [apply Himg; lia|by eexists].
Qed.

Lemma image_not_in_segment s sg a : loadable s sg → B <= a < B + L → ¬ in_segment a sg.
Proof using Type. intros (_ & _ & _ & _ & _ & _ & ? & _) ?. unfold in_segment. lia. Qed.

(** The program headers of the image: [segs], at [po] in the image. *)
Definition headers_ok m (p : parser) (po n : Z) : Prop :=
  data_ p = B ∧ sizeof (ehdr fmt) <= L ∧ header fmt m p e_phnum = Ok n ∧
  header fmt m p e_phentsize = Ok (sizeof (phdr fmt)) ∧ header fmt m p e_phoff = Ok po ∧
  0 <= po ∧ po + n * sizeof (phdr fmt) <= L.

Lemma get_program_header_ok m m' p po n i :
  headers_ok m p po n → same_image m m' → 0 <= i < n →
  get_program_header fmt m' p i = Ok (B + po + i * sizeof (phdr fmt)).
Proof using Hfmt.
  intros (Hp & HL & Hn & Hsz & Hpo & _) Hs Hi.
  unfold get_program_header, get_number_of_program_headers, get_program_headers, is_program_header_size_valid, equals.
  rewrite !(header_agree m m') by done. rewrite Hn, Hsz, Hpo. cbn [mbind result_bind mret result_ret].
  rewrite (proj2 (Z.ltb_lt _ _)) by lia. rewrite Z.eqb_refl. cbn [assert_then]. by rewrite Hp.
Qed.

Definition is_load sg : Prop := s_type sg = PT_LOAD.

Definition disjoint_pages (segs : list segment) : Prop :=
  ∀ j k sg sg', segs !! j = Some sg → segs !! k = Some sg' → j ≠ k → is_load sg → is_load sg' →
    ∀ p, on_page p sg → ¬ on_page p sg'.

(** All of [segs] is placed in [s'], and the rest is as in [s]. *)
Definition all_placed m s s' (segs : list segment) : Prop :=
  same_image m (as_mem s') ∧
  (∀ sg, sg ∈ segs → is_load sg →
     (∀ a, in_segment a sg → as_mem s' !! a = content m sg a) ∧
     (∀ p, on_page p sg → as_flags s' p = Some (protection_of sg))) ∧
  (∀ a, is_Some (as_mem s !! a) → (∀ sg, sg ∈ segs → is_load sg → ¬ in_segment a sg) →
     as_mem s' !! a = as_mem s !! a) ∧
  (∀ p, (∀ sg, sg ∈ segs → is_load sg → ¬ on_page p sg) → as_flags s' p = as_flags s p).

Lemma placed_then m s s1 s2 sg segs :
  (∀ a, B <= a < B + L → is_Some (m !! a)) → is_load sg → loadable s sg → placed m s s1 sg →
  (∀ sg', sg' ∈ segs → is_load sg' → ∀ p, on_page p sg → ¬ on_page p sg') →
  all_placed m s1 s2 segs → all_placed m s s2 (sg :: segs).
Proof using Type.
  intros Himg Hl Hld (Hc & Hk & Hf & _) Hdis (A1 & A2 & A3 & A4). split_and!; [done| | |].
  - intros sg' [->|Hin]%elem_of_cons Hl'; [|by apply A2]. split.
    + intros a Ha. rewrite <-Hc by done. apply A3.
      * rewrite Hc by done. by eapply content_is_Some.
      * intros sg' Hin Hl2 Ha2. eapply Hdis; [done|done| |]; by apply in_segment_on_page.
    + intros p Hp. rewrite A4; [|intros; by apply Hdis]. rewrite Hf, decide_True; done.
  - intros a Ha Hno. assert (¬ in_segment a sg) as Hn by (apply Hno; [apply list_elem_of_here|done]).
    rewrite <-Hk by done. apply A3; [by rewrite Hk|].
    intros sg' Hin. apply Hno. by apply list_elem_of_further.
  - intros p Hno. rewrite A4; [|intros sg' Hin; apply Hno; by apply list_elem_of_further].
    rewrite Hf, decide_False; [done|]. apply (Hno sg); [apply list_elem_of_here|done].
Qed.

Lemma enumerate_loop_ok m p po n rest : ∀ i s,
  headers_ok m p po n → (∀ a, B <= a < B + L → is_Some (m !! a)) → same_image m (as_mem s) →
  0 <= i → i + Z.of_nat (length rest) <= n →
  (∀ j sg, rest !! j = Some sg → segment_at m (B + po + (i + Z.of_nat j) * sizeof (phdr fmt)) sg) →
  Forall (λ sg, is_load sg → loadable s sg) rest → disjoint_pages rest →
  ∃ s', enumerate_loop fmt B (length rest) p i s = Ok s' ∧ all_placed m s s' rest.
Proof using HB Hfmt AddressSpaceLaws0.
  induction rest as [|sg rest IH]; intros i s Hh Himg Hs Hi Hlen Hat Hld Hdis.
  { exists s. split; [done|]. split_and!; try done. by intros sg ?%not_elem_of_nil. }
  cbn [length enumerate_loop] in *. rewrite (get_program_header_ok m _ p po n) by (done || lia).
  cbn [mbind result_bind]. set (h := B + po + i * sizeof (phdr fmt)).
  apply Forall_cons in Hld as [Hld Hlds].
  assert (segment_at m h sg) as Hsg by (specialize (Hat 0%nat sg eq_refl); by rewrite Z.add_0_r in Hat).
  destruct Hh as (Hp & HL & Hn & Hsz & Hpo & Hpo0 & HpoL).
  destruct (widths_nonneg fmt Hfmt) as (_ & _ & _ & Hps).
  assert (B <= h ∧ h + sizeof (phdr fmt) <= B + L) as [Hh1 Hh2] by (unfold h; nia).
  assert (∀ s1, same_image m (as_mem s1) → (∀ b e, as_mappable s b e → as_mappable s1 b e) →
    ∃ s', enumerate_loop fmt B (length rest) p (i + 1) s1 = Ok s' ∧ all_placed m s1 s' rest) as IH'.
  { intros s1 Hs1 Hm1. apply IH; try done; [lia|lia| | |].
    - intros j x Hj. replace (i + 1 + Z.of_nat j) with (i + Z.of_nat (S j)) by lia. by apply Hat.
    - eapply Forall_impl; [exact Hlds|]. intros x Hx Hxl. eapply loadable_step; [done|by apply Hx].
    - intros j k x y Hj Hk Hjk. apply (Hdis (S j) (S k)); [done|done|lia]. }
  unfold process_program_header, field.
  destruct (segment_agree m _ h sg Hh1 Hh2 Hs Hsg) as (Ht & _). rewrite Ht. cbn [mbind result_bind].
  destruct (Z.eqb_spec (s_type sg) PT_LOAD) as [Hl|Hl].
  - destruct (action_load_ok s m h sg Himg Hs Hh1 Hh2 Hsg (Hld Hl)) as (s1 & -> & Hpl).
    cbn [mbind result_bind]. pose proof Hpl as (_ & Hk & _ & Hm1).
    destruct (IH' s1) as (s' & -> & Hall); [|done|].
    { intros a Ha. rewrite Hk; [by apply Hs| |by eapply image_not_in_segment; [apply Hld|]].
      rewrite Hs by done. by apply Himg. }
    exists s'. split; [done|]. eapply placed_then; try done; [by apply Hld|].
    intros sg' [j Hj]%list_elem_of_lookup Hl' q Hq. apply (Hdis 0%nat (S j) sg sg'); done || lia.
  - cbn [mbind result_bind mret result_ret]. destruct (IH' s) as (s' & -> & A1 & A2 & A3 & A4); [done|done|].
    exists s'. split; [done|]. split_and!; [done| | |].
    + intros x [->|Hx]%elem_of_cons Hxl; [done|by apply A2].
    + intros a Ha Hno. apply A3; [done|]. intros x Hx. by apply Hno, list_elem_of_further.
    + intros q Hno. apply A4. intros x Hx. by apply Hno, list_elem_of_further.
Qed.
End Laws.

(** ** Properties *)


(** A memory whose pages are all available: mapping a range makes its missing bytes read
    as zero. *)
Record flat := mk_flat { f_mem : gmap Z Z; f_flags : gmap Z Z }.

Definition bytes_from (b e : Z) (m : gmap Z Z) : gmap Z Z :=
  foldr (λ a m, match m !! a with Some _ => m | None => <[a := 0]> m end) m (seqZ b (e - b)).

Definition flags_from (b e flags : Z) (f : gmap Z Z) : gmap Z Z :=
  foldr (λ p f, <[p := flags]> f) f (seqZ (b / PAGE_SIZE) ((e - 1) / PAGE_SIZE - b / PAGE_SIZE + 1)).

#[global] Instance flat_space : AddressSpace flat := {|
  as_mem := f_mem;
  as_with_mem s m := mk_flat m (f_flags s);
  as_map_pages s b e flags := Ok (mk_flat (bytes_from b e (f_mem s)) (flags_from b e flags (f_flags s)));
  as_mappable _ b e := 0 < b;
  as_flags s p := f_flags s !! p;
|}.

Lemma bytes_from_ok l (m : gmap Z Z) :
  let m' := foldr (λ a m, match m !! a with Some _ => m | None => <[a := 0]> m end) m l in
  (∀ a, is_Some (m !! a) → m' !! a = m !! a) ∧ ∀ a, a ∈ l → is_Some (m' !! a).
Proof.
  induction l as [|x l [IH1 IH2]]; cbn; [by split; [|intros a ?%not_elem_of_nil]|].
  set (m1 := foldr _ m l) in *. destruct (m1 !! x) eqn:Ex; split.
  - done.
  - intros a [->|Ha]%elem_of_cons; [by eexists|by apply IH2].
  - intros a Ha. rewrite lookup_insert_ne; [by apply IH1|]. intros ->. rewrite IH1 in Ex by done.
    destruct Ha. congruence.
  - intros a [->|Ha]%elem_of_cons; [rewrite lookup_insert_eq; by eexists|].
    destruct (decide (a = x)) as [->|]; [rewrite lookup_insert_eq; by eexists|].
    rewrite lookup_insert_ne by done. by apply IH2.
Qed.

Lemma flags_from_ok flags l (f : gmap Z Z) p :
  foldr (λ p f, <[p := flags]> f) f l !! p = if decide (p ∈ l) then Some flags else f !! p.
Proof.
  induction l as [|x l IH]; [done|]. cbn [foldr].
  destruct (decide (p = x)) as [->|Hne].
  - rewrite lookup_insert_eq, decide_True; [done|apply list_elem_of_here].
  - rewrite lookup_insert_ne, IH by done. apply decide_ext. rewrite elem_of_cons. tauto.
Qed.

#[global] Instance flat_laws : AddressSpaceLaws flat.
Proof.
  constructor; try done. intros s b e flags Hb Hbe. eexists. split; [done|]. cbn in *.
  destruct (bytes_from_ok (seqZ b (e - b)) (f_mem s)) as [H1 H2]. split_and!; [exact H1| | |done].
  - intros a Ha. apply H2, elem_of_seqZ. lia.
  - intros p. unfold flags_from. rewrite flags_from_ok. apply decide_ext. rewrite elem_of_seqZ.
    pose proof (Z.div_mod b PAGE_SIZE ltac:(done)). pose proof (Z.mod_pos_bound b PAGE_SIZE ltac:(done)).
    pose proof (Z.div_mod (e - 1) PAGE_SIZE ltac:(done)). pose proof (Z.mod_pos_bound (e - 1) PAGE_SIZE ltac:(done)).
    unfold PAGE_SIZE in *. lia.
Qed.

(** An image at 0xC0100000 with one segment of three bytes in the file and five in memory. *)
Definition demo_image : list Z :=
  [0x7F; 69; 76; 70; 1; 1; 1; 0; 0; 0; 0; 0; 0; 0; 0; 0;  2; 0; 3; 0; 1; 0; 0; 0;
   0; 0x10; 0; 0;  52; 0; 0; 0;  0; 0; 0; 0;  0; 0; 0; 0;  52; 0; 32; 0; 1; 0; 40; 0; 0; 0; 0; 0;
   1; 0; 0; 0; 84; 0; 0; 0; 0; 0x10; 0; 0; 0; 0; 0; 0; 3; 0; 0; 0; 5; 0; 0; 0; 5; 0; 0; 0; 0; 0x10; 0; 0;
   11; 22; 33].

Definition demo_space : flat :=
  mk_flat (list_to_map (zip (seqZ 0xC0100000 (Z.of_nat (length demo_image))) demo_image)) ∅.

Definition demo_segment : segment := mk_segment 1 5 84 0x1000 3 5.


End Elf.
