(* ===== verification/Scheduler.v ===== *)
(** * Scheduler: threads, the interrupt lock and the round-robin scheduler

    Models src/Kernel/src/scheduler.cpp with what it stands on: [InterruptLock]
    (src/Common/src/interrupt_lock.cpp), [UniquePointer] (common/unique_pointer.hpp) and
    the [switch_away] of the threads (platform/x86_64/thread.hpp).

    A [Thread] object is its stack pointer, that is the context saved there: which flow of
    control it belongs to and where that flow continues.  The context switch of the
    assembly code saves the context of the flow on the CPU in one object and continues
    with the one saved in another.  A flow is named by the thread it was created for; the
    flow that booted the kernel is [BOOT]. *)
From S2P Require Import Prelude Storage Vector.

Module InterruptLock.

(** [count_] is a static member; [enabled] is the interrupt flag of the CPU, which
    [enable_interrupts] and [disable_interrupts] set. *)
Record t := mk { count_ : Z; enabled : bool }.

Definition init : t := mk 0 true.

Definition lock (x : t) : t :=
  mk (swrap 32 (count_ x + 1)) (if count_ x =? 0 then false else enabled x).

Definition unlock (x : t) : t :=
  mk (swrap 32 (count_ x - 1)) (if count_ x =? 1 then true else enabled x).

(** A locked section, whatever it nests, leaves the lock as it found it: interrupts are
    enabled again exactly when the outermost section ends. *)
Lemma lock_unlock x :
  0 <= count_ x < 2 ^ 31 - 1 → (count_ x = 0 → enabled x = true) → unlock (lock x) = x.
Proof.
  destruct x as [c e]. intros Hc He. unfold unlock, lock. cbn in *.
  rewrite (swrap_small 32 (c + 1)) by (cbn; lia). rewrite swrap_small by (cbn; lia).
  f_equal; [lia|]. destruct (Z.eqb_spec c 0) as [->|]; [by rewrite He|].
  by decide_Z.
Qed.

End InterruptLock.

(** Where a saved flow continues: in [thread_start], after [switch_away] in [yield], or
    after it in [vanish]. *)
Inductive resume := AtThreadStart | InYield | InVanish.

Record context := mkcontext { flow : Z; point : resume }.

Definition BOOT : Z := 0.

(** What the scheduler shares with the rest of the kernel: the interrupt lock, the thread
    objects by address, and the flow on the CPU. *)
Record world := mkworld {
  irq : InterruptLock.t;
  threads : gmap Z (option context);
  cpu : Z;
}.

Module UniquePointer.

Record t := mk { data_ : Z; should_leak_ : bool }.

#[global] Instance unique_pointer_eq_dec : EqDecision t.
Proof. solve_decision. Defined.

Definition null : t := mk 0 false.

Definition init (data : Z) : t := mk data false.

Definition with_irq (w : world) (f : InterruptLock.t → InterruptLock.t) : world :=
  mkworld (f (irq w)) (threads w) (cpu w).

(** [delete data_] of a [Thread]. *)
Definition release_unlocked (w : world) (x : t) : result (world * t) :=
  w ← (if negb (should_leak_ x) && negb (data_ x =? 0)
       then _ ← deref InvalidAccess (threads w !! data_ x);
            mret (mkworld (irq w) (delete (data_ x) (threads w)) (cpu w))
       else mret w);
  mret (w, mk 0 (should_leak_ x)).

(** The pointer constructed, and the one moved from. *)
Definition move_construct (w : world) (other : t) : world * t * t :=
  let w := with_irq w InterruptLock.lock in
  let w := with_irq w InterruptLock.unlock in
  (w, mk (data_ other) (should_leak_ other), null).

Definition get_pointer (w : world) (x : t) : world * Z :=
  let w := with_irq w InterruptLock.lock in
  let w := with_irq w InterruptLock.unlock in
  (w, data_ x).

(** [this = std::move(other)], for [this != &other]. *)
Definition move_assign (w : world) (x other : t) : result (world * t * t) :=
  let w := with_irq (with_irq w InterruptLock.lock) InterruptLock.lock in
  '(w, _) ← release_unlocked w x;
  let w := with_irq (with_irq w InterruptLock.unlock) InterruptLock.unlock in
  mret (w, mk (data_ other) (should_leak_ other), null).

Definition is_set (w : world) (x : t) : world * bool :=
  let '(w, p) := get_pointer w x in (w, negb (p =? 0)).

(** [*this == other] and [!=]; [same] tells whether they are one object. *)
Definition equals (same : bool) (w : world) (x other : t) : world * bool :=
  if same then (w, true)
  else
    let w := with_irq (with_irq w InterruptLock.lock) InterruptLock.lock in
    let w := with_irq (with_irq w InterruptLock.unlock) InterruptLock.unlock in
    (w, data_ x =? data_ other).

Definition differs (same : bool) (w : world) (x other : t) : world * bool :=
  let '(w, b) := equals same w x other in (w, negb b).

Definition set_should_leak (w : world) (x : t) : world * t :=
  let w := with_irq w InterruptLock.lock in
  let x := mk (data_ x) true in
  let w := with_irq w InterruptLock.unlock in
  (w, x).

(** ** The locks taken inside leave the interrupt lock as it was *)
Definition irq_ok (w : world) : Prop :=
  0 <= InterruptLock.count_ (irq w) < 2 ^ 31 - 2 ∧
  (InterruptLock.count_ (irq w) = 0 → InterruptLock.enabled (irq w) = true).

Lemma with_irq_section w :
  irq_ok w → with_irq (with_irq w InterruptLock.lock) InterruptLock.unlock = w.
Proof.
  intros [Hc He]. unfold with_irq. cbn. rewrite InterruptLock.lock_unlock by (done || lia).
  by destruct w.
Qed.

Lemma move_construct_ok w other : irq_ok w → move_construct w other = (w, other, null).
Proof. intros Hw. unfold move_construct. rewrite with_irq_section by done. by destruct other. Qed.

Lemma get_pointer_ok w x : irq_ok w → get_pointer w x = (w, data_ x).
Proof. intros Hw. unfold get_pointer. by rewrite with_irq_section. Qed.

Lemma is_set_ok w x : irq_ok w → is_set w x = (w, negb (data_ x =? 0)).
Proof. intros Hw. unfold is_set. by rewrite get_pointer_ok. Qed.

Lemma nested_unlock l :
  0 <= InterruptLock.count_ l < 2 ^ 31 - 2 → (InterruptLock.count_ l = 0 → InterruptLock.enabled l = true) →
  InterruptLock.unlock (InterruptLock.unlock (InterruptLock.lock (InterruptLock.lock l))) = l.
Proof.
  intros Hc He. rewrite (InterruptLock.lock_unlock (InterruptLock.lock l)).
  - apply InterruptLock.lock_unlock; [lia|done].
  - unfold InterruptLock.lock. cbn [InterruptLock.count_]. rewrite swrap_small by (cbn; lia). lia.
  - unfold InterruptLock.lock. cbn [InterruptLock.count_]. rewrite swrap_small by (cbn; lia). lia.
Qed.

(** [==] compares the objects pointed to, [!=] is its negation. *)
Lemma unique_equals_ok same w x other :
  irq_ok w → (same = true → x = other) → equals same w x other = (w, data_ x =? data_ other).
Proof.
  intros [Hc He] Hs. unfold equals. destruct same; [by rewrite Hs, Z.eqb_refl|].
  unfold with_irq. cbn. rewrite nested_unlock by done. by destruct w.
Qed.

Lemma unique_differs_ok same w x other :
  irq_ok w → (same = true → x = other) → differs same w x other = (w, negb (data_ x =? data_ other)).
Proof. intros Hw Hs. unfold differs. by rewrite unique_equals_ok. Qed.

Lemma set_should_leak_ok w x : irq_ok w → set_should_leak w x = (w, mk (data_ x) true).
Proof. intros Hw. unfold set_should_leak. by rewrite with_irq_section. Qed.

(** A leaked object outlives its pointer, also when the pointer has been moved. *)
Lemma leaked_survives w x :
  irq_ok w →
  let '(w1, x) := set_should_leak w x in
  let '(w2, y, x) := move_construct w1 x in
  release_unlocked w2 x = Ok (w, null) ∧ release_unlocked w2 y = Ok (w, mk 0 true).
Proof. intros Hw. rewrite set_should_leak_ok, move_construct_ok by done. done. Qed.

Lemma move_assign_ok w x other :
  irq_ok w → should_leak_ x = false → (data_ x ≠ 0 → is_Some (threads w !! data_ x)) →
  move_assign w x other
  = Ok (if data_ x =? 0 then w else mkworld (irq w) (delete (data_ x) (threads w)) (cpu w),
        other, null).
Proof.
  intros [Hc He] Hleak Hlive. unfold move_assign, release_unlocked. rewrite Hleak.
  pose proof (nested_unlock (irq w) Hc He) as Hirq.
  unfold with_irq.
  destruct (Z.eqb_spec (data_ x) 0) as [E|E]; cbn [negb andb irq threads cpu].
  - cbn [mbind result_bind mret result_ret irq threads cpu]. rewrite Hirq. by destruct w, other.
  - destruct (Hlive E) as [c ->]. cbn [deref mbind result_bind mret result_ret irq threads cpu].
    rewrite Hirq. by destruct other.
Qed.

End UniquePointer.
Import UniquePointer.

Module Scheduler.

Record t := mk {
  runnable_ : Vector.t UniquePointer.t;
  exhausted_ : Vector.t UniquePointer.t;
  current_thread_ : UniquePointer.t;
  is_locked_ : bool;
  mutex_yields : bool;
  shared : world;
}.

Definition init (w : world) : t := mk Vector.init Vector.init null false false w.

Definition with_shared (s : t) (w : world) : t :=
  mk (runnable_ s) (exhausted_ s) (current_thread_ s) (is_locked_ s) (mutex_yields s) w.

Definition with_locked (s : t) (b : bool) : t :=
  mk (runnable_ s) (exhausted_ s) (current_thread_ s) b (mutex_yields s) (shared s).

(** ** SchedulerLock *)
Definition lock (s : t) : result t :=
  let s := with_shared s (with_irq (shared s) InterruptLock.lock) in
  assert! negb (is_locked_ s);
  mret (with_locked s true).

Definition unlock (s : t) : t :=
  let s := with_locked s false in
  with_shared s (with_irq (shared s) InterruptLock.unlock).

(** ** SchedulerUnlocked *)
Definition add_unlocked (s : t) (thread : UniquePointer.t) : result t :=
  let '(w, value, _) := move_construct (shared s) thread in
  runnable ← Vector.push_back (runnable_ s) value;
  mret (mk runnable (exhausted_ s) (current_thread_ s) (is_locked_ s) (mutex_yields s) w).

Definition begin_unlocked (s : t) (init_thread : UniquePointer.t) : result t :=
  '(w, current, _) ← move_assign (shared s) (current_thread_ s) init_thread;
  mret (mk (runnable_ s) (exhausted_ s) current (is_locked_ s) true w).

Definition can_yield (s : t) : t * bool :=
  let '(w, b) := is_set (shared s) (current_thread_ s) in
  (with_shared s w, b && negb (Vector.empty (runnable_ s) && Vector.empty (exhausted_ s))).

Definition take_current_thread_from_runnable_queue (s : t) : result t :=
  '(front, runnable) ← Vector.move_front (runnable_ s);
  '(w, current, _) ← move_assign (shared s) (current_thread_ s) front;
  runnable ← Vector.pop_front runnable;
  mret (mk runnable (exhausted_ s) current (is_locked_ s) (mutex_yields s) w).

(** [std::swap] of two vectors: a move construction and two move assignments. *)
Definition swap_vectors (a b : Vector.t UniquePointer.t)
  : Vector.t UniquePointer.t * Vector.t UniquePointer.t :=
  let '(tmp, a) := Vector.move_construct a in
  let '(a, b) := Vector.move_assign a b in
  let '(b, _) := Vector.move_assign b tmp in
  (a, b).

Definition swap_runnable_and_exhausted_if_necessary (s : t) : result t :=
  assert! negb (Vector.empty (runnable_ s) && Vector.empty (exhausted_ s));
  if Vector.empty (runnable_ s) then
    let '(runnable, exhausted) := swap_vectors (runnable_ s) (exhausted_ s) in
    mret (mk runnable exhausted (current_thread_ s) (is_locked_ s) (mutex_yields s) (shared s))
  else mret s.

Definition move_to_next_runnable_thread (s : t) : result t :=
  if negb (Vector.empty (runnable_ s)) then
    let '(w, value, current) := move_construct (shared s) (current_thread_ s) in
    exhausted ← Vector.push_back (exhausted_ s) value;
    take_current_thread_from_runnable_queue
      (mk (runnable_ s) exhausted current (is_locked_ s) (mutex_yields s) w)
  else mret s.

(** [previous.switch_away(next)] called at [from]: the flow on the CPU is saved in
    [previous] and the one saved in [next] continues, at the point returned. *)
Definition switch_away (s : t) (previous next : Z) (from : resume) : result (t * resume) :=
  let w := shared s in
  _ ← deref InvalidAccess (threads w !! previous);
  saved ← deref InvalidAccess (threads w !! next);
  c ← deref NullDereference saved;
  mret (with_shared s (mkworld (irq w) (<[previous := Some (mkcontext (cpu w) from)]> (threads w))
                         (flow c)),
        point c).

(** [None] when the call returns without a switch. *)
Definition yield_unlocked (s : t) : result (t * option resume) :=
  let '(s, can) := can_yield s in
  if can : bool then
    let '(w, previous) := get_pointer (shared s) (current_thread_ s) in
    s ← swap_runnable_and_exhausted_if_necessary (with_shared s w);
    s ← move_to_next_runnable_thread s;
    let '(w, next) := get_pointer (shared s) (current_thread_ s) in
    '(s, p) ← switch_away (with_shared s w) previous next InYield;
    mret (s, Some p)
  else mret (s, None).

Definition vanish_unlocked (s : t) : result (t * resume) :=
  let '(w, b) := is_set (shared s) (current_thread_ s) in
  assert! b;
  let '(w, previous) := get_pointer w (current_thread_ s) in
  s ← swap_runnable_and_exhausted_if_necessary (with_shared s w);
  s ← take_current_thread_from_runnable_queue s;
  let '(w, next) := get_pointer (shared s) (current_thread_ s) in
  switch_away (with_shared s w) previous next InVanish.

(** ** SchedulerMonitor *)
Definition unlock_at_thread_start (s : t) : t := unlock s.

(** What the flow that continues does before it runs thread code again. *)
Definition continue_at (s : t) (p : resume) : result t :=
  match p with
  | AtThreadStart => mret (unlock_at_thread_start s)
  | InYield => mret (unlock s)
  | InVanish => Fault InvalidAccess
  end.

Definition add (s : t) (thread : UniquePointer.t) : result t :=
  s ← lock s; s ← add_unlocked s thread; mret (unlock s).

Definition begin (s : t) (init_thread : UniquePointer.t) : result t :=
  s ← lock s; s ← begin_unlocked s init_thread; mret (unlock s).

Definition yield (s : t) : result t :=
  s ← lock s;
  '(s, p) ← yield_unlocked s;
  match p with None => mret (unlock s) | Some p => continue_at s p end.

(** [yield], saying also whether another flow continues. *)
Definition yield_or_switch (s : t) : result (t * bool) :=
  s ← lock s;
  '(s, p) ← yield_unlocked s;
  match p with
  | None => mret (unlock s, false)
  | Some p => s ← continue_at s p; mret (s, true)
  end.

Definition vanish (s : t) : result t :=
  s ← lock s; '(s, p) ← vanish_unlocked s; continue_at s p.

(** ** The operations of a kernel: threads created at the address [p] *)
Inductive op :=
| Add (p : Z)
| Begin (p : Z)
| Yield.

(** [new Thread(function, param)], whose stack continues in [thread_start]. *)
Definition new_thread (s : t) (p : Z) : t :=
  let w := shared s in
  with_shared s (mkworld (irq w) (<[p := Some (mkcontext p AtThreadStart)]> (threads w)) (cpu w)).

(** [new ThreadExternalStack], whose stack pointer is null. *)
Definition new_thread_external_stack (s : t) (p : Z) : t :=
  let w := shared s in
  with_shared s (mkworld (irq w) (<[p := None]> (threads w)) (cpu w)).

(** Performs an operation and answers the flow that runs after it. *)
Definition run_op (o : op) (s : t) : result (Z * t) :=
  s ← match o with
      | Add p => add (new_thread s p) (UniquePointer.init p)
      | Begin p => begin (new_thread_external_stack s p) (UniquePointer.init p)
      | Yield => yield s
      end;
  mret (cpu (shared s), s).

(** ** The specification: two queues of threads, each with the flow it runs *)
Record queues := mkqueues {
  ready : list (Z * Z);
  spent : list (Z * Z);
  current : option (Z * Z);
}.

Definition idle : queues := mkqueues [] [] None.

Definition running (a : queues) : Z := match current a with Some c => c.2 | None => BOOT end.

Definition spec_yield (a : queues) : queues :=
  match current a with
  | None => a
  | Some c =>
      match ready a, spent a with
      | n :: ready, spent => mkqueues ready (spent ++ [c]) (Some n)
      | [], n :: spent => mkqueues spent [c] (Some n)
      | [], [] => a
      end
  end.

Definition spec_op (o : op) (a : queues) : result (Z * queues) :=
  let a := match o with
           | Add p => mkqueues (ready a ++ [(p, p)]) (spent a) (current a)
           | Begin p => mkqueues (ready a) (spent a) (Some (p, running a))
           | Yield => spec_yield a
           end in
  mret (running a, a).

(** ** Representation *)
Definition members (a : queues) : list (Z * Z) :=
  ready a ++ spent a ++ option_list (current a).

(** The thread [t] waits in a queue: its flow is saved in it. *)
Definition saved (w : world) (t : Z * Z) : Prop :=
  ∃ p, threads w !! t.1 = Some (Some (mkcontext t.2 p)) ∧ p ≠ InVanish.

Definition queue (v : Vector.t UniquePointer.t) (ts : list (Z * Z)) : Prop :=
  ∃ cap, Vector.rep v (UniquePointer.init ∘ fst <$> ts, cap).

(** Everything but the lock. *)
Definition content (s : t) (a : queues) : Prop :=
  queue (runnable_ s) (ready a) ∧ queue (exhausted_ s) (spent a) ∧
  current_thread_ s = UniquePointer.init (from_option fst 0 (current a)) ∧
  (∀ t, t ∈ ready a ++ spent a → saved (shared s) t) ∧
  (∀ c, current a = Some c → is_Some (threads (shared s) !! c.1)) ∧
  cpu (shared s) = running a ∧
  NoDup (members a).*1 ∧ 0 ∉ (members a).*1.

(** The interrupt lock held [lv] times: interrupts are enabled when it is free. *)
Definition depth (lv : Z) : InterruptLock.t := InterruptLock.mk lv (lv =? 0).

(** Outside the operations, called with the interrupt lock held [lv] times. *)
Definition rep_at (lv : Z) (s : t) (a : queues) : Prop :=
  content s a ∧ is_locked_ s = false ∧ irq (shared s) = depth lv.

Definition rep (s : t) (a : queues) : Prop := rep_at 0 s a.

Lemma depth_lock lv : 0 <= lv < 2 ^ 30 → InterruptLock.lock (depth lv) = depth (lv + 1).
Proof.
  intros Hlv. unfold InterruptLock.lock, depth. cbn. rewrite swrap_small by (cbn; lia).
  f_equal. destruct (Z.eqb_spec lv 0); by decide_Z.
Qed.

Lemma depth_unlock lv : 0 <= lv < 2 ^ 30 → InterruptLock.unlock (depth (lv + 1)) = depth lv.
Proof.
  intros Hlv. unfold InterruptLock.unlock, depth. cbn. rewrite swrap_small by (cbn; lia).
  f_equal; [lia|]. destruct (Z.eqb_spec lv 0); by decide_Z.
Qed.

Section Operations.
Context (lv : Z) (Hlv : 0 <= lv < 2 ^ 30).

(** Inside an operation, with the lock held. *)
Definition held (s : t) (a : queues) : Prop :=
  content s a ∧ is_locked_ s = true ∧ irq (shared s) = depth (lv + 1).

Lemma lock_ok s a :
  rep_at lv s a → ∃ s', lock s = Ok s' ∧ held s' a ∧ threads (shared s') = threads (shared s).
Proof.
  intros (Hc & Hl & Hi). unfold lock. cbn. rewrite Hl. cbn. eexists. split; [done|].
  unfold held. cbn. rewrite Hi, depth_lock by done. done.
Qed.

Lemma unlock_ok s a : held s a → rep_at lv (unlock s) a.
Proof.
  intros (Hc & Hl & Hi). split; [done|]. cbn. rewrite Hi, depth_unlock by done. done.
Qed.

Lemma held_irq s a : held s a → irq_ok (shared s).
Proof.
  intros (_ & _ & Hi). unfold irq_ok. rewrite Hi. cbn. split; [lia|]. intros. by decide_Z.
Qed.

Lemma with_shared_id s : with_shared s (shared s) = s.
Proof. by destruct s. Qed.

Lemma queue_empty v ts : queue v ts → Vector.empty v = bool_decide (ts = []).
Proof.
  intros [cap Hv]. rewrite (Vector.vec_empty_ok _ _ _ Hv). by destruct ts.
Qed.

Lemma queue_push v ts t :
  queue v ts → Z.of_nat (length ts) < 2 ^ 30 →
  ∃ v', Vector.push_back v (UniquePointer.init t.1) = Ok v' ∧ queue v' (ts ++ [t]).
Proof.
  intros [cap Hv] Hn.
  destruct (Vector.vec_push_back_ok _ _ _ (UniquePointer.init t.1) Hv) as (v' & cap' & -> & Hv');
    [by rewrite length_fmap|].
  exists v'. split; [done|]. exists cap'. by rewrite fmap_app.
Qed.

Lemma queue_pop v t ts :
  queue v (t :: ts) →
  ∃ v1 v2, Vector.move_front v = Ok (UniquePointer.init t.1, v1) ∧
           Vector.pop_front v1 = Ok v2 ∧ queue v2 ts.
Proof.
  intros [cap Hv]. destruct (Vector.vec_take_front_ok _ _ _ _ Hv) as (v1 & v2 & E1 & E2 & Hv2).
  exists v1, v2. split; [done|]. split; [done|]. by exists cap.
Qed.

(** A thread created at a new address disturbs nothing. *)
Lemma new_thread_ok s a p (x : option context) :
  rep_at lv s a → p ∉ (members a).*1 →
  rep_at lv (with_shared s (mkworld (irq (shared s)) (<[p := x]> (threads (shared s))) (cpu (shared s)))) a.
Proof.
  intros ((Hr & He & Hcur & Hsv & Hth & Hcpu & Hnd & H0) & Hl & Hi) Hp.
  split; [|done]. split_and!; try done; cbn.
  - intros t Ht. destruct (Hsv t Ht) as (q & Hq & Hv). exists q. split; [|done]. cbn.
    rewrite lookup_insert_ne; [done|]. intros ->. apply Hp. unfold members.
    rewrite app_assoc, fmap_app, elem_of_app. left. by apply list_elem_of_fmap_2.
  - intros c Hc. destruct (decide (c.1 = p)) as [->|]; [by rewrite lookup_insert_eq|].
    rewrite lookup_insert_ne by done. by apply Hth.
Qed.

(** ** The operations *)
Lemma add_ok s a p :
  rep_at lv s a → p ∉ (members a).*1 → p ≠ 0 → Z.of_nat (length (ready a)) < 2 ^ 30 →
  ∃ s', add (new_thread s p) (UniquePointer.init p) = Ok s' ∧
        rep_at lv s' (mkqueues (ready a ++ [(p, p)]) (spent a) (current a)).
Proof.
  intros Hrep Hp Hp0 Hn.
  destruct (lock_ok _ _ (new_thread_ok s a p (Some (mkcontext p AtThreadStart)) Hrep Hp))
    as (s1 & E1 & Hheld & Hth1). unfold add, new_thread. rewrite E1. cbn [mbind result_bind].
  unfold add_unlocked. rewrite move_construct_ok by by eapply held_irq.
  destruct Hheld as ((Hr & He & Hcur & Hsv & Hth & Hcpu & Hnd & H0) & Hl & Hi).
  destruct (queue_push _ _ (p, p) Hr Hn) as (r' & Er & Hr'). cbn [fst] in Er. rewrite Er.
  cbn [mbind result_bind mret result_ret]. eexists. split; [done|]. apply unlock_ok.
  assert (members (mkqueues (ready a ++ [(p, p)]) (spent a) (current a)) ≡ₚ (p, p) :: members a)
    as Hperm.
  { unfold members. cbn [ready spent current]. rewrite <-app_assoc.
    symmetry. apply Permutation_middle. }
  split; [|done]. split_and!; try done; cbn [ready spent current shared].
  - intros t Ht. rewrite <-app_assoc in Ht. apply elem_of_app in Ht as [Ht|Ht].
    { apply Hsv. rewrite elem_of_app. by left. }
    apply elem_of_cons in Ht as [->|Ht]; [|apply Hsv; rewrite elem_of_app; by right].
    exists AtThreadStart. cbn. rewrite Hth1. cbn. by rewrite lookup_insert_eq.
  - rewrite Hperm. cbn. by apply NoDup_cons.
  - rewrite Hperm. cbn. rewrite elem_of_cons. by intros [?|?].
Qed.

Lemma begin_ok s a p :
  rep_at lv s a → p ∉ (members a).*1 → p ≠ 0 →
  ∃ s', begin (new_thread_external_stack s p) (UniquePointer.init p) = Ok s' ∧
        rep_at lv s' (mkqueues (ready a) (spent a) (Some (p, running a))).
Proof.
  intros Hrep Hp Hp0.
  destruct (lock_ok _ _ (new_thread_ok s a p None Hrep Hp)) as (s1 & E1 & Hheld & Hth1).
  unfold begin, new_thread_external_stack. rewrite E1. cbn [mbind result_bind].
  pose proof (held_irq _ _ Hheld) as Hirq.
  destruct Hheld as ((Hr & He & Hcur & Hsv & Hth & Hcpu & Hnd & H0) & Hl & Hi).
  unfold begin_unlocked. rewrite Hcur, move_assign_ok; [|done|done|].
  2: { destruct (current a) as [c|] eqn:Ec; [|done]. intros _. by apply Hth. }
  cbn [mbind result_bind mret result_ret]. eexists. split; [done|]. apply unlock_ok.
  assert (NoDup (ready a ++ spent a).*1 ∧ p ∉ (ready a ++ spent a).*1 ∧ 0 ∉ (ready a ++ spent a).*1 ∧
          (∀ c, current a = Some c → c.1 ∉ (ready a ++ spent a).*1)) as (Hnd' & Hp' & H0' & Hc').
  { unfold members in *. rewrite app_assoc, fmap_app in Hnd, Hp, H0.
    apply NoDup_app in Hnd as (? & Hd & _). split_and!; [done|..].
    - intros ?. apply Hp, elem_of_app. by left.
    - intros ?. apply H0, elem_of_app. by left.
    - intros c Ec Hin. apply (Hd _ Hin). rewrite Ec. apply list_elem_of_singleton. done. }
  assert (members (mkqueues (ready a) (spent a) (Some (p, running a)))
          ≡ₚ (p, running a) :: ready a ++ spent a) as Hperm.
  { unfold members. cbn [ready spent current option_list]. rewrite app_assoc.
    symmetry. apply Permutation_cons_append. }
  split; [|cbn; by destruct (current a) as [c|]; cbn; [destruct (c.1 =? 0)|]].
  split_and!; try done; cbn [ready spent current shared].
  - intros t Ht. destruct (Hsv t Ht) as (q & Hq & Hv). exists q. split; [|done].
    destruct (current a) as [c|] eqn:Ec; cbn; [|done]. destruct (c.1 =? 0); [done|]. cbn.
    rewrite lookup_delete_ne; [done|]. intros E. apply (Hc' c eq_refl). rewrite E.
    by apply list_elem_of_fmap_2.
  - intros c' [= <-]. cbn [fst].
    assert (threads (shared s1) !! p = Some None) as Hnew by (rewrite Hth1; apply lookup_insert_eq).
    destruct (current a) as [c|] eqn:Ec; cbn; [|eauto]. destruct (c.1 =? 0); [eauto|]. cbn.
    rewrite lookup_delete_ne; [eauto|]. intros E. apply Hp. unfold members. rewrite Ec, !fmap_app.
    rewrite !elem_of_app. right. right. cbn. rewrite E. by apply list_elem_of_singleton.
  - destruct (current a) as [c|]; cbn; [destruct (c.1 =? 0)|]; cbn; done.
  - rewrite Hperm. cbn. by apply NoDup_cons.
  - rewrite Hperm. cbn. rewrite elem_of_cons. by intros [?|?].
Qed.

Definition swapped (a : queues) : queues :=
  match ready a with [] => mkqueues (spent a) [] (current a) | _ => a end.

Lemma swap_ok s a :
  held s a → ready a ++ spent a ≠ [] →
  ∃ s', swap_runnable_and_exhausted_if_necessary s = Ok s' ∧ held s' (swapped a) ∧
        shared s' = shared s.
Proof.
  intros Hheld Hne. pose proof Hheld as ((Hr & He & Hcur & Hsv & Hth & Hcpu & Hnd & H0) & Hl & Hi).
  unfold swap_runnable_and_exhausted_if_necessary.
  rewrite (queue_empty _ _ Hr), (queue_empty _ _ He). unfold swapped.
  destruct (ready a) as [|r rs] eqn:Er; [|by exists s].
  destruct (spent a) as [|e es] eqn:Es; [done|]. cbn. eexists. split; [done|]. split; [|done].
  split; [|done]. split_and!; try done; cbn [ready spent current runnable_ exhausted_ shared].
  - rewrite app_nil_r. exact Hsv.
  - unfold members in *. by rewrite Er, Es in Hnd.
  - unfold members in *. by rewrite Er, Es in H0.
Qed.

Lemma move_to_next_ok s n rs es c :
  held s (mkqueues (n :: rs) es (Some c)) → Z.of_nat (length es) < 2 ^ 30 →
  ∃ s', move_to_next_runnable_thread s = Ok s' ∧ queue (runnable_ s') rs ∧
        queue (exhausted_ s') (es ++ [c]) ∧ current_thread_ s' = UniquePointer.init n.1 ∧
        is_locked_ s' = true ∧ shared s' = shared s.
Proof.
  intros Hheld Hn. pose proof (held_irq _ _ Hheld) as Hirq.
  destruct Hheld as ((Hr & He & Hcur & Hsv & Hth & Hcpu & Hnd & H0) & Hl & Hi).
  cbn [ready spent current from_option] in *.
  unfold move_to_next_runnable_thread. rewrite (queue_empty _ _ Hr). cbn [bool_decide negb].
  rewrite bool_decide_false by done. cbn [negb]. rewrite move_construct_ok by done.
  destruct (queue_push _ _ c He Hn) as (e' & Ee & He'). rewrite Hcur, Ee.
  cbn [mbind result_bind]. unfold take_current_thread_from_runnable_queue. cbn [runnable_ shared current_thread_].
  destruct (queue_pop _ _ _ Hr) as (r1 & r2 & E1 & E2 & Hr2). rewrite E1.
  cbn [mbind result_bind]. rewrite move_assign_ok by done. cbn [mbind result_bind]. rewrite E2.
  cbn. eexists. split; [done|]. cbn. split_and!; done.
Qed.

(** The switch itself, to a thread whose flow is saved. *)
Lemma switch_away_ok s previous n from :
  is_Some (threads (shared s) !! previous) → saved (shared s) n →
  ∃ p, p ≠ InVanish ∧
    switch_away s previous n.1 from
    = Ok (with_shared s (mkworld (irq (shared s))
            (<[previous := Some (mkcontext (cpu (shared s)) from)]> (threads (shared s))) n.2), p).
Proof.
  intros [x Hx] (p & Hp & Hv). exists p. split; [done|]. unfold switch_away.
  rewrite Hx, Hp. done.
Qed.

Lemma held_switch s s' n rs es c :
  held s (mkqueues (n :: rs) es (Some c)) →
  queue (runnable_ s') rs → queue (exhausted_ s') (es ++ [c]) →
  current_thread_ s' = UniquePointer.init n.1 → is_locked_ s' = true → shared s' = shared s →
  held (with_shared s' (mkworld (irq (shared s))
          (<[c.1 := Some (mkcontext (cpu (shared s)) InYield)]> (threads (shared s))) n.2))
    (mkqueues rs (es ++ [c]) (Some n)).
Proof.
  intros ((Hr & He & Hcur & Hsv & Hth & Hcpu & Hnd & H0) & Hl & Hi) Hr' He' Hcur' Hl' Hsh.
  cbn [ready spent current from_option] in *.
  assert (members (mkqueues rs (es ++ [c]) (Some n)) ≡ₚ members (mkqueues (n :: rs) es (Some c)))
    as Hperm.
  { unfold members. cbn [ready spent current option_list app].
    rewrite (Permutation_cons_append _ n). by rewrite <-!app_assoc. }
  split; [|done]. split_and!; try done; cbn [ready spent current shared threads cpu with_shared].
  - intros t Ht. destruct (decide (t = c)) as [->|Hne].
    + exists InYield. cbn. rewrite lookup_insert_eq, Hcpu. done.
    + assert (t ∈ rs ++ es) as Hin.
      { rewrite app_assoc in Ht. apply elem_of_app in Ht as [Ht|Ht]; [done|].
        by apply list_elem_of_singleton in Ht. }
      destruct (Hsv t) as (q & Hq & Hv); [cbn; rewrite elem_of_cons; by right|].
      exists q. split; [|done]. cbn. rewrite lookup_insert_ne; [done|]. intros E.
      unfold members in Hnd. cbn [ready spent current option_list] in Hnd.
      rewrite app_assoc, fmap_app in Hnd. apply NoDup_app in Hnd as (_ & Hd & _).
      apply (Hd t.1); [|cbn; rewrite E; by apply list_elem_of_singleton].
      apply list_elem_of_fmap_2. cbn. rewrite elem_of_cons. by right.
  - intros c' [= <-]. destruct (Hsv n) as (q & Hq & _); [cbn; rewrite elem_of_cons; by left|].
    destruct (decide (c.1 = n.1)) as [->|]; [by rewrite lookup_insert_eq|].
    rewrite lookup_insert_ne by done. by rewrite Hq.
  - by rewrite Hperm.
  - by rewrite Hperm.
Qed.

(** The next thread, once the queues have been swapped if need be. *)
Lemma swapped_next a c :
  current a = Some c → ready a ++ spent a ≠ [] →
  ∃ n rs es, swapped a = mkqueues (n :: rs) es (Some c) ∧
    (length es <= length (spent a))%nat ∧ spec_yield a = mkqueues rs (es ++ [c]) (Some n).
Proof.
  unfold swapped, spec_yield. destruct a as [[|n rs] es cur]; cbn; intros -> Hne.
  - destruct es as [|n es]; [done|]. exists n, es, []. split_and!; [done|cbn; lia|done].
  - by exists n, rs, es.
Qed.

(** A yield switches when a thread runs and another one waits. *)
Definition switches (a : queues) : bool :=
  bool_decide (current a ≠ None ∧ ready a ++ spent a ≠ []).

Lemma yield_or_switch_ok s a :
  rep_at lv s a → Z.of_nat (length (spent a)) < 2 ^ 30 →
  ∃ s', yield_or_switch s = Ok (s', switches a) ∧ rep_at lv s' (spec_yield a).
Proof.
  intros Hrep Hn. destruct (lock_ok _ _ Hrep) as (s1 & E1 & Hheld & Hth1).
  unfold yield_or_switch, switches. rewrite E1. cbn [mbind result_bind].
  pose proof (held_irq _ _ Hheld) as Hirq.
  pose proof Hheld as ((Hr & He & Hcur & Hsv & Hth & Hcpu & Hnd & H0) & Hl & Hi).
  unfold yield_unlocked, can_yield. rewrite is_set_ok by done. rewrite with_shared_id.
  rewrite (queue_empty _ _ Hr), (queue_empty _ _ He), Hcur.
  destruct (current a) as [c|] eqn:Ec; cbn [from_option UniquePointer.init data_].
  2: { unfold spec_yield. rewrite Ec, (bool_decide_false (_ ∧ _)) by (by intros [? _]). cbn. eexists.
       split; [done|]. by apply unlock_ok. }
  assert (c.1 ≠ 0) as Hc0.
  { intros E. apply H0. unfold members. rewrite Ec, !fmap_app, !elem_of_app. right. right.
    cbn. rewrite E. by apply list_elem_of_singleton. }
  rewrite (proj2 (Z.eqb_neq _ _) Hc0). cbn [negb andb].
  destruct (decide (ready a ++ spent a = [])) as [Hnil|Hne].
  { unfold spec_yield. rewrite Ec, (bool_decide_false (_ ∧ _)) by (by intros [_ ?]).
    apply app_nil in Hnil as [-> ->]. cbn. eexists. split; [done|]. by apply unlock_ok. }
  rewrite (bool_decide_true (_ ∧ _)) by done.
  assert (bool_decide (ready a = []) && bool_decide (spent a = []) = false) as ->.
  { apply andb_false_iff. destruct (ready a); [|by left]. destruct (spent a); [done|by right]. }
  cbn [negb]. rewrite get_pointer_ok, with_shared_id by done. cbn [data_ UniquePointer.init].
  destruct (swap_ok _ _ Hheld Hne) as (s2 & E2 & Hheld2 & Hsh2). rewrite E2. cbn [mbind result_bind].
  destruct (swapped_next a c Ec Hne) as (n & rs & es & Esw & Hes & ->).
  rewrite Esw in Hheld2. pose proof (held_irq _ _ Hheld2) as Hirq2.
  destruct (move_to_next_ok _ _ _ _ _ Hheld2 ltac:(lia)) as (s3 & E3 & Hr3 & He3 & Hcur3 & Hl3 & Hsh3).
  rewrite E3. cbn [mbind result_bind]. rewrite Hsh3, Hcur3, get_pointer_ok by done.
  cbn [data_ UniquePointer.init].
  destruct (switch_away_ok (with_shared s3 (shared s2)) c.1 n InYield) as (q & Hq & Esa).
  { cbn. rewrite Hsh2. by apply Hth. }
  { destruct Hheld2 as ((_ & _ & _ & Hsv2 & _) & _). apply Hsv2. cbn. rewrite elem_of_cons. by left. }
  rewrite Esa. cbn [mbind result_bind mret result_ret].
  pose proof (held_switch _ _ _ _ _ _ Hheld2 Hr3 He3 Hcur3 Hl3 Hsh3) as Hheld4.
  eexists. split; [|by apply unlock_ok]. by destruct q.
Qed.

Lemma yield_ok s a :
  rep_at lv s a → Z.of_nat (length (spent a)) < 2 ^ 30 →
  ∃ s', yield s = Ok s' ∧ rep_at lv s' (spec_yield a).
Proof.
  intros Hrep Hn. destruct (yield_or_switch_ok s a Hrep Hn) as (s' & E & Hs'). exists s'.
  split; [|done]. revert E. unfold yield, yield_or_switch.
  destruct (lock s) as [s1|]; cbn [mbind result_bind]; [|done].
  destruct (yield_unlocked s1) as [[s2 [p|]]|]; cbn [mbind result_bind]; try done.
  - destruct (continue_at s2 p); cbn; [|done]. by intros [= -> _].
  - cbn. by intros [= -> _].
Qed.

End Operations.

(** ** Sequences of operations *)
Definition created (os : list op) : list Z :=
  flat_map (λ o, match o with Add p | Begin p => [p] | Yield => [] end) os.

(** A new address for every thread created, and room for all of them. *)
Definition admissible (os : list op) (a : queues) : Prop :=
  NoDup (created os) ∧ 0 ∉ created os ∧ (∀ p, p ∈ created os → p ∉ (members a).*1) ∧
  Z.of_nat (length (members a) + length os) < 2 ^ 30.

Lemma members_spec_yield a : members (spec_yield a) ≡ₚ members a.
Proof.
  destruct a as [rs es [c|]]; cbn; [|done]. destruct rs as [|n rs]; [destruct es as [|n es]; [done|]|];
    unfold members; cbn [ready spent current option_list app].
  - rewrite (Permutation_cons_append _ n). by rewrite <-!app_assoc.
  - rewrite (Permutation_cons_append _ n). by rewrite <-!app_assoc.
Qed.

(** One operation of an admissible sequence. *)
Lemma sched_step_ok o os s a :
  rep s a → admissible (o :: os) a →
  ∃ a', spec_op o a = Ok (running a', a') ∧ admissible os a' ∧
        ∃ s', run_op o s = Ok (running a', s') ∧ rep s' a'.
Proof.
  intros Hrep (Hnd & H0 & Hfresh & Hlen). cbn [length] in Hlen.
  assert (length (members a) = length (ready a) + length (spent a) +
          length (option_list (current a)))%nat as Hm
    by (unfold members; rewrite !length_app; lia).
  assert (∀ a', (members a').*1 ⊆ created [o] ++ (members a).*1 →
    (length (members a') <= S (length (members a)))%nat → admissible os a') as Hadm.
  { intros a' Hsub Hl. unfold created in Hnd, H0, Hfresh |- *. cbn [flat_map] in Hnd, H0, Hfresh.
    apply NoDup_app in Hnd as (_ & Hd & Hnd'). split_and!; [done| |..|lia].
    - intros Hin. apply H0, elem_of_app. by right.
    - intros p Hp Hin. apply Hsub in Hin. cbn in Hin. rewrite app_nil_r in Hin.
      apply elem_of_app in Hin as [Hin|Hin]; [by apply (Hd p)|].
      apply (Hfresh p); [apply elem_of_app; by right|done]. }
  assert (∀ p, p ∈ created [o] → p ≠ 0 ∧ p ∉ (members a).*1) as Hnew.
  { intros p Hp. cbn in Hp. rewrite app_nil_r in Hp. split.
    - intros ->. apply H0. cbn. apply elem_of_app. by left.
    - apply Hfresh. cbn. apply elem_of_app. by left. }
  destruct o as [p|p|]; eexists; (split; [done|]); unfold run_op; (split; [apply Hadm|]).
  - unfold members. cbn. rewrite !fmap_app. cbn. set_solver.
  - unfold members. cbn. rewrite !length_app. cbn. lia.
  - destruct (Hnew p) as [? ?]; [by left|].
    destruct (add_ok 0 ltac:(lia) s a p) as (s' & -> & Hs'); [done..|lia|]. exists s'. split; [|done].
    cbn. do 2 f_equal. by destruct Hs' as ((_ & _ & _ & _ & _ & -> & _) & _).
  - unfold members. cbn. rewrite !fmap_app. cbn. set_solver.
  - unfold members. cbn. rewrite !length_app. cbn. lia.
  - destruct (Hnew p) as [? ?]; [by left|].
    destruct (begin_ok 0 ltac:(lia) s a p) as (s' & -> & Hs'); [done..|]. exists s'. split; [|done].
    cbn. do 2 f_equal. by destruct Hs' as ((_ & _ & _ & _ & _ & -> & _) & _).
  - rewrite members_spec_yield. cbn. done.
  - rewrite members_spec_yield. lia.
  - destruct (yield_ok 0 ltac:(lia) s a) as (s' & -> & Hs'); [done|lia|]. exists s'. split; [|done].
    cbn. do 2 f_equal. by destruct Hs' as ((_ & _ & _ & _ & _ & -> & _) & _).
Qed.

Lemma sched_run_ok os s a :
  rep s a → admissible os a → refines rep (run_all spec_op os a) (run_all run_op os s).
Proof.
  revert s a. induction os as [|o os IH]; intros s a Hrep Hadm; cbn [run_all]; [by exists s|].
  destruct (sched_step_ok o os s a Hrep Hadm) as (a' & -> & Hadm' & s' & -> & Hrep').
  cbn [mbind result_bind]. specialize (IH s' a' Hrep' Hadm'). unfold refines in IH.
  destruct (run_all spec_op os a') as [[rs a2]|f]; cbn; [|by rewrite IH].
  destruct IH as (s2 & -> & Hs2). by exists s2.
Qed.

(** Yields rotate the threads. *)
Lemma spec_yields k a c :
  current a = Some c → (k <= S (length (ready a ++ spent a)))%nat →
  ∃ a', run_all spec_op (replicate k Yield) a
        = Ok ((take k (ready a ++ spent a ++ [c])).*2, a').
Proof.
  revert a c. induction k as [|k IH]; intros a c Hc Hk; [by eexists|]. cbn [replicate run_all].
  destruct (decide (ready a ++ spent a = [])) as [Hnil|Hne].
  { apply app_nil in Hnil as [Er Es].
    assert (spec_yield a = a) as Ey by (unfold spec_yield; by rewrite Hc, Er, Es).
    rewrite Er, Es in *. cbn in Hk. replace k with O by lia.
    unfold spec_op. rewrite Ey. cbn. unfold running. rewrite Hc. by eexists. }
  destruct (swapped_next a c Hc Hne) as (n & rs & es & Esw & _ & Ey).
  assert (ready a ++ spent a = n :: rs ++ es) as Eq.
  { unfold swapped in Esw. destruct a as [[|? ?] ? ?]; cbn in *; simplify_eq; [by rewrite app_nil_r|done]. }
  change (spec_op Yield a) with (Ok (running (spec_yield a), spec_yield a)). rewrite Ey.
  rewrite Eq in Hk. cbn [length] in Hk.
  destruct (IH (mkqueues rs (es ++ [c]) (Some n)) n) as (a' & E'); [done|cbn; rewrite !length_app in *; cbn; lia|].
  assert (take (S k) (ready a ++ spent a ++ [c]) = n :: take k (rs ++ (es ++ [c]) ++ [n])) as ->.
  { rewrite app_assoc, Eq. cbn. f_equal. rewrite !app_assoc, (take_app_le _ [n]); [done|].
    rewrite !length_app in *. cbn. lia. }
  cbn [mbind result_bind mret result_ret]. rewrite E'. by exists a'.
Qed.

Lemma boot_rep : rep (init (mkworld InterruptLock.init ∅ BOOT)) idle.
Proof.
  split; [|done]. split_and!; try done; cbn.
  - exists 0. apply Vector.vec_rep_init.
  - exists 0. apply Vector.vec_rep_init.
  - intros t Ht. by apply not_elem_of_nil in Ht.
  - constructor.
  - apply not_elem_of_nil.
Qed.

(** C13: Any sequence of thread creations, starts of the scheduler and yields on a booted
    kernel schedules like the round-robin specification: after every operation the flow
    on the CPU is the one the specification names, each waiting thread holds its own
    saved flow and sits in exactly one queue, the scheduler lock is free and interrupts
    are enabled. *)
Theorem scheduler_refines_round_robin os :
  admissible os idle →
  refines rep (run_all spec_op os idle)
    (run_all run_op os (init (mkworld InterruptLock.init ∅ BOOT))).
Proof. apply sched_run_ok, boot_rep. Qed.

Lemma scheduler_refines_round_robin_witness :
  let os := [Add 16; Add 32; Begin 48; Yield; Yield; Yield; Yield] in
  admissible os idle ∧
  ∃ s, run_all run_op os (init (mkworld InterruptLock.init ∅ BOOT))
       = Ok ([BOOT; BOOT; BOOT; 16; 32; BOOT; 16], s).
Proof.
  intros os. assert (admissible os idle) as H.
  { split_and!; [apply (bool_decide_unpack _); by vm_compute|apply (bool_decide_unpack _); by vm_compute|
      intros p _; apply not_elem_of_nil|cbn; lia]. }
  split; [exact H|].
  destruct (scheduler_refines_round_robin os H) as (s & E & _). exists s. exact E.
Defined.

(** Two threads wait while the boot flow runs. *)
Lemma started_rep :
  ∃ s, rep s (mkqueues [(16, 16); (32, 32)] [] (Some (48, BOOT))).
Proof.
  destruct (sched_run_ok [Add 16; Add 32; Begin 48] _ _ boot_rep) as (s & _ & Hs); [|by exists s].
  split_and!; [apply (bool_decide_unpack _); by vm_compute|apply (bool_decide_unpack _); by vm_compute|
    intros p _; apply not_elem_of_nil|cbn; lia].
Qed.

(** C14: No thread starves: from any state of the scheduler in which [c] runs, the next
    yields give the CPU to the runnable threads in order, then to the exhausted ones,
    then back to [c]; each of them runs once in a round of as many yields as there are
    threads. *)
Theorem scheduler_is_fair s a c k :
  rep s a → current a = Some c → (k <= S (length (ready a ++ spent a)))%nat →
  Z.of_nat (length (members a) + k) < 2 ^ 30 →
  ∃ s', run_all run_op (replicate k Yield) s
        = Ok ((take k (ready a ++ spent a ++ [c])).*2, s').
Proof.
  intros Hrep Hc Hk Hn. destruct (spec_yields k a c Hc Hk) as (a' & E).
  assert (created (replicate k Yield) = []) as Ecr by (clear; by induction k).
  pose proof (sched_run_ok (replicate k Yield) s a Hrep) as H. rewrite E in H.
  destruct H as (s' & -> & _); [|by exists s'].
  unfold admissible. rewrite Ecr, length_replicate.
  split_and!; [constructor|apply not_elem_of_nil|intros p Hp; by apply not_elem_of_nil in Hp|done].
Qed.

Lemma scheduler_is_fair_witness :
  ∃ s a, rep s a ∧ current a = Some (48, BOOT) ∧
    ∃ s', run_all run_op (replicate 3 Yield) s = Ok ([16; 32; BOOT], s').
Proof.
  destruct started_rep as (s & Hs). exists s, (mkqueues [(16, 16); (32, 32)] [] (Some (48, BOOT))).
  split; [exact Hs|]. split; [reflexivity|].
  exact (scheduler_is_fair s _ (48, BOOT) 3 Hs eq_refl ltac:(cbn; lia) ltac:(cbn; lia)).
Defined.

Lemma vanish_faults s a :
  rep s a →
  vanish s = Fault (if decide (current a = None ∨ ready a ++ spent a = [])
                    then AssertionFailed else InvalidAccess).
Proof.
  intros Hrep. destruct (lock_ok 0 ltac:(lia) _ _ Hrep) as (s1 & E1 & Hheld & Hth1).
  unfold vanish. rewrite E1. cbn [mbind result_bind]. pose proof (held_irq 0 ltac:(lia) _ _ Hheld) as Hirq.
  pose proof Hheld as ((Hr & He & Hcur & Hsv & Hth & Hcpu & Hnd & H0) & Hl & Hi).
  unfold vanish_unlocked. rewrite is_set_ok, Hcur by done.
  destruct (current a) as [c|] eqn:Ec; [|rewrite decide_True by auto; done].
  assert (c.1 ≠ 0) as Hc0.
  { intros E. apply H0. unfold members. rewrite Ec, !fmap_app, !elem_of_app. right. right.
    cbn. rewrite E. by apply list_elem_of_singleton. }
  cbn [from_option data_ UniquePointer.init]. rewrite (proj2 (Z.eqb_neq _ _) Hc0). cbn [negb assert_then].
  rewrite get_pointer_ok, with_shared_id by done. cbn [data_ UniquePointer.init].
  destruct (decide (ready a ++ spent a = [])) as [Hnil|Hne].
  { rewrite decide_True by auto. unfold swap_runnable_and_exhausted_if_necessary.
    apply app_nil in Hnil as [Er Es]. rewrite Er in Hr. rewrite Es in He.
    by rewrite (queue_empty _ _ Hr), (queue_empty _ _ He). }
  rewrite decide_False by (intros [?|?]; done).
  destruct (swap_ok 0 _ _ Hheld Hne) as (s2 & E2 & Hheld2 & Hsh2). rewrite E2. cbn [mbind result_bind].
  destruct (swapped_next a c Ec Hne) as (n & rs & es & Esw & _ & _). rewrite Esw in Hheld2.
  pose proof (held_irq 0 ltac:(lia) _ _ Hheld2) as Hirq2.
  destruct Hheld2 as ((Hr2 & _ & Hcur2 & _ & Hth2 & _) & _).
  unfold take_current_thread_from_runnable_queue.
  destruct (queue_pop _ _ _ Hr2) as (r1 & r2 & E3 & E4 & _). rewrite E3. cbn [mbind result_bind].
  rewrite Hcur2, move_assign_ok; [|done|done|by intros _; apply Hth2].
  cbn [from_option current data_ UniquePointer.init]. rewrite (proj2 (Z.eqb_neq _ _) Hc0).
  cbn [mbind result_bind]. rewrite E4. cbn [mbind result_bind mret result_ret shared current_thread_].
  rewrite get_pointer_ok by done. unfold switch_away. cbn. by rewrite lookup_delete_eq.
Qed.

(** C40: A thread cannot exit cleanly.  [vanish] replaces the current thread pointer by the
    next thread's, which deletes the thread that is still running, and then calls
    [switch_away] on the deleted object; without another thread to switch to it stops in
    an assertion. *)
Theorem vanish_switches_from_deleted_thread s a :
  rep s a →
  vanish s = Fault (if decide (current a = None ∨ ready a ++ spent a = [])
                    then AssertionFailed else InvalidAccess).
Proof. apply vanish_faults. Qed.

Lemma vanish_switches_from_deleted_thread_witness :
  ∃ s a, rep s a ∧ vanish s = Fault InvalidAccess.
Proof.
  destruct started_rep as (s & Hs). exists s, (mkqueues [(16, 16); (32, 32)] [] (Some (48, BOOT))).
  split; [exact Hs|]. exact (vanish_switches_from_deleted_thread s _ Hs).
Defined.

End Scheduler.
