(* ===== verification/Printf.v ===== *)
(** * Printf: the formatted output of the kernel

    Models [vsnprintf] of src/Common/src/stdio.cpp with its helpers and [strcmp].  The
    output buffer, the format and the strings printed live in one memory of [char]s (see
    [Strings]); the local arrays [tmp] and the literals are lists of [char]s.  The
    arguments are the values still to be read by [va_arg]; reading past the last one is a
    fault.  [W] is the width of [uintptr_t] and [size_t]; [int] has 32 bits. *)
From S2P Require Import Prelude TextDisplay Strings.
Import Strings.

Module Printf.

Section Printf.
Context (W : Z).
Implicit Types (m : gmap Z Z) (cs tmp : list Z).

Definition NEWLINE : Z := 10.
Definition TAB : Z := 9.

Definition digits_lower : list Z :=
  [48; 49; 50; 51; 52; 53; 54; 55; 56; 57; 97; 98; 99; 100; 101; 102; 103; 104; 105; 106; 107;
   108; 109; 110; 111; 112; 113; 114; 115; 116; 117; 118; 119; 120; 121; 122; 0].

(** "...KLOMNPQ...", as the source spells it. *)
Definition digits_upper : list Z :=
  [48; 49; 50; 51; 52; 53; 54; 55; 56; 57; 65; 66; 67; 68; 69; 70; 71; 72; 73; 74; 75;
   76; 79; 77; 78; 80; 81; 82; 83; 84; 85; 86; 87; 88; 89; 90; 0].

(** ** Local arrays *)
Definition get tmp (i : Z) : result Z :=
  deref InvalidAccess (if 0 <=? i then tmp !! Z.to_nat i else None).

Definition put tmp (i c : Z) : result (list Z) :=
  _ ← get tmp i; mret (<[Z.to_nat i := c]> tmp).

Fixpoint reverse_loop (fuel : nat) tmp (begin end_ : Z) : result (list Z) :=
  if begin <? end_ then
    match fuel with
    | O => Fault OutOfFuel
    | S fuel =>
        x ← get tmp begin;
        y ← get tmp end_;
        tmp ← put tmp begin y;
        tmp ← put tmp end_ x;
        reverse_loop fuel tmp (begin + 1) (end_ - 1)
    end
  else mret tmp.

Definition reverse tmp (begin end_ : Z) : result (list Z) :=
  reverse_loop (length tmp) tmp begin end_.

(** ** The output: where the next character goes and the room left, [*str] and [*size] *)
Record out := mk { mem : gmap Z Z; str : Z; size : Z }.

Definition storable (c : Z) : bool := isprint c || (c =? NEWLINE) || (c =? TAB).

Definition insert_char (c : Z) (o : out) : result (Z * out) :=
  if (1 <? size o) && storable c then
    m ← store (mem o) (str o) c;
    mret (1, mk m (str o + 1) (size o - 1))
  else mret (1, o).

(** The loop of [insert_string]; [read] reads the characters of [value]. *)
Fixpoint insert_loop (fuel : nat) (read : gmap Z Z → Z → result Z) (value i : Z) (o : out)
  : result (Z * out) :=
  match fuel with
  | O => Fault OutOfFuel
  | S fuel =>
      c ← read (mem o) value;
      if c =? 0 then mret (i, o)
      else
        '(n, o) ← insert_char c o;
        insert_loop fuel read (value + 1) (uwrap W (i + n)) o
  end.

(** [insert_string] of a local array or a literal. *)
Definition insert_local cs (o : out) : result (Z * out) :=
  insert_loop (S (length cs)) (λ _, get cs) 0 0 o.

Definition null_string : list Z := [40; 110; 117; 108; 108; 41; 0].

Definition insert_string (value : Z) (o : out) : result (Z * out) :=
  if value =? 0 then insert_local null_string o
  else insert_loop (fuel_for (mem o)) load value 0 o.

(** [while (value > 0) { *iter++ = digits[value % base]; value /= base; }] *)
Fixpoint digits_loop (fuel : nat) (value base : Z) (digits tmp : list Z) (iter : Z)
  : result (list Z * Z) :=
  if 0 <? value then
    match fuel with
    | O => Fault OutOfFuel
    | S fuel =>
        d ← get digits (value `mod` base);
        tmp ← put tmp iter d;
        digits_loop fuel (value / base) base digits tmp (iter + 1)
    end
  else mret (tmp, iter).

Definition new_tmp : list Z := replicate 32 0.

(** The digits of [value] in [tmp], in the order they are printed. *)
Definition format_digits (value base : Z) (digits : list Z) : result (list Z) :=
  '(tmp, iter) ← (if value =? 0 then d ← get digits 0; tmp ← put new_tmp 0 d; mret (tmp, 1)
                  else digits_loop 64 value base digits new_tmp 0);
  reverse tmp 0 (iter - 1).

(** [value] is an [int]; negating the least one wraps around. *)
Definition insert_int (value base : Z) (digits : list Z) (o : out) : result (Z * out) :=
  '(i, value, o) ← (if value <? 0 then '(n, o) ← insert_char 45 o; mret (n, swrap 32 (- value), o)
                    else mret (0, value, o));
  tmp ← format_digits value base digits;
  '(n, o) ← insert_local tmp o;
  mret (uwrap W (i + n), o).

Definition insert_uint (value base : Z) (digits : list Z) (o : out) : result (Z * out) :=
  tmp ← format_digits value base digits;
  insert_local tmp o.

Fixpoint pad_loop (c : nat) tmp (iter sz : Z) : result (list Z * Z * Z) :=
  match c with
  | O => mret (tmp, iter, sz)
  | S c =>
      if 1 <? sz then tmp ← put tmp iter 48; pad_loop c tmp (iter + 1) (sz - 1)
      else pad_loop c tmp iter sz
  end.

Definition insert_pointer (value : Z) (o : out) : result (Z * out) :=
  '(i, o) ← insert_local [48; 120; 0] o;
  '(tmp, iter) ← digits_loop 64 value 16 digits_lower new_tmp 0;
  '(tmp, iter, sz) ← pad_loop (Z.to_nat (W / 8 * 2 - iter)) tmp iter (size o);
  tmp ← reverse tmp 0 (iter - 1);
  '(n, o) ← insert_local tmp (mk (mem o) (str o) sz);
  mret (uwrap W (i + n), o).

(** [va_arg]. *)
Definition va_arg (args : list Z) : result (Z * list Z) :=
  match args with [] => Fault InvalidAccess | x :: args => mret (x, args) end.

(** The conversion [c] after a percent sign. *)
Definition convert (c : Z) (args : list Z) (o : out) : result (Z * out * list Z) :=
  if c =? 100 (* d *) then
    '(x, args) ← va_arg args; r ← insert_int (swrap 32 x) 10 digits_lower o; mret (r, args)
  else if c =? 117 (* u *) then
    '(x, args) ← va_arg args; r ← insert_uint (uwrap 32 x) 10 digits_lower o; mret (r, args)
  else if c =? 120 (* x *) then
    '(x, args) ← va_arg args; r ← insert_uint (uwrap 32 x) 16 digits_lower o; mret (r, args)
  else if c =? 88 (* X *) then
    '(x, args) ← va_arg args; r ← insert_uint (uwrap 32 x) 16 digits_upper o; mret (r, args)
  else if c =? 112 (* p *) then
    '(x, args) ← va_arg args; r ← insert_pointer (uwrap W x) o; mret (r, args)
  else if c =? 115 (* s *) then
    '(x, args) ← va_arg args; r ← insert_string x o; mret (r, args)
  else if c =? 99 (* c *) then
    '(x, args) ← va_arg args; r ← insert_char (swrap 8 x) o; mret (r, args)
  else r ← insert_char c o; mret (r, args).

Fixpoint format_loop (fuel : nat) (fmt : Z) (handling_percent : bool) (args : list Z)
    (i : Z) (o : out) : result (Z * out) :=
  match fuel with
  | O => Fault OutOfFuel
  | S fuel =>
      c ← load (mem o) fmt;
      if c =? 0 then
        if 1 <=? size o then m ← store (mem o) (str o) 0; mret (i, mk m (str o) 0)
        else mret (i, o)
      else if negb handling_percent then
        if c =? 37 then format_loop fuel (fmt + 1) true args i o
        else
          '(n, o) ← insert_char c o;
          format_loop fuel (fmt + 1) false args (uwrap W (i + n)) o
      else
        '(n, o, args) ← convert c args o;
        format_loop fuel (fmt + 1) false args (uwrap W (i + n)) o
  end.

(** The memory after the call and the value returned, an [int]. *)
Definition vsnprintf m (buf size fmt : Z) (args : list Z) : result (gmap Z Z * Z) :=
  if (buf =? 0) || (size =? 0) || (fmt =? 0) then mret (m, 0)
  else
    '(i, o) ← format_loop (fuel_for m) fmt false args 0 (mk m buf size);
    mret (mem o, swrap 32 i).

Fixpoint strcmp_loop (fuel : nat) m (s1 s2 : Z) : result Z :=
  match fuel with
  | O => Fault OutOfFuel
  | S fuel =>
      x ← load m s1;
      y ← load m s2;
      if negb (x =? 0) && (x =? y) then strcmp_loop fuel m (s1 + 1) (s2 + 1)
      else mret (uwrap 8 x - uwrap 8 y)
  end.

Definition strcmp m (s1 s2 : Z) : result Z := strcmp_loop (fuel_for m) m s1 s2.

(** ** What is printed *)

Definition digit (digits : list Z) (d : Z) : Z := digits !!! Z.to_nat d.

(** The digits of [n] from the least significant one, at most [k] of them. *)
Fixpoint lsd (base : Z) (k : nat) (n : Z) : list Z :=
  match k with
  | O => []
  | S k => if 0 <? n then n `mod` base :: lsd base k (n / base) else []
  end.

(** The numeral of [n], without leading zeros, for [n] below 2^32 and bases from 10. *)
Definition numeral (base n : Z) (digits : list Z) : list Z :=
  digit digits <$> (if n =? 0 then [0] else rev (lsd base 10 n)).

Definition int_chars (x : Z) : list Z :=
  if x =? - 2 ^ 31 then [45]
  else if x <? 0 then 45 :: numeral 10 (- x) digits_lower
  else numeral 10 x digits_lower.

(** What a conversion does to the output: a character that is counted; [Pad], by which
    [insert_pointer] takes a byte from the room for a leading zero before the zero itself
    ([Zero]) is inserted, which takes another one. *)
Inductive item := Char (c : Z) | Pad | Zero.

#[global] Instance item_eq_dec : EqDecision item.
Proof. solve_decision. Defined.

Definition pointer_digits (x : Z) : list Z :=
  digit digits_lower <$> rev (lsd 16 (Z.to_nat (W / 4)) x).

Definition pointer_items (x : Z) : list item :=
  let ds := pointer_digits x in
  let z := (Z.to_nat (W / 4) - length ds)%nat in
  [Char 48; Char 120] ++ replicate z Pad ++ replicate z Zero ++ (Char <$> ds).

(** The items of a conversion, [strs p] being the string at [p]; [None] when there is no
    argument left or no string at a pointer. *)
Definition conversion_items (strs : Z → option (list Z)) (c : Z) (args : list Z)
  : option (list item * list Z) :=
  if bool_decide (c ∈ [100; 117; 120; 88; 112; 115; 99]) then
    match args with
    | [] => None
    | x :: args =>
        fmap (M := option) (λ its, (its, args))
        (if c =? 112 then Some (pointer_items (uwrap W x))
         else fmap (M := option) (fmap (M := list) Char)
           (if c =? 100 then Some (int_chars (swrap 32 x))
            else if c =? 117 then Some (numeral 10 (uwrap 32 x) digits_lower)
            else if c =? 120 then Some (numeral 16 (uwrap 32 x) digits_lower)
            else if c =? 88 then Some (numeral 16 (uwrap 32 x) digits_upper)
            else if c =? 115 then (if x =? 0 then Some [40; 110; 117; 108; 108; 41] else strs x)
            else Some [swrap 8 x]))
    end
  else Some ([Char c], args).

Fixpoint expand (strs : Z → option (list Z)) (fmt : list Z) (percent : bool) (args : list Z)
  : option (list item) :=
  match fmt with
  | [] => Some []
  | c :: fmt =>
      if percent then
        match conversion_items strs c args with
        | Some (cs, args) => app cs <$> expand strs fmt false args
        | None => None
        end
      else if c =? 37 then expand strs fmt true args
      else cons (Char c) <$> expand strs fmt false args
  end.

(** The items that find room in a buffer of [n] bytes, of which the last one is kept for the
    terminator; the characters they leave; and what is counted for the result. *)
Definition takes_room (it : item) : bool := match it with Char c => storable c | _ => true end.

Definition spent (n : Z) (its : list item) : list item := take (Z.to_nat (n - 1)) (filter takes_room its).

Definition written (it : item) : option Z :=
  match it with Char c => Some c | Zero => Some 48 | Pad => None end.

Definition kept (n : Z) (its : list item) : list Z := omap written (spent n its).

Definition is_char (it : item) : bool := match it with Char _ => true | _ => false end.
Definition is_pad (it : item) : bool := match it with Pad => true | _ => false end.

Definition counted (n : Z) (its : list item) : Z :=
  Z.of_nat (length (filter is_char its)) + Z.of_nat (length (filter is_pad (spent n its))).

(** ** Local arrays *)
Lemma get_app p c q : get (p ++ c :: q) (Z.of_nat (length p)) = Ok c.
Proof. unfold get. decide_Z. by rewrite Nat2Z.id, list_lookup_middle. Qed.

Lemma put_app p c d q : put (p ++ c :: q) (Z.of_nat (length p)) d = Ok (p ++ d :: q).
Proof.
  unfold put. rewrite get_app. cbn. rewrite Nat2Z.id, insert_app_r_alt by lia.
  by rewrite Nat.sub_diag.
Qed.

Lemma reverse_loop_ok fuel p seg q :
  (length seg <= 2 * fuel + 1)%nat →
  reverse_loop fuel (p ++ seg ++ q) (Z.of_nat (length p))
    (Z.of_nat (length p) + Z.of_nat (length seg) - 1) = Ok (p ++ rev seg ++ q).
Proof.
  revert p seg q. induction fuel as [|fuel IH]; intros p seg q Hf.
  { cbn [reverse_loop]. decide_Z. destruct seg as [|x [|? ?]]; cbn in Hf; try done. lia. }
  destruct seg as [|x seg].
  { cbn [reverse_loop length]. by decide_Z. }
  destruct seg as [|y mid] using rev_ind.
  { cbn [reverse_loop length]. by decide_Z. }
  clear IHmid. cbn [reverse_loop length]. rewrite length_app. cbn [length]. decide_Z.
  cbn [app]. rewrite <-app_assoc, get_app. cbn [mbind result_bind app].
  replace (Z.of_nat (length p) + Z.of_nat (S (length mid + 1)) - 1)
    with (Z.of_nat (length (p ++ x :: mid))) by (rewrite length_app; cbn; lia).
  change (p ++ x :: mid ++ y :: q) with (p ++ (x :: mid) ++ y :: q). rewrite app_assoc, get_app.
  cbn [mbind result_bind]. rewrite <-app_assoc. cbn [app]. rewrite put_app. cbn [mbind result_bind].
  replace (Z.of_nat (length (p ++ x :: mid))) with (Z.of_nat (length (p ++ y :: mid)))
    by (rewrite !length_app; done).
  change (p ++ y :: mid ++ y :: q) with (p ++ (y :: mid) ++ y :: q). rewrite app_assoc, put_app.
  cbn [mbind result_bind].
  replace ((p ++ y :: mid) ++ x :: q) with ((p ++ [y]) ++ mid ++ x :: q)
    by (rewrite <-!app_assoc; done).
  replace (Z.of_nat (length p) + 1) with (Z.of_nat (length (p ++ [y])))
    by (rewrite length_app; cbn; lia).
  replace (Z.of_nat (length (p ++ y :: mid)) - 1)
    with (Z.of_nat (length (p ++ [y])) + Z.of_nat (length mid) - 1)
    by (rewrite !length_app; cbn; lia).
  rewrite IH by (cbn in Hf; rewrite length_app in Hf; cbn in Hf; lia).
  cbn. rewrite rev_app_distr, <-!app_assoc. done.
Qed.

Lemma fmap_rev {A B} (f : A → B) l : f <$> rev l = rev (f <$> l).
Proof. induction l as [|x l IH]; [done|]. cbn. by rewrite fmap_app, IH. Qed.

Lemma lsd_length base k n : (length (lsd base k n) <= k)%nat.
Proof.
  revert n. induction k as [|k IH]; intros n; cbn; [lia|]. destruct (0 <? n); cbn; [|lia].
  specialize (IH (n / base)). lia.
Qed.

Lemma digits_loop_ok fuel base digits p k n r :
  1 < base → (∀ d, 0 <= d < base → digits !! Z.to_nat d = Some (digit digits d)) →
  0 <= n < base ^ Z.of_nat k → (k <= fuel)%nat → (k <= r)%nat →
  let ds := digit digits <$> lsd base k n in
  digits_loop fuel n base digits (p ++ replicate r 0) (Z.of_nat (length p))
  = Ok (p ++ ds ++ replicate (r - length ds) 0, Z.of_nat (length p) + Z.of_nat (length ds)).
Proof.
  intros Hb Hd. revert fuel p n r. induction k as [|k IH]; intros fuel p n r Hn Hf Hr ds.
  { cbn in Hn. replace n with 0 by lia. subst ds. cbn. rewrite Nat.sub_0_r, Z.add_0_r.
    by destruct fuel. }
  subst ds. cbn [lsd]. destruct fuel as [|fuel]; [lia|]. cbn [digits_loop].
  destruct (Z.ltb_spec 0 n) as [Hpos|]; [|cbn; by rewrite Nat.sub_0_r, Z.add_0_r].
  unfold get at 1. pose proof (Z.mod_pos_bound n base ltac:(lia)). decide_Z.
  rewrite Hd by done. cbn [deref mbind result_bind].
  destruct r as [|r]; [lia|]. cbn [replicate]. rewrite put_app. cbn [mbind result_bind].
  replace (p ++ digit digits (n `mod` base) :: replicate r 0)
    with ((p ++ [digit digits (n `mod` base)]) ++ replicate r 0) by (by rewrite <-app_assoc).
  replace (Z.of_nat (length p) + 1) with (Z.of_nat (length (p ++ [digit digits (n `mod` base)])))
    by (rewrite length_app; cbn; lia).
  rewrite IH; [|split; [apply Z.div_pos; lia|]|lia|lia].
  - cbn. rewrite <-app_assoc, length_app. cbn. do 2 f_equal. lia.
  - apply Z.div_lt_upper_bound; [lia|]. rewrite <-Z.pow_succ_r by lia.
    replace (Z.succ (Z.of_nat k)) with (Z.of_nat (S k)) by lia. lia.
Qed.

(** Digit tables: what the table holds and that its entries read back as digits. *)
Definition table (digits : list Z) (base : Z) : Prop :=
  1 < base ∧ ∀ d, 0 <= d < base →
    digits !! Z.to_nat d = Some (digit digits d) ∧ digit digits d ≠ 0 ∧
    is_valid_digit_for_char base (digit digits d) = true ∧ get_digit_for_char (digit digits d) = d.

Lemma table_check digits base :
  1 < base →
  forallb (λ d, bool_decide (digits !! Z.to_nat d = Some (digit digits d)) &&
                negb (digit digits d =? 0) && is_valid_digit_for_char base (digit digits d) &&
                (get_digit_for_char (digit digits d) =? d)) (seqZ 0 base) = true →
  table digits base.
Proof.
  intros Hb H. split; [done|]. intros d Hd. rewrite forallb_forall in H.
  specialize (H d). rewrite <-list_elem_of_In, elem_of_seqZ in H. specialize (H ltac:(lia)).
  apply andb_true_iff in H as [H H4]. apply andb_true_iff in H as [H H3].
  apply andb_true_iff in H as [H1 H2].
  apply bool_decide_eq_true in H1. apply negb_true_iff, Z.eqb_neq in H2. apply Z.eqb_eq in H4. done.
Qed.

Lemma table_lower_10 : table digits_lower 10.
Proof. by apply table_check; [|vm_compute]. Qed.

Lemma table_lower_16 : table digits_lower 16.
Proof. by apply table_check; [|vm_compute]. Qed.

Lemma table_upper_16 : table digits_upper 16.
Proof. by apply table_check; [|vm_compute]. Qed.

Lemma lsd_range base k n : 1 < base → Forall (λ d, 0 <= d < base) (lsd base k n).
Proof.
  intros Hb. revert n. induction k as [|k IH]; intros n; cbn; [constructor|].
  destruct (0 <? n); constructor; [|apply IH]. apply Z.mod_pos_bound. lia.
Qed.

Lemma lsd_value base k n :
  1 < base → 0 <= n < base ^ Z.of_nat k →
  foldr (λ d a, a * base + d) 0 (lsd base k n) = n.
Proof.
  intros Hb. revert n. induction k as [|k IH]; intros n Hn; cbn [lsd].
  { cbn in *. lia. }
  destruct (Z.ltb_spec 0 n); cbn [foldr]; [|lia]. rewrite IH.
  - rewrite (Z.div_mod n base) at 3 by lia. lia.
  - split; [apply Z.div_pos; lia|]. apply Z.div_lt_upper_bound; [lia|].
    rewrite <-Z.pow_succ_r by lia. replace (Z.succ (Z.of_nat k)) with (Z.of_nat (S k)) by lia. lia.
Qed.

Lemma pow_10 base : 10 <= base → 2 ^ 32 < base ^ Z.of_nat 10.
Proof.
  intros Hb. apply Z.lt_le_trans with (10 ^ 10); [done|]. by apply Z.pow_le_mono_l.
Qed.

(** The numeral: digits of the base only, not empty, and their value is [n]. *)
Lemma numeral_ok base n digits :
  table digits base → 10 <= base → 0 <= n < 2 ^ 32 →
  numeral base n digits ≠ [] ∧ (length (numeral base n digits) <= 10)%nat ∧
  Forall (λ c, is_valid_digit_for_char base c = true ∧ c ≠ 0) (numeral base n digits) ∧
  digits_value base (numeral base n digits) = n.
Proof.
  intros [Hb Ht] Hb10 Hn. pose proof (pow_10 base Hb10). unfold numeral.
  destruct (Z.eqb_spec n 0) as [->|Hne].
  { destruct (Ht 0 ltac:(lia)) as (_ & ? & ? & E). cbn. split_and!; [done|lia|by constructor|].
    by rewrite E. }
  pose proof (lsd_range base 10 n Hb) as Hrange. pose proof (lsd_value base 10 n Hb ltac:(lia)) as Hval.
  split_and!.
  - intros E%fmap_nil_inv. assert (lsd base 10 n = []) as E0
      by (by rewrite <-(rev_involutive (lsd base 10 n)), E). rewrite E0 in Hval. cbn in Hval. lia.
  - rewrite length_fmap, length_rev. apply lsd_length.
  - apply Forall_fmap, Forall_rev. eapply Forall_impl; [exact Hrange|]. intros d Hd. cbn.
    by destruct (Ht d Hd) as (_ & ? & ? & _).
  - rewrite <-Hval at 2. clear Hval. induction Hrange as [|d ds Hd _ IH]; [done|].
    cbn [rev foldr]. unfold digits_value in *. rewrite fmap_app, foldl_app. cbn. rewrite IH.
    by destruct (Ht d Hd) as (_ & _ & _ & ->).
Qed.

(** What ends up in [tmp]: the numeral and its terminating nul. *)
Lemma format_digits_ok base n digits :
  table digits base → 10 <= base → 0 <= n < 2 ^ 32 →
  ∃ rest, format_digits n base digits = Ok (numeral base n digits ++ 0 :: rest).
Proof.
  intros [Hb Ht] Hb10 Hn. pose proof (pow_10 base Hb10). unfold format_digits, numeral, reverse.
  destruct (Z.eqb_spec n 0) as [->|Hne].
  { destruct (Ht 0 ltac:(lia)) as (E & _). unfold get. cbn [Z.leb]. rewrite E.
    eexists. vm_compute. reflexivity. }
  pose proof (digits_loop_ok 64 base digits [] 10 n 32 Hb (λ d Hd, proj1 (Ht d Hd)) ltac:(lia)
    ltac:(lia) ltac:(lia)) as E. cbv zeta in E. cbn [app] in E. change (Z.of_nat (length [])) with 0 in E.
  unfold new_tmp. rewrite E. cbn [mbind result_bind]. set (ds := digit digits <$> lsd base 10 n).
  assert (length ds <= 10)%nat as Hds by (unfold ds; rewrite length_fmap; apply lsd_length).
  pose proof (reverse_loop_ok 32 [] ds (replicate (32 - length ds) 0) ltac:(lia)) as Er.
  cbn [app length] in Er. change (Z.of_nat 0) with 0 in Er.
  replace (length (ds ++ replicate (32 - length ds) 0)) with 32%nat
    by (rewrite length_app, length_replicate; lia).
  rewrite Er. exists (replicate (31 - length ds) 0). f_equal.
  replace (32 - length ds)%nat with (S (31 - length ds)) by lia. cbn [replicate]. f_equal.
  unfold ds. by rewrite fmap_rev.
Qed.

(** ** Items *)
Lemma spent_app n its1 its2 :
  1 <= n → spent n (its1 ++ its2) = spent n its1 ++ spent (n - Z.of_nat (length (spent n its1))) its2.
Proof.
  intros Hn. unfold spent. rewrite filter_app, take_app. f_equal. rewrite length_take.
  destruct (decide (length (filter takes_room its1) <= Z.to_nat (n - 1))%nat).
  - f_equal. lia.
  - replace (Z.to_nat (n - 1) - _)%nat with O by lia.
    replace (Z.to_nat (n - _ - 1)) with O by lia. done.
Qed.

Lemma kept_app n its1 its2 :
  1 <= n → kept n (its1 ++ its2) = kept n its1 ++ kept (n - Z.of_nat (length (spent n its1))) its2.
Proof. intros Hn. unfold kept. by rewrite spent_app, omap_app. Qed.

Lemma counted_app n its1 its2 :
  1 <= n → counted n (its1 ++ its2)
           = counted n its1 + counted (n - Z.of_nat (length (spent n its1))) its2.
Proof. intros Hn. unfold counted. rewrite spent_app by done. rewrite !filter_app, !length_app. lia. Qed.

Lemma spent_length n its : 1 <= n → Z.of_nat (length (spent n its)) <= n - 1.
Proof. intros Hn. unfold spent. rewrite length_take. lia. Qed.

Lemma kept_spent n its : (length (kept n its) <= length (spent n its))%nat.
Proof.
  unfold kept. induction (spent n its) as [|it l IH]; [done|]. cbn. destruct (written it); cbn; lia.
Qed.

Lemma kept_length n its : 1 <= n → Z.of_nat (length (kept n its)) <= n - 1.
Proof. intros Hn. pose proof (kept_spent n its). pose proof (spent_length n its Hn). lia. Qed.

Lemma counted_bounds n its : 0 <= counted n its <= Z.of_nat (length its).
Proof.
  unfold counted, spent. split; [lia|]. generalize (Z.to_nat (n - 1)). intros k.
  enough (length (filter is_char its) + length (filter is_pad (take k (filter takes_room its)))
          <= length its)%nat by lia.
  revert k. induction its as [|it its IH]; intros k; [by destruct k|].
  rewrite !filter_cons. destruct it as [c| |]; cbn [is_char takes_room].
  - rewrite decide_True by done. cbn [length]. destruct (decide (storable c)).
    + destruct k as [|k]; cbn [take].
      * specialize (IH O). rewrite take_0 in IH. lia.
      * rewrite filter_cons, decide_False by (by intros []). specialize (IH k). lia.
    + specialize (IH k). lia.
  - rewrite decide_False by (by intros []). rewrite decide_True by done. cbn [length].
    destruct k as [|k]; cbn [take].
    + specialize (IH O). rewrite take_0 in IH. lia.
    + rewrite filter_cons, decide_True by done. cbn [length]. specialize (IH k). lia.
  - rewrite decide_False by (by intros []). rewrite decide_True by done. cbn [length].
    destruct k as [|k]; cbn [take].
    + specialize (IH O). rewrite take_0 in IH. lia.
    + rewrite filter_cons, decide_False by (by intros []). specialize (IH k). lia.
Qed.

(** Plain characters. *)
Lemma filter_chars cs : filter takes_room (Char <$> cs) = Char <$> filter storable cs.
Proof.
  induction cs as [|c cs IH]; [done|]. rewrite fmap_cons, !filter_cons. cbn [takes_room].
  destruct (decide (storable c)); by rewrite ?fmap_cons, IH.
Qed.

Lemma kept_chars n cs : kept n (Char <$> cs) = take (Z.to_nat (n - 1)) (filter storable cs).
Proof.
  unfold kept, spent. rewrite filter_chars, <-fmap_take. generalize (take (Z.to_nat (n - 1)) (filter storable cs)).
  intros l. induction l as [|c l IH]; cbn; [done|]. by rewrite IH.
Qed.

Lemma counted_chars n cs : counted n (Char <$> cs) = Z.of_nat (length cs).
Proof.
  unfold counted, spent. rewrite filter_chars, <-fmap_take. generalize (take (Z.to_nat (n - 1)) (filter storable cs)).
  intros l. assert (filter is_pad (Char <$> l) = []) as ->
    by (induction l as [|c l IH]; [done|]; by rewrite fmap_cons, filter_cons, decide_False by (by intros [])).
  assert (filter is_char (Char <$> cs) = Char <$> cs) as ->
    by (induction cs as [|c cs IH]; [done|]; by rewrite fmap_cons, filter_cons, decide_True, IH by done).
  rewrite length_fmap. cbn. lia.
Qed.

(** ** The output buffer

    [room o]: the rest of the buffer is there.  [emitted o o' its]: from [o] to [o'] as many
    of the items of [its] have been written as fit before the last byte. *)
Definition room (o : out) : Prop := 1 <= size o ∧ readable (mem o) (str o) (size o).

Definition emitted (o o' : out) (its : list item) : Prop :=
  let ws := kept (size o) its in
  str o' = str o + Z.of_nat (length ws) ∧ size o' = size o - Z.of_nat (length (spent (size o) its)) ∧
  ∀ a, mem o' !! a = if (str o <=? a) && (a <? str o + Z.of_nat (length ws))
                     then ws !! Z.to_nat (a - str o) else mem o !! a.

(** Only the rest of the buffer has changed, and what is left of it is its end. *)
Definition within (o o' : out) : Prop :=
  str o <= str o' ∧ str o' + size o' <= str o + size o ∧
  ∀ a, ¬ str o <= a < str o + size o → mem o' !! a = mem o !! a.

Lemma emitted_room o o' its : room o → emitted o o' its → room o'.
Proof.
  intros [Hs Hr] (Hstr & Hsz & Hm). pose proof (spent_length _ its Hs).
  pose proof (kept_spent (size o) its). split; [lia|].
  intros i Hi. destruct (Hr (str o' - str o + i) ltac:(lia)) as [Hpos Hsome].
  replace (str o + (str o' - str o + i)) with (str o' + i) in * by lia.
  split; [done|]. rewrite Hm. by decide_Z.
Qed.

Lemma emitted_within o o' its : room o → emitted o o' its → within o o'.
Proof.
  intros [Hs Hr] (Hstr & Hsz & Hm). pose proof (kept_length _ its Hs).
  pose proof (kept_spent (size o) its). split_and!; [lia..|].
  intros a Ha. rewrite Hm. destruct (Z.leb_spec (str o) a),
    (Z.ltb_spec a (str o + Z.of_nat (length (kept (size o) its)))); cbn; done || lia.
Qed.

Lemma within_trans o1 o2 o3 : 0 <= size o2 → within o1 o2 → within o2 o3 → within o1 o3.
Proof.
  intros Hs (H1 & H2 & H3) (H4 & H5 & H6). split_and!; [lia..|]. intros a Ha.
  rewrite H6 by lia. apply H3. lia.
Qed.

Lemma emitted_nothing o o' its :
  kept (size o) its = [] → str o' = str o → mem o' = mem o →
  size o' = size o - Z.of_nat (length (spent (size o) its)) → emitted o o' its.
Proof.
  intros E Hs Hm Hz. unfold emitted. rewrite E, Hs, Hm. cbn [length]. split_and!; [lia|done|].
  intros a. change (Z.of_nat 0) with 0. rewrite Z.add_0_r.
  destruct (Z.leb_spec (str o) a), (Z.ltb_spec a (str o)); done || lia.
Qed.

Lemma emitted_nil o : emitted o o [].
Proof.
  apply emitted_nothing; try done; unfold kept, spent; change (filter takes_room []) with (@nil item);
    rewrite take_nil; [done|]. cbn. lia.
Qed.

Lemma emitted_app o1 o2 o3 its1 its2 :
  room o1 → emitted o1 o2 its1 → emitted o2 o3 its2 → emitted o1 o3 (its1 ++ its2).
Proof.
  intros [Hs Hr] (S1 & Z1 & M1) (S2 & Z2 & M2). unfold emitted.
  rewrite kept_app, spent_app, <-Z1, !length_app by done. split_and!; [lia..|]. intros a. rewrite M2, M1, S1.
  set (w1 := kept (size o1) its1). set (w2 := kept (size o2) its2).
  destruct (Z.leb_spec (str o1) a), (Z.ltb_spec a (str o1 + Z.of_nat (length w1)));
    destruct (Z.leb_spec (str o1 + Z.of_nat (length w1)) a),
      (Z.ltb_spec a (str o1 + Z.of_nat (length w1) + Z.of_nat (length w2)));
    destruct (Z.ltb_spec a (str o1 + Z.of_nat (length w1 + length w2))); cbn; try lia; try done.
  - rewrite lookup_app_l by lia. done.
  - rewrite lookup_app_r by lia. f_equal. lia.
Qed.

Lemma insert_char_ok c o :
  room o → ∃ o', insert_char c o = Ok (1, o') ∧ emitted o o' [Char c].
Proof.
  intros [Hs Hr]. unfold insert_char.
  destruct (storable c) eqn:Ec; rewrite ?andb_false_r, ?andb_true_r.
  2: { exists o. split; [done|]. apply emitted_nothing; try done; unfold kept, spent;
         rewrite filter_cons_False by (cbn; rewrite Ec; by intros []);
         change (filter takes_room []) with (@nil item); rewrite take_nil; [done|]. cbn. lia. }
  assert (filter takes_room [Char c] = [Char c]) as Ef by (by rewrite filter_cons_True by (cbn; by rewrite Ec)).
  destruct (Z.ltb_spec 1 (size o)).
  - destruct (Hr 0 ltac:(lia)) as [Hpos [x Hx]]. rewrite Z.add_0_r in Hpos, Hx.
    rewrite (str_store _ _ x) by done. cbn [mbind result_bind mret result_ret]. eexists.
    split; [done|]. unfold emitted, kept, spent. rewrite Ef.
    destruct (Z.to_nat (size o - 1)) as [|k] eqn:Ek; [lia|].
    cbn [take mem str size]. rewrite take_nil. cbn [omap list_omap written length]. change (Z.of_nat 1) with 1.
    split_and!; [lia..|]. intros a. destruct (decide (a = str o)) as [->|].
    + rewrite lookup_insert_eq, Z.sub_diag. by decide_Z.
    + rewrite lookup_insert_ne by done.
      destruct (Z.leb_spec (str o) a), (Z.ltb_spec a (str o + 1)); cbn [andb]; done || lia.
  - exists o. split; [done|]. apply emitted_nothing; try done; unfold kept, spent;
      replace (Z.to_nat (size o - 1)) with O by lia; rewrite take_0; [done|]. cbn. lia.
Qed.

(** ** Inserting strings and numbers *)

(** [read] sees the characters [cs] and a nul at [value], whatever is written to what is
    left of the buffer. *)
Definition visible (read : gmap Z Z → Z → result Z) (value : Z) (cs : list Z) (o : out) : Prop :=
  ∀ o', within o o' → ∀ k c, (cs ++ [0]) !! k = Some c → read (mem o') (value + Z.of_nat k) = Ok c.

Lemma visible_within read value cs o o' :
  0 <= size o' → within o o' → visible read value cs o → visible read value cs o'.
Proof. intros Hs Hw H o2 Hw2. apply H. by eapply within_trans. Qed.

Lemma visible_cons read value c cs o :
  visible read value (c :: cs) o → visible read (value + 1) cs o.
Proof.
  intros H o' Hw k d Hd. replace (value + 1 + Z.of_nat k) with (value + Z.of_nat (S k)) by lia.
  by apply H.
Qed.

Lemma within_refl o : within o o.
Proof. split_and!; done || lia. Qed.

Lemma insert_loop_ok fuel read value cs i o :
  room o → visible read value cs o → Forall (λ c, c ≠ 0) cs → (length cs < fuel)%nat →
  0 <= i → i + Z.of_nat (length cs) < 2 ^ W →
  ∃ o', insert_loop fuel read value i o = Ok (i + Z.of_nat (length cs), o') ∧ emitted o o' (Char <$> cs).
Proof.
  intros Hroom Hvis Hnz. revert fuel value i o Hroom Hvis.
  induction Hnz as [|c cs Hc Hnz IH]; intros [|fuel] value i o Hroom Hvis Hf Hi HW;
    cbn [length] in *; try lia; cbn [insert_loop];
    pose proof (Hvis o (within_refl o) O _ eq_refl) as Hread; rewrite Z.add_0_r in Hread;
    cbn in Hread; rewrite Hread; cbn [mbind result_bind].
  - exists o. cbn. rewrite Z.add_0_r. split; [done|]. apply emitted_nil.
  - rewrite (proj2 (Z.eqb_neq _ _) Hc). destruct (insert_char_ok c o Hroom) as (o1 & -> & H1).
    cbn [mbind result_bind]. rewrite uwrap_small by (split; lia).
    pose proof (emitted_room _ _ _ Hroom H1) as Hroom1.
    destruct (IH fuel (value + 1) (i + 1) o1) as (o2 & -> & H2); [done| |lia|lia|lia|].
    { eapply visible_within; [by destruct Hroom1; lia|by apply (emitted_within o o1 [Char c])|].
      by eapply visible_cons. }
    exists o2. split; [do 2 f_equal; lia|]. by apply (emitted_app o o1 o2 [Char c]).
Qed.

Lemma insert_local_ok cs rest o :
  room o → Forall (λ c, c ≠ 0) cs → Z.of_nat (length cs) < 2 ^ W →
  ∃ o', insert_local (cs ++ 0 :: rest) o = Ok (Z.of_nat (length cs), o') ∧ emitted o o' (Char <$> cs).
Proof.
  intros Hroom Hnz HW. unfold insert_local.
  apply (insert_loop_ok _ _ 0 cs 0); try done; try lia.
  - intros o' _ k c Hk. unfold get. decide_Z. replace (Z.to_nat (0 + Z.of_nat k)) with k by lia.
    replace (cs ++ 0 :: rest) with ((cs ++ [0]) ++ rest) by by rewrite <-app_assoc.
    by rewrite (lookup_app_l_Some _ _ _ _ Hk).
  - rewrite length_app. cbn. lia.
Qed.

Lemma insert_digits_ok base n digits o :
  32 <= W → table digits base → 10 <= base → 0 <= n < 2 ^ 32 → room o →
  ∃ o', insert_uint n base digits o = Ok (Z.of_nat (length (numeral base n digits)), o') ∧
        emitted o o' (Char <$> numeral base n digits).
Proof.
  intros HW Ht Hb Hn Hroom. unfold insert_uint.
  destruct (format_digits_ok base n digits Ht Hb Hn) as (rest & ->).
  destruct (numeral_ok base n digits Ht Hb Hn) as (_ & Hlen & Hf & _).
  apply insert_local_ok; [done| |].
  - eapply Forall_impl; [exact Hf|]. by intros c [_ ?].
  - apply Z.le_lt_trans with 10; [lia|]. apply Z.lt_le_trans with (2 ^ 32); [done|].
    apply Z.pow_le_mono_r; lia.
Qed.

Lemma insert_int_ok x o :
  32 <= W → - 2 ^ 31 <= x < 2 ^ 31 → room o →
  ∃ o', insert_int x 10 digits_lower o = Ok (Z.of_nat (length (int_chars x)), o') ∧
        emitted o o' (Char <$> int_chars x).
Proof.
  intros HW Hx Hroom. unfold insert_int, int_chars.
  assert (2 ^ 32 <= 2 ^ W) as HW2 by (apply Z.pow_le_mono_r; lia).
  destruct (Z.eqb_spec x (- 2 ^ 31)) as [->|Hmin].
  { destruct (insert_char_ok 45 o Hroom) as (o1 & E1 & H1). change (- 2 ^ 31 <? 0) with true.
    cbv iota. rewrite E1. cbn [mbind result_bind mret result_ret].
    change (format_digits (swrap 32 (- - 2 ^ 31)) 10 digits_lower) with (Ok new_tmp).
    cbn [mbind result_bind]. change new_tmp with ([] ++ 0 :: replicate 31 0).
    destruct (insert_local_ok [] (replicate 31 0) o1) as (o2 & -> & H2);
      [by eapply emitted_room|constructor|cbn; lia|].
    exists o2. cbn [mbind result_bind mret result_ret length].
    rewrite uwrap_small by (split; lia). split; [done|]. by apply (emitted_app o o1 o2 [Char 45] []). }
  destruct (Z.ltb_spec x 0).
  - destruct (insert_char_ok 45 o Hroom) as (o1 & -> & H1). cbn [mbind result_bind mret result_ret].
    rewrite swrap_small by lia.
    destruct (insert_digits_ok 10 (- x) digits_lower o1) as (o2 & E2 & H2);
      [done|apply table_lower_10|done|lia|by eapply emitted_room|].
    destruct (numeral_ok 10 (- x) digits_lower) as (_ & Hlen & _); [apply table_lower_10|lia..|].
    unfold insert_uint in E2. destruct (format_digits _ _ _); [|done]. cbn [mbind result_bind] in *.
    rewrite E2. cbn [mbind result_bind mret result_ret length].
    rewrite uwrap_small by (split; lia). exists o2. split; [do 2 f_equal; lia|].
    by apply (emitted_app o o1 o2 [Char 45]).
  - cbn [mbind result_bind mret result_ret].
    destruct (insert_digits_ok 10 x digits_lower o) as (o2 & E2 & H2);
      [done|apply table_lower_10|done|lia|done|].
    destruct (numeral_ok 10 x digits_lower) as (_ & Hlen & _); [apply table_lower_10|lia..|].
    unfold insert_uint in E2. destruct (format_digits _ _ _); [|done]. cbn [mbind result_bind] in *.
    rewrite E2. cbn [mbind result_bind mret result_ret].
    rewrite uwrap_small by (split; lia). exists o2. split; [do 2 f_equal; lia|done].
Qed.

(** ** The format loop *)
Section Format.
Context (HW : W = 32 ∨ W = 64) (strs : Z → option (list Z)).

(** The strings of the specification stay in place whatever is written to the buffer. *)
Definition strings_visible (o : out) : Prop :=
  ∀ o' p cs, within o o' → strs p = Some cs → cstr (mem o') p cs.

Lemma strings_within o o' :
  0 <= size o' → within o o' → strings_visible o → strings_visible o'.
Proof. intros Hs Hw H o2 p cs Hw2. apply H. by eapply within_trans. Qed.

Lemma cstr_lookup m s cs k c :
  cstr m s cs → (cs ++ [0]) !! k = Some c → load m (s + Z.of_nat k) = Ok c.
Proof.
  revert s k. induction cs as [|x cs IH]; intros s k Hcs Hk.
  - destruct k as [|[|k]]; [|done..]. injection Hk as <-. rewrite Z.add_0_r.
    destruct Hcs as [Hs Hm]. by apply str_load.
  - destruct Hcs as (Hs & _ & Hm & Hcs). destruct k as [|k].
    + injection Hk as <-. rewrite Z.add_0_r. by apply str_load.
    + replace (s + Z.of_nat (S k)) with (s + 1 + Z.of_nat k) by lia. by apply IH.
Qed.

Lemma insert_string_ok p cs o :
  room o → strings_visible o → p ≠ 0 → strs p = Some cs → Z.of_nat (length cs) < 2 ^ W →
  ∃ o', insert_string p o = Ok (Z.of_nat (length cs), o') ∧ emitted o o' (Char <$> cs).
Proof.
  intros Hroom Hvis Hp Hs HL. unfold insert_string. rewrite (proj2 (Z.eqb_neq _ _) Hp).
  pose proof (Hvis o p cs (within_refl o) Hs) as Hcs.
  apply (insert_loop_ok _ _ p cs 0); try done; try lia.
  - intros o' Hw k c Hk. eapply cstr_lookup; [by eapply Hvis|done].
  - by eapply cstr_nonzero.
  - unfold fuel_for. pose proof (cstr_fuel _ _ _ Hcs). lia.
Qed.

Lemma uwrap_32_range x : 0 <= uwrap 32 x < 2 ^ 32.
Proof. apply Z.mod_pos_bound. done. Qed.

Lemma swrap_32_range x : - 2 ^ 31 <= swrap 32 x < 2 ^ 31.
Proof.
  unfold swrap. change (32 - 1) with 31. pose proof (Z.mod_pos_bound (x + 2 ^ 31) (2 ^ 32)). lia.
Qed.

Lemma filter_replicate_true (P : item → bool) z x : P x = true → filter P (replicate z x) = replicate z x.
Proof. intros H. induction z as [|z IH]; [done|]. cbn [replicate]. by rewrite filter_cons_True, IH by by rewrite H. Qed.

Lemma filter_none (P : item → bool) its : Forall (λ x, P x = false) its → filter P its = [].
Proof. induction 1 as [|x its H _ IH]; [done|]. by rewrite filter_cons_False by (rewrite H; by intros []). Qed.

Lemma spent_pads n z : 1 <= n → spent n (replicate z Pad) = replicate (z `min` Z.to_nat (n - 1)) Pad.
Proof. intros Hn. unfold spent. rewrite filter_replicate_true, take_replicate by done. f_equal. lia. Qed.

Lemma emitted_pads o z :
  room o → emitted o (mk (mem o) (str o) (size o - Z.min (Z.of_nat z) (size o - 1))) (replicate z Pad).
Proof.
  intros [Hs _]. apply emitted_nothing; try done.
  - unfold kept. rewrite spent_pads by done. generalize (z `min` Z.to_nat (size o - 1))%nat as k. intros k.
    by induction k as [|k IH].
  - cbn [size]. rewrite spent_pads, length_replicate by done. lia.
Qed.

Lemma counted_pads n z : 1 <= n → counted n (replicate z Pad) = Z.min (Z.of_nat z) (n - 1).
Proof.
  intros Hn. unfold counted. rewrite spent_pads, filter_none by (done || by apply Forall_replicate).
  rewrite filter_replicate_true, length_replicate by done. cbn. lia.
Qed.

Lemma counted_zeros n z cs : counted n (replicate z Zero ++ (Char <$> cs)) = Z.of_nat (length cs).
Proof.
  unfold counted. rewrite filter_app, (filter_none _ (replicate z Zero)) by by apply Forall_replicate.
  rewrite (filter_none is_pad).
  - rewrite <-(counted_chars 0 cs). unfold counted. cbn [app length]. by f_equal.
  - apply Forall_take, Forall_forall. intros x [_ Hx]%list_elem_of_filter. apply elem_of_app in Hx as [Hx|Hx].
    + by apply elem_of_replicate in Hx as [-> _].
    + by apply list_elem_of_fmap in Hx as (c & -> & _).
Qed.

Definition alike (x y : item) : Prop := takes_room x = takes_room y ∧ written x = written y.

Lemma items_alike n xs ys :
  Forall2 alike xs ys → kept n xs = kept n ys ∧ length (spent n xs) = length (spent n ys).
Proof.
  unfold kept, spent. generalize (Z.to_nat (n - 1)) as k. intros k H. revert k.
  induction H as [|x y xs ys [Ht Hw] _ IH]; intros k; [done|]. rewrite !filter_cons.
  destruct (decide (takes_room x)), (decide (takes_room y)); try congruence; [|apply IH].
  destruct k as [|k]; [done|]. cbn. destruct (IH k) as [-> ->]. by rewrite Hw.
Qed.

(** The zeros: as many as were taken from the room, or none where it is used up. *)
Lemma emitted_zeros o o' z z' cs :
  room o → z' = z ∨ size o = 1 → emitted o o' (Char <$> replicate z' 48 ++ cs) →
  emitted o o' (replicate z Zero ++ (Char <$> cs)).
Proof.
  intros [Hs _] Hz H. assert (kept (size o) (replicate z Zero ++ (Char <$> cs))
    = kept (size o) (Char <$> replicate z' 48 ++ cs) ∧
    length (spent (size o) (replicate z Zero ++ (Char <$> cs)))
    = length (spent (size o) (Char <$> replicate z' 48 ++ cs))) as [E1 E2].
  { destruct Hz as [->|Hz]; [|unfold kept, spent; rewrite Hz; by rewrite !take_0].
    rewrite fmap_app. apply items_alike, Forall2_app.
    - rewrite fmap_replicate. by apply Forall2_replicate.
    - by apply Forall_Forall2_diag, Forall_forall. }
  unfold emitted in *. by rewrite E1, E2.
Qed.

Lemma pad_loop_ok c p r sz :
  1 <= sz → (c <= r)%nat →
  let k := Z.min (Z.of_nat c) (sz - 1) in
  pad_loop c (p ++ replicate r 0) (Z.of_nat (length p)) sz
  = Ok (p ++ replicate (Z.to_nat k) 48 ++ replicate (r - Z.to_nat k) 0, Z.of_nat (length p) + k, sz - k).
Proof.
  revert p r sz. induction c as [|c IH]; intros p r sz Hs Hc k.
  { subst k. rewrite Z.min_l by lia. cbn. by rewrite Nat.sub_0_r, Z.add_0_r, Z.sub_0_r. }
  cbn [pad_loop]. destruct (Z.ltb_spec 1 sz).
  - destruct r as [|r]; [lia|]. cbn [replicate]. rewrite put_app. cbn [mbind result_bind].
    replace (p ++ 48 :: replicate r 0) with ((p ++ [48]) ++ replicate r 0) by by rewrite <-app_assoc.
    replace (Z.of_nat (length p) + 1) with (Z.of_nat (length (p ++ [48]))) by (rewrite length_app; cbn; lia).
    rewrite IH by lia. subst k. rewrite <-app_assoc, length_app. cbn [length app].
    replace (Z.min (Z.of_nat (S c)) (sz - 1)) with (1 + Z.min (Z.of_nat c) (sz - 1 - 1)) by lia.
    set (K := Z.min (Z.of_nat c) (sz - 1 - 1)). replace (Z.to_nat (1 + K)) with (S (Z.to_nat K)) by lia.
    cbn [replicate app Nat.sub]. replace (sz - 1 - K) with (sz - (1 + K)) by lia.
    by replace (Z.of_nat (length p + 1) + K) with (Z.of_nat (length p) + (1 + K)) by lia.
  - rewrite IH by lia. subst k. by replace (Z.min (Z.of_nat c) (sz - 1)) with (Z.min (Z.of_nat (S c)) (sz - 1)) by lia.
Qed.

Lemma insert_pointer_ok x o :
  0 <= x < 2 ^ W → room o →
  ∃ o', insert_pointer x o = Ok (counted (size o) (pointer_items x), o') ∧ emitted o o' (pointer_items x).
Proof.
  intros Hx Hroom. unfold insert_pointer. set (n := Z.to_nat (W / 4)).
  assert (2 ^ W = 16 ^ Z.of_nat n ∧ (n <= 16)%nat ∧ Z.of_nat n = W / 8 * 2 ∧ 2 ^ 6 < 2 ^ W) as (En & Hn & Ew & H6)
    by (subst n; destruct HW as [E|E]; rewrite E; split_and!; try done; vm_compute; lia).
  change [48; 120; 0] with ([48; 120] ++ 0 :: []).
  destruct (insert_local_ok [48; 120] [] o) as (o1 & -> & H1); [done|by repeat constructor|cbn; lia|].
  pose proof (emitted_room _ _ _ Hroom H1) as Hroom1. cbn [mbind result_bind].
  destruct table_lower_16 as [_ Ht].
  pose proof (digits_loop_ok 64 16 digits_lower [] n x 32 ltac:(lia) (λ d Hd, proj1 (Ht d Hd)) ltac:(lia)
    ltac:(lia) ltac:(lia)) as E. cbv zeta in E. cbn [app] in E. change (Z.of_nat (length [])) with 0 in E.
  unfold new_tmp. rewrite E. clear E. cbn [mbind result_bind].
  set (ds := digit digits_lower <$> lsd 16 n x).
  assert (length ds <= n)%nat as Hds by (unfold ds; rewrite length_fmap; apply lsd_length).
  replace (Z.to_nat (W / 8 * 2 - (0 + Z.of_nat (length ds)))) with (n - length ds)%nat by lia.
  set (z := (n - length ds)%nat). destruct Hroom1 as [Hs1 Hr1].
  rewrite Z.add_0_l, pad_loop_ok by lia. cbn [mbind result_bind].
  set (k := Z.min (Z.of_nat z) (size o1 - 1)).
  assert (∃ rest, reverse (ds ++ replicate (Z.to_nat k) 48 ++ replicate (32 - length ds - Z.to_nat k) 0) 0
    (Z.of_nat (length ds) + k - 1) = Ok ((replicate (Z.to_nat k) 48 ++ pointer_digits x) ++ 0 :: rest)) as [rest ->].
  { exists (replicate (31 - length ds - Z.to_nat k) 0). unfold reverse.
    pose proof (reverse_loop_ok 32 [] (ds ++ replicate (Z.to_nat k) 48)
      (replicate (32 - length ds - Z.to_nat k) 0)) as Er.
    rewrite length_app, length_replicate in Er. specialize (Er ltac:(lia)). cbn [app length] in Er.
    change (Z.of_nat 0) with 0 in Er. rewrite <-app_assoc in Er.
    replace (length (ds ++ _)) with 32%nat by (rewrite !length_app, !length_replicate; lia).
    replace (Z.of_nat (length ds) + k - 1) with (0 + Z.of_nat (length ds + Z.to_nat k) - 1) by lia. rewrite Er.
    rewrite rev_app_distr, (rev_alt (replicate _ _)), <-!app_assoc.
    change (rev_append (replicate (Z.to_nat k) 48) []) with (list.reverse (replicate (Z.to_nat k) 48)).
    rewrite reverse_replicate. unfold pointer_digits. fold n. rewrite fmap_rev. fold ds.
    by replace (32 - length ds - Z.to_nat k)%nat with (S (31 - length ds - Z.to_nat k)) by lia. }
  cbn [mbind result_bind]. set (op := mk (mem o1) (str o1) (size o1 - k)).
  assert (emitted o1 op (replicate z Pad)) as Hp by (by apply emitted_pads).
  pose proof (emitted_room _ _ _ (conj Hs1 Hr1) Hp) as Hroomp.
  assert (length (pointer_digits x) = length ds) as Hlen
    by (unfold pointer_digits, ds; by rewrite !length_fmap, length_rev).
  destruct (insert_local_ok (replicate (Z.to_nat k) 48 ++ pointer_digits x) rest op) as (o2 & -> & H2).
  { done. }
  { apply Forall_app. split; [by apply Forall_replicate|]. apply Forall_fmap, Forall_rev.
    eapply Forall_impl; [by apply lsd_range|]. intros d Hd. by destruct (Ht d Hd) as (_ & ? & _). }
  { rewrite length_app, length_replicate. lia. }
  apply (emitted_zeros op o2 z) in H2; [|done|unfold op; cbn [size]; lia].
  exists o2. cbn [mbind result_bind mret result_ret]. split.
  - rewrite uwrap_small by (unfold fits; rewrite length_app, length_replicate; cbn [length]; lia). do 2 f_equal.
    unfold pointer_items. fold n z. replace (n - length (pointer_digits x))%nat with z by (subst z; lia).
    destruct Hroom as [Hs _], H1 as (_ & E1 & _), Hp as (_ & Ep & _).
    change [Char 48; Char 120] with (Char <$> [48; 120]). rewrite counted_app, <-E1 by lia.
    rewrite counted_app, <-Ep, counted_pads, counted_zeros by lia. rewrite counted_chars, length_app, length_replicate.
    cbn [length]. lia.
  - unfold pointer_items. fold n. replace (n - length (pointer_digits x))%nat with z by (subst z; lia).
    apply (emitted_app o o1 o2); [done|done|]. by apply (emitted_app o1 op o2).
Qed.

Lemma convert_chars o o' n cs (args : list Z) (ins : out → result (Z * out)) :
  ins o = Ok (Z.of_nat (length cs), o') → emitted o o' (Char <$> cs) → n = counted (size o) (Char <$> cs) →
  ∃ o', (r ← ins o; mret (r, args)) = Ok (n, o', args) ∧ emitted o o' (Char <$> cs).
Proof. intros E H ->. rewrite E, counted_chars. by exists o'. Qed.

Lemma convert_ok c args its args' o :
  room o → strings_visible o → conversion_items strs c args = Some (its, args') →
  Z.of_nat (length its) < 2 ^ W →
  ∃ o', convert c args o = Ok (counted (size o) its, o', args') ∧ emitted o o' its.
Proof.
  intros Hroom Hvis Hc HL. unfold conversion_items in Hc. unfold convert.
  pose proof table_lower_10 as T10. pose proof table_lower_16 as T16.
  pose proof table_upper_16 as TU. assert (32 <= W) as HW' by lia.
  destruct (bool_decide_reflect (c ∈ [100; 117; 120; 88; 112; 115; 99])) as [Hin|Hin].
  - destruct args as [|x args]; [done|]. cbn [va_arg].
    rewrite !elem_of_cons, elem_of_nil in Hin.
    destruct Hin as [->|[->|[->|[->|[->|[->|[->|[]]]]]]]]; cbn [Z.eqb Pos.eqb] in Hc |- *;
      cbn [mbind result_bind mret result_ret].
    + simplify_eq/=. destruct (insert_int_ok (swrap 32 x) o) as (o' & E & ?);
        [done|apply swrap_32_range|done|]. by eapply convert_chars.
    + simplify_eq/=. destruct (insert_digits_ok 10 (uwrap 32 x) digits_lower o)
        as (o' & E & ?); [done..|apply uwrap_32_range|done|]. by eapply convert_chars.
    + simplify_eq/=. destruct (insert_digits_ok 16 (uwrap 32 x) digits_lower o)
        as (o' & E & ?); [done..|apply uwrap_32_range|done|]. by eapply convert_chars.
    + simplify_eq/=. destruct (insert_digits_ok 16 (uwrap 32 x) digits_upper o)
        as (o' & E & ?); [done..|apply uwrap_32_range|done|]. by eapply convert_chars.
    + simplify_eq/=. destruct (insert_pointer_ok (uwrap W x) o) as (o' & -> & ?);
        [|done|by exists o']. apply Z.mod_pos_bound. destruct HW as [-> | ->]; done.
    + destruct (Z.eqb_spec x 0) as [->|Hx].
      * simplify_eq/=. unfold insert_string. cbn [Z.eqb].
        change null_string with ([40; 110; 117; 108; 108; 41] ++ 0 :: []).
        destruct (insert_local_ok [40; 110; 117; 108; 108; 41] [] o) as (o' & E & ?);
          [done|by repeat constructor|cbn in *; lia|].
        eapply (convert_chars o o' _ [40; 110; 117; 108; 108; 41]); done.
      * destruct (strs x) as [cs'|] eqn:Es; simplify_eq/=. rewrite length_fmap in HL.
        destruct (insert_string_ok x cs' o) as (o' & E & ?); [done..|]. by eapply convert_chars.
    + simplify_eq/=. destruct (insert_char_ok (swrap 8 x) o) as (o' & E & ?); [done|].
      by eapply (convert_chars o o' _ [swrap 8 x]).
  - rewrite !elem_of_cons, elem_of_nil in Hin. simplify_eq. decide_Z.
    destruct (insert_char_ok c o) as (o' & E & ?); [done|]. by eapply (convert_chars o o' _ [c]).
Qed.

Lemma format_loop_ok fuel fs fmt percent args i o its :
  room o → strings_visible o → visible load fmt fs o → Forall (λ c, c ≠ 0) fs →
  expand strs fs percent args = Some its → (length fs < fuel)%nat →
  0 <= i → i + Z.of_nat (length its) < 2 ^ W →
  ∃ o1 o2, format_loop fuel fmt percent args i o = Ok (i + counted (size o) its, o2) ∧
    emitted o o1 its ∧ mem o2 = <[str o1 := 0]> (mem o1).
Proof.
  intros Hroom Hstr Hvis Hnz. revert fuel fmt percent args i o its Hroom Hstr Hvis.
  induction Hnz as [|c fs Hc Hnz IH]; intros [|fuel] fmt percent args i o its Hroom Hstr Hvis He Hf Hi HL;
    cbn [length] in Hf; try lia; cbn [expand] in He; cbn [format_loop];
    pose proof (Hvis o (within_refl o) O _ eq_refl) as Hread; rewrite Z.add_0_r in Hread;
    cbn in Hread; rewrite Hread; cbn [mbind result_bind].
  { injection He as <-. destruct Hroom as [Hs Hr]. cbn [Z.eqb]. decide_Z.
    destruct (Hr 0 ltac:(lia)) as [Hpos [x Hx]]. rewrite Z.add_0_r in Hpos, Hx.
    rewrite (str_store _ _ x) by done. cbn [mbind result_bind mret result_ret length].
    exists o. eexists. change [] with (Char <$> []) at 1. rewrite counted_chars, Z.add_0_r.
    split; [done|]. split; [apply emitted_nil|done]. }
  rewrite (proj2 (Z.eqb_neq _ _) Hc).
  assert (∀ i' o1 its1 its2 pct args', emitted o o1 its1 → i' = i + counted (size o) its1 →
    its = its1 ++ its2 → expand strs fs pct args' = Some its2 →
    ∃ o2 o3, format_loop fuel (fmt + 1) pct args' i' o1 = Ok (i + counted (size o) its, o3) ∧
      emitted o o2 its ∧ mem o3 = <[str o2 := 0]> (mem o2)) as Hnext.
  { intros i' o1 its1 its2 pct args' H1 -> -> He2. rewrite length_app in HL.
    pose proof (emitted_room _ _ _ Hroom H1) as Hroom1. pose proof (counted_bounds (size o) its1).
    pose proof (emitted_within _ _ _ Hroom H1) as Hw. pose proof H1 as (_ & Ez & _).
    destruct (IH fuel (fmt + 1) pct args' (i + counted (size o) its1) o1 its2)
      as (o2 & o3 & -> & H2 & H3); [done| | |done|lia|lia|lia|].
    - eapply strings_within; [|done|done]. destruct Hroom1. lia.
    - eapply visible_within; [|done|by eapply visible_cons]. destruct Hroom1. lia.
    - exists o2, o3. rewrite counted_app, <-Ez, Z.add_assoc by by destruct Hroom.
      split; [done|]. split; [|done]. by eapply emitted_app. }
  destruct percent; cbn [negb].
  - destruct (conversion_items strs c args) as [[its1 args']|] eqn:Ec; [|done].
    destruct (expand strs fs false args') as [its2|] eqn:E2; [|done]. injection He as <-.
    rewrite length_app in HL. pose proof (counted_bounds (size o) its1).
    destruct (convert_ok c args its1 args' o) as (o1 & -> & H1); [done..|lia|].
    cbn [mbind result_bind]. rewrite uwrap_small by (split; lia). by eapply Hnext.
  - destruct (Z.eqb_spec c 37) as [->|].
    + eapply (Hnext i o [] its); [apply emitted_nil| |done|done].
      change [] with (Char <$> []). rewrite counted_chars. cbn. lia.
    + destruct (expand strs fs false args) as [its2|] eqn:E2; [|done]. injection He as <-.
      cbn [length] in HL. destruct (insert_char_ok c o Hroom) as (o1 & -> & H1).
      cbn [mbind result_bind]. rewrite uwrap_small by (split; lia).
      apply (Hnext (i + 1) o1 [Char c] its2); [done| |done|done].
      change [Char c] with (Char <$> [c]). by rewrite counted_chars.
Qed.

End Format.

(** ** vsnprintf as a whole *)

(** The string [cs] at [s] does not meet the buffer. *)
Definition apart (s : Z) cs (buf size : Z) : Prop :=
  s + Z.of_nat (length cs) < buf ∨ buf + size <= s.

Lemma cstr_intro m s cs :
  0 < s → Forall (λ c, c ≠ 0) cs →
  (∀ k c, (cs ++ [0]) !! k = Some c → m !! (s + Z.of_nat k) = Some c) → cstr m s cs.
Proof.
  intros Hs Hnz. revert s Hs. induction Hnz as [|c cs Hc Hnz IH]; intros s Hs Hm; cbn [cstr].
  - split; [done|]. specialize (Hm O 0 eq_refl). by rewrite Z.add_0_r in Hm.
  - pose proof (Hm O c eq_refl) as H0. rewrite Z.add_0_r in H0. split_and!; [done..|].
    apply IH; [lia|]. intros k d Hk. replace (s + 1 + Z.of_nat k) with (s + Z.of_nat (S k)) by lia.
    by apply Hm.
Qed.

Lemma apart_visible m s cs o :
  mem o = m → cstr m s cs → apart s cs (str o) (size o) →
  ∀ o', within o o' → cstr (mem o') s cs.
Proof.
  intros <- Hcs Hap o' (_ & _ & Hw). eapply cstr_frame; [|exact Hcs].
  intros a Ha. apply Hw. unfold apart in Hap. lia.
Qed.

Lemma kept_nonzero n its : Forall (λ c, c ≠ 0) (kept n its).
Proof.
  unfold kept, spent. apply Forall_forall. intros c (it & Hit & Hc)%list_elem_of_omap ->.
  apply elem_of_take in Hit as (i & Hit & _). apply list_elem_of_lookup_2, list_elem_of_filter in Hit as [Hit _].
  destruct it; cbn in Hc; simplify_eq. by vm_compute in Hit.
Qed.

Lemma vsnprintf_ok m buf sz fmt fs args strs its :
  W = 32 ∨ W = 64 → 1 <= sz → readable m buf sz → cstr m fmt fs → apart fmt fs buf sz →
  (∀ p cs, strs p = Some cs → cstr m p cs ∧ apart p cs buf sz) →
  expand strs fs false args = Some its → Z.of_nat (length its) < 2 ^ 31 →
  ∃ m', vsnprintf m buf sz fmt args = Ok (m', counted sz its) ∧
    cstr m' buf (kept sz its) ∧
    ∀ a, ¬ buf <= a <= buf + Z.of_nat (length (kept sz its)) → m' !! a = m !! a.
Proof.
  intros HW Hsz Hr Hfmt Hap Hstrs He HL.
  assert (2 ^ 32 <= 2 ^ W) by (apply Z.pow_le_mono_r; lia). pose proof (counted_bounds sz its) as Hcb.
  destruct (Hr 0 ltac:(lia)) as [Hbuf _]. rewrite Z.add_0_r in Hbuf.
  pose proof (cstr_positive _ _ _ Hfmt). unfold vsnprintf. decide_Z.
  destruct (format_loop_ok HW strs (fuel_for m) fs fmt false args 0 (mk m buf sz) its)
    as (o1 & o2 & -> & (H1 & H2 & H3) & Hm2).
  - by split.
  - intros o' p cs' Hw Hp. destruct (Hstrs p cs' Hp). by eapply (apart_visible m _ _ (mk m buf sz)).
  - intros o' Hw k c Hk. eapply cstr_lookup; [|done].
    by eapply (apart_visible m _ _ (mk m buf sz)).
  - by eapply cstr_nonzero.
  - done.
  - unfold fuel_for. pose proof (cstr_fuel _ _ _ Hfmt). lia.
  - lia.
  - lia.
  - cbn [str size mem] in H1, H2, H3. pose proof (kept_length sz its Hsz) as Hk.
    cbn [mbind result_bind mret result_ret]. exists (mem o2).
    cbn [size]. rewrite Z.add_0_l, swrap_small by (cbn; lia). split; [done|]. split.
    + apply cstr_intro; [done|apply kept_nonzero|]. intros k c Hkc. rewrite Hm2, H1.
      destruct (decide (k < length (kept sz its))%nat) as [Hlt|Hge].
      * rewrite lookup_insert_ne by lia. rewrite H3. decide_Z.
        rewrite lookup_app_l in Hkc by done. rewrite <-Hkc. f_equal. lia.
      * pose proof (lookup_lt_Some _ _ _ Hkc) as Hlt. rewrite length_app in Hlt. cbn in Hlt.
        assert (k = length (kept sz its)) as -> by lia.
        rewrite list_lookup_middle in Hkc by done. injection Hkc as <-.
        by rewrite lookup_insert_eq.
    + intros a Ha. rewrite Hm2, H1, lookup_insert_ne, H3 by lia.
      destruct (Z.leb_spec buf a), (Z.ltb_spec a (buf + Z.of_nat (length (kept sz its))));
        cbn [andb]; done || lia.
Qed.

(** ** With room for everything *)
Definition text (its : list item) : list Z := omap written its.

Definition balanced (its : list item) : Prop :=
  Z.of_nat (length (filter is_char its)) + Z.of_nat (length (filter is_pad its)) = Z.of_nat (length (text its)).

Lemma balanced_app its1 its2 : balanced its1 → balanced its2 → balanced (its1 ++ its2).
Proof. unfold balanced, text. rewrite !filter_app, omap_app, !length_app. lia. Qed.

Lemma text_chars cs : text (Char <$> cs) = cs.
Proof. unfold text. induction cs as [|c cs IH]; [done|]. cbn. by f_equal. Qed.

Lemma balanced_chars cs : balanced (Char <$> cs).
Proof.
  unfold balanced. rewrite text_chars, <-(counted_chars 0 cs). unfold counted. f_equal.
  rewrite filter_none; [done|]. by apply Forall_fmap, Forall_forall.
Qed.

Lemma balanced_pointer x : balanced (pointer_items x).
Proof.
  unfold pointer_items. apply (balanced_app [Char 48; Char 120]); [done|].
  set (z := (_ - _)%nat). rewrite app_assoc. apply balanced_app, balanced_chars.
  clearbody z. unfold balanced, text. rewrite !filter_app, omap_app, !length_app.
  rewrite (filter_none is_char), (filter_none is_char), (filter_none is_pad (replicate z Zero))
    by by apply Forall_replicate.
  rewrite filter_replicate_true, length_replicate by done.
  assert (omap written (replicate z Pad) = []) as -> by (by induction z).
  assert (omap written (replicate z Zero) = replicate z 48) as ->
    by (induction z as [|z IH]; [done|]; cbn; by f_equal).
  rewrite length_replicate. cbn. lia.
Qed.

Lemma expand_balanced strs fs percent args its : expand strs fs percent args = Some its → balanced its.
Proof.
  revert percent args its. induction fs as [|c fs IH]; intros percent args its E; cbn [expand] in E.
  { by injection E as <-. }
  assert (∀ its1 pct args', balanced its1 → app its1 <$> expand strs fs pct args' = Some its → balanced its) as Hcons.
  { intros its1 pct args' H1 E'. destruct (expand strs fs pct args') as [its2|] eqn:E2; [|done].
    injection E' as <-. apply balanced_app; [done|]. by eapply IH. }
  destruct percent.
  - destruct (conversion_items strs c args) as [[its1 args']|] eqn:Ec; [|done]. eapply Hcons, E.
    unfold conversion_items in Ec. case_bool_decide; [|injection Ec as <- <-; by apply (balanced_chars [c])].
    destruct args as [|x args]; [done|]. destruct (c =? 112).
    + injection Ec as <- <-. apply balanced_pointer.
    + destruct (if c =? 100 then _ else _) as [cs|]; [|done]. injection Ec as <- <-. apply balanced_chars.
  - destruct (c =? 37); [by eapply IH|]. apply (Hcons [Char c] false args); [by apply (balanced_chars [c])|done].
Qed.

Lemma filter_text its : omap written (filter takes_room its) = filter storable (text its).
Proof.
  unfold text. induction its as [|it its IH]; [done|]. rewrite filter_cons. destruct it as [c| |]; cbn [takes_room].
  - change (omap written (Char c :: its)) with (c :: omap written its). rewrite filter_cons.
    destruct (decide (storable c)); [|done]. change (c :: omap written (filter takes_room its) =
      c :: filter storable (omap written its)). by f_equal.
  - rewrite decide_True by done. exact IH.
  - rewrite decide_True by done. change (omap written (Zero :: its)) with (48 :: omap written its).
    rewrite filter_cons, decide_True by done. change (48 :: omap written (filter takes_room its) =
      48 :: filter storable (omap written its)). by f_equal.
Qed.

Lemma filter_pads (its : list item) : filter is_pad (filter takes_room its) = filter is_pad its.
Proof.
  rewrite list_filter_filter. apply list_filter_iff. intros [c| |]; cbn; naive_solver.
Qed.

Lemma fits_all strs fs args n its :
  expand strs fs false args = Some its → Z.of_nat (length (filter takes_room its)) < n →
  kept n its = filter storable (text its) ∧ counted n its = Z.of_nat (length (text its)).
Proof.
  intros E Hn. unfold kept, counted, spent. rewrite take_ge by lia. rewrite filter_text, filter_pads.
  split; [done|]. by apply expand_balanced in E.
Qed.

(** [strcmp] is zero exactly on equal strings. *)
Lemma strcmp_ok fuel m s1 s2 xs ys :
  chars m → cstr m s1 xs → cstr m s2 ys → (length xs < fuel)%nat →
  ∃ r, strcmp_loop fuel m s1 s2 = Ok r ∧ (r = 0 ↔ xs = ys).
Proof.
  intros Hm. revert s1 s2 xs ys. induction fuel as [|fuel IH]; intros s1 s2 xs ys Hx Hy Hf; [lia|].
  pose proof (cstr_head _ _ _ Hx) as Ex. pose proof (cstr_head _ _ _ Hy) as Ey.
  cbn [strcmp_loop]. rewrite Ex, Ey. cbn [mbind result_bind].
  assert (∀ c d, load m s1 = Ok c → load m s2 = Ok d → c ≠ d →
    ∃ r, mret (uwrap 8 c - uwrap 8 d) = Ok r ∧ r ≠ 0) as Hdiff.
  { intros c d Ec Ed Hne. eexists. split; [done|]. intros E0.
    unfold load in Ec, Ed. destruct (s1 =? 0); [done|]. destruct (s2 =? 0); [done|].
    apply deref_ok in Ec, Ed. apply Hne, uwrap_8_inj; [by eapply Hm|by eapply Hm|lia]. }
  destruct xs as [|x xs], ys as [|y ys]; cbn [length] in Hf.
  - by exists 0.
  - destruct (Hdiff 0 y Ex Ey) as (r & Er & Hr); [destruct Hy as (_ & ? & _); congruence|].
    exists r. split; [exact Er|done].
  - destruct (Hdiff x 0 Ex Ey) as (r & Er & Hr); [by destruct Hx as (_ & ? & _)|].
    destruct Hx as (_ & Hx0 & _). rewrite (proj2 (Z.eqb_neq x 0)) by done.
    cbn [negb andb]. exists r. split; [exact Er|done].
  - pose proof Hx as (_ & Hx0 & _ & Hx'). pose proof Hy as (_ & Hy0 & _ & Hy').
    rewrite (proj2 (Z.eqb_neq x 0)) by done. destruct (Z.eqb_spec x y) as [<-|Hne]; cbn [negb andb].
    + destruct (IH (s1 + 1) (s2 + 1) xs ys) as (r & -> & Hr); [done..|lia|].
      exists r. split; [done|]. rewrite Hr. split; [by intros ->|by intros [= ?]].
    + destruct (Hdiff x y Ex Ey Hne) as (r & Er & Hr). exists r. split; [exact Er|].
      split; [done|]. by intros [= ? ?].
Qed.

(** A run of digits is printed whole and read whole. *)
Lemma digit_storable base c : is_valid_digit_for_char base c = true → storable c = true.
Proof.
  unfold is_valid_digit_for_char, is_alphanumeric, storable, isprint, isdigit, islower, isupper.
  intros H. apply andb_true_iff in H as [H _]. repeat case_Z; try done; lia.
Qed.

Lemma leading_digits_all base ds :
  Forall (λ c, is_valid_digit_for_char base c = true) ds → leading_digits base ds = ds.
Proof. induction 1 as [|c ds Hc _ IH]; cbn; [done|]. by rewrite Hc, IH. Qed.

Lemma kept_all n cs :
  Forall (λ c, storable c = true) cs → Z.of_nat (length cs) < n → kept n (Char <$> cs) = cs.
Proof.
  intros Hs Hn. rewrite kept_chars. assert (filter storable cs = cs) as ->; [|apply take_ge; lia].
  clear Hn. induction Hs as [|c cs Hc _ IH]; [done|]. by rewrite filter_cons_True, IH by (by rewrite Hc).
Qed.

(** What [strtol] makes of a printed integer. *)
Lemma parse_int_chars x cs m s :
  32 <= W → - 2 ^ 31 < x < 2 ^ 31 → cs = int_chars x → cstr m s cs → 1 < s →
  is_Some (m !! (s - 1)) →
  strtol W m s 10 = Ok (x, Some (s + Z.of_nat (length cs))).
Proof.
  intros HW Hx -> Hcs Hs [y Hy]. revert Hcs.
  unfold int_chars. rewrite (proj2 (Z.eqb_neq x _)) by lia.
  assert (∀ v, - 2 ^ 31 < v < 2 ^ 31 → swrap W v = v) as Hsw.
  { intros v Hv. apply swrap_small; [lia|].
    assert (2 ^ 31 <= 2 ^ (W - 1)) by (apply Z.pow_le_mono_r; lia). lia. }
  destruct (Z.ltb_spec x 0).
  - destruct (numeral_ok 10 (- x) digits_lower) as (Hne & _ & Hf & Hv); [apply table_lower_10|lia..|].
    set (ds := numeral 10 (- x) digits_lower) in *. intros Hcs.
    pose proof Hcs as (_ & _ & Hm & _).
    rewrite (strtol_digits W m s 10 (45 :: ds) (-1) 1 10 0 ds 45); try done; try lia.
    + rewrite Hv, Hsw by lia. do 3 f_equal; cbn [length]; lia.
    + cbn [drop]. apply leading_digits_all. eapply Forall_impl; [exact Hf|]. by intros ? [].
    + rewrite <-Hm. f_equal. lia.
  - destruct (numeral_ok 10 x digits_lower) as (Hne & _ & Hf & Hv); [apply table_lower_10|lia..|].
    set (ds := numeral 10 x digits_lower) in *. intros Hcs.
    rewrite (strtol_digits W m s 10 ds 1 0 10 0 ds y); try done; try lia.
    + rewrite Hv, Hsw by lia. do 3 f_equal; lia.
    + destruct ds as [|c ds]; [done|]. apply Forall_cons in Hf as [[Hc _] _].
      cbn. destruct (Z.eqb_spec c 43) as [->|]; [done|]. by destruct (Z.eqb_spec c 45) as [->|].
    + cbn [drop]. apply leading_digits_all. eapply Forall_impl; [exact Hf|]. by intros ? [].
    + rewrite <-Hy. f_equal. lia.
Qed.

Lemma int_chars_ok x :
  - 2 ^ 31 <= x < 2 ^ 31 →
  Forall (λ c, storable c = true) (int_chars x) ∧ (length (int_chars x) <= 11)%nat.
Proof.
  intros Hx. unfold int_chars.
  assert (∀ n, 0 <= n < 2 ^ 32 → Forall (λ c, storable c = true) (numeral 10 n digits_lower) ∧
    (length (numeral 10 n digits_lower) <= 10)%nat) as Hn.
  { intros n H. destruct (numeral_ok 10 n digits_lower) as (_ & Hl & Hf & _);
      [apply table_lower_10|lia..|]. split; [|done].
    eapply Forall_impl; [exact Hf|]. intros c [Hc _]. by eapply digit_storable. }
  destruct (Z.eqb_spec x (- 2 ^ 31)); [split; [by repeat constructor|cbn; lia]|].
  destruct (Z.ltb_spec x 0).
  - destruct (Hn (- x) ltac:(lia)) as [? ?]. split; [by constructor|cbn; lia].
  - destruct (Hn x ltac:(lia)) as [? ?]. split; [done|lia].
Qed.

End Printf.

(** C25: [vsnprintf] with any format of literal characters and conversions.  It leaves in the
    buffer, as a nul-terminated string, as many of the printable characters, newlines and
    tabs of the expansion as find room, writes nothing outside that string, whatever the
    arguments, and when there is room for everything returns the length of the expansion.
    A leading zero of a pointer takes the room of two characters, so that a pointer may
    cut a message short that fits in the buffer. *)
Theorem vsnprintf_output W m buf sz fmt fs args strs its :
  W = 32 ∨ W = 64 → 1 <= sz → readable m buf sz → cstr m fmt fs → apart fmt fs buf sz →
  (∀ p cs, strs p = Some cs → cstr m p cs ∧ apart p cs buf sz) →
  expand W strs fs false args = Some its → Z.of_nat (length its) < 2 ^ 31 →
  (∃ m', vsnprintf W m buf sz fmt args = Ok (m', counted sz its) ∧
    cstr m' buf (kept sz its) ∧
    ∀ a, ¬ buf <= a <= buf + Z.of_nat (length (kept sz its)) → m' !! a = m !! a) ∧
  (Z.of_nat (length (filter takes_room its)) < sz →
   kept sz its = filter storable (text its) ∧ counted sz its = Z.of_nat (length (text its))).
Proof. intros. split; [by eapply vsnprintf_ok|by eapply fits_all]. Qed.

(** "%s=%p!" on the string "n" and the pointer 0xAB, of 32 bits, into buffers of 22 and of 13
    bytes: of the second the leading zeros use up all the room. *)
Lemma vsnprintf_output_witness :
  let m := bytes_at 16 [37; 115; 61; 37; 112; 33; 0] ∪ bytes_at 32 [110; 0] ∪ bytes_at 64 (replicate 22 1) in
  let strs p := if p =? 32 then Some [110] else None in
  cstr m 16 [37; 115; 61; 37; 112; 33] ∧
  (∃ m', vsnprintf 32 m 64 22 16 [32; 171] = Ok (m', 13) ∧
     cstr m' 64 [110; 61; 48; 120; 48; 48; 48; 48; 48; 48; 97; 98; 33]) ∧
  ∃ m', vsnprintf 32 m 64 13 16 [32; 171] = Ok (m', 13) ∧ cstr m' 64 [110; 61; 48; 120; 48; 48].
Proof.
  intros m strs.
  assert (cstr m 16 [37; 115; 61; 37; 112; 33]) as Hf
    by (subst m; repeat split; try lia; vm_compute; done).
  split; [done|].
  assert (∀ n, 1 <= n <= 22 → readable m 64 n) as Hr.
  { intros n Hn i Hi. split; [lia|].
    assert (64 + i ∈ seqZ 64 22) as Hin by (apply elem_of_seqZ; lia).
    revert Hin. generalize (64 + i). apply Forall_forall. vm_compute. repeat constructor; eauto. }
  assert (∀ n p cs, strs p = Some cs → cstr m p cs ∧ apart p cs 64 n) as Hs.
  { intros n p cs Hp. unfold strs in Hp. destruct (Z.eqb_spec p 32) as [->|]; [|done].
    injection Hp as <-. split; [|left; cbn; lia].
    subst m; repeat split; try lia; vm_compute; done. }
  destruct (expand 32 strs [37; 115; 61; 37; 112; 33] false [32; 171]) as [its|] eqn:He; [|done].
  assert (Z.of_nat (length its) < 2 ^ 31) as Hl by (vm_compute in He; injection He as <-; done).
  split.
  - destruct (vsnprintf_output 32 m 64 22 16 _ [32; 171] strs its (or_introl eq_refl) ltac:(lia)
      (Hr 22 ltac:(lia)) Hf ltac:(left; cbn; lia) (Hs 22) He Hl) as [(m' & E & H & _) _].
    exists m'. vm_compute in He. injection He as <-. split; [exact E|exact H].
  - destruct (vsnprintf_output 32 m 64 13 16 _ [32; 171] strs its (or_introl eq_refl) ltac:(lia)
      (Hr 13 ltac:(lia)) Hf ltac:(left; cbn; lia) (Hs 13) He Hl) as [(m' & E & H & _) _].
    exists m'. vm_compute in He. injection He as <-. split; [exact E|exact H].
Defined.

(** Printing an integer with [vsnprintf] and reading the buffer back with [strtol]
    gives the integer, and the end pointer after its last digit, for every [int] but the
    least one (of which only the sign is printed). *)
Theorem print_parse_roundtrip W m buf sz fmt x :
  W = 32 ∨ W = 64 → 12 <= sz → readable m (buf - 1) (sz + 1) → cstr m fmt [37; 100] →
  apart fmt [37; 100] buf sz → - 2 ^ 31 < x < 2 ^ 31 →
  ∃ m' n, vsnprintf W m buf sz fmt [x] = Ok (m', n) ∧
          strtol W m' buf 10 = Ok (x, Some (buf + n)).
Proof.
  intros HW Hsz Hr Hfmt Hap Hx. destruct (int_chars_ok x ltac:(lia)) as [Hst Hlen].
  assert (readable m buf sz) as Hr'.
  { intros i Hi. replace (buf + i) with (buf - 1 + (i + 1)) by lia. apply Hr. lia. }
  destruct (vsnprintf_ok W m buf sz fmt [37; 100] [x] (λ _, None) (Char <$> int_chars x))
    as (m' & -> & Hcs & Hout); [done|lia|done..| |rewrite length_fmap; lia|].
  { change (Some ((Char <$> int_chars (swrap 32 x)) ++ []) = Some (Char <$> int_chars x)).
    by rewrite app_nil_r, swrap_small by lia. }
  exists m'. eexists. split; [done|]. rewrite kept_all in Hcs, Hout by (done || lia). rewrite counted_chars.
  destruct (Hr 0 ltac:(lia)) as [Hpos [y Hy]]. rewrite Z.add_0_r in Hpos, Hy.
  apply parse_int_chars; [lia|done|done|done|lia|].
  rewrite Hout by lia. eauto.
Qed.

Lemma print_parse_roundtrip_witness :
  let m := bytes_at 16 [37; 100; 0] ∪ bytes_at 63 (replicate 13 1) in
  cstr m 16 [37; 100] ∧ readable m 63 13 ∧
  ∃ m' n, vsnprintf 64 m 64 12 16 [-1974] = Ok (m', n) ∧
          strtol 64 m' 64 10 = Ok (-1974, Some (64 + n)).
Proof.
  intros m.
  assert (cstr m 16 [37; 100]) as Hf by (subst m; repeat split; try lia; vm_compute; done).
  assert (readable m 63 13) as Hr.
  { intros i Hi. split; [lia|].
    assert (63 + i ∈ seqZ 63 13) as Hin by (apply elem_of_seqZ; lia).
    revert Hin. generalize (63 + i). apply Forall_forall. vm_compute. repeat constructor; eauto. }
  split; [done|]. split; [done|].
  exact (print_parse_roundtrip 64 m 64 12 16 (-1974) (or_intror eq_refl) ltac:(lia) Hr Hf
    ltac:(left; cbn; lia) ltac:(lia)).
Defined.

End Printf.
