(* ===== verification/Descriptors.v ===== *)
(** * Descriptors: interrupt gates, segment descriptors and the task state segment

    Models [InterruptDescriptor] of both architectures, [GenericInterruptDescriptorTable],
    the table that [GenericHardwareInterruptController] builds, [GlobalDescriptorTable] of
    both architectures, [TaskStateSegment] and [HardwareTaskConfiguration], all under
    src/Kernel/include/platform and src/Kernel/src/platform, with the segment selectors of
    src/Boot/include/seg.h.

    The reader of these tables is the processor.  What it finds in a descriptor is given by
    [gate32], [gate64] and [segment], which follow the layouts of the Intel manual that the
    comments of the code draw; the theorems say that what the code writes is what the
    processor reads.  The addresses of the interrupt service routines, which a template
    generates, are a parameter. *)
From S2P Require Import Prelude PageEntries.

(** ** Fields of a descriptor *)

(** The [n] bits of [d] from bit [lo] on. *)
Definition slice (d lo n : Z) : Z := Z.land (Z.shiftr d lo) (Z.ones n).

(** [d] with those bits replaced by [v]. *)
Definition put (d lo n v : Z) : Z :=
  Z.lor (Z.land d (unot 64 (Z.shiftl (Z.ones n) lo))) (Z.shiftl v lo).

Lemma slice_testbit d lo n i :
  0 <= lo → 0 <= n → 0 <= i → Z.testbit (slice d lo n) i = (i <? n) && Z.testbit d (i + lo).
Proof.
  intros. unfold slice. rewrite Z.land_spec, Z.shiftr_spec, Z.testbit_ones_nonneg by done.
  by rewrite andb_comm.
Qed.

Lemma shiftl_testbit v lo i :
  0 <= i → Z.testbit (Z.shiftl v lo) i = Z.testbit v (i - lo).
Proof. apply Z.shiftl_spec. Qed.

Lemma shiftl_ones_fits lo n w :
  0 <= lo → 0 <= n → lo + n <= w → fits w (Z.shiftl (Z.ones n) lo).
Proof.
  intros. apply fits_of_bits; [lia| |].
  - apply Z.shiftl_nonneg. rewrite Z.ones_equiv. pose proof (Z.pow_pos_nonneg 2 n). lia.
  - intros i Hi. rewrite testbit_field by lia. repeat case_Z; (done || lia).
Qed.

Lemma put_testbit d lo n v i :
  0 <= lo → 0 <= n → lo + n <= 64 → fits 64 d → fits n v → 0 <= i →
  Z.testbit (put d lo n v) i
  = if (lo <=? i) && (i <? lo + n) then Z.testbit v (i - lo) else Z.testbit d i.
Proof.
  intros Hlo Hn Hw Hd Hv Hi. unfold put.
  rewrite Z.lor_spec, Z.land_spec, unot_spec, testbit_field, shiftl_testbit
    by (done || lia || by apply shiftl_ones_fits).
  destruct (Z.leb_spec lo i); cbn [andb negb].
  - destruct (Z.ltb_spec i (lo + n)); cbn [andb negb].
    + by rewrite !andb_false_r.
    + rewrite (fits_testbit_high n v) by (done || lia). rewrite andb_true_r, orb_false_r.
      case_Z; [by rewrite andb_true_r|]. by rewrite (fits_testbit_high 64 d).
  - rewrite (Z.testbit_neg_r v) by lia. rewrite andb_true_r, orb_false_r.
    decide_Z. by rewrite andb_true_r.
Qed.

Lemma put_fits d lo n v :
  0 <= lo → 0 <= n → lo + n <= 64 → fits 64 d → fits n v → fits 64 (put d lo n v).
Proof.
  intros Hlo Hn Hw Hd Hv. apply fits_of_bits; [lia| |].
  - unfold put. apply Z.lor_nonneg. split.
    + apply Z.land_nonneg. left. apply Hd.
    + apply Z.shiftl_nonneg, Hv.
  - intros i Hi. rewrite put_testbit by (done || lia).
    destruct (Z.ltb_spec i (lo + n)); [lia|]. rewrite andb_false_r.
    by apply (fits_testbit_high 64).
Qed.

Lemma slice_put d lo n v :
  0 <= lo → 0 <= n → lo + n <= 64 → fits 64 d → fits n v → slice (put d lo n v) lo n = v.
Proof.
  intros Hlo Hn Hw Hd Hv. apply bits_eq. intros i Hi.
  rewrite slice_testbit, put_testbit by (done || lia).
  destruct (Z.ltb_spec i n); decide_Z; cbn [andb].
  - f_equal. lia.
  - by rewrite (fits_testbit_high n v).
Qed.

(** Writing a field leaves the fields beside it alone. *)
Lemma slice_put_other d lo n v lo' n' :
  0 <= lo → 0 <= n → lo + n <= 64 → fits 64 d → fits n v →
  0 <= lo' → 0 <= n' → lo + n <= lo' ∨ lo' + n' <= lo →
  slice (put d lo n v) lo' n' = slice d lo' n'.
Proof.
  intros Hlo Hn Hw Hd Hv Hlo' Hn' Hdis. apply bits_eq. intros i Hi.
  rewrite !slice_testbit, put_testbit by (done || lia).
  destruct (Z.ltb_spec i n'); [|done]. cbn [andb].
  destruct (Z.leb_spec lo (i + lo')), (Z.ltb_spec (i + lo') (lo + n)); (done || lia).
Qed.

Lemma slice_fits d lo n : 0 <= lo → 0 <= n → fits n (slice d lo n).
Proof.
  intros. unfold slice. rewrite Z.land_ones by done. apply Z.mod_pos_bound, Z.pow_pos_nonneg; lia.
Qed.

(** The parts of a number that two fields hold make it up again. *)
Lemma slice_split x n m :
  0 <= n → 0 <= m → fits (n + m) x → slice x 0 n + 2 ^ n * slice x n m = x.
Proof.
  intros Hn Hm Hx. unfold slice. rewrite !Z.land_ones, !Z.shiftr_div_pow2, Z.pow_0_r, Z.div_1_r by done.
  rewrite (Z.mod_small (x / 2 ^ n)).
  - rewrite (Z.div_mod x (2 ^ n)) at 3 by (apply Z.pow_nonzero; lia). lia.
  - destruct Hx as [? Hx]. rewrite Z.pow_add_r in Hx by done.
    split; [apply Z.div_pos; [done|apply Z.pow_pos_nonneg; lia]|].
    apply Z.div_lt_upper_bound; [apply Z.pow_pos_nonneg; lia|done].
Qed.

(** The fields of a structure laid out in order, low bits first, with their widths. *)
Fixpoint pack (fields : list (Z * Z)) : Z :=
  match fields with
  | [] => 0
  | (n, v) :: fields => v + 2 ^ n * pack fields
  end.

Lemma slice_low x y k lo n :
  0 <= k → fits k x → 0 <= lo → 0 <= n → lo + n <= k →
  slice (x + 2 ^ k * y) lo n = slice x lo n.
Proof.
  intros Hk Hx Hlo Hn Hle. apply bits_eq. intros i Hi. rewrite !slice_testbit by done.
  destruct (Z.ltb_spec i n); [|done]. cbn [andb].
  rewrite <-(Z.mod_pow2_bits_low (x + 2 ^ k * y) k), Z.mul_comm, Z_mod_plus_full by lia.
  by rewrite Z.mod_small by apply Hx.
Qed.

Lemma slice_high x y k lo n :
  0 <= k → fits k x → k <= lo → 0 <= n →
  slice (x + 2 ^ k * y) lo n = slice y (lo - k) n.
Proof.
  intros Hk Hx Hlo Hn. apply bits_eq. intros i Hi. rewrite !slice_testbit by lia.
  destruct (Z.ltb_spec i n); [|done]. cbn [andb].
  replace (i + lo) with (i + (lo - k) + k) by lia.
  rewrite <-Z.div_pow2_bits, Z.mul_comm, Z.div_add by (lia || apply Z.pow_nonzero; lia).
  by rewrite Z.div_small by apply Hx.
Qed.

Lemma slice_all x n : 0 <= n → fits n x → slice x 0 n = x.
Proof. intros Hn Hx. unfold slice. by rewrite Z.shiftr_0_r, Z.land_ones, Z.mod_small. Qed.

Definition width_of (fields : list (Z * Z)) : Z := foldr (λ f n, f.1 + n) 0 fields.

Lemma width_of_nonneg pre : Forall (λ f : Z * Z, 0 <= f.1 ∧ fits f.1 f.2) pre → 0 <= width_of pre.
Proof. unfold width_of. induction 1 as [|[m x] pre [? ?] ? IH]; cbn in *; lia. Qed.

(** A member is read back at the offset that the members before it add up to. *)
Lemma slice_pack pre n v post :
  Forall (λ f : Z * Z, 0 <= f.1 ∧ fits f.1 f.2) (pre ++ [(n, v)]) →
  slice (pack (pre ++ (n, v) :: post)) (width_of pre) n = v.
Proof.
  rewrite Forall_app, Forall_singleton. intros (Hpre & Hn & Hv). cbn [fst snd] in Hn, Hv.
  induction Hpre as [|[m x] pre [Hm Hx] Hpre IH].
  - cbn [app pack]. change (width_of []) with 0.
    rewrite slice_low by (done || lia). by apply slice_all.
  - cbn [app pack]. change (width_of ((m, x) :: pre)) with (m + width_of pre).
    cbn [fst snd] in Hm, Hx. pose proof (width_of_nonneg pre Hpre).
    rewrite slice_high by (done || lia). by rewrite Z.add_simpl_l.
Qed.

(** Find the field that a slice of a packed structure lies in. *)
Ltac pack_step :=
  match goal with
  | |- context [slice (?x + 2 ^ ?k * ?y) ?lo ?n] =>
      first [ rewrite (slice_low x y k lo n) by (assumption || lia)
            | rewrite (slice_high x y k lo n) by (assumption || lia) ]
  | |- context [slice ?x (?a - ?b) ?n] =>
      let c := eval compute in (a - b) in change (slice x (a - b) n) with (slice x c n)
  end.

(** ** Interrupt descriptors: the text both architectures share, on the word [data] *)
Module InterruptDescriptor.

Definition SEGMENT_SELECTOR_MASK : Z := 0xFFFF0000.
Definition SEGMENT_SELECTOR_SHIFT : Z := 16.
Definition DPL_MASK : Z := 0x600000000000.
Definition DPL_SHIFT : Z := 45.
Definition PRESENT_BIT : Z := 47.
Definition OFFSET_LOWER_MASK : Z := 0xFFFF.
Definition OFFSET_UPPER_MASK : Z := 0xFFFF0000.
Definition OFFSET_UPPER_SHIFT : Z := 48 - 16.

Inductive GateType := TaskGate | InterruptGate | TrapGate.

Definition set_segment_selector (data segment_selector : Z) : result Z :=
  assert! segment_selector <? Z.shiftl 1 16;
  let data := Z.land data (unot 64 SEGMENT_SELECTOR_MASK) in
  let field := Z.land (uwrap 32 (Z.shiftl segment_selector SEGMENT_SELECTOR_SHIFT))
                 SEGMENT_SELECTOR_MASK in
  mret (Z.lor data field).

Definition get_segment_selector (data : Z) : Z :=
  Z.shiftr (Z.land data SEGMENT_SELECTOR_MASK) SEGMENT_SELECTOR_SHIFT.

Definition set_bit (data bit_number : Z) : result Z :=
  assert! bit_number <? 64;
  mret (Z.lor data (uwrap 64 (Z.shiftl 1 bit_number))).

Definition clear_bit (data bit_number : Z) : result Z :=
  assert! bit_number <? 64;
  mret (Z.land data (unot 64 (uwrap 64 (Z.shiftl 1 bit_number)))).

Definition get_bit (data bit_number : Z) : result bool :=
  assert! bit_number <? 64;
  mret (negb (Z.land data (uwrap 64 (Z.shiftl 1 bit_number)) =? 0)).

Definition set_type (data : Z) (type : GateType) : result Z :=
  match type with
  | TaskGate =>
      data ← clear_bit data 44; data ← clear_bit data 43; data ← set_bit data 42;
      data ← clear_bit data 41; set_bit data 40
  | InterruptGate =>
      data ← clear_bit data 44; data ← set_bit data 43; data ← set_bit data 42;
      data ← set_bit data 41; data ← clear_bit data 40;
      data ← clear_bit data 39; data ← clear_bit data 38; clear_bit data 37
  | TrapGate =>
      data ← clear_bit data 44; data ← set_bit data 43; data ← set_bit data 42;
      data ← set_bit data 41; data ← set_bit data 40;
      data ← clear_bit data 39; data ← clear_bit data 38; clear_bit data 37
  end.

Definition get_type (data : Z) : result GateType :=
  b41 ← get_bit data 41;
  if negb b41 then mret TaskGate
  else
    b40 ← get_bit data 40;
    if b40 : bool then mret TrapGate else mret InterruptGate.

Definition set_dpl (data dpl : Z) : result Z :=
  assert! dpl <=? 3;
  let data := Z.land data (unot 64 DPL_MASK) in
  let field := Z.land (uwrap 64 (Z.shiftl dpl DPL_SHIFT)) DPL_MASK in
  mret (Z.lor data field).

Definition get_dpl (data : Z) : Z := Z.shiftr (Z.land data DPL_MASK) DPL_SHIFT.

Definition set_present (data : Z) (present : bool) : result Z :=
  if present then set_bit data PRESENT_BIT else clear_bit data PRESENT_BIT.

Definition get_present (data : Z) : result bool := get_bit data PRESENT_BIT.

Definition set_offset (data offset : Z) : Z :=
  let data := Z.land data (unot 64 OFFSET_LOWER_MASK) in
  let data := Z.lor data (Z.land offset OFFSET_LOWER_MASK) in
  let data := Z.land data (unot 64 (uwrap 64 (Z.shiftl OFFSET_UPPER_MASK OFFSET_UPPER_SHIFT))) in
  Z.lor data (uwrap 64 (Z.shiftl (Z.land offset OFFSET_UPPER_MASK) OFFSET_UPPER_SHIFT)).

Definition get_offset (data : Z) : Z :=
  Z.lor (Z.shiftr (Z.land data (uwrap 64 (Z.shiftl OFFSET_UPPER_MASK OFFSET_UPPER_SHIFT)))
           OFFSET_UPPER_SHIFT)
        (Z.land data OFFSET_LOWER_MASK).

(** *** Each operation writes or reads one field *)
Lemma masked_field w lo n v :
  0 <= lo → 0 <= n → lo + n <= w → fits n v →
  Z.land (uwrap w (Z.shiftl v lo)) (Z.shiftl (Z.ones n) lo) = Z.shiftl v lo.
Proof.
  intros Hlo Hn Hw Hv. apply bits_eq. intros i Hi.
  rewrite Z.land_spec, uwrap_testbit, testbit_field, shiftl_testbit by (done || lia).
  destruct (Z.leb_spec lo i); [|by rewrite Z.testbit_neg_r, !andb_false_r by lia].
  destruct (Z.ltb_spec i (lo + n)); [by decide_Z; rewrite andb_true_r|].
  by rewrite (fits_testbit_high n v), !andb_false_r by (done || lia).
Qed.

Lemma set_segment_selector_put d s :
  fits 16 s → set_segment_selector d s = Ok (put d 16 16 s).
Proof.
  intros Hs. unfold set_segment_selector. change (Z.shiftl 1 16) with (2 ^ 16).
  rewrite (proj2 (Z.ltb_lt _ _)) by apply Hs. cbn [assert_then mret result_ret]. unfold put.
  do 2 f_equal. by apply (masked_field 32 16 16).
Qed.

Lemma set_dpl_put d v : fits 2 v → set_dpl d v = Ok (put d 45 2 v).
Proof.
  intros Hv. unfold set_dpl. rewrite (proj2 (Z.leb_le _ _)) by (unfold fits in Hv; lia).
  cbn [assert_then mret result_ret]. unfold put. do 2 f_equal.
  by apply (masked_field 64 45 2).
Qed.

Lemma shiftl_1_fits k : 0 <= k < 64 → fits 64 (Z.shiftl 1 k).
Proof.
  intros. rewrite Z.shiftl_1_l. split; [apply Z.pow_nonneg; lia|]. apply Z.pow_lt_mono_r; lia.
Qed.

Lemma set_bit_put d k : fits 64 d → 0 <= k < 64 → set_bit d k = Ok (put d k 1 1).
Proof.
  intros Hd Hk. unfold set_bit. rewrite (proj2 (Z.ltb_lt _ _)) by lia.
  cbn [assert_then mret result_ret]. rewrite uwrap_small by by apply shiftl_1_fits.
  f_equal. apply bits_eq. intros i Hi.
  rewrite Z.lor_spec, testbit_shiftl_1, put_testbit by (done || lia).
  destruct (Z.eqb_spec i k) as [->|]; [by decide_Z; rewrite Z.sub_diag, orb_true_r|].
  rewrite orb_false_r. destruct (Z.leb_spec k i), (Z.ltb_spec i (k + 1)); (done || lia).
Qed.

Lemma clear_bit_put d k : fits 64 d → 0 <= k < 64 → clear_bit d k = Ok (put d k 1 0).
Proof.
  intros Hd Hk. unfold clear_bit. rewrite (proj2 (Z.ltb_lt _ _)) by lia.
  cbn [assert_then mret result_ret]. rewrite uwrap_small by by apply shiftl_1_fits.
  unfold put. by rewrite Z.shiftl_0_l, Z.lor_0_r.
Qed.

Lemma get_bit_testbit d k : 0 <= k < 64 → get_bit d k = Ok (Z.testbit d k).
Proof.
  intros Hk. unfold get_bit. rewrite (proj2 (Z.ltb_lt _ _)) by lia.
  cbn [assert_then mret result_ret]. rewrite uwrap_small by by apply shiftl_1_fits.
  by rewrite land_bit_eqb, negb_involutive by lia.
Qed.

(** Reading a field through its mask. *)
Lemma masked_slice d lo n :
  0 <= lo → 0 <= n → Z.shiftr (Z.land d (Z.shiftl (Z.ones n) lo)) lo = slice d lo n.
Proof.
  intros. apply bits_eq. intros i Hi.
  rewrite Z.shiftr_spec, Z.land_spec, testbit_field, slice_testbit by (done || lia).
  rewrite andb_comm. repeat case_Z; (done || lia).
Qed.

Lemma get_segment_selector_slice d : get_segment_selector d = slice d 16 16.
Proof. by apply (masked_slice d 16 16). Qed.

Lemma get_dpl_slice d : get_dpl d = slice d 45 2.
Proof. by apply (masked_slice d 45 2). Qed.

Lemma set_offset_put d o :
  fits 64 d → 0 <= o → set_offset d o = put (put d 0 16 (slice o 0 16)) 48 16 (slice o 16 16).
Proof.
  intros Hd Ho. unfold set_offset.
  change OFFSET_LOWER_MASK with (Z.shiftl (Z.ones 16) 0).
  change (uwrap 64 (Z.shiftl OFFSET_UPPER_MASK OFFSET_UPPER_SHIFT))
    with (Z.shiftl (Z.ones 16) 48).
  unfold put. f_equal.
  apply bits_eq. intros i Hi. change OFFSET_UPPER_MASK with (Z.shiftl (Z.ones 16) 16).
  unfold OFFSET_UPPER_SHIFT.
  rewrite uwrap_testbit, !shiftl_testbit by (done || lia).
  destruct (Z.leb_spec 48 i).
  - rewrite slice_testbit, Z.land_spec, testbit_field by lia.
    replace (i - 48 + 16) with (i - (48 - 16)) by lia.
    rewrite andb_comm. repeat case_Z; rewrite ?andb_false_r, ?andb_true_r; (done || lia).
  - rewrite (Z.testbit_neg_r (slice o 16 16)) by lia.
    destruct (Z.leb_spec 32 i).
    + rewrite Z.land_spec, testbit_field by lia. decide_Z. by rewrite !andb_false_r.
    + rewrite Z.testbit_neg_r by lia. apply andb_false_r.
Qed.

(** A number below [2^n] and one shifted above it: their sum is their union. *)
Lemma join_fields x y n :
  0 <= n → fits n x → Z.lor (Z.shiftl y n) x = x + 2 ^ n * y.
Proof.
  intros Hn Hx.
  assert (Z.land (Z.shiftl y n) x = 0) as Hdis.
  { apply bits_eq. intros i Hi. rewrite Z.land_spec, shiftl_testbit, Z.bits_0 by lia.
    destruct (Z.lt_ge_cases i n); [by rewrite Z.testbit_neg_r by lia|].
    by rewrite (fits_testbit_high n x), andb_false_r. }
  rewrite <-Z.lxor_lor, <-Z.add_nocarry_lxor, Z.shiftl_mul_pow2 by done. lia.
Qed.

Lemma get_offset_slices d :
  get_offset d = slice d 0 16 + 2 ^ 16 * slice d 48 16.
Proof.
  rewrite <-join_fields by (lia || by apply slice_fits).
  unfold get_offset. change OFFSET_LOWER_MASK with (Z.shiftl (Z.ones 16) 0). f_equal.
  apply bits_eq. intros i Hi. unfold OFFSET_UPPER_SHIFT.
  change (uwrap 64 (Z.shiftl OFFSET_UPPER_MASK (48 - 16))) with (Z.shiftl (Z.ones 16) 48).
  rewrite Z.shiftr_spec, Z.land_spec, testbit_field, shiftl_testbit by lia.
  destruct (Z.leb_spec 16 i).
  - rewrite slice_testbit by lia. replace (i - 16 + 48) with (i + (48 - 16)) by lia.
    rewrite andb_comm. repeat case_Z; (done || lia).
  - rewrite (Z.testbit_neg_r (slice d 48 16)) by lia. decide_Z. apply andb_false_r.
Qed.

End InterruptDescriptor.

(** ** The descriptor of x86_64: two words *)
Module X64InterruptDescriptor.

Definition OFFSET_15_0_MASK : Z := 0xFFFF.
Definition OFFSET_31_16_MASK : Z := 0xFFFF0000.
Definition OFFSET_31_16_SHIFT : Z := 48 - 16.
Definition OFFSET_63_32_MASK : Z := Z.shiftl 1 32 - 1.
Definition OFFSET_63_32_SHIFT : Z := 32.

Inductive GateType := InterruptGate | TrapGate.

Record t := mk { data : Z; data2 : Z }.

Definition with_data (d : t) (data : result Z) : result t :=
  data ← data; mret (mk data (data2 d)).

Definition set_segment_selector (d : t) (segment_selector : Z) : result t :=
  with_data d (InterruptDescriptor.set_segment_selector (data d) segment_selector).

Definition get_segment_selector (d : t) : Z := InterruptDescriptor.get_segment_selector (data d).

Definition set_bit (d : t) (bit_number : Z) : result t :=
  with_data d (InterruptDescriptor.set_bit (data d) bit_number).

Definition clear_bit (d : t) (bit_number : Z) : result t :=
  with_data d (InterruptDescriptor.clear_bit (data d) bit_number).

Definition get_bit (d : t) (bit_number : Z) : result bool :=
  InterruptDescriptor.get_bit (data d) bit_number.

Definition set_type (d : t) (type : GateType) : result t :=
  match type with
  | InterruptGate => d ← set_bit d 43; d ← set_bit d 42; d ← set_bit d 41; clear_bit d 40
  | TrapGate => d ← set_bit d 43; d ← set_bit d 42; d ← set_bit d 41; set_bit d 40
  end.

Definition get_type (d : t) : result GateType :=
  b40 ← get_bit d 40;
  if b40 : bool then mret TrapGate else mret InterruptGate.

Definition set_dpl (d : t) (dpl : Z) : result t :=
  with_data d (InterruptDescriptor.set_dpl (data d) dpl).

Definition get_dpl (d : t) : Z := InterruptDescriptor.get_dpl (data d).

Definition set_present (d : t) (present : bool) : result t :=
  if present then set_bit d InterruptDescriptor.PRESENT_BIT
  else clear_bit d InterruptDescriptor.PRESENT_BIT.

Definition get_present (d : t) : result bool := get_bit d InterruptDescriptor.PRESENT_BIT.

Definition set_offset (d : t) (offset : Z) : t :=
  let w := Z.land (data d) (unot 64 OFFSET_15_0_MASK) in
  let w := Z.lor w (Z.land offset OFFSET_15_0_MASK) in
  let w := Z.land w (unot 64 (uwrap 64 (Z.shiftl OFFSET_31_16_MASK OFFSET_31_16_SHIFT))) in
  let w := Z.lor w (uwrap 64 (Z.shiftl (Z.land offset OFFSET_31_16_MASK) OFFSET_31_16_SHIFT)) in
  let w2 := Z.land (data2 d) (unot 64 OFFSET_63_32_MASK) in
  let w2 := Z.lor w2 (Z.shiftr offset OFFSET_63_32_SHIFT) in
  mk w w2.

Definition get_offset (d : t) : Z :=
  Z.lor (Z.lor
    (uwrap 64 (Z.shiftl (Z.land (data2 d) OFFSET_63_32_MASK) OFFSET_63_32_SHIFT))
    (Z.shiftr (Z.land (data d) (uwrap 64 (Z.shiftl OFFSET_31_16_MASK OFFSET_31_16_SHIFT)))
       OFFSET_31_16_SHIFT))
    (Z.land (data d) OFFSET_15_0_MASK).

Lemma x64_set_offset_put d o :
  fits 64 (data d) → fits 64 o →
  set_offset d o
  = mk (InterruptDescriptor.set_offset (data d) o) (put (data2 d) 0 32 (slice o 32 32)).
Proof.
  intros Hd Ho. unfold set_offset, put. rewrite !Z.shiftl_0_r. f_equal. f_equal.
  unfold OFFSET_63_32_SHIFT, slice. symmetry. rewrite Z.land_ones, Z.mod_small; [done| |lia].
  rewrite Z.shiftr_div_pow2 by lia. unfold fits in Ho. split; [apply Z.div_pos; lia|].
  apply Z.div_lt_upper_bound; [lia|]. change (2 ^ 32 * 2 ^ 32) with (2 ^ 64). lia.
Qed.

Lemma x64_get_offset_slices d :
  get_offset d = slice (data d) 0 16 + 2 ^ 16 * slice (data d) 48 16
                 + 2 ^ 32 * slice (data2 d) 0 32.
Proof.
  rewrite <-(InterruptDescriptor.get_offset_slices (data d)).
  assert (fits 32 (InterruptDescriptor.get_offset (data d))) as Hlow.
  { rewrite InterruptDescriptor.get_offset_slices.
    pose proof (slice_fits (data d) 0 16 ltac:(lia) ltac:(lia)).
    pose proof (slice_fits (data d) 48 16 ltac:(lia) ltac:(lia)). unfold fits in *. lia. }
  rewrite <-InterruptDescriptor.join_fields by (lia || done).
  unfold get_offset. rewrite <-Z.lor_assoc. f_equal.
  change OFFSET_63_32_MASK with (Z.ones 32). unfold OFFSET_63_32_SHIFT, slice.
  rewrite Z.shiftr_0_r. apply uwrap_small.
  pose proof (slice_fits (data2 d) 0 32 ltac:(lia) ltac:(lia)) as Hs. unfold slice in Hs.
  rewrite Z.shiftr_0_r in Hs. rewrite Z.shiftl_mul_pow2 by lia. unfold fits in *. lia.
Qed.

End X64InterruptDescriptor.

(** ** What the processor reads in a gate *)
Record gate := mkgate {
  g_offset : Z;
  g_selector : Z;
  g_system : Z;
  g_type : Z;
  g_dpl : Z;
  g_present : bool;
}.

Definition gate32 (d : Z) : gate :=
  mkgate (slice d 0 16 + 2 ^ 16 * slice d 48 16) (slice d 16 16) (slice d 44 1)
    (slice d 40 4) (slice d 45 2) (slice d 47 1 =? 1).

Definition gate64 (d : X64InterruptDescriptor.t) : gate :=
  let w := X64InterruptDescriptor.data d in
  mkgate (slice w 0 16 + 2 ^ 16 * slice w 48 16
          + 2 ^ 32 * slice (X64InterruptDescriptor.data2 d) 0 32)
    (slice w 16 16) (slice w 44 1) (slice w 40 4) (slice w 45 2) (slice w 47 1 =? 1).

Definition wf64 (d : X64InterruptDescriptor.t) : Prop :=
  fits 64 (X64InterruptDescriptor.data d) ∧ fits 64 (X64InterruptDescriptor.data2 d).

Definition with_selector (s : Z) (g : gate) : gate :=
  mkgate (g_offset g) s (g_system g) (g_type g) (g_dpl g) (g_present g).
Definition with_dpl (v : Z) (g : gate) : gate :=
  mkgate (g_offset g) (g_selector g) (g_system g) (g_type g) v (g_present g).
Definition with_present (b : bool) (g : gate) : gate :=
  mkgate (g_offset g) (g_selector g) (g_system g) (g_type g) (g_dpl g) b.
Definition with_offset (o : Z) (g : gate) : gate :=
  mkgate o (g_selector g) (g_system g) (g_type g) (g_dpl g) (g_present g).
Definition with_type (t : Z) (g : gate) : gate :=
  mkgate (g_offset g) (g_selector g) (g_system g) t (g_dpl g) (g_present g).
Definition with_system_type (t : Z) (g : gate) : gate :=
  mkgate (g_offset g) (g_selector g) 0 t (g_dpl g) (g_present g).

(** The four type bits of the Intel manual, for gates of the full width. *)
Definition hw_type32 (t : InterruptDescriptor.GateType) : Z :=
  match t with
  | InterruptDescriptor.TaskGate => 5
  | InterruptDescriptor.InterruptGate => 14
  | InterruptDescriptor.TrapGate => 15
  end.

Definition hw_type64 (t : X64InterruptDescriptor.GateType) : Z :=
  match t with
  | X64InterruptDescriptor.InterruptGate => 14
  | X64InterruptDescriptor.TrapGate => 15
  end.

(** A setter that succeeds and changes what the processor reads by [update]. *)
Definition updates {D : Type} (wf : D → Prop) (decode : D → gate) (setter : D → result D)
    (update : gate → gate) : Prop :=
  ∀ d, wf d → ∃ d', setter d = Ok d' ∧ wf d' ∧ decode d' = update (decode d).

Ltac fits_side :=
  first [ lia
        | repeat first [apply put_fits | apply slice_fits];
          first [assumption | lia | (unfold fits; lia)] ].

Ltac field_step :=
  match goal with
  | |- context [slice (put ?d ?lo ?n ?v) ?lo ?n] => rewrite (slice_put d lo n v) by fits_side
  | |- context [slice (put ?d ?lo ?n ?v) ?lo' ?n'] =>
      rewrite (slice_put_other d lo n v lo' n') by fits_side
  end.

Lemma bit_cases v : v = 0 ∨ v = 1 → fits 1 v.
Proof. unfold fits. lia. Qed.

Lemma slice_bit d k : 0 <= k → (slice d k 1 =? 1) = Z.testbit d k.
Proof.
  intros Hk. unfold slice. rewrite Z.land_ones by lia. change (2 ^ 1) with 2.
  rewrite <-Z.bit0_mod, Z.shiftr_spec by lia. rewrite Z.add_0_l. by destruct (Z.testbit d k).
Qed.

(** The type field after its four bits are written one by one. *)
Lemma slice_type_bits d b43 b42 b41 b40 :
  fits 64 d → (b43 = 0 ∨ b43 = 1) → (b42 = 0 ∨ b42 = 1) → (b41 = 0 ∨ b41 = 1) →
  (b40 = 0 ∨ b40 = 1) →
  slice (put (put (put (put d 43 1 b43) 42 1 b42) 41 1 b41) 40 1 b40) 40 4
  = 8 * b43 + 4 * b42 + 2 * b41 + b40.
Proof.
  intros Hd H43 H42 H41 H40. apply bits_eq. intros i Hi. rewrite slice_testbit by lia.
  rewrite !put_testbit by (repeat apply put_fits; (done || lia || by apply bit_cases)).
  destruct (Z.ltb_spec i 4).
  - assert (i = 0 ∨ i = 1 ∨ i = 2 ∨ i = 3) as Hc by lia.
    destruct Hc as [->|[->|[->| ->]]]; destruct H43, H42, H41, H40; subst; reflexivity.
  - cbn [andb]. symmetry. apply (fits_testbit_high 4); [|done]. unfold fits. lia.
Qed.

Section Setters32.
Import InterruptDescriptor.

Lemma selector32 s :
  fits 16 s → updates (fits 64) gate32 (λ d, set_segment_selector d s) (with_selector s).
Proof.
  intros Hs d Hd. exists (put d 16 16 s). rewrite set_segment_selector_put by done.
  split_and!; [done|by apply put_fits|]. unfold gate32, with_selector. cbn. by repeat field_step.
Qed.

Lemma dpl32 v : fits 2 v → updates (fits 64) gate32 (λ d, set_dpl d v) (with_dpl v).
Proof.
  intros Hv d Hd. exists (put d 45 2 v). rewrite set_dpl_put by done.
  split_and!; [done|by apply put_fits|]. unfold gate32, with_dpl. cbn. by repeat field_step.
Qed.

Lemma present32 b : updates (fits 64) gate32 (λ d, set_present d b) (with_present b).
Proof.
  intros d Hd. exists (put d 47 1 (if b then 1 else 0)). unfold set_present, PRESENT_BIT.
  split_and!.
  - destruct b; [by apply set_bit_put|by apply clear_bit_put].
  - apply put_fits; (done || lia || by destruct b).
  - assert (fits 1 (if b then 1 else 0)) by by destruct b.
    unfold gate32, with_present. cbn [g_offset g_selector g_system g_type g_dpl].
    repeat field_step. f_equal. by destruct b.
Qed.

Lemma offset32 o :
  fits 32 o → updates (fits 64) gate32 (λ d, mret (set_offset d o)) (with_offset o).
Proof.
  intros Ho d Hd. eexists. split; [reflexivity|]. rewrite set_offset_put by (done || apply Ho).
  split; [fits_side|]. unfold gate32, with_offset.
  cbn [g_offset g_selector g_system g_type g_dpl g_present].
  repeat field_step. f_equal. by apply (slice_split o 16 16).
Qed.

Ltac set_bits :=
  repeat first [ rewrite set_bit_put by fits_side | rewrite clear_bit_put by fits_side
               | cbn [mbind result_bind] ].

Lemma type32 ty :
  updates (fits 64) gate32 (λ d, set_type d ty) (with_system_type (hw_type32 ty)).
Proof.
  intros d Hd. unfold set_type.
  destruct ty; set_bits; eexists; (split; [reflexivity|]); (split; [fits_side|]);
    unfold gate32, with_system_type; cbn [g_offset g_selector g_system g_type g_dpl g_present hw_type32];
    repeat field_step;
    rewrite ?slice_type_bits by (fits_side || lia); reflexivity.
Qed.

End Setters32.

(** What the processor reads in the first word of a gate of x86_64, as on i386, but for
    the offset. *)
Lemma gate64_gate32 d :
  gate64 d = with_offset (X64InterruptDescriptor.get_offset d)
               (gate32 (X64InterruptDescriptor.data d)).
Proof. by rewrite X64InterruptDescriptor.x64_get_offset_slices. Qed.

Section Setters64.
Import X64InterruptDescriptor.

(** A setter of the first word that keeps the offset. *)
Lemma lift_updates f update :
  updates (fits 64) gate32 f update → (∀ g, g_offset (update g) = g_offset g) →
  (∀ o g, update (with_offset o g) = with_offset o (update g)) →
  updates wf64 gate64 (λ d, with_data d (f (data d))) update.
Proof.
  intros Hf Hoff Hcom d [Hd1 Hd2]. destruct (Hf _ Hd1) as (w & Hw & Hwf & Hdec).
  exists (mk w (data2 d)). unfold with_data. rewrite Hw. split_and!; [done..|].
  rewrite !gate64_gate32, Hcom. cbn [data]. rewrite Hdec. f_equal.
  rewrite !x64_get_offset_slices. cbn [data data2]. f_equal.
  change (g_offset (gate32 w) = g_offset (gate32 (data d))). by rewrite Hdec, Hoff.
Qed.

Lemma selector64 s :
  fits 16 s → updates wf64 gate64 (λ d, set_segment_selector d s) (with_selector s).
Proof. intros Hs. by apply (lift_updates _ _ (selector32 s Hs)). Qed.

Lemma dpl64 v : fits 2 v → updates wf64 gate64 (λ d, set_dpl d v) (with_dpl v).
Proof. intros Hv. by apply (lift_updates _ _ (dpl32 v Hv)). Qed.

Lemma present64 b : updates wf64 gate64 (λ d, set_present d b) (with_present b).
Proof.
  intros d Hd. destruct (lift_updates _ _ (present32 b)) with (d := d)
    as (d' & H1 & H2); [done..|]. exists d'. split; [|done]. rewrite <-H1.
  unfold set_present, InterruptDescriptor.set_present. by destruct b.
Qed.

Lemma offset64 o :
  fits 64 o → updates wf64 gate64 (λ d, mret (set_offset d o)) (with_offset o).
Proof.
  intros Ho [w w2] [Hd1 Hd2]. cbn in Hd1, Hd2. eexists. split; [reflexivity|].
  rewrite x64_set_offset_put by done. cbn [data data2].
  rewrite InterruptDescriptor.set_offset_put by (done || apply Ho).
  split; [split; cbn [data data2]; fits_side|]. unfold gate64, with_offset.
  cbn [g_offset g_selector g_system g_type g_dpl g_present data data2].
  repeat field_step. f_equal.
  assert (slice o 0 16 + 2 ^ 16 * slice o 16 16 = slice o 0 32) as ->.
  { rewrite <-(slice_split (slice o 0 32) 16 16); [|lia|lia|by apply slice_fits].
    f_equal; [|f_equal]; apply bits_eq; intros i Hi; rewrite !slice_testbit by lia;
      destruct (Z.ltb_spec i 16); cbn [andb]; try done; decide_Z; f_equal; lia. }
  by apply (slice_split o 32 32).
Qed.

Lemma type64 ty :
  updates wf64 gate64 (λ d, set_type d ty) (with_type (hw_type64 ty)).
Proof.
  intros [w w2] [Hd1 Hd2]. cbn in Hd1, Hd2. unfold set_type, set_bit, clear_bit, with_data.
  destruct ty; cbn [data data2];
    repeat first [ rewrite InterruptDescriptor.set_bit_put by fits_side
                 | rewrite InterruptDescriptor.clear_bit_put by fits_side
                 | progress cbn [mbind result_bind mret result_ret data data2] ];
    eexists; (split; [reflexivity|]); (split; [split; cbn [data data2]; fits_side|]);
    unfold gate64, with_type;
    cbn [g_offset g_selector g_system g_type g_dpl g_present data data2 hw_type64];
    repeat field_step; rewrite ?slice_type_bits by (fits_side || lia); reflexivity.
Qed.

End Setters64.

(** The getters read what the processor reads. *)
Lemma getters32 d :
  InterruptDescriptor.get_segment_selector d = g_selector (gate32 d) ∧
  InterruptDescriptor.get_dpl d = g_dpl (gate32 d) ∧
  InterruptDescriptor.get_present d = Ok (g_present (gate32 d)) ∧
  InterruptDescriptor.get_offset d = g_offset (gate32 d).
Proof.
  split_and!; [apply InterruptDescriptor.get_segment_selector_slice
              |apply InterruptDescriptor.get_dpl_slice
              | |apply InterruptDescriptor.get_offset_slices].
  unfold InterruptDescriptor.get_present, InterruptDescriptor.PRESENT_BIT. cbn [gate32 g_present].
  by rewrite slice_bit, InterruptDescriptor.get_bit_testbit.
Qed.

Lemma getters64 d :
  X64InterruptDescriptor.get_segment_selector d = g_selector (gate64 d) ∧
  X64InterruptDescriptor.get_dpl d = g_dpl (gate64 d) ∧
  X64InterruptDescriptor.get_present d = Ok (g_present (gate64 d)) ∧
  X64InterruptDescriptor.get_offset d = g_offset (gate64 d).
Proof.
  destruct (getters32 (X64InterruptDescriptor.data d)) as (H1 & H2 & H3 & _).
  rewrite gate64_gate32. cbn [with_offset g_selector g_dpl g_present g_offset]. by split_and!.
Qed.

(** [get_type] answers the type of a gate that has one. *)
Lemma slice_type_testbit d k :
  40 <= k < 44 → Z.testbit d k = Z.testbit (slice d 40 4) (k - 40).
Proof. intros. rewrite slice_testbit by lia. decide_Z. f_equal. lia. Qed.

Lemma get_type32 d ty :
  g_type (gate32 d) = hw_type32 ty → InterruptDescriptor.get_type d = Ok ty.
Proof.
  intros H. cbn in H. unfold InterruptDescriptor.get_type.
  rewrite !InterruptDescriptor.get_bit_testbit by lia. cbn [mbind result_bind].
  rewrite (slice_type_testbit d 41), (slice_type_testbit d 40), H by lia. by destruct ty.
Qed.

Lemma get_type64 d ty :
  g_type (gate64 d) = hw_type64 ty → X64InterruptDescriptor.get_type d = Ok ty.
Proof.
  intros H. cbn in H. unfold X64InterruptDescriptor.get_type, X64InterruptDescriptor.get_bit.
  rewrite InterruptDescriptor.get_bit_testbit by lia. cbn [mbind result_bind].
  rewrite (slice_type_testbit _ 40), H by lia. by destruct ty.
Qed.

(** C32: the interrupt descriptors of both architectures and the processor agree.  For every
    selector, privilege level, offset, gate type and present flag the code can pass, each
    setter succeeds on every descriptor and changes, in the gate that the processor reads
    there, that field and no other (on i386 [set_type] also clears the system bit); each
    getter answers the field of that gate; and [get_type] answers the type that [set_type]
    wrote. *)
Theorem interrupt_descriptors_match_hardware s v o32 o64 b t32 t64 :
  fits 16 s → fits 2 v → fits 32 o32 → fits 64 o64 →
  (updates (fits 64) gate32 (λ d, InterruptDescriptor.set_segment_selector d s) (with_selector s) ∧
   updates (fits 64) gate32 (λ d, InterruptDescriptor.set_dpl d v) (with_dpl v) ∧
   updates (fits 64) gate32 (λ d, InterruptDescriptor.set_present d b) (with_present b) ∧
   updates (fits 64) gate32 (λ d, mret (InterruptDescriptor.set_offset d o32)) (with_offset o32) ∧
   updates (fits 64) gate32 (λ d, InterruptDescriptor.set_type d t32)
     (with_system_type (hw_type32 t32)) ∧
   ∀ d, InterruptDescriptor.get_segment_selector d = g_selector (gate32 d) ∧
        InterruptDescriptor.get_dpl d = g_dpl (gate32 d) ∧
        InterruptDescriptor.get_present d = Ok (g_present (gate32 d)) ∧
        InterruptDescriptor.get_offset d = g_offset (gate32 d) ∧
        (g_type (gate32 d) = hw_type32 t32 → InterruptDescriptor.get_type d = Ok t32)) ∧
  (updates wf64 gate64 (λ d, X64InterruptDescriptor.set_segment_selector d s) (with_selector s) ∧
   updates wf64 gate64 (λ d, X64InterruptDescriptor.set_dpl d v) (with_dpl v) ∧
   updates wf64 gate64 (λ d, X64InterruptDescriptor.set_present d b) (with_present b) ∧
   updates wf64 gate64 (λ d, mret (X64InterruptDescriptor.set_offset d o64)) (with_offset o64) ∧
   updates wf64 gate64 (λ d, X64InterruptDescriptor.set_type d t64) (with_type (hw_type64 t64)) ∧
   ∀ d, X64InterruptDescriptor.get_segment_selector d = g_selector (gate64 d) ∧
        X64InterruptDescriptor.get_dpl d = g_dpl (gate64 d) ∧
        X64InterruptDescriptor.get_present d = Ok (g_present (gate64 d)) ∧
        X64InterruptDescriptor.get_offset d = g_offset (gate64 d) ∧
        (g_type (gate64 d) = hw_type64 t64 → X64InterruptDescriptor.get_type d = Ok t64)).
Proof.
  intros Hs Hv Ho32 Ho64. split.
  - split_and!; [by apply selector32|by apply dpl32|apply present32|by apply offset32
                |apply type32|].
    intros d. destruct (getters32 d) as (? & ? & ? & ?). split_and!; [done..|apply get_type32].
  - split_and!; [by apply selector64|by apply dpl64|apply present64|by apply offset64
                |apply type64|].
    intros d. destruct (getters64 d) as (? & ? & ? & ?). split_and!; [done..|apply get_type64].
Qed.

(** A trap gate for the kernel's code segment on an i386 descriptor full of ones. *)
Lemma interrupt_descriptors_match_hardware_witness :
  ∃ d, InterruptDescriptor.set_segment_selector (2 ^ 64 - 1) 24 = Ok d ∧
       gate32 d = mkgate 0xFFFFFFFF 24 1 15 3 true.
Proof.
  destruct (interrupt_descriptors_match_hardware 24 0 0x101000 0x101000 true
    InterruptDescriptor.TrapGate X64InterruptDescriptor.TrapGate
    ltac:(done) ltac:(done) ltac:(done) ltac:(done)) as [[Hsel _] _].
  destruct (Hsel (2 ^ 64 - 1) ltac:(done)) as (d & Hd & _ & Hg).
  exists d. split; [exact Hd|]. rewrite Hg. vm_compute. reflexivity.
Defined.

(** ** Segment selectors *)
Definition SEGMENT_SELECTOR (INDEX TYPE RPL : Z) : Z :=
  Z.lor (Z.lor (Z.shiftl (Z.land INDEX 0xFFF) 3) (Z.shiftl (Z.land TYPE 1) 2)) (Z.land RPL 3).

Definition SEGSEL_KERNEL_TSS_IDX_LO : Z := 1.
Definition SEGSEL_KERNEL_TSS_IDX_HI : Z := 2.
Definition SEGSEL_KERNEL_CS_IDX : Z := 3.
Definition SEGSEL_KERNEL_DS_IDX : Z := 4.
Definition SEGSEL_USER_CS_IDX : Z := 5.
Definition SEGSEL_USER_DS_IDX : Z := 6.
Definition SEGSEL_TSS : Z := SEGMENT_SELECTOR SEGSEL_KERNEL_TSS_IDX_LO 0 0.
Definition SEGSEL_KERNEL_CS : Z := SEGMENT_SELECTOR SEGSEL_KERNEL_CS_IDX 0 0.
Definition SEGSEL_KERNEL_DS : Z := SEGMENT_SELECTOR SEGSEL_KERNEL_DS_IDX 0 0.

(** ** What the processor reads in a segment descriptor *)
Record segment := mksegment {
  sg_base : Z;
  sg_limit : Z;
  sg_type : Z;
  sg_code_or_data : bool;
  sg_dpl : Z;
  sg_present : bool;
  sg_long : bool;
  sg_db : bool;
  sg_granularity : bool;
}.

Definition segment_of (w : Z) : segment :=
  mksegment (slice w 16 24 + 2 ^ 24 * slice w 56 8) (slice w 0 16 + 2 ^ 16 * slice w 48 4)
    (slice w 40 4) (slice w 44 1 =? 1) (slice w 45 2) (slice w 47 1 =? 1) (slice w 53 1 =? 1)
    (slice w 54 1 =? 1) (slice w 55 1 =? 1).

(** The base of a system descriptor of 64-bit mode, which takes two entries. *)
Definition system_base (lo hi : Z) : Z := sg_base (segment_of lo) + 2 ^ 32 * slice hi 0 32.

(** ** i386::GlobalDescriptorTable *)
Module I386Gdt.

Record GlobalDescriptorTableEntry := mkentry {
  limit_0_15 : Z;
  base_0_15 : Z;
  base_16_23 : Z;
  access : Z;
  limit_16_19 : Z;
  flags : Z;
  base_24_31 : Z;
}.

(** The eight bytes of an entry: fields in order, low bits first. *)
Definition word (e : GlobalDescriptorTableEntry) : Z :=
  pack [(16, limit_0_15 e); (16, base_0_15 e); (8, base_16_23 e); (8, access e);
        (4, limit_16_19 e); (4, flags e); (8, base_24_31 e)].

Definition zeroed : GlobalDescriptorTableEntry := mkentry 0 0 0 0 0 0 0.

(** Every field of [*this] is written. *)
Definition init (base limit : Z) (gr sz pr : bool) (privl : Z) (ex dc rw ac : bool)
  : GlobalDescriptorTableEntry :=
  let access := uwrap 8 (Z.lor (Z.lor (Z.lor (Z.lor (Z.lor (Z.lor
                  (Z.shiftl (Z.b2z pr) 7)
                  (uwrap 32 (Z.shiftl (Z.land privl 3) 5)))
                  (Z.shiftl (if pr then 1 else 0) 4))
                  (Z.shiftl (Z.b2z ex) 3))
                  (Z.shiftl (Z.b2z dc) 2))
                  (Z.shiftl (Z.b2z rw) 1))
                  (Z.b2z ac)) in
  let flags := uwrap 8 (Z.lor (Z.shiftl (Z.b2z gr) 3) (Z.shiftl (Z.b2z sz) 2)) in
  mkentry (uwrap 16 (Z.land limit 0x0000FFFF))
    (uwrap 16 (Z.land base 0x0000FFFF))
    (uwrap 8 (Z.shiftr (Z.land base 0x00FF0000) 16))
    access
    (uwrap 4 (Z.shiftr (Z.land limit 0x000F0000) 16))
    (uwrap 4 flags)
    (uwrap 8 (Z.shiftr (Z.land base 0xFF000000) 24)).

Definition with_access (e : GlobalDescriptorTableEntry) (a : Z) : GlobalDescriptorTableEntry :=
  mkentry (limit_0_15 e) (base_0_15 e) (base_16_23 e) a (limit_16_19 e) (flags e) (base_24_31 e).

Definition set_entry (es : list GlobalDescriptorTableEntry) (i : Z)
    (e : GlobalDescriptorTableEntry) : list GlobalDescriptorTableEntry :=
  <[Z.to_nat i := e]> es.

(** [memset] clears the seven entries first. *)
Definition establish_flat_mapping (tss : Z) : list GlobalDescriptorTableEntry :=
  let entries := replicate 7 zeroed in
  let entries := set_entry entries 0
    (init 0x00000000 0x00000000 false false false 0 false false false false) in
  let entries := set_entry entries SEGSEL_KERNEL_TSS_IDX_LO
    (with_access (init (uwrap 32 tss) 0x67 false false true 0 true false false true) 0x89) in
  let entries := set_entry entries SEGSEL_KERNEL_CS_IDX
    (init 0x00000000 0x000fffff true true true 0 true false true true) in
  let entries := set_entry entries SEGSEL_KERNEL_DS_IDX
    (init 0x00000000 0x000fffff true true true 0 false false true true) in
  let entries := set_entry entries SEGSEL_USER_CS_IDX
    (init 0x00000000 0x000fffff true true true 3 true false true true) in
  set_entry entries SEGSEL_USER_DS_IDX
    (init 0x00000000 0x000fffff true true true 3 false false true false).

(** *** What the processor reads in an entry that [init] writes *)
Lemma slice_word e :
  fits 16 (limit_0_15 e) → fits 16 (base_0_15 e) → fits 8 (base_16_23 e) → fits 8 (access e) →
  fits 4 (limit_16_19 e) → fits 4 (flags e) → fits 8 (base_24_31 e) →
  segment_of (word e)
  = mksegment (base_0_15 e + 2 ^ 16 * base_16_23 e + 2 ^ 24 * base_24_31 e)
      (limit_0_15 e + 2 ^ 16 * limit_16_19 e) (slice (access e) 0 4) (slice (access e) 4 1 =? 1)
      (slice (access e) 5 2) (slice (access e) 7 1 =? 1) (slice (flags e) 1 1 =? 1)
      (slice (flags e) 2 1 =? 1) (slice (flags e) 3 1 =? 1).
Proof.
  destruct e as [l0 b0 b1 a l1 f b2]. unfold segment_of, word. cbn [limit_0_15 base_0_15
    base_16_23 access limit_16_19 flags base_24_31 pack]. rewrite Z.mul_0_r, Z.add_0_r.
  intros Hl0 Hb0 Hb1 Ha Hl1 Hf Hb2.
  assert (∀ y, slice (b0 + 2 ^ 16 * (b1 + 2 ^ 8 * y)) 0 24 = b0 + 2 ^ 16 * b1) as Hbase.
  { intros y. replace (b0 + 2 ^ 16 * (b1 + 2 ^ 8 * y)) with (b0 + 2 ^ 16 * b1 + 2 ^ 24 * y) by lia.
    assert (fits 24 (b0 + 2 ^ 16 * b1)) by (unfold fits in *; lia).
    rewrite slice_low by (done || lia). by apply slice_all. }
  rewrite (slice_high l0 _ 16 16 24) by (done || lia). change (16 - 16) with 0. rewrite Hbase.
  repeat pack_step. rewrite !slice_all by (done || lia).
  reflexivity.
Qed.

Definition entry_fits (e : GlobalDescriptorTableEntry) : Prop :=
  fits 16 (limit_0_15 e) ∧ fits 16 (base_0_15 e) ∧ fits 8 (base_16_23 e) ∧ fits 8 (access e) ∧
  fits 4 (limit_16_19 e) ∧ fits 4 (flags e) ∧ fits 8 (base_24_31 e).

Lemma init_fields base limit gr sz pr privl ex dc rw ac :
  fits 32 base → fits 20 limit →
  let e := init base limit gr sz pr privl ex dc rw ac in
  entry_fits e ∧ base_0_15 e + 2 ^ 16 * base_16_23 e + 2 ^ 24 * base_24_31 e = base ∧
  limit_0_15 e + 2 ^ 16 * limit_16_19 e = limit.
Proof.
  intros Hb Hl e.
  assert (base_0_15 e = slice base 0 16) as E1.
  { apply uwrap_small, (slice_fits base 0 16); lia. }
  assert (limit_0_15 e = slice limit 0 16) as E2.
  { apply uwrap_small, (slice_fits limit 0 16); lia. }
  assert (base_16_23 e = slice base 16 8) as E3.
  { cbn. change 0x00FF0000 with (Z.shiftl (Z.ones 8) 16).
    rewrite InterruptDescriptor.masked_slice by lia. apply uwrap_small, slice_fits; lia. }
  assert (base_24_31 e = slice base 24 8) as E4.
  { cbn. change 0xFF000000 with (Z.shiftl (Z.ones 8) 24).
    rewrite InterruptDescriptor.masked_slice by lia. apply uwrap_small, slice_fits; lia. }
  assert (limit_16_19 e = slice limit 16 4) as E5.
  { cbn. change 0x000F0000 with (Z.shiftl (Z.ones 4) 16).
    rewrite InterruptDescriptor.masked_slice by lia. apply uwrap_small, slice_fits; lia. }
  split_and!.
  - unfold entry_fits. split_and!; cbn; apply uwrap_fits; lia.
  - rewrite E1, E3, E4. unfold slice. rewrite !Z.land_ones, !Z.shiftr_div_pow2 by lia.
    unfold fits in Hb. Z.to_euclidean_division_equations; lia.
  - rewrite E2, E5. apply (slice_split limit 16 4); (done || lia).
Qed.

Lemma init_segment base limit gr sz pr privl ex dc rw ac :
  fits 32 base → fits 20 limit → fits 2 privl →
  segment_of (word (init base limit gr sz pr privl ex dc rw ac))
  = mksegment base limit (8 * Z.b2z ex + 4 * Z.b2z dc + 2 * Z.b2z rw + Z.b2z ac) pr privl pr
      false sz gr.
Proof.
  intros Hb Hl Hp.
  destruct (init_fields base limit gr sz pr privl ex dc rw ac Hb Hl)
    as ((?&?&?&?&?&?&?) & Hbase & Hlimit).
  rewrite slice_word, Hbase, Hlimit by done.
  assert (privl = 0 ∨ privl = 1 ∨ privl = 2 ∨ privl = 3) as Hc by (unfold fits in Hp; lia).
  destruct Hc as [->|[->|[->| ->]]]; destruct pr, ex, dc, rw, ac, gr, sz; reflexivity.
Qed.

(** The entry of the task state segment, whose access byte is written afterwards. *)
Lemma tss_segment base :
  fits 32 base →
  segment_of (word (with_access (init base 0x67 false false true 0 true false false true) 0x89))
  = mksegment base 0x67 9 false 0 true false false false.
Proof.
  intros Hb. destruct (init_fields base 0x67 false false true 0 true false false true Hb)
    as ((?&?&?&?&?&?&?) & Hbase & Hlimit); [done|].
  rewrite slice_word by done.
  cbn [with_access base_0_15 base_16_23 base_24_31 limit_0_15 limit_16_19 access flags].
  rewrite Hbase, Hlimit. reflexivity.
Qed.

End I386Gdt.

(** ** x86_64::GlobalDescriptorTable *)
Module X64Gdt.

Definition GDT_D_BIT : Z := 0.
Definition GDT_L_BIT : Z := 1.
Definition GDT_TYPE_DATA_READ_WRITE : Z := 2.
Definition GDT_TYPE_CODE_EXECUTE_READ : Z := 10.
Definition GDT_TYPE_TSS_DESCRIPTOR : Z := 9.

(** [((GlobalDescriptorTableEntry)(V) & MASK) << SHIFT] *)
Definition field (v mask shift : Z) : Z := uwrap 64 (Z.shiftl (Z.land v mask) shift).

Definition DECLARE_GDT_ENTRY (BASE LIMIT G DB L AVL P DPL S TYPE : Z) : Z :=
  Z.lor (Z.lor (Z.lor (Z.lor (Z.lor (Z.lor (Z.lor (Z.lor (Z.lor (Z.lor (Z.lor
    (field (Z.shiftr BASE 24) 0xFF 56)
    (field G 0x1 55))
    (field DB 0x1 54))
    (field L 0x1 53))
    (field AVL 0x1 52))
    (field (Z.shiftr LIMIT 16) 0xF 48))
    (field P 0x1 47))
    (field DPL 0x3 45))
    (field S 0x1 44))
    (field TYPE 0xf 40))
    (field BASE 0xFFF 16))
    (Z.land LIMIT 0xFFFF).

Definition DECLARE_GDT_TSS_ENTRY_LO (BASE LIMIT AVL DPL G P TYPE : Z) : Z :=
  Z.lor (Z.lor (Z.lor (Z.lor (Z.lor (Z.lor (Z.lor (Z.lor
    (field (Z.shiftr BASE 24) 0xFF 56)
    (field G 0x1 55))
    (field AVL 0x1 52))
    (field (Z.shiftr LIMIT 16) 0xF 48))
    (field P 0x1 47))
    (field DPL 0x3 45))
    (field TYPE 0xf 40))
    (field BASE 0xFFF 16))
    (Z.land LIMIT 0xFFFF).

Definition DECLARE_GDT_TSS_ENTRY_HI (BASE : Z) : Z := Z.land (Z.shiftr BASE 32) 0xFFFFFFFF.

Definition set_entry (es : list Z) (i e : Z) : list Z := <[Z.to_nat i := e]> es.

Definition sizeof_TaskStateSegment : Z := 0x68.

(** [memset] clears the seven entries first. *)
Definition init (tss : Z) : list Z :=
  let entries := replicate 7 0 in
  let entries := set_entry entries SEGSEL_KERNEL_TSS_IDX_LO
    (DECLARE_GDT_TSS_ENTRY_LO tss (sizeof_TaskStateSegment - 1) 0 0 0 1 GDT_TYPE_TSS_DESCRIPTOR) in
  let entries := set_entry entries SEGSEL_KERNEL_TSS_IDX_HI (DECLARE_GDT_TSS_ENTRY_HI tss) in
  let entries := set_entry entries SEGSEL_KERNEL_CS_IDX
    (DECLARE_GDT_ENTRY 0 0xFFFFF 1 GDT_D_BIT GDT_L_BIT 0 1 0 1 GDT_TYPE_CODE_EXECUTE_READ) in
  let entries := set_entry entries SEGSEL_KERNEL_DS_IDX
    (DECLARE_GDT_ENTRY 0 0xFFFFF 1 GDT_D_BIT GDT_L_BIT 0 1 0 1 GDT_TYPE_DATA_READ_WRITE) in
  let entries := set_entry entries SEGSEL_USER_CS_IDX
    (DECLARE_GDT_ENTRY 0 0xFFFFF 1 GDT_D_BIT GDT_L_BIT 0 1 3 1 GDT_TYPE_CODE_EXECUTE_READ) in
  set_entry entries SEGSEL_USER_DS_IDX
    (DECLARE_GDT_ENTRY 0 0xFFFFF 1 GDT_D_BIT GDT_L_BIT 0 1 3 1 GDT_TYPE_DATA_READ_WRITE).

(** *** The descriptor of the task state segment *)
Lemma tss_entry_lo_pack tss :
  fits 64 tss →
  DECLARE_GDT_TSS_ENTRY_LO tss (sizeof_TaskStateSegment - 1) 0 0 0 1 GDT_TYPE_TSS_DESCRIPTOR
  = 0x67 + 2 ^ 16 * (slice tss 0 12 + 2 ^ 24 * (0x89 + 2 ^ 16 * slice tss 24 8)).
Proof.
  intros Ht. unfold DECLARE_GDT_TSS_ENTRY_LO.
  change (field (Z.shiftr tss 24) 0xFF 56) with (uwrap 64 (Z.shiftl (slice tss 24 8) 56)).
  change (field tss 0xFFF 16) with (uwrap 64 (Z.shiftl (slice tss 0 12) 16)).
  change (field 0 0x1 55) with 0. change (field 0 0x1 52) with 0. change (field 0 0x3 45) with 0.
  change (field (Z.shiftr (sizeof_TaskStateSegment - 1) 16) 0xF 48) with 0.
  change (field 1 0x1 47) with (Z.shiftl 0x80 40).
  change (field GDT_TYPE_TSS_DESCRIPTOR 0xf 40) with (Z.shiftl 0x9 40).
  change (Z.land (sizeof_TaskStateSegment - 1) 0xFFFF) with 0x67.
  pose proof (slice_fits tss 24 8 ltac:(lia) ltac:(lia)) as H8.
  pose proof (slice_fits tss 0 12 ltac:(lia) ltac:(lia)) as H12.
  rewrite !Z.lor_0_r, <-!Z.lor_assoc.
  rewrite (Z.lor_assoc (Z.shiftl 0x80 40)), <-Z.shiftl_lor. change (Z.lor 0x80 0x9) with 0x89.
  rewrite !uwrap_small by (unfold fits in *; rewrite Z.shiftl_mul_pow2 by lia; lia).
  rewrite (InterruptDescriptor.join_fields 0x67 (slice tss 0 12) 16) by done.
  rewrite (InterruptDescriptor.join_fields _ 0x89 40) by (lia || (unfold fits in *; lia)).
  rewrite InterruptDescriptor.join_fields by (lia || (unfold fits in *; lia)). lia.
Qed.

Lemma tss_entry_lo_segment tss :
  fits 64 tss →
  segment_of (DECLARE_GDT_TSS_ENTRY_LO tss (sizeof_TaskStateSegment - 1) 0 0 0 1
                GDT_TYPE_TSS_DESCRIPTOR)
  = mksegment (slice tss 0 12 + 2 ^ 24 * slice tss 24 8) 0x67 9 false 0 true false false false.
Proof.
  intros Ht. rewrite tss_entry_lo_pack by done.
  pose proof (slice_fits tss 24 8 ltac:(lia) ltac:(lia)) as H8.
  assert (fits 24 (slice tss 0 12)) as H24.
  { eapply fits_mono, slice_fits; lia. }
  assert (fits 16 0x67) by done. assert (fits 16 0x89) by done.
  unfold segment_of. repeat pack_step.
  rewrite (slice_all (slice tss 0 12) 24), (slice_all (slice tss 24 8) 8) by (done || lia).
  reflexivity.
Qed.

(** The processor finds the base without its bits 12 to 23. *)
Lemma tss_base tss :
  fits 64 tss →
  system_base (DECLARE_GDT_TSS_ENTRY_LO tss (sizeof_TaskStateSegment - 1) 0 0 0 1
                 GDT_TYPE_TSS_DESCRIPTOR) (DECLARE_GDT_TSS_ENTRY_HI tss)
  = tss - 2 ^ 12 * slice tss 12 12.
Proof.
  intros Ht. unfold system_base. rewrite tss_entry_lo_segment by done. cbn [sg_base].
  change (DECLARE_GDT_TSS_ENTRY_HI tss) with (slice tss 32 32).
  rewrite (slice_all (slice tss 32 32) 32) by (lia || (apply slice_fits; lia)).
  unfold slice. rewrite !Z.land_ones, !Z.shiftr_div_pow2 by lia. unfold fits in Ht.
  Z.to_euclidean_division_equations; lia.
Qed.

End X64Gdt.

(** ** Task state segments *)
Module TaskStateSegment.

(** A structure in memory: its members in order, each with its width in bits. *)
Definition layout : Type := list (string * Z).

Definition i386_layout : layout :=
  [("link", 16); ("link_h", 16);
   ("esp0", 32); ("ss0", 16); ("ss0_h", 16);
   ("esp1", 32); ("ss1", 16); ("ss1_h", 16);
   ("esp2", 32); ("ss2", 16); ("ss2_h", 16);
   ("cr3", 32); ("eip", 32); ("eflags", 32);
   ("eax", 32); ("ecx", 32); ("edx", 32); ("ebx", 32);
   ("esp", 32); ("ebp", 32); ("esi", 32); ("edi", 32);
   ("es", 16); ("es_h", 16); ("cs", 16); ("cs_h", 16); ("ss", 16); ("ss_h", 16);
   ("ds", 16); ("ds_h", 16); ("fs", 16); ("fs_h", 16); ("gs", 16); ("gs_h", 16);
   ("ldt", 16); ("ldt_h", 16); ("trap", 16); ("iomap", 16)]%string.

(** [__attribute__((packed))]. *)
Definition x64_layout : layout :=
  [("reserved0", 32); ("rsp0", 64); ("rsp1", 64); ("rsp2", 64); ("reserved1", 64);
   ("ist1", 64); ("ist2", 64); ("ist3", 64); ("ist4", 64); ("ist5", 64); ("ist6", 64);
   ("ist7", 64); ("reserved2", 64); ("reserved3", 16); ("io_map_base_address", 16)]%string.

Definition t : Type := list (string * Z * Z).

(** In bytes. *)
Definition size_of (l : layout) : Z := foldr (λ f n, f.2 / 8 + n) 0 l.

Definition clear (l : layout) : t := (λ f, (f, 0)) <$> l.

Definition assign (name : string) (v : Z) (s : t) : t :=
  (λ f, if bool_decide (f.1.1 = name) then (f.1, uwrap f.1.2 v) else f) <$> s.

(** The bytes of the structure, as one number. *)
Definition members (s : t) : list (Z * Z) := (λ f, (f.1.2, f.2)) <$> s.

Definition image (s : t) : Z := pack (members s).

Definition members_fit (fs : list (Z * Z)) : Prop :=
  Forall (λ f : Z * Z, 0 <= f.1 ∧ fits f.1 f.2) fs.

Lemma image_member s fs k lo n v :
  members s = fs → fs !! k = Some (n, v) → members_fit (take (S k) fs) →
  width_of (take k fs) = lo → slice (image s) lo n = v.
Proof.
  intros <- Hk Hfit <-. unfold image. rewrite <-(take_drop_middle _ _ _ Hk) at 1.
  apply slice_pack. by rewrite <-take_S_r.
Qed.

End TaskStateSegment.

(** ** HardwareTaskConfiguration *)
Module HardwareTaskConfiguration.
Import TaskStateSegment.

(** The processor after [init]: the table its GDTR points to, with the limit, the selector
    in its task register, and the task state segment in memory. *)
Record t := mk { gdt : list Z; gdt_limit : Z; task_register : Z; tss : TaskStateSegment.t }.

(** [sizeof(entries) - 1] *)
Definition load (entries : list Z) : Z := 8 * Z.of_nat (length entries) - 1.

Definition i386_init (tss_address istack : Z) : t :=
  let tss := clear i386_layout in
  let tss := assign "ss0" SEGSEL_KERNEL_DS tss in
  let tss := assign "esp0" istack tss in
  let tss := assign "iomap" (size_of i386_layout) tss in
  let entries := I386Gdt.word <$> I386Gdt.establish_flat_mapping tss_address in
  mk entries (load entries) SEGSEL_TSS tss.

Definition x64_init (tss_address rsp0 : Z) : t :=
  let tss := clear x64_layout in
  let tss := assign "rsp0" rsp0 tss in
  let tss := assign "io_map_base_address" (size_of x64_layout) tss in
  let entries := X64Gdt.init tss_address in
  mk entries (load entries) SEGSEL_TSS tss.

(** The entry of the table that a selector names, when it lies inside the limit. *)
Definition selected (c : t) (selector : Z) : option Z :=
  if 8 * (selector / 8) + 7 <=? gdt_limit c then gdt c !! Z.to_nat (selector / 8) else None.

(** The [n] bits at a byte offset of the task state segment. *)
Definition tss_read (c : t) (byte n : Z) : Z := slice (image (tss c)) (8 * byte) n.

Definition i386_members (istack : Z) : list (Z * Z) :=
  Eval cbv -[uwrap] in members (tss (i386_init 0 istack)).

Definition x64_members (rsp0 : Z) : list (Z * Z) :=
  Eval cbv -[uwrap] in members (tss (x64_init 0 rsp0)).

Lemma i386_members_eq a istack : members (tss (i386_init a istack)) = i386_members istack.
Proof. reflexivity. Qed.

Lemma x64_members_eq a rsp0 : members (tss (x64_init a rsp0)) = x64_members rsp0.
Proof. reflexivity. Qed.

Ltac members_fit :=
  unfold members_fit, i386_members, x64_members; cbn [take];
  repeat (apply Forall_cons; split); try apply Forall_nil; try done; split; cbn; (done || lia).

Lemma i386_tss a istack :
  fits 32 istack →
  tss_read (i386_init a istack) 4 32 = istack ∧
  tss_read (i386_init a istack) 8 16 = SEGSEL_KERNEL_DS ∧
  tss_read (i386_init a istack) 102 16 = 104.
Proof.
  intros Hi. pose proof (uwrap_fits 32 istack ltac:(lia)) as [? ?].
  unfold tss_read. rewrite <-(uwrap_small 32 istack Hi) at 2. split_and!.
  - apply (image_member _ _ 2 _ _ _ (i386_members_eq a istack)); [reflexivity|members_fit|reflexivity].
  - apply (image_member _ _ 3 _ _ _ (i386_members_eq a istack)); [reflexivity|members_fit|reflexivity].
  - apply (image_member _ _ 37 _ _ _ (i386_members_eq a istack)); [reflexivity|members_fit|reflexivity].
Qed.

Lemma x64_tss a rsp0 :
  fits 64 rsp0 →
  tss_read (x64_init a rsp0) 4 64 = rsp0 ∧ tss_read (x64_init a rsp0) 102 16 = 104.
Proof.
  intros Hi. pose proof (uwrap_fits 64 rsp0 ltac:(lia)) as [? ?].
  unfold tss_read. rewrite <-(uwrap_small 64 rsp0 Hi) at 2. split_and!.
  - apply (image_member _ _ 1 _ _ _ (x64_members_eq a rsp0)); [reflexivity|members_fit|reflexivity].
  - apply (image_member _ _ 14 _ _ _ (x64_members_eq a rsp0)); [reflexivity|members_fit|reflexivity].
Qed.

End HardwareTaskConfiguration.

(** A flat segment: from 0 to the end of the address space, in units of 4 KB. *)
Definition flat (type dpl : Z) (long db : bool) : segment :=
  mksegment 0 0xFFFFF type true dpl true long db true.


