(* ===== verification/Interrupts.v ===== *)
(** * Interrupts: from the interrupt controller to the handlers

    Models [ProgrammableInterruptController] (src/Kernel/src/platform/pc/pic.cpp),
    [GenericHardwareInterruptController], [GenericInterruptDispatcher],
    [GenericInterruptController], [GenericDeviceDrivers], [SimpleDeviceInterruptHandler] and
    [PITTimerDevice], over the keyboard driver, the scheduler and the interrupt descriptors.

    The I/O ports are seen through the history of accesses: what a port answers, [device],
    is a parameter that may depend on it.  The addresses of the service routines are a
    parameter too.  A handler that yields may continue another thread: the rest of the
    dispatch then runs when the interrupted flow gets the CPU back, so [dispatch] says
    whether it returned or switched away. *)
From S2P Require Import Prelude Storage RingBuffer LineEditor.
From S2P Require Import Keyboard Scheduler PageEntries Descriptors.

(** ** I/O ports *)
Inductive io := In (port value : Z) | Out (port value : Z).

#[global] Instance io_eq_dec : EqDecision io.
Proof. solve_decision. Defined.

Definition outb (h : list io) (port value : Z) : list io := h ++ [Out port value].

Definition inb (device : list io → Z → Z) (h : list io) (port : Z) : Z * list io :=
  let v := device h port in (v, h ++ [In port v]).

(** ** ProgrammableInterruptController *)
Module Pic.

Definition PIC1 : Z := 0x20.
Definition PIC2 : Z := 0xA0.
Definition PIC1_COMMAND : Z := PIC1.
Definition PIC1_DATA : Z := PIC1 + 1.
Definition PIC2_COMMAND : Z := PIC2.
Definition PIC2_DATA : Z := PIC2 + 1.
Definition ICW1_ICW4 : Z := 0x01.
Definition ICW1_INIT : Z := 0x10.
Definition ICW4_8086 : Z := 0x01.
Definition PIC_READ_ISR : Z := 0x0b.
Definition PIC_EOI : Z := 0x20.

Section Pic.
Context (device : list io → Z → Z).

Definition remap (h : list io) (master_base slave_base : Z) : list io :=
  let '(a1, h) := inb device h PIC1_DATA in
  let '(a2, h) := inb device h PIC2_DATA in
  let h := outb h PIC1_COMMAND (ICW1_INIT + ICW1_ICW4) in
  let h := outb h PIC1_DATA master_base in
  let h := outb h PIC1_DATA 4 in
  let h := outb h PIC1_DATA ICW4_8086 in
  let h := outb h PIC2_COMMAND (ICW1_INIT + ICW1_ICW4) in
  let h := outb h PIC2_DATA slave_base in
  let h := outb h PIC2_DATA 2 in
  let h := outb h PIC2_DATA ICW4_8086 in
  let h := outb h PIC1_DATA a1 in
  outb h PIC2_DATA a2.

Definition init (h : list io) : list io := remap h 0x20 0x28.

(** The operands of [|] are read from left to right. *)
Definition get_isr (h : list io) : Z * list io :=
  let h := outb h PIC1_COMMAND PIC_READ_ISR in
  let h := outb h PIC2_COMMAND PIC_READ_ISR in
  let '(slave, h) := inb device h PIC2_COMMAND in
  let '(master, h) := inb device h PIC1_COMMAND in
  (uwrap 16 (Z.lor (Z.shiftl slave 8) master), h).

(** Whether the interrupt was spurious. *)
Definition clear (h : list io) (interrupt_number : Z) : bool * list io :=
  let irq := uwrap 32 (interrupt_number - 0x20) in
  let '(isr, h) := get_isr h in
  if (irq =? 7) && (Z.land isr (Z.shiftl 1 irq) =? 0) then (true, h)
  else
    let h := if 8 <=? irq then outb h PIC2 PIC_EOI else h in
    (false, outb h PIC1 PIC_EOI).

End Pic.

(** The accesses that read the in-service registers. *)
Definition isr_accesses (slave master : Z) : list io :=
  [Out PIC1 PIC_READ_ISR; Out PIC2 PIC_READ_ISR; In PIC2 slave; In PIC1 master].

(** An IRQ is a vector above 0x20; the number of a processor exception wraps to a large
    one. *)
Lemma irq_of_vector n :
  0 <= n < 256 → uwrap 32 (n - 0x20) = if n <? 0x20 then n - 0x20 + 2 ^ 32 else n - 0x20.
Proof.
  intros Hn. unfold uwrap. destruct (Z.ltb_spec n 0x20).
  - symmetry. apply (Z.mod_unique _ _ (-1)); lia.
  - apply Z.mod_small. lia.
Qed.

(** What [clear] does with every vector: it reads the in-service registers; vector 0x27 is
    spurious when the master has no interrupt of line 7 in service, and is then not
    acknowledged; otherwise the master gets an end of interrupt, and before it the slave
    unless the vector is one of the master's. *)
Lemma clear_spec device h n :
  0 <= n < 256 → (∀ h p, fits 8 (device h p)) →
  ∃ slave master, fits 8 slave ∧ fits 8 master ∧
    clear device h n
    = (bool_decide (n = 0x27 ∧ Z.testbit master 7 = false),
       h ++ isr_accesses slave master
         ++ (if bool_decide (n = 0x27 ∧ Z.testbit master 7 = false) then []
             else (if bool_decide (0x20 <= n < 0x28) then [] else [Out PIC2 PIC_EOI])
                  ++ [Out PIC1 PIC_EOI])).
Proof.
  intros Hn Hdev. unfold clear, get_isr, inb, outb. cbn [fst snd].
  set (slave := device _ PIC2_COMMAND). set (master := device _ PIC1_COMMAND).
  exists slave, master. split; [apply Hdev|]. split; [apply Hdev|].
  assert (Z.testbit (uwrap 16 (Z.lor (Z.shiftl slave 8) master)) 7 = Z.testbit master 7) as Hbit.
  { rewrite uwrap_testbit, Z.lor_spec, shiftl_testbit by lia.
    by rewrite (Z.testbit_neg_r slave) by lia. }
  rewrite irq_of_vector by done.
  assert ((((if n <? 0x20 then n - 0x20 + 2 ^ 32 else n - 0x20) =? 7) &&
           (Z.land (uwrap 16 (Z.lor (Z.shiftl slave 8) master))
              (Z.shiftl 1 (if n <? 0x20 then n - 0x20 + 2 ^ 32 else n - 0x20)) =? 0))
          = bool_decide (n = 0x27 ∧ Z.testbit master 7 = false)) as ->.
  { destruct (Z.ltb_spec n 0x20); destruct (Z.eqb_spec n 0x27) as [->|]; try lia.
    - decide_Z. cbn. symmetry. apply bool_decide_eq_false. lia.
    - change (0x27 - 0x20) with 7. rewrite Z.eqb_refl, land_bit_eqb, Hbit by lia. cbn [andb].
      destruct (Z.testbit master 7); cbn [negb].
      + symmetry. apply bool_decide_eq_false. by intros [_ ?].
      + symmetry. by apply bool_decide_eq_true.
    - decide_Z. symmetry. apply bool_decide_eq_false. lia. }
  assert ((8 <=? (if n <? 0x20 then n - 0x20 + 2 ^ 32 else n - 0x20))
          = negb (bool_decide (0x20 <= n < 0x28))) as ->.
  { destruct (Z.ltb_spec n 0x20); decide_Z.
    - rewrite bool_decide_false by lia. done.
    - destruct (Z.ltb_spec n 0x28); decide_Z;
        [by rewrite bool_decide_true by lia|by rewrite bool_decide_false by lia]. }
  destruct (bool_decide (n = 0x27 ∧ Z.testbit master 7 = false)).
  - by rewrite app_nil_r, <-!app_assoc.
  - destruct (bool_decide (0x20 <= n < 0x28)); cbn [negb]; by rewrite <-!app_assoc.
Qed.

End Pic.

(** ** GenericHardwareInterruptController

    What the template asks of its policy: the descriptor and the type of its offset.  The
    laws say what the processor reads in a descriptor after each setter. *)
Class GatePolicy (D : Type) := {
  gp_zero : D;
  gp_offset_width : Z;
  gp_size : Z;
  gp_set_present : D → bool → result D;
  gp_set_offset : D → Z → result D;
  gp_set_dpl : D → Z → result D;
  gp_set_segment_selector : D → Z → result D;
  gp_set_trap_gate : D → result D;
  gp_wf : D → Prop;
  gp_gate : D → gate;
}.

Definition absent : gate := mkgate 0 0 0 0 0 false.

Class GatePolicyLaws (D : Type) `{GatePolicy D} := {
  gp_width : 0 <= gp_offset_width (D := D);
  gp_size_pos : 0 < gp_size (D := D);
  gp_zero_law : gp_wf gp_zero ∧ gp_gate gp_zero = absent;
  gp_present_law b : updates gp_wf gp_gate (λ d, gp_set_present d b) (with_present b);
  gp_offset_law o : fits (gp_offset_width (D := D)) o →
    updates gp_wf gp_gate (λ d, gp_set_offset d o) (with_offset o);
  gp_dpl_law v : fits 2 v → updates gp_wf gp_gate (λ d, gp_set_dpl d v) (with_dpl v);
  gp_selector_law s : fits 16 s →
    updates gp_wf gp_gate (λ d, gp_set_segment_selector d s) (with_selector s);
  gp_trap_law d : gp_wf d → ∃ d', gp_set_trap_gate d = Ok d' ∧ gp_wf d' ∧
    (g_system (gp_gate d) = 0 → gp_gate d' = with_type 15 (gp_gate d));
}.

#[global] Instance i386_gates : GatePolicy Z := {|
  gp_zero := 0;
  gp_offset_width := 32;
  gp_size := 8;
  gp_set_present := InterruptDescriptor.set_present;
  gp_set_offset d o := mret (InterruptDescriptor.set_offset d o);
  gp_set_dpl := InterruptDescriptor.set_dpl;
  gp_set_segment_selector := InterruptDescriptor.set_segment_selector;
  gp_set_trap_gate d := InterruptDescriptor.set_type d InterruptDescriptor.TrapGate;
  gp_wf := fits 64;
  gp_gate := gate32;
|}.

#[global] Instance x64_gates : GatePolicy X64InterruptDescriptor.t := {|
  gp_zero := X64InterruptDescriptor.mk 0 0;
  gp_offset_width := 64;
  gp_size := 16;
  gp_set_present := X64InterruptDescriptor.set_present;
  gp_set_offset d o := mret (X64InterruptDescriptor.set_offset d o);
  gp_set_dpl := X64InterruptDescriptor.set_dpl;
  gp_set_segment_selector := X64InterruptDescriptor.set_segment_selector;
  gp_set_trap_gate d := X64InterruptDescriptor.set_type d X64InterruptDescriptor.TrapGate;
  gp_wf := wf64;
  gp_gate := gate64;
|}.

#[global] Instance i386_gates_laws : GatePolicyLaws Z.
Proof.
  split; [done|done|done|apply present32|apply offset32|apply dpl32|apply selector32|].
  intros d Hd. destruct (type32 InterruptDescriptor.TrapGate d Hd) as (d' & H1 & H2 & H3).
  exists d'. split_and!; [done..|]. cbn [gp_gate i386_gates]. intros Hs. rewrite H3.
  unfold with_type, with_system_type. by rewrite Hs.
Qed.

#[global] Instance x64_gates_laws : GatePolicyLaws X64InterruptDescriptor.t.
Proof.
  split; [done|done|done|apply present64|apply offset64|apply dpl64|apply selector64|].
  intros d Hd. destruct (type64 X64InterruptDescriptor.TrapGate d Hd) as (d' & H1 & H2 & H3).
  by exists d'.
Qed.

Module HardwareInterruptController.

(** The table in memory, and the limit that [lidt] loads with its address. *)
Record t (D : Type) := mk { entries : list D; idt_limit : Z }.
Arguments mk {D} _ _.
Arguments entries {D} _.
Arguments idt_limit {D} _.

Definition MAX_ENTRIES : nat := 256.

Section Controller.
Context {D : Type} `{GatePolicy D}.
Context (device : list io → Z → Z) (isr_wrapper : Z → Z) (on_interrupt_during_panic : Z).

(** [idt_.clear()] *)
Definition clear_idt : list D := replicate MAX_ENTRIES gp_zero.

(** [idt_.load()] *)
Definition load_idt (es : list D) : t D := mk es (gp_size (D := D) * Z.of_nat (length es) - 1).

Definition build_idt_entry (entry : D) (offset : Z) : result D :=
  entry ← gp_set_present entry true;
  entry ← gp_set_offset entry (uwrap (gp_offset_width (D := D)) offset);
  entry ← gp_set_dpl entry 0;
  entry ← gp_set_segment_selector entry SEGSEL_KERNEL_CS;
  gp_set_trap_gate entry.

(** The calls of [build_idt_entry] for the vectors [vs], in order. *)
Fixpoint build_entries (vs : list Z) (handler : Z → Z) (es : list D) : result (list D) :=
  match vs with
  | [] => mret es
  | v :: vs =>
      e ← deref InvalidAccess (es !! Z.to_nat v);
      e ← build_idt_entry e (handler v);
      build_entries vs handler (<[Z.to_nat v := e]> es)
  end.

(** The vectors that have a service routine: the reserved ones are left out. *)
Definition vectors : list Z := seqZ 0 15 ++ seqZ 16 4 ++ seqZ 32 224.

Definition build_idt_for_panic_context (es : list D) : result (list D) :=
  build_entries (seqZ 0 256) (λ _, on_interrupt_during_panic) es.

Definition build_idt_for_normal_kernel (es : list D) : result (list D) :=
  build_entries vectors isr_wrapper es.

Definition build_idt (is_panic_context : bool) (es : list D) : result (list D) :=
  if is_panic_context then build_idt_for_panic_context es else build_idt_for_normal_kernel es.

Definition init (h : list io) (is_panic_context : bool) : result (t D * list io) :=
  let h := Pic.init device h in
  es ← build_idt is_panic_context clear_idt;
  mret (load_idt es, h).

Definition clear (h : list io) (interrupt_number : Z) : bool * list io :=
  Pic.clear device h interrupt_number.

(** The gate the processor takes for a vector: past the limit there is none. *)
Definition gate_at (c : t D) (v : Z) : option gate :=
  if gp_size (D := D) * v + gp_size (D := D) - 1 <=? idt_limit c
  then gp_gate <$> entries c !! Z.to_nat v else None.

(** A present trap gate of privilege level 0 into the kernel's code segment. *)
Definition trap_to (offset : Z) : gate :=
  mkgate (uwrap (gp_offset_width (D := D)) offset) SEGSEL_KERNEL_CS 0 15 0 true.

(** *** Laws *)
Context `{!GatePolicyLaws D}.

Lemma build_idt_entry_ok e offset :
  gp_wf e → g_system (gp_gate e) = 0 →
  ∃ e', build_idt_entry e offset = Ok e' ∧ gp_wf e' ∧ gp_gate e' = trap_to offset.
Proof.
  intros Hwf Hs. unfold build_idt_entry.
  destruct (gp_present_law true e Hwf) as (e1 & E1 & W1 & G1). rewrite E1. cbn [mbind result_bind].
  destruct (gp_offset_law (uwrap (gp_offset_width (D := D)) offset)
    (uwrap_fits _ _ gp_width) e1 W1) as (e2 & E2 & W2 & G2). rewrite E2. cbn [mbind result_bind].
  destruct (gp_dpl_law 0 ltac:(done) e2 W2) as (e3 & E3 & W3 & G3). rewrite E3. cbn [mbind result_bind].
  destruct (gp_selector_law SEGSEL_KERNEL_CS ltac:(done) e3 W3) as (e4 & E4 & W4 & G4).
  rewrite E4. cbn [mbind result_bind].
  destruct (gp_trap_law e4 W4) as (e5 & E5 & W5 & G5).
  exists e5. split_and!; [done..|]. rewrite G5, G4, G3, G2, G1.
  - unfold with_type, trap_to. cbn. by rewrite Hs.
  - by rewrite G4, G3, G2, G1.
Qed.

(** A table in which the vectors [done] have their gates and the others none. *)
Definition routed (handler : Z → Z) (finished : Z → Prop) `{∀ v, Decision (finished v)}
    (es : list D) : Prop :=
  length es = MAX_ENTRIES ∧
  ∀ v, 0 <= v < 256 → ∃ e, es !! Z.to_nat v = Some e ∧ gp_wf e ∧
    gp_gate e = if decide (finished v) then trap_to (handler v) else absent.

Lemma routed_zero handler : routed handler (λ v, v ∈ @nil Z) clear_idt.
Proof.
  split; [apply length_replicate|]. intros v Hv. exists gp_zero.
  destruct (gp_zero_law (D := D)) as [Hwf Hg]. split_and!; [|done|].
  - apply lookup_replicate. unfold MAX_ENTRIES. split; [done|lia].
  - rewrite decide_False; [done|]. apply not_elem_of_nil.
Qed.

Lemma build_entries_ok vs done_ handler es :
  routed handler (λ v, v ∈ done_) es → (∀ v, v ∈ vs → 0 <= v < 256) →
  ∃ es', build_entries vs handler es = Ok es' ∧ routed handler (λ v, v ∈ vs ++ done_) es'.
Proof.
  revert done_ es. induction vs as [|v vs IH]; intros done_ es [Hlen Hes] Hvs;
    [by exists es|]. cbn [build_entries].
  assert (0 <= v < 256) as Hv by (apply Hvs; by left).
  destruct (Hes v Hv) as (e & Ee & We & Ge). rewrite Ee. cbn [deref mbind result_bind].
  destruct (build_idt_entry_ok e (handler v) We) as (e' & E' & W' & G').
  { rewrite Ge. by destruct (decide _). }
  rewrite E'. cbn [mbind result_bind].
  destruct (IH (v :: done_) (<[Z.to_nat v := e']> es)) as (es' & E2 & Hl & H2).
  - split; [by rewrite length_insert|]. intros u Hu.
    destruct (decide (u = v)) as [->|Hne].
    + exists e'. rewrite list_lookup_insert_eq by (rewrite Hlen; unfold MAX_ENTRIES; lia).
      split_and!; [done..|]. rewrite decide_True; [done|]. by left.
    + destruct (Hes u Hu) as (x & Ex & Wx & Gx). exists x.
      rewrite list_lookup_insert_ne by lia. split_and!; [done..|]. rewrite Gx.
      destruct (decide (u ∈ done_)), (decide (u ∈ v :: done_)); (done || set_solver).
  - intros u Hu. apply Hvs. by right.
  - exists es'. split; [done|]. split; [done|]. intros u Hu.
    destruct (H2 u Hu) as (x & Ex & Wx & Gx). exists x. split_and!; [done..|]. rewrite Gx.
    destruct (decide (u ∈ vs ++ v :: done_)), (decide (u ∈ (v :: vs) ++ done_));
      (done || set_solver).
Qed.

(** The vectors the processor reserves. *)
Definition reserved (v : Z) : Prop := v = 15 ∨ 20 <= v < 32.

#[local] Instance reserved_dec v : Decision (reserved v).
Proof. unfold reserved. apply _. Defined.

Lemma elem_of_vectors v : v ∈ vectors ↔ 0 <= v < 256 ∧ ¬ reserved v.
Proof. unfold vectors, reserved. rewrite !elem_of_app, !elem_of_seqZ. lia. Qed.

Lemma gate_at_routed handler (P : Z → Prop) `{∀ v, Decision (P v)} es v :
  routed handler P es → 0 <= v →
  gate_at (load_idt es) v
  = if v <? 256 then Some (if decide (P v) then trap_to (handler v) else absent) else None.
Proof.
  intros [Hlen Hes] Hv. unfold gate_at, load_idt. cbn [idt_limit entries]. rewrite Hlen.
  pose proof (gp_size_pos (D := D)). unfold MAX_ENTRIES.
  destruct (Z.ltb_spec v 256).
  - rewrite (proj2 (Z.leb_le _ _)) by nia. destruct (Hes v ltac:(lia)) as (e & -> & _ & Hg).
    cbn. by rewrite Hg.
  - by rewrite (proj2 (Z.leb_gt _ _)) by nia.
Qed.

Lemma normal_idt_ok h :
  ∃ c, init h false = Ok (c, Pic.init device h) ∧
    ∀ v, 0 <= v →
      gate_at c v = if v <? 256 then Some (if decide (reserved v) then absent
                                           else trap_to (isr_wrapper v)) else None.
Proof.
  unfold init, build_idt, build_idt_for_normal_kernel.
  destruct (build_entries_ok vectors [] isr_wrapper clear_idt)
    as (es & E & Hes); [apply routed_zero|intros v; rewrite elem_of_vectors; lia|].
  rewrite E. cbn [mbind result_bind mret result_ret]. eexists. split; [done|]. intros v Hv.
  rewrite (gate_at_routed _ _ _ _ Hes Hv). destruct (Z.ltb_spec v 256); [|done].
  f_equal. rewrite app_nil_r.
  destruct (decide (v ∈ vectors)) as [Hin|Hin], (decide (reserved v)) as [Hr|Hr];
    rewrite elem_of_vectors in Hin; (done || exfalso; tauto).
Qed.

Lemma panic_idt_ok h :
  ∃ c, init h true = Ok (c, Pic.init device h) ∧
    ∀ v, 0 <= v →
      gate_at c v = if v <? 256 then Some (trap_to on_interrupt_during_panic) else None.
Proof.
  unfold init, build_idt, build_idt_for_panic_context.
  destruct (build_entries_ok (seqZ 0 256) [] (λ _, on_interrupt_during_panic) clear_idt)
    as (es & E & Hes); [apply routed_zero|intros v; rewrite elem_of_seqZ; lia|].
  rewrite E. cbn [mbind result_bind mret result_ret]. eexists. split; [done|]. intros v Hv.
  rewrite (gate_at_routed _ _ _ _ Hes Hv). destruct (Z.ltb_spec v 256); [|done].
  rewrite decide_True; [done|]. rewrite app_nil_r, elem_of_seqZ. lia.
Qed.

(** C28: [init] always succeeds, remaps the interrupt controller, and leaves a table that routes
    every vector.  In a running kernel each of the vectors 0 to 14, 16 to 19 and 32 to 255
    has a present trap gate of privilege level 0 into the kernel's code segment at the
    address of its own service routine, and the vectors that the processor reserves have no
    gate; in a panic all 256 vectors go to the panic routine; there is nothing past the
    table.  This holds for every descriptor type that satisfies the policy's laws, i386 and
    x86_64 among them. *)
Theorem idt_routes_vectors h is_panic_context :
  ∃ c, init h is_panic_context = Ok (c, Pic.init device h) ∧
    ∀ v, 0 <= v →
      gate_at c v
      = if v <? 256
        then Some (if is_panic_context then trap_to on_interrupt_during_panic
                   else if decide (reserved v) then absent else trap_to (isr_wrapper v))
        else None.
Proof.
  destruct is_panic_context; [apply panic_idt_ok|apply normal_idt_ok].
Qed.

End Controller.

(** Service routines 16 bytes apart, on both architectures. *)
Lemma idt_routes_vectors_witness :
  (∃ c h', init (D := Z) (λ _ _, 0) (λ v, 0xC0100000 + 16 * v) 0xC0200000 [] false = Ok (c, h') ∧
     gate_at c 33 = Some (mkgate 0xC0100210 24 0 15 0 true) ∧ gate_at c 20 = Some absent) ∧
  (∃ c h', init (D := X64InterruptDescriptor.t) (λ _ _, 0) (λ v, 0xFFFF800000100000 + 16 * v)
             0xFFFF800000200000 [] true = Ok (c, h') ∧
     gate_at c 33 = Some (mkgate 0xFFFF800000200000 24 0 15 0 true)).
Proof.
  split.
  - destruct (idt_routes_vectors (D := Z) (λ _ _, 0) (λ v, 0xC0100000 + 16 * v) 0xC0200000 [] false)
      as (c & E & Hc). exists c. eexists. split; [exact E|].
    split; [rewrite (Hc 33 ltac:(lia))|rewrite (Hc 20 ltac:(lia))]; vm_compute; reflexivity.
  - destruct (idt_routes_vectors (D := X64InterruptDescriptor.t) (λ _ _, 0)
      (λ v, 0xFFFF800000100000 + 16 * v) 0xFFFF800000200000 [] true) as (c & E & Hc).
    exists c. eexists. split; [exact E|]. rewrite (Hc 33 ltac:(lia)). vm_compute. reflexivity.
Defined.

End HardwareInterruptController.

(** ** PITTimerDevice *)
Module PITTimerDevice.

Definition CLOCK_FREQUENCY : Z := 1193182.
Definition TIMER_RATE_10ms : Z := 11931.
Definition TIMER_LEAP_INTERVAL_10ms : Z := 50.
Definition TIMER_LEAP_TICKS_10ms : Z := 41.
Definition TIMER_PERIOD_IO_PORT : Z := 0x40.
Definition TIMER_MODE_IO_PORT : Z := 0x43.
Definition TIMER_SQUARE_WAVE : Z := 0x36.

Record t := mk {
  clock_ticks_ : Z;
  clock_seconds_ : Z;
  leap_counter_ : Z;
  timer_rate_ : Z;
  timer_leap_interval_ : Z;
  timer_leap_ticks_ : Z;
}.

Definition WORD_UPPER_BYTE (value : Z) : Z := uwrap 8 (Z.land (Z.shiftr value 8) 0xFF).
Definition WORD_LOWER_BYTE (value : Z) : Z := uwrap 8 (Z.land value 0xFF).

(** The constructor leaves the three counters as [memory] has them. *)
Definition init (memory : Z * Z * Z) (h : list io) (timer_rate leap_interval leap_ticks : Z)
  : t * list io :=
  let '(clock_ticks, clock_seconds, leap_counter) := memory in
  let x := mk clock_ticks clock_seconds leap_counter (uwrap 16 timer_rate)
             (uwrap 32 leap_interval) (uwrap 32 leap_ticks) in
  let h := outb h TIMER_MODE_IO_PORT TIMER_SQUARE_WAVE in
  let h := outb h TIMER_PERIOD_IO_PORT (WORD_LOWER_BYTE (timer_rate_ x)) in
  let h := outb h TIMER_PERIOD_IO_PORT (WORD_UPPER_BYTE (timer_rate_ x)) in
  (x, h).

Definition on_interrupt (x : t) : t :=
  let leap_counter := uwrap 32 (leap_counter_ x + 1) in
  let '(leap_counter, clock_ticks) :=
    if timer_leap_interval_ x <? leap_counter
    then (0, uwrap 32 (clock_ticks_ x + timer_leap_ticks_ x))
    else (leap_counter, clock_ticks_ x) in
  let clock_ticks := uwrap 32 (clock_ticks + timer_rate_ x) in
  let '(clock_seconds, clock_ticks) :=
    if CLOCK_FREQUENCY <? clock_ticks
    then (uwrap 32 (clock_seconds_ x + clock_ticks / CLOCK_FREQUENCY), clock_ticks `mod` CLOCK_FREQUENCY)
    else (clock_seconds_ x, clock_ticks) in
  mk clock_ticks clock_seconds leap_counter (timer_rate_ x) (timer_leap_interval_ x)
    (timer_leap_ticks_ x).

Definition ticks (x : t) : Z := clock_ticks_ x.
Definition seconds (x : t) : Z := clock_seconds_ x.

(** The clock cycles counted so far. *)
Definition clock (x : t) : Z := CLOCK_FREQUENCY * seconds x + ticks x.

(** Counters in range, and parameters whose sum cannot overflow the tick counter. *)
Definition timer_inv (x : t) : Prop :=
  0 <= ticks x <= CLOCK_FREQUENCY ∧ fits 32 (seconds x) ∧
  0 <= leap_counter_ x <= timer_leap_interval_ x ∧ timer_leap_interval_ x < 2 ^ 32 - 1 ∧
  0 <= timer_rate_ x < 2 ^ 30 ∧ 0 <= timer_leap_ticks_ x < 2 ^ 30.

Lemma tick_ok x :
  timer_inv x → clock x + timer_rate_ x + timer_leap_ticks_ x < CLOCK_FREQUENCY * 2 ^ 32 →
  let m := timer_leap_interval_ x + 1 in
  timer_inv (on_interrupt x) ∧ timer_rate_ (on_interrupt x) = timer_rate_ x ∧
  timer_leap_interval_ (on_interrupt x) = timer_leap_interval_ x ∧
  timer_leap_ticks_ (on_interrupt x) = timer_leap_ticks_ x ∧
  leap_counter_ (on_interrupt x) = (leap_counter_ x + 1) `mod` m ∧
  clock (on_interrupt x)
  = clock x + timer_rate_ x + timer_leap_ticks_ x * ((leap_counter_ x + 1) / m).
Proof.
  destruct x as [tk sec lc rate interval leap]. unfold timer_inv, clock, ticks, seconds, fits.
  cbn [clock_ticks_ clock_seconds_ leap_counter_ timer_rate_ timer_leap_interval_ timer_leap_ticks_].
  intros (Htk & Hsec & Hlc & Hint & Hrate & Hleap) Hmax.
  assert (∃ lc' k, 0 <= lc' <= interval ∧ (k = 0 ∨ k = 1) ∧ lc' = (lc + 1) `mod` (interval + 1) ∧
    k = (lc + 1) / (interval + 1) ∧
    (if interval <? uwrap 32 (lc + 1) then (0, uwrap 32 (tk + leap)) else (uwrap 32 (lc + 1), tk))
    = (lc', tk + k * leap)) as (lc' & k & Hlc' & Hk & Elc & Ek & Eif).
  { rewrite (uwrap_small 32 (lc + 1)) by (unfold fits; lia).
    rewrite (uwrap_small 32 (tk + leap)) by (unfold fits, CLOCK_FREQUENCY in *; lia).
    destruct (Z.ltb_spec interval (lc + 1)).
    - exists 0, 1. replace (lc + 1) with (interval + 1) by lia.
      rewrite Z_mod_same_full, Z_div_same_full by lia. split_and!; first [lia | f_equal; lia].
    - exists (lc + 1), 0. rewrite Z.mod_small, Z.div_small by lia. split_and!; first [lia | f_equal; lia]. }
  unfold on_interrupt.
  cbn [clock_ticks_ clock_seconds_ leap_counter_ timer_rate_ timer_leap_interval_ timer_leap_ticks_].
  rewrite Eif. cbv beta iota.
  rewrite (uwrap_small 32 (tk + k * leap + rate)) by (unfold fits, CLOCK_FREQUENCY in *; nia).
  destruct (Z.ltb_spec CLOCK_FREQUENCY (tk + k * leap + rate));
    cbn [clock_ticks_ clock_seconds_ leap_counter_ timer_rate_ timer_leap_interval_ timer_leap_ticks_].
  - set (T := tk + k * leap + rate) in *.
    pose proof (Z.mod_pos_bound T CLOCK_FREQUENCY ltac:(done)).
    pose proof (Z.div_mod T CLOCK_FREQUENCY ltac:(done)).
    assert (0 <= T / CLOCK_FREQUENCY) by (apply Z.div_pos; unfold CLOCK_FREQUENCY in *; lia).
    assert (sec + T / CLOCK_FREQUENCY < 2 ^ 32).
    { assert (CLOCK_FREQUENCY * (sec + T / CLOCK_FREQUENCY) < CLOCK_FREQUENCY * 2 ^ 32)
        by (unfold T in *; nia). unfold CLOCK_FREQUENCY in *. lia. }
    rewrite uwrap_small by (unfold fits; lia).
    split_and!; try lia; rewrite <-?Ek; unfold T in *; lia.
  - split_and!; lia.
Qed.

(** C35: The timer loses no clock cycle: after [n] timer interrupts the seconds and ticks make up
    the cycles counted before, [n] times the rate, and the leap ticks of every
    ([interval]+1)-th interrupt; the ticks never exceed a second's worth.  This holds as long
    as the seconds fit their 32 bits. *)
Theorem timer_counts_clock x n :
  timer_inv x →
  clock x + Z.of_nat n * (timer_rate_ x + timer_leap_ticks_ x) < CLOCK_FREQUENCY * 2 ^ 32 →
  let y := Nat.iter n on_interrupt x in
  clock y = clock x + Z.of_nat n * timer_rate_ x
            + timer_leap_ticks_ x
              * ((leap_counter_ x + Z.of_nat n) / (timer_leap_interval_ x + 1)) ∧
  0 <= ticks y <= CLOCK_FREQUENCY ∧ fits 32 (seconds y).
Proof.
  intros Hinv Hmax. cbv zeta.
  assert (timer_inv (Nat.iter n on_interrupt x) ∧
    timer_rate_ (Nat.iter n on_interrupt x) = timer_rate_ x ∧
    timer_leap_interval_ (Nat.iter n on_interrupt x) = timer_leap_interval_ x ∧
    timer_leap_ticks_ (Nat.iter n on_interrupt x) = timer_leap_ticks_ x ∧
    leap_counter_ (Nat.iter n on_interrupt x)
    = (leap_counter_ x + Z.of_nat n) `mod` (timer_leap_interval_ x + 1) ∧
    clock (Nat.iter n on_interrupt x) = clock x + Z.of_nat n * timer_rate_ x
            + timer_leap_ticks_ x
              * ((leap_counter_ x + Z.of_nat n) / (timer_leap_interval_ x + 1)))
    as (Hi & _ & _ & _ & _ & Hc); [|split; [done|]; by destruct Hi as (? & ? & _)].
  pose proof Hinv as (_ & _ & Hlc & _ & Hr & Hl).
  set (m := timer_leap_interval_ x + 1) in *. assert (0 < m) by lia.
  induction n as [|n IH].
  { change (Nat.iter 0 on_interrupt x) with x. change (Z.of_nat 0) with 0.
    rewrite Z.add_0_r, Z.mod_small, Z.div_small by lia. split_and!; first [done | lia]. }
  destruct IH as (I1 & I2 & I3 & I4 & I5 & I6); [lia|].
  assert ((leap_counter_ x + Z.of_nat n) / m < Z.of_nat n + 1)
    by (apply Z.div_lt_upper_bound; nia).
  destruct (tick_ok (Nat.iter n on_interrupt x) I1) as (J1 & J2 & J3 & J4 & J5 & J6).
  { rewrite I2, I4, I6. nia. }
  change (Nat.iter (S n) on_interrupt x) with (on_interrupt (Nat.iter n on_interrupt x)).
  rewrite I3, I5 in J5. rewrite I2, I3, I4, I5, I6 in J6. fold m in J5, J6.
  split_and!; try (done || congruence).
  - rewrite J5, Zplus_mod_idemp_l. f_equal. lia.
  - rewrite J6. pose proof (Z.div_mod (leap_counter_ x + Z.of_nat n) m ltac:(lia)) as Hdm.
    replace (leap_counter_ x + Z.of_nat (S n))
      with ((leap_counter_ x + Z.of_nat n) `mod` m + 1
            + (leap_counter_ x + Z.of_nat n) / m * m) by lia.
    rewrite Z.div_add by lia. lia.
Qed.

(** An hour of the kernel's timer, which counts 7058 leaps. *)
Lemma timer_counts_clock_witness :
  let x := mk 0 0 0 TIMER_RATE_10ms TIMER_LEAP_INTERVAL_10ms TIMER_LEAP_TICKS_10ms in
  clock (Nat.iter (Z.to_nat 360000) on_interrupt x) = 360000 * 11931 + 41 * 7058.
Proof.
  intros x.
  destruct (timer_counts_clock x (Z.to_nat 360000)) as [H _].
  - unfold timer_inv, fits, TIMER_RATE_10ms, TIMER_LEAP_INTERVAL_10ms, TIMER_LEAP_TICKS_10ms in *.
    unfold CLOCK_FREQUENCY. cbn. lia.
  - rewrite Z2Nat.id by lia. reflexivity.
  - rewrite Z2Nat.id in H by lia. rewrite H. reflexivity.
Defined.

End PITTimerDevice.

(** ** Handlers *)

(** The kernel as the interrupt code sees it. *)
Record kernel := mkkernel {
  history : list io;
  scheduler : Scheduler.t;
  timer_device : PITTimerDevice.t;
  keyboard_device : Keyboard.t;
}.

Definition with_history (k : kernel) (h : list io) : kernel :=
  mkkernel h (scheduler k) (timer_device k) (keyboard_device k).

Definition with_scheduler (k : kernel) (s : Scheduler.t) : kernel :=
  mkkernel (history k) s (timer_device k) (keyboard_device k).

(** The interrupt lock is a static member: every lock object is the same one. *)
Definition on_irq (f : InterruptLock.t → InterruptLock.t) (k : kernel) : kernel :=
  with_scheduler k (Scheduler.with_shared (scheduler k)
    (UniquePointer.with_irq (Scheduler.shared (scheduler k)) f)).

Definition lock_irq : kernel → kernel := on_irq InterruptLock.lock.
Definition unlock_irq : kernel → kernel := on_irq InterruptLock.unlock.

(** The handler objects of the kernel. *)
Inductive Handler :=
| PanicInterruptHandler (message_ : string) (error_code_present_ : bool)
| PageFaultInterruptHandler
| KeyboardHandler
| TimerHandler.

#[global] Instance handler_eq_dec : EqDecision Handler.
Proof. solve_decision. Defined.

(** The constructor copies [MIN(sizeof(message_), strlen(message)) - 1] characters. *)
Definition new_panic_handler (message : string) (error_code_present : bool) : Handler :=
  PanicInterruptHandler (String.substring 0 (Nat.min 64 (String.length message) - 1) message)
    error_code_present.

(** How a handler ends: it returns, another thread continues, or the kernel panics. *)
Inductive outcome :=
| Returned
| SwitchedAway
| Panicked (message : string)
| NoHandler (name : string) (interrupt_number : Z).

Section Handlers.
Context (device : list io → Z → Z).

Definition KEYBOARD_DATA_PORT : Z := 0x60.

(** [yield()] of a handler. *)
Definition yield (k : kernel) : result (kernel * outcome) :=
  '(s, switched) ← Scheduler.yield_or_switch (scheduler k);
  mret (with_scheduler k s, if switched : bool then SwitchedAway else Returned).

(** [device_.on_interrupt()] *)
Definition keyboard_on_interrupt (k : kernel) : result kernel :=
  '(d, h) ← Keyboard.on_interrupt (λ h, inb device h KEYBOARD_DATA_PORT) (history k)
             (keyboard_device k);
  mret (mkkernel h (scheduler k) (timer_device k) d).

Definition timer_on_interrupt (k : kernel) : kernel :=
  mkkernel (history k) (scheduler k) (PITTimerDevice.on_interrupt (timer_device k))
    (keyboard_device k).

Definition int_handler (x : Handler) (k : kernel) : result (kernel * outcome) :=
  match x with
  | PanicInterruptHandler message _ => mret (k, Panicked message)
  | PageFaultInterruptHandler => mret (k, Panicked "Page Fault")
  | KeyboardHandler => k ← keyboard_on_interrupt k; yield k
  | TimerHandler => yield (timer_on_interrupt k)
  end.

End Handlers.

(** ** GenericInterruptDispatcher *)
Definition IDT_TIMER : Z := 0x20.
Definition IDT_KEY : Z := 0x21.

(** [InterruptNamer::get_interrupt_name]: the name of an interrupt. *)
Definition get_interrupt_name (interrupt_number : Z) : string :=
  (if (interrupt_number =? IDT_KEY)%Z then "Keyboard"
   else if (interrupt_number =? IDT_TIMER)%Z then "Timer"
   else match interrupt_number%Z with
        | 0 => "Division Error" | 1 => "Debug Exception" | 2 => "Non-Maskable Interrupt"
        | 3 => "Breakpoint" | 4 => "Overflow" | 5 => "BOUND Range exceeded"
        | 6 => "Undefined Opcode" | 7 => "No Math coprocessor" | 8 => "Double Fault."
        | 9 => "Coprocessor Segment Overrun" | 10 => "Invalid Task Segment Selector."
        | 11 => "Segment Not Present." | 12 => "Stack Segment Fault."
        | 13 => "General Protection Fault." | 14 => "Page Fault" | 16 => "X87 Math Fault"
        | 17 => "Alignment Check" | 18 => "Machine Check"
        | 19 => "SSE Floating Point Exception" | _ => "unknown"
        end)%string.

Module InterruptDispatcher.

Definition MAX_HANDLERS : Z := 256.

Record t := mk { handlers_ : list (option Handler); should_panic_on_null_handler_ : bool }.

Definition init : t := mk (replicate (Z.to_nat MAX_HANDLERS) None) true.

(** The parameter package of the service routines. *)
Record InterruptParameters := mkparams { size : Z; interrupt_number : Z }.

Section Dispatcher.
Context (device : list io → Z → Z) (sizeof_params : Z).

Definition set_handler (d : t) (k : kernel) (n : Z) (handler : option Handler)
  : result (t * kernel) :=
  assert! n <? MAX_HANDLERS;
  let k := lock_irq k in
  _ ← deref InvalidAccess (handlers_ d !! Z.to_nat n);
  let d := mk (<[Z.to_nat n := handler]> (handlers_ d)) (should_panic_on_null_handler_ d) in
  mret (d, unlock_irq k).

Definition get_handler (d : t) (k : kernel) (n : Z) : result (option Handler * kernel) :=
  let k := lock_irq k in
  handler ← deref InvalidAccess (handlers_ d !! Z.to_nat n);
  mret (handler, unlock_irq k).

Definition set_should_panic_on_null_handler (d : t) (k : kernel) (should_panic : bool) : t * kernel :=
  let k := lock_irq k in
  (mk (handlers_ d) should_panic, unlock_irq k).

Definition should_panic_on_null_handler (d : t) (k : kernel) : bool * kernel :=
  let k := lock_irq k in
  (should_panic_on_null_handler_ d, unlock_irq k).

Definition clear_hardware_interrupt (k : kernel) (n : Z) : bool * kernel :=
  let '(spurious, h) := HardwareInterruptController.clear device (history k) n in
  (spurious, with_history k h).

Definition panic_on_null_handler (n : Z) : outcome := NoHandler (get_interrupt_name n) n.

(** The guard unlocks when [dispatch] returns. *)
Definition dispatch (d : t) (k : kernel) (params : InterruptParameters) : result (kernel * outcome) :=
  let k := lock_irq k in
  assert! size params =? sizeof_params;
  let n := uwrap 32 (interrupt_number params) in
  assert! n <? MAX_HANDLERS;
  let '(spurious, k) := clear_hardware_interrupt k n in
  '(k, o) ← (if negb spurious then
               '(handler, k) ← get_handler d k n;
               match handler with
               | Some handler => int_handler device handler k
               | None =>
                   let '(should_panic, k) := should_panic_on_null_handler d k in
                   if should_panic : bool then mret (k, panic_on_null_handler n)
                   else mret (k, Returned)
               end
             else mret (k, Returned));
  mret (match o with Returned => unlock_irq k | _ => k end, o).

End Dispatcher.
End InterruptDispatcher.

(** ** GenericInterruptController and GenericDeviceDrivers *)
Module InterruptController.
Import InterruptDispatcher.

Record t (D : Type) := mkc {
  hardware_interrupt_controller_ : option (HardwareInterruptController.t D);
  interrupt_dispatcher_ : InterruptDispatcher.t;
}.
Arguments mkc {D} _ _.
Arguments hardware_interrupt_controller_ {D} _.
Arguments interrupt_dispatcher_ {D} _.

Section Controller.
Context {D : Type} `{GatePolicy D}.
Context (device : list io → Z → Z) (isr_wrapper : Z → Z) (on_interrupt_during_panic : Z).
Context (sizeof_params : Z).

(** The hardware has not been initialised. *)
Definition new_controller : t D := mkc None InterruptDispatcher.init.

Definition initialize_hardware (c : t D) (k : kernel) : result (t D * kernel) :=
  let k := lock_irq k in
  '(hw, h) ← HardwareInterruptController.init device isr_wrapper on_interrupt_during_panic
              (history k) false;
  mret (mkc (Some hw) (interrupt_dispatcher_ c), with_history k h).

(** The handlers of the processor's exceptions, in the order of [setup]. *)
Definition standard_handlers : list (Z * Handler) :=
  [(0, new_panic_handler "Division Error" false);
   (1, new_panic_handler "Debug Exception" false);
   (2, new_panic_handler "Non-Maskable Interrupt" false);
   (3, new_panic_handler "Breakpoint" false);
   (4, new_panic_handler "Overflow" false);
   (5, new_panic_handler "BOUND Range exceeded" false);
   (6, new_panic_handler "Undefined Opcode" false);
   (7, new_panic_handler "No Math coprocessor" false);
   (8, new_panic_handler "Double Fault." true);
   (9, new_panic_handler "Coprocessor Segment Overrun" false);
   (10, new_panic_handler "Invalid Task Segment Selector." true);
   (11, new_panic_handler "Segment Not Present." true);
   (12, new_panic_handler "Stack Segment Fault." true);
   (13, new_panic_handler "General Protection Fault." true);
   (14, PageFaultInterruptHandler);
   (16, new_panic_handler "X87 Math Fault" false);
   (17, new_panic_handler "Alignment Check" false);
   (18, new_panic_handler "Machine Check" false);
   (19, new_panic_handler "SSE Floating Point Exception" false)]%string.

Fixpoint install_all (d : InterruptDispatcher.t) (k : kernel) (hs : list (Z * Handler))
  : result (InterruptDispatcher.t * kernel) :=
  match hs with
  | [] => mret (d, k)
  | (n, x) :: hs =>
      '(d, k) ← set_handler d k n (Some x);
      install_all d k hs
  end.

Definition setup (c : t D) (k : kernel) : result (t D * kernel) :=
  '(d, k) ← install_all (interrupt_dispatcher_ c) k standard_handlers;
  mret (mkc (hardware_interrupt_controller_ c) d, k).

Definition install (c : t D) (k : kernel) (irq : Z) (handler : Handler) : result (t D * kernel) :=
  '(d, k) ← set_handler (interrupt_dispatcher_ c) k irq (Some handler);
  mret (mkc (hardware_interrupt_controller_ c) d, k).

(** [ready_.unlock()] ends the section that [initialize_hardware] began. *)
Definition become_ready (c : t D) (k : kernel) : t D * kernel :=
  let '(d, k) := set_should_panic_on_null_handler (interrupt_dispatcher_ c) k false in
  (mkc (hardware_interrupt_controller_ c) d, unlock_irq k).

(** [params_raw], null when [None]. *)
Definition dispatch (c : t D) (k : kernel) (params_raw : option InterruptParameters)
  : result (kernel * outcome) :=
  match params_raw with
  | None => Fault AssertionFailed
  | Some params => InterruptDispatcher.dispatch device sizeof_params (interrupt_dispatcher_ c) k params
  end.

(** [GenericDeviceDrivers::init]; [memory] is what the allocator left where the timer
    device lies. *)
Definition drivers_init (memory : Z * Z * Z) (c : t D) (k : kernel) : result (t D * kernel) :=
  let k := mkkernel (history k) (scheduler k) (timer_device k) Keyboard.init in
  '(c, k) ← install c k IDT_KEY KeyboardHandler;
  let '(timer, h) := PITTimerDevice.init memory (history k) PITTimerDevice.TIMER_RATE_10ms
                       PITTimerDevice.TIMER_LEAP_INTERVAL_10ms
                       PITTimerDevice.TIMER_LEAP_TICKS_10ms in
  let k := mkkernel h (scheduler k) timer (keyboard_device k) in
  install c k IDT_TIMER TimerHandler.

(** [Kernel::initialize_interrupts_and_device_drivers] *)
Definition initialize_interrupts_and_device_drivers (memory : Z * Z * Z) (c : t D) (k : kernel)
  : result (t D * kernel) :=
  '(c, k) ← setup c k;
  '(c, k) ← drivers_init memory c k;
  mret (become_ready c k).

End Controller.
End InterruptController.

(** ** Properties *)
Module InterruptProperties.
Import InterruptDispatcher.

(** The interrupt lock, held [lv] times. *)
Definition irq_at (lv : Z) (k : kernel) : Prop :=
  irq (Scheduler.shared (scheduler k)) = Scheduler.depth lv.

Definition interrupts_enabled (k : kernel) : bool :=
  InterruptLock.enabled (irq (Scheduler.shared (scheduler k))).

Lemma on_irq_compose f g k : on_irq g (on_irq f k) = on_irq (g ∘ f) k.
Proof. reflexivity. Qed.

Lemma on_irq_id f k :
  f (irq (Scheduler.shared (scheduler k))) = irq (Scheduler.shared (scheduler k)) →
  on_irq f k = k.
Proof.
  intros Hf. unfold on_irq, with_scheduler, Scheduler.with_shared, UniquePointer.with_irq.
  rewrite Hf. destruct k as [? [? ? ? ? ? []] ? ?]. reflexivity.
Qed.

Lemma irq_at_lock lv k : 0 <= lv < 2 ^ 30 → irq_at lv k → irq_at (lv + 1) (lock_irq k).
Proof. unfold irq_at. cbn. intros Hlv ->. by apply Scheduler.depth_lock. Qed.

(** A locked section inside a function. *)
Lemma lock_section lv k : 0 <= lv < 2 ^ 30 → irq_at lv k → unlock_irq (lock_irq k) = k.
Proof.
  intros Hlv Hk. unfold unlock_irq, lock_irq. rewrite on_irq_compose. apply on_irq_id.
  rewrite Hk. cbn. by rewrite Scheduler.depth_lock, Scheduler.depth_unlock.
Qed.

Lemma with_history_on_irq f k h : with_history (on_irq f k) h = on_irq f (with_history k h).
Proof. reflexivity. Qed.

Section Dispatch.
Context (device : list io → Z → Z) (Hdevice : ∀ h p, fits 8 (device h p)).
Context (sizeof_params : Z).

(** The accesses that acknowledge the vector [n]. *)
Definition end_of_interrupt (n : Z) : list io :=
  (if bool_decide (0x20 <= n < 0x28) then [] else [Out Pic.PIC2 Pic.PIC_EOI])
  ++ [Out Pic.PIC1 Pic.PIC_EOI].

(** What [dispatch] does after the interrupt controller has been cleared, with the lock
    held in [k]. *)
Definition handle (d : t) (k : kernel) (n : Z) : result (kernel * outcome) :=
  match handlers_ d !! Z.to_nat n with
  | Some (Some x) =>
      '(k, o) ← int_handler device x k;
      mret (match o with Returned => unlock_irq k | _ => k end, o)
  | _ => if should_panic_on_null_handler_ d then mret (k, NoHandler (get_interrupt_name n) n)
         else mret (unlock_irq k, Returned)
  end.

Lemma dispatch_accepted lv d k params :
  length (handlers_ d) = 256%nat → 0 <= lv < 2 ^ 29 → irq_at lv k →
  let n := uwrap 32 (interrupt_number params) in
  size params = sizeof_params → n < 256 →
  ∃ slave master, fits 8 slave ∧ fits 8 master ∧
    let h := history k ++ Pic.isr_accesses slave master in
    dispatch device sizeof_params d k params
    = if bool_decide (n = 0x27 ∧ Z.testbit master 7 = false)
      then Ok (with_history k h, Returned)
      else handle d (lock_irq (with_history k (h ++ end_of_interrupt n))) n.
Proof.
  intros Hlen Hlv Hk n Hsize Hn. unfold dispatch. cbn [history lock_irq]. fold n.
  rewrite Hsize, Z.eqb_refl. cbn [assert_then]. change MAX_HANDLERS with 256.
  rewrite (proj2 (Z.ltb_lt _ _) Hn). cbn [assert_then].
  assert (0 <= n) by (apply uwrap_fits; lia).
  destruct (Pic.clear_spec device (history k) n ltac:(lia) Hdevice)
    as (slave & master & Hs & Hm & Hclear).
  exists slave, master. split; [done|]. split; [done|]. cbv zeta.
  unfold clear_hardware_interrupt, HardwareInterruptController.clear.
  change (history (lock_irq k)) with (history k). rewrite Hclear.
  destruct (bool_decide (n = 0x27 ∧ Z.testbit master 7 = false)) eqn:Hspur; cbn [negb].
  - cbn [mbind result_bind mret result_ret]. do 2 f_equal.
    rewrite app_nil_r. unfold lock_irq. rewrite with_history_on_irq.
    apply (lock_section lv); [lia|done].
  - unfold lock_irq at 1. rewrite with_history_on_irq. fold lock_irq.
    rewrite app_assoc. fold (end_of_interrupt n).
    set (h := (history k ++ _) ++ _). set (k1 := lock_irq (with_history k h)).
    assert (irq_at (lv + 1) k1) as Hk1 by (apply irq_at_lock; [lia|done]).
    unfold get_handler, handle. rewrite !(lock_section (lv + 1) k1) by (lia || done).
    destruct (lookup_lt_is_Some_2 (handlers_ d) (Z.to_nat n)) as [x Hx]; [lia|].
    rewrite Hx. cbn [deref mbind result_bind mret result_ret].
    destruct x as [x|]; [done|].
    unfold should_panic_on_null_handler. rewrite (lock_section (lv + 1) k1) by (lia || done).
    by destruct (should_panic_on_null_handler_ d).
Qed.

(** C26: [dispatch] on every branch.  A parameter package of the wrong size or a number past the
    table stops in an assertion.  Otherwise the in-service registers of the interrupt
    controllers are read.  Vector 0x27 without line 7 in service is spurious: it is neither
    acknowledged nor handled.  Any other vector is acknowledged once, at the master alone
    for the vectors 0x20 to 0x27 and at slave and master for all others, the processor's
    exceptions included, and then handled with the interrupt lock held once more: the
    handler of the vector runs if there is one; without one the kernel panics or ignores
    the interrupt as [should_panic_on_null_handler] says; the lock is released again when
    [dispatch] returns. *)
Theorem dispatch_correct lv d k params :
  length (handlers_ d) = 256%nat → 0 <= lv < 2 ^ 29 → irq_at lv k →
  let n := uwrap 32 (interrupt_number params) in
  if (size params =? sizeof_params) && (n <? 256) then
    ∃ slave master, fits 8 slave ∧ fits 8 master ∧
      let h := history k ++ Pic.isr_accesses slave master in
      dispatch device sizeof_params d k params
      = if bool_decide (n = 0x27 ∧ Z.testbit master 7 = false)
        then Ok (with_history k h, Returned)
        else handle d (lock_irq (with_history k (h ++ end_of_interrupt n))) n
  else dispatch device sizeof_params d k params = Fault AssertionFailed.
Proof.
  intros Hlen Hlv Hk n. destruct (Z.eqb_spec (size params) sizeof_params) as [Hs|Hs]; cbn [andb].
  - destruct (Z.ltb_spec n 256) as [Hn|Hn]; [by apply (dispatch_accepted lv)|].
    unfold dispatch. rewrite Hs, Z.eqb_refl. cbn [assert_then]. fold n. change MAX_HANDLERS with 256.
    by rewrite (proj2 (Z.ltb_ge _ _) Hn).
  - unfold dispatch. by rewrite (proj2 (Z.eqb_neq _ _) Hs).
Qed.

(** Yields of whatever flows run, one after the other. *)
Fixpoint yields (m : nat) (s : Scheduler.t) : result Scheduler.t :=
  match m with O => mret s | S m => s ← Scheduler.yield s; yields m s end.

Lemma members_length a : length (Scheduler.members (Scheduler.spec_yield a)) = length (Scheduler.members a).
Proof. by rewrite Scheduler.members_spec_yield. Qed.

Lemma spent_bound a : (length (Scheduler.spent a) <= length (Scheduler.members a))%nat.
Proof. unfold Scheduler.members. rewrite !length_app. lia. Qed.

Lemma yields_ok lv m s a :
  0 <= lv < 2 ^ 30 → Scheduler.rep_at lv s a →
  Z.of_nat (length (Scheduler.members a)) < 2 ^ 30 →
  ∃ s', yields m s = Ok s' ∧ Scheduler.rep_at lv s' (Nat.iter m Scheduler.spec_yield a).
Proof.
  intros Hlv. revert s a. induction m as [|m IH]; intros s a Hrep Hlen; [by exists s|].
  pose proof (spent_bound a). cbn [yields].
  destruct (Scheduler.yield_ok lv Hlv s a Hrep) as (s1 & -> & Hs1); [lia|].
  destruct (IH s1 _ Hs1) as (s2 & E2 & Hs2); [by rewrite members_length|].
  exists s2. split; [done|]. by rewrite Nat.iter_succ_r.
Qed.

(** The timer handler, with the interrupt lock held by [dispatch]. *)
Lemma timer_handler_ok k a :
  Scheduler.rep_at 1 (scheduler k) a → Z.of_nat (length (Scheduler.members a)) < 2 ^ 30 →
  ∃ s, Scheduler.rep_at 1 s (Scheduler.spec_yield a) ∧
    int_handler device TimerHandler k
    = Ok (with_scheduler (timer_on_interrupt k) s,
          if Scheduler.switches a then SwitchedAway else Returned).
Proof.
  intros Hrep Hlen. pose proof (spent_bound a).
  destruct (Scheduler.yield_or_switch_ok 1 ltac:(lia) (scheduler k) a Hrep) as (s & E & Hs); [lia|].
  exists s. split; [done|]. cbn [int_handler]. unfold yield. cbn [scheduler timer_on_interrupt].
  rewrite E. done.
Qed.

(** C27: A thread that gets the CPU from a timer interrupt runs with interrupts disabled.  With
    the timer's handler installed and interrupts enabled, a timer interrupt is
    acknowledged, counted, and gives the CPU to the next thread of the round robin; if
    there is none, [dispatch] returns and interrupts are enabled again.  But if there is
    one, [dispatch] does not return, the lock it took stays taken, and interrupts stay
    disabled however often the threads yield after it: only the interrupted flow, once it
    is scheduled again, releases the lock. *)
Theorem preemption_disables_interrupts d k a params :
  length (handlers_ d) = 256%nat → handlers_ d !! Z.to_nat IDT_TIMER = Some (Some TimerHandler) →
  size params = sizeof_params → interrupt_number params = IDT_TIMER →
  Scheduler.rep (scheduler k) a → Z.of_nat (length (Scheduler.members a)) < 2 ^ 30 →
  ∃ k', timer_device k' = PITTimerDevice.on_interrupt (timer_device k) ∧
    (∃ slave master, history k' = history k ++ Pic.isr_accesses slave master
                                  ++ [Out Pic.PIC1 Pic.PIC_EOI]) ∧
    if Scheduler.switches a then
      dispatch device sizeof_params d k params = Ok (k', SwitchedAway) ∧
      cpu (Scheduler.shared (scheduler k')) = Scheduler.running (Scheduler.spec_yield a) ∧
      ∀ m, ∃ s, yields m (scheduler k') = Ok s ∧
        cpu (Scheduler.shared s) = Scheduler.running (Nat.iter m Scheduler.spec_yield (Scheduler.spec_yield a)) ∧
        interrupts_enabled (with_scheduler k' s) = false ∧
        interrupts_enabled (unlock_irq (with_scheduler k' s)) = true
    else dispatch device sizeof_params d k params = Ok (k', Returned) ∧
         Scheduler.rep (scheduler k') a ∧ interrupts_enabled k' = true.
Proof.
  intros Hlen Hx Hsize Hnum Hrep Hn.
  assert (irq_at 0 k) as Hk by apply Hrep.
  destruct (dispatch_accepted 0 d k params Hlen ltac:(lia) Hk Hsize)
    as (slave & master & _ & _ & Hdisp); [by rewrite Hnum|]. cbv zeta in Hdisp.
  rewrite Hnum in Hdisp. change (uwrap 32 IDT_TIMER) with IDT_TIMER in Hdisp.
  rewrite bool_decide_false in Hdisp by (by intros [? _]).
  change (end_of_interrupt IDT_TIMER) with [Out Pic.PIC1 Pic.PIC_EOI] in Hdisp.
  unfold handle in Hdisp. rewrite Hx in Hdisp.
  set (k1 := lock_irq _) in Hdisp.
  assert (Scheduler.rep_at 1 (scheduler k1) a) as Hrep1.
  { destruct Hrep as (Hc & Hl & Hi). split; [done|]. split; [done|]. cbn. by rewrite Hi. }
  destruct (timer_handler_ok k1 a Hrep1 Hn) as (s & Hs & E). rewrite E in Hdisp.
  cbn [mbind result_bind mret result_ret] in Hdisp.
  destruct (Scheduler.switches a) eqn:Hsw.
  - exists (with_scheduler (timer_on_interrupt k1) s). split; [done|].
    split; [exists slave, master; cbn; by rewrite <-app_assoc|]. split; [done|].
    split; [by apply Hs|]. intros m.
    destruct (yields_ok 1 m s _ ltac:(lia) Hs) as (s' & E' & Hs'); [by rewrite members_length|].
    exists s'. split; [done|]. split; [by apply Hs'|].
    destruct Hs' as (_ & _ & Hi). unfold interrupts_enabled. cbn. by rewrite Hi.
  - exists (unlock_irq (with_scheduler (timer_on_interrupt k1) s)). split; [done|].
    split; [exists slave, master; cbn; by rewrite <-app_assoc|]. split; [done|].
    assert (Scheduler.spec_yield a = a) as Ha.
    { unfold Scheduler.spec_yield, Scheduler.switches in *.
      apply bool_decide_eq_false in Hsw. destruct (Scheduler.current a); [|done].
      destruct (Scheduler.ready a), (Scheduler.spent a); [done|exfalso; apply Hsw; naive_solver..]. }
    rewrite Ha in Hs. destruct Hs as (Hc & Hl & Hi).
    unfold interrupts_enabled. cbn. rewrite Hi. split; [|done].
    split; [done|]. split; [done|]. cbn. by rewrite Hi.
Qed.

End Dispatch.

(** A kernel that has just booted, with memory that reads as zero. *)
Definition booted : kernel :=
  mkkernel [] (Scheduler.init (mkworld InterruptLock.init ∅ BOOT))
    (PITTimerDevice.mk 0 0 0 11931 50 41) Keyboard.init.

(** A general protection fault before any handler is installed panics, after both interrupt
    controllers have been told that an interrupt ended. *)
Lemma dispatch_correct_witness :
  ∃ k slave master,
    dispatch (λ _ _, 0) 560 InterruptDispatcher.init booted (mkparams 560 13)
    = Ok (k, NoHandler "General Protection Fault." 13) ∧
    history k = Pic.isr_accesses slave master ++ [Out 0xA0 0x20; Out 0x20 0x20].
Proof.
  destruct (dispatch_correct (λ _ _, 0) ltac:(done) 560 0 InterruptDispatcher.init booted
    (mkparams 560 13) ltac:(reflexivity) ltac:(lia) ltac:(reflexivity))
    as (slave & master & _ & _ & E). cbv zeta in E.
  rewrite bool_decide_false in E by (by intros [? _]).
  eexists _, slave, master. split; [rewrite E; reflexivity|reflexivity].
Defined.

(** A thread waits when the timer interrupts the boot flow. *)
Lemma preemption_disables_interrupts_witness :
  ∃ d k k', dispatch (λ _ _, 0) 560 d k (mkparams 560 IDT_TIMER) = Ok (k', SwitchedAway) ∧
    interrupts_enabled k = true ∧ interrupts_enabled k' = false.
Proof.
  destruct Scheduler.started_rep as (s & Hs).
  set (d := mk (<[Z.to_nat IDT_TIMER := Some TimerHandler]> (replicate 256 None)) false).
  set (k := mkkernel [] s (PITTimerDevice.mk 0 0 0 11931 50 41) Keyboard.init).
  destruct (preemption_disables_interrupts (λ _ _, 0) ltac:(done) 560 d k
    (Scheduler.mkqueues [(16, 16); (32, 32)] [] (Some (48, BOOT))) (mkparams 560 IDT_TIMER)
    ltac:(reflexivity) ltac:(reflexivity) eq_refl eq_refl Hs ltac:(cbn; lia))
    as (k' & _ & _ & E & _ & Hy).
  exists d, k, k'. split; [exact E|].
  split; [unfold interrupts_enabled; cbn; destruct Hs as (_ & _ & Hi); by rewrite Hi|].
  destruct (Hy 0%nat) as (s' & [= <-] & _ & Hoff & _). exact Hoff.
Defined.

(** ** The start of the interrupt system *)
Section Boot.
Context {D : Type} `{GatePolicyLaws D}.
Context (device : list io → Z → Z) (isr_wrapper : Z → Z) (on_interrupt_during_panic : Z).

Lemma set_handler_ok lv d k n x :
  0 <= lv < 2 ^ 30 → irq_at lv k → length (handlers_ d) = 256%nat → 0 <= n < 256 →
  set_handler d k n x
  = Ok (mk (<[Z.to_nat n := x]> (handlers_ d)) (should_panic_on_null_handler_ d), k).
Proof.
  intros Hlv Hk Hlen Hn. unfold set_handler. change MAX_HANDLERS with 256. decide_Z.
  destruct (lookup_lt_is_Some_2 (handlers_ d) (Z.to_nat n)) as [y Hy]; [lia|].
  rewrite Hy. cbn [deref mbind result_bind mret result_ret]. by rewrite (lock_section lv).
Qed.

Definition installed (hs : list (Z * Handler)) (l : list (option Handler)) : list (option Handler) :=
  foldl (λ l nx, <[Z.to_nat nx.1 := Some nx.2]> l) l hs.

Lemma install_all_ok lv hs d k :
  0 <= lv < 2 ^ 30 → irq_at lv k → length (handlers_ d) = 256%nat →
  Forall (λ nx : Z * Handler, 0 <= nx.1 < 256) hs →
  InterruptController.install_all d k hs
  = Ok (mk (installed hs (handlers_ d)) (should_panic_on_null_handler_ d), k).
Proof.
  intros Hlv Hk Hlen Hhs. revert d Hlen.
  induction Hhs as [|[n x] hs Hn Hhs IH]; intros d Hlen; [by destruct d|].
  cbn [InterruptController.install_all]. rewrite (set_handler_ok lv) by done.
  cbn [mbind result_bind]. rewrite IH; [done|]. cbn. by rewrite length_insert.
Qed.

(** The handler that each vector gets. *)
Definition expected_handler (n : Z) : option Handler :=
  if n =? IDT_TIMER then Some TimerHandler
  else if n =? IDT_KEY then Some KeyboardHandler
  else snd <$> list_find (λ nx, nx.1 = n) InterruptController.standard_handlers ≫= (λ r, Some r.2).

Definition all_handlers : list (option Handler) :=
  installed (InterruptController.standard_handlers
             ++ [(IDT_KEY, KeyboardHandler); (IDT_TIMER, TimerHandler)])
    (replicate 256 None).

Lemma all_handlers_expected n :
  0 <= n < 256 → all_handlers !! Z.to_nat n = Some (expected_handler n).
Proof.
  intros Hn.
  assert (forallb (λ n, bool_decide (all_handlers !! Z.to_nat n = Some (expected_handler n)))
            (seqZ 0 256) = true) as Hall by (vm_compute; reflexivity).
  rewrite forallb_forall in Hall. specialize (Hall n). rewrite <-list_elem_of_In in Hall.
  apply bool_decide_eq_true in Hall; [done|]. apply elem_of_seqZ. lia.
Qed.

(** The interrupt system comes up in order.  [initialize_hardware] disables interrupts and
    loads the interrupt table; they stay disabled whatever the kernel initialises next,
    until [initialize_interrupts_and_device_drivers], which always succeeds, has installed
    the handlers: then every exception of the processor has its panic handler, the page
    fault, the timer and the keyboard their own, the other vectors none and are ignored,
    the devices are in their initial state, and interrupts are enabled again. *)
Theorem interrupts_come_up k memory :
  irq_at 0 k →
  ∃ c k1 hw,
    InterruptController.initialize_hardware (D := D) device isr_wrapper on_interrupt_during_panic
      InterruptController.new_controller k = Ok (c, k1) ∧
    InterruptController.hardware_interrupt_controller_ c = Some hw ∧
    (∀ v, 0 <= v < 256 → ¬ HardwareInterruptController.reserved v →
       HardwareInterruptController.gate_at hw v
       = Some (HardwareInterruptController.trap_to (D := D) (isr_wrapper v))) ∧
    irq_at 1 k1 ∧ interrupts_enabled k1 = false ∧
    ∀ k2, irq_at 1 k2 →
      ∃ c3 k3,
        InterruptController.initialize_interrupts_and_device_drivers memory c k2 = Ok (c3, k3) ∧
        InterruptController.hardware_interrupt_controller_ c3 = Some hw ∧
        (∀ n, 0 <= n < 256 →
           handlers_ (InterruptController.interrupt_dispatcher_ c3) !! Z.to_nat n
           = Some (expected_handler n)) ∧
        should_panic_on_null_handler_ (InterruptController.interrupt_dispatcher_ c3) = false ∧
        keyboard_device k3 = Keyboard.init ∧
        PITTimerDevice.timer_rate_ (timer_device k3) = PITTimerDevice.TIMER_RATE_10ms ∧
        irq_at 0 k3 ∧ interrupts_enabled k3 = true.
Proof.
  intros Hk. pose proof (irq_at_lock 0 k ltac:(lia) Hk) as Hk1.
  destruct (HardwareInterruptController.normal_idt_ok (D := D) device isr_wrapper
    on_interrupt_during_panic (history k)) as (hw & E & Hv).
  eexists _, _, hw. split; [unfold InterruptController.initialize_hardware|].
  { change (history (lock_irq k)) with (history k). rewrite E. reflexivity. }
  split; [done|]. split.
  { intros v Hv1 Hv2. rewrite Hv by lia. decide_Z. by rewrite decide_False. }
  split; [done|]. split; [unfold interrupts_enabled; cbn; by rewrite Hk|].
  intros k2 Hk2.
  unfold InterruptController.initialize_interrupts_and_device_drivers, InterruptController.setup.
  rewrite (install_all_ok 1);
    [|lia|done|done|repeat (apply Forall_cons; split); try apply Forall_nil; cbn; lia].
  cbn [mbind result_bind mret result_ret InterruptController.interrupt_dispatcher_
       InterruptController.hardware_interrupt_controller_].
  unfold InterruptController.drivers_init, InterruptController.install, IDT_KEY, IDT_TIMER.
  cbn [InterruptController.interrupt_dispatcher_ InterruptController.hardware_interrupt_controller_].
  rewrite (set_handler_ok 1) by (reflexivity || exact Hk2 || lia).
  cbn [mbind result_bind mret result_ret InterruptController.interrupt_dispatcher_
       InterruptController.hardware_interrupt_controller_ handlers_ should_panic_on_null_handler_].
  destruct memory as [[m1 m2] m3]. cbn [PITTimerDevice.init].
  rewrite (set_handler_ok 1) by (reflexivity || exact Hk2 || lia).
  cbn [mbind result_bind mret result_ret].
  eexists _, _. split; [reflexivity|].
  cbn [InterruptController.become_ready set_should_panic_on_null_handler
    InterruptController.interrupt_dispatcher_ InterruptController.hardware_interrupt_controller_
    handlers_ should_panic_on_null_handler_].
  split; [done|]. split; [intros n Hn; by apply all_handlers_expected|].
  split; [done|]. split; [done|]. split; [done|].
  unfold irq_at, interrupts_enabled. cbn. rewrite Hk2. done.
Qed.

End Boot.

(** The i386 kernel, with service routines 16 bytes apart. *)
Lemma interrupts_come_up_witness :
  ∃ c k1 c3 k3,
    InterruptController.initialize_hardware (D := Z) (λ _ _, 0) (λ v, 0xC0100000 + 16 * v) 0xC0200000
      InterruptController.new_controller booted = Ok (c, k1) ∧
    InterruptController.initialize_interrupts_and_device_drivers (0, 0, 0) c k1 = Ok (c3, k3) ∧
    handlers_ (InterruptController.interrupt_dispatcher_ c3) !! 14%nat
    = Some (Some PageFaultInterruptHandler) ∧
    interrupts_enabled k1 = false ∧ interrupts_enabled k3 = true.
Proof.
  destruct (interrupts_come_up (D := Z) (λ _ _, 0) (λ v, 0xC0100000 + 16 * v) 0xC0200000 booted
    (0, 0, 0) eq_refl) as (c & k1 & hw & E1 & _ & _ & Hk1 & Hoff & Hnext).
  destruct (Hnext k1 Hk1) as (c3 & k3 & E3 & _ & Hh & _ & _ & _ & _ & Hon).
  exists c, k1, c3, k3. split; [exact E1|]. split; [exact E3|].
  split; [exact (Hh 14 ltac:(lia))|]. split; [exact Hoff|exact Hon].
Defined.

End InterruptProperties.
