(* ===== verification/Threads.v ===== *)
(** * Threads: the stack a thread starts from and the context switch

    Models [StaticStack] (src/Common/include/common/static_stack.hpp), the constructors of
    [Thread_i386] and [Thread_x86_64] (platform/*/thread.hpp), and the context switches of
    src/Kernel/src/platform/*/context_switch.S as steps on registers and memory.  The
    scheduler's model takes as given that a switch to a new thread enters [thread_start] and
    that a switch back continues after [switch_away]; this file shows what the stacks and
    the switch contribute to that.

    The addresses of [thread_start] and [vanish] and the floating-point state are
    parameters. *)
From S2P Require Import Prelude.

(** ** Bytes of integers, low byte first *)
Fixpoint le_bytes (n : nat) (v : Z) : list Z :=
  match n with O => [] | S n => v `mod` 256 :: le_bytes n (v / 256) end.

Fixpoint le_value (bs : list Z) : Z :=
  match bs with [] => 0 | b :: bs => b + 256 * le_value bs end.

Lemma length_le_bytes n v : length (le_bytes n v) = n.
Proof. revert v. induction n as [|n IH]; intros v; cbn; [done|]. by rewrite IH. Qed.

Lemma le_value_bytes n v : le_value (le_bytes n v) = uwrap (8 * Z.of_nat n) v.
Proof.
  revert v. induction n as [|n IH]; intros v.
  - cbn. unfold uwrap. symmetry. apply Z.mod_1_r.
  - cbn [le_bytes le_value]. rewrite IH. unfold uwrap.
    replace (8 * Z.of_nat (S n)) with (8 + 8 * Z.of_nat n) by lia.
    rewrite Z.pow_add_r by lia. change (2 ^ 8) with 256.
    rewrite Z.rem_mul_r by (lia || apply Z.pow_nonzero; lia). done.
Qed.

(** ** StaticStack *)
Module StaticStack.

(** [base] is the address of [backing_]. *)
Record t := mk { base : Z; backing_ : list Z; stack_pointer : Z }.

Definition init (StackSize : nat) (base : Z) : t :=
  mk base (replicate StackSize 0) (base + Z.of_nat StackSize).

(** The copy constructor, for an object at the address [base]. *)
Definition copy_construct (base' : Z) (other : t) : t :=
  let offset := stack_pointer other - base other in
  mk base' (backing_ other) (base' + offset).

Definition move_construct (base' : Z) (other : t) : t :=
  let offset := stack_pointer other - base other in
  mk base' (backing_ other) (base' + offset).

(** [this != &other] is a comparison of addresses. *)
Definition copy_assign (x other : t) : t :=
  if base x =? base other then x
  else
    let offset := stack_pointer other - base other in
    mk (base x) (backing_ other) (base x + offset).

Definition move_assign (x other : t) : t :=
  if base x =? base other then x
  else
    let offset := stack_pointer other - base other in
    mk (base x) (backing_ other) (base x + offset).

Definition size (x : t) : Z := Z.of_nat (length (backing_ x)).

(** [memcpy] to and from the backing memory. *)
Definition store (x : t) (a : Z) (bytes : list Z) : result t :=
  if (base x <=? a) && (a + Z.of_nat (length bytes) <=? base x + size x)
  then mret (mk (base x) (list_inserts (Z.to_nat (a - base x)) bytes (backing_ x)) (stack_pointer x))
  else Fault InvalidAccess.

Definition load (x : t) (a : Z) (n : nat) : result (list Z) :=
  if (base x <=? a) && (a + Z.of_nat n <=? base x + size x)
  then mret (take n (drop (Z.to_nat (a - base x)) (backing_ x)))
  else Fault InvalidAccess.

Definition move_pointer (x : t) (d : Z) : t := mk (base x) (backing_ x) (stack_pointer x + d).

(** [push<T>(value)], for a type of [n] bytes. *)
Definition push (n : nat) (x : t) (value : Z) : result t :=
  let x := move_pointer x (- Z.of_nat n) in
  store x (stack_pointer x) (le_bytes n value).

Definition push4 (x : t) (value : Z) : result t := push 4 x value.
Definition push8 (x : t) (value : Z) : result t := push 8 x value.

Definition push_bytes (x : t) (bytes : list Z) : result t :=
  let x := move_pointer x (- Z.of_nat (length bytes)) in
  store x (stack_pointer x) bytes.

Definition pop (n : nat) (x : t) : result (Z * t) :=
  bytes ← load x (stack_pointer x) n;
  mret (le_value bytes, move_pointer x (Z.of_nat n)).

Definition peek (n : nat) (x : t) (delta_objects : Z) : result Z :=
  bytes ← load x (stack_pointer x + Z.of_nat n * delta_objects) n;
  mret (le_value bytes).

(** *** Reading and writing *)
Definition read (n : nat) (x : t) (a : Z) : result Z :=
  bytes ← load x a n; mret (le_value bytes).

Lemma load_store_same x a bytes x' :
  store x a bytes = Ok x' → load x' a (length bytes) = Ok bytes.
Proof.
  unfold store, load. destruct (Z.leb_spec (base x) a); [|done].
  destruct (Z.leb_spec (a + Z.of_nat (length bytes)) (base x + size x)); cbn [andb]; [|done].
  intros [= <-]. unfold size in *. cbn [base backing_]. rewrite length_inserts. decide_Z.
  f_equal. apply list_eq. intros i.
  destruct (decide (i < length bytes)%nat) as [Hi|Hi].
  - rewrite lookup_take_lt by done. rewrite lookup_drop.
    rewrite list_lookup_inserts by lia. f_equal. lia.
  - rewrite lookup_take_ge, lookup_ge_None_2 by lia. done.
Qed.

Lemma load_store_other x a bytes x' b n :
  store x a bytes = Ok x' → b + Z.of_nat n <= a ∨ a + Z.of_nat (length bytes) <= b →
  load x' b n = load x b n.
Proof.
  unfold store, load. destruct (Z.leb_spec (base x) a); [|done].
  destruct (Z.leb_spec (a + Z.of_nat (length bytes)) (base x + size x)); cbn; [|done].
  intros [= <-] Hdis. unfold size in *. cbn. rewrite length_inserts.
  destruct (Z.leb_spec (base x) b); [|done].
  destruct (Z.leb_spec (b + Z.of_nat n) (base x + Z.of_nat (length (backing_ x)))); [|done].
  cbn [andb]. f_equal. apply list_eq. intros i.
  destruct (decide (i < n)%nat) as [Hi|Hi].
  - rewrite !lookup_take_lt, !lookup_drop by done. destruct Hdis.
    + apply list_lookup_inserts_lt. lia.
    + apply list_lookup_inserts_ge. lia.
  - by rewrite !lookup_take_ge by lia.
Qed.

Lemma store_ok x a bytes :
  base x <= a → a + Z.of_nat (length bytes) <= base x + size x →
  ∃ x', store x a bytes = Ok x' ∧ base x' = base x ∧ size x' = size x ∧
        stack_pointer x' = stack_pointer x.
Proof.
  intros H1 H2. unfold store. rewrite (proj2 (Z.leb_le _ _) H1), (proj2 (Z.leb_le _ _) H2). cbn.
  eexists. split; [done|]. unfold size. cbn. by rewrite length_inserts.
Qed.

(** From the address [a] on, the stack holds the words [ws] of [n] bytes. *)
Definition words_at (n : nat) (x : t) (a : Z) (ws : list Z) : Prop :=
  ∀ i v, ws !! i = Some v → read n x (a + Z.of_nat n * Z.of_nat i) = Ok v.

(** The words pushed so far, the last one first; they fill the stack up to its end. *)
Definition pushed (n : nat) (x : t) (b : Z) (sz : Z) (ws : list Z) : Prop :=
  base x = b ∧ size x = sz ∧ stack_pointer x = b + sz - Z.of_nat n * Z.of_nat (length ws) ∧
  words_at n x (stack_pointer x) ws.

Lemma pushed_init n StackSize b : pushed n (init StackSize b) b (Z.of_nat StackSize) [].
Proof.
  split_and!; try done; unfold size; cbn; [by rewrite length_replicate|lia].
Qed.

Lemma push_ok n x b sz ws v :
  pushed n x b sz ws → Z.of_nat n * (Z.of_nat (length ws) + 1) <= sz →
  ∃ x', push n x v = Ok x' ∧ pushed n x' b sz (uwrap (8 * Z.of_nat n) v :: ws).
Proof.
  intros (Hb & Hsz & Hsp & Hws) Hroom. unfold push.
  set (y := move_pointer x (- Z.of_nat n)).
  destruct (store_ok y (stack_pointer y) (le_bytes n v)) as (x' & E & Hb' & Hs' & Hp').
  { cbn. lia. }
  { rewrite length_le_bytes. unfold y, size in *. cbn in *. nia. }
  exists x'. split; [done|]. unfold y in Hb', Hs', Hp'. cbn in Hb', Hp'.
  assert (size x' = sz) by (rewrite Hs', <-Hsz; done).
  split_and!; [by rewrite Hb'|done|cbn [length]; lia|].
  intros i w Hi. unfold read. destruct i as [|i].
  - injection Hi as <-. rewrite Z.mul_0_r, Z.add_0_r, Hp'.
    pose proof (load_store_same _ _ _ _ E) as Hl. rewrite length_le_bytes in Hl.
    change (stack_pointer y) with (stack_pointer x + - Z.of_nat n) in Hl.
    rewrite Hl. cbn. by rewrite le_value_bytes.
  - cbn in Hi. specialize (Hws i w Hi). unfold read in Hws.
    rewrite (load_store_other _ _ _ _ _ _ E) by (rewrite length_le_bytes, Hp'; cbn; lia).
    replace (stack_pointer x' + Z.of_nat n * Z.of_nat (S i))
      with (stack_pointer x + Z.of_nat n * Z.of_nat i) by lia.
    exact Hws.
Qed.

(** Popping gives the words back in the opposite order. *)
Lemma pop_ok n x b sz v ws :
  pushed n x b sz (v :: ws) → ∃ x', pop n x = Ok (v, x') ∧ pushed n x' b sz ws.
Proof.
  intros (Hb & Hsz & Hsp & Hws). unfold pop.
  pose proof (Hws 0%nat v eq_refl) as H0. rewrite Z.mul_0_r, Z.add_0_r in H0. unfold read in H0.
  destruct (load x (stack_pointer x) n) as [bs|]; [|done]. cbn in H0 |- *. injection H0 as ->.
  eexists. split; [done|]. cbn [length] in Hsp. split_and!; [done|done|cbn; lia|].
  intros i w Hi. specialize (Hws (S i) w Hi). cbn [stack_pointer move_pointer].
  change (read n (move_pointer x (Z.of_nat n))) with (read n x).
  replace (stack_pointer x + Z.of_nat n + Z.of_nat n * Z.of_nat i)
    with (stack_pointer x + Z.of_nat n * Z.of_nat (S i)) by lia. exact Hws.
Qed.

(** Pushing a list of words, the first one first. *)
Fixpoint push_all (n : nat) (x : t) (vs : list Z) : result t :=
  match vs with [] => mret x | v :: vs => x ← push n x v; push_all n x vs end.

Lemma push_all_ok n x b sz ws vs :
  pushed n x b sz ws → Z.of_nat n * Z.of_nat (length ws + length vs) <= sz →
  ∃ x', push_all n x vs = Ok x' ∧
        pushed n x' b sz (reverse (uwrap (8 * Z.of_nat n) <$> vs) ++ ws).
Proof.
  revert x ws. induction vs as [|v vs IH]; intros x ws Hx Hroom; [by exists x|].
  cbn [push_all]. cbn [length] in Hroom.
  destruct (push_ok n x b sz ws v Hx) as (x1 & -> & Hx1); [nia|]. cbn [mbind result_bind].
  destruct (IH x1 _ Hx1) as (x2 & E & Hx2); [cbn [length]; nia|].
  exists x2. split; [done|]. cbn [fmap list_fmap]. rewrite reverse_cons, <-app_assoc. exact Hx2.
Qed.

End StaticStack.

(** ** The context switches

    Memory is seen as words at multiples of the word size; [fx] is what [fxsave] has left at
    an address. *)
Section Memory.
Context {F : Type}.

Record memory := mkmemory { word_at : Z → Z; fx_at : Z → F }.

Definition set_word (m : memory) (a v : Z) : memory :=
  mkmemory (λ b, if b =? a then v else word_at m b) (fx_at m).

Definition set_fx (m : memory) (a : Z) (f : F) : memory :=
  mkmemory (word_at m) (λ b, if b =? a then f else fx_at m b).

(** Pushes of words of [n] bytes below [sp], the first one first. *)
Fixpoint push_words (n : Z) (m : memory) (sp : Z) (vs : list Z) : memory * Z :=
  match vs with
  | [] => (m, sp)
  | v :: vs => push_words n (set_word m (sp - n) v) (sp - n) vs
  end.

(** [and $-16] on a stack pointer. *)
Definition align16 (sp : Z) : Z := 16 * (sp / 16).

Lemma push_words_sp n m sp vs :
  (push_words n m sp vs).2 = sp - n * Z.of_nat (length vs).
Proof.
  revert m sp. induction vs as [|v vs IH]; intros m sp; cbn [push_words length]; [cbn; lia|].
  rewrite IH. lia.
Qed.

Lemma push_words_above n m sp vs a :
  0 < n → sp <= a → word_at (push_words n m sp vs).1 a = word_at m a.
Proof.
  intros Hn. revert m sp. induction vs as [|v vs IH]; intros m sp Ha; cbn [push_words]; [done|].
  rewrite IH by lia. cbn. by decide_Z.
Qed.

(** The [i]-th word pushed. *)
Lemma push_words_at n m sp vs i v :
  0 < n → vs !! i = Some v →
  word_at (push_words n m sp vs).1 (sp - n * (Z.of_nat i + 1)) = v.
Proof.
  intros Hn. revert m sp i. induction vs as [|w vs IH]; intros m sp i Hi; [done|].
  cbn [push_words]. destruct i as [|i]; cbn in Hi.
  - injection Hi as ->. rewrite push_words_above by lia. cbn. by decide_Z.
  - replace (sp - n * (Z.of_nat (S i) + 1)) with (sp - n - n * (Z.of_nat i + 1)) by lia.
    by apply IH.
Qed.

Lemma push_words_fx n m sp vs : fx_at (push_words n m sp vs).1 = fx_at m.
Proof. revert m sp. induction vs as [|v vs IH]; intros m sp; cbn [push_words]; [done|]. by rewrite IH. Qed.

(** *** i386 *)
Record regs32 := mkregs32 {
  eax : Z; ecx : Z; edx : Z; ebx : Z; esp : Z; ebp : Z; esi : Z; edi : Z; eip : Z; fpu32 : F;
}.

(** The first half of [i386_context_switch], called with the return address on top of the
    stack: the memory and the stack pointer it saves. *)
Definition i386_save (r : regs32) (m : memory) : memory * Z :=
  let m := set_word m (esp r - 4) (ebp r) in
  let frame := esp r - 4 in
  let sp := align16 frame in
  let '(m, sp) := push_words 4 m sp [eax r; ecx r; edx r; ebx r; sp; frame; esi r; edi r] in
  let sp := sp - 512 in
  (set_fx m sp (fpu32 r), sp).

(** The second half: what the processor has when it returns to the saved flow. *)
Definition i386_resume (m : memory) (sp : Z) : regs32 :=
  let fpu := fx_at m sp in
  let sp := sp + 512 in
  let edi := word_at m sp in
  let esi := word_at m (sp + 4) in
  let ebp := word_at m (sp + 8) in
  let ebx := word_at m (sp + 16) in
  let edx := word_at m (sp + 20) in
  let ecx := word_at m (sp + 24) in
  let eax := word_at m (sp + 28) in
  let sp := ebp in
  let ebp := word_at m sp in
  let sp := sp + 4 in
  let eip := word_at m sp in
  mkregs32 eax ecx edx ebx (sp + 4) ebp esi edi eip fpu.

(** *** x86_64: the sixteen registers in the order they are pushed *)
Record regs64 := mkregs64 {
  rax : Z; rcx : Z; rdx : Z; rbx : Z; rsp : Z; rbp : Z; rsi : Z; rdi : Z;
  r8 : Z; r9 : Z; r10 : Z; r11 : Z; r12 : Z; r13 : Z; r14 : Z; r15 : Z; rip : Z; fpu64 : F;
}.

(** [pushq %rsp] pushes the stack pointer before the push. *)
Definition x64_save (r : regs64) (m : memory) : memory * Z :=
  let m := set_word m (rsp r - 8) (rbp r) in
  let frame := rsp r - 8 in
  let sp := align16 frame in
  let '(m, sp) := push_words 8 m sp
    [rax r; rcx r; rdx r; rbx r; sp - 32; frame; rsi r; rdi r;
     r8 r; r9 r; r10 r; r11 r; r12 r; r13 r; r14 r; r15 r] in
  let sp := sp - 512 in
  (set_fx m sp (fpu64 r), sp).

(** [popq %rsp] loads the stack pointer that the next pops use. *)
Definition x64_resume (m : memory) (sp : Z) : regs64 :=
  let fpu := fx_at m sp in
  let sp := sp + 512 in
  let r15 := word_at m sp in
  let r14 := word_at m (sp + 8) in
  let r13 := word_at m (sp + 16) in
  let r12 := word_at m (sp + 24) in
  let r11 := word_at m (sp + 32) in
  let r10 := word_at m (sp + 40) in
  let r9 := word_at m (sp + 48) in
  let r8 := word_at m (sp + 56) in
  let rdi := word_at m (sp + 64) in
  let rsi := word_at m (sp + 72) in
  let rbp := word_at m (sp + 80) in
  let sp := word_at m (sp + 88) in
  let rbx := word_at m sp in
  let rdx := word_at m (sp + 8) in
  let rcx := word_at m (sp + 16) in
  let rax := word_at m (sp + 24) in
  let sp := rbp in
  let rbp := word_at m sp in
  let sp := sp + 8 in
  let rip := word_at m sp in
  mkregs64 rax rcx rdx rbx (sp + 8) rbp rsi rdi r8 r9 r10 r11 r12 r13 r14 r15 rip fpu.

Lemma align16_le sp : sp - 16 < align16 sp <= sp.
Proof. unfold align16. pose proof (Z.div_mod sp 16 ltac:(lia)). pose proof (Z.mod_pos_bound sp 16 ltac:(lia)). lia. Qed.

(** The memory a saved flow finds when it is resumed: its stack as the switch left it. *)
Definition kept (saved : memory) (sp entry : Z) (m : memory) : Prop :=
  fx_at m sp = fx_at saved sp ∧ ∀ a, sp + 512 <= a <= entry → word_at m a = word_at saved a.

(** What that memory holds: the words pushed, the frame pointer and the return address. *)
Lemma kept_words n m entry fp vs f m' :
  0 < n → n <= 8 →
  let frame := entry - n in
  let A := align16 frame in
  let m2 := (push_words n (set_word m frame fp) A vs).1 in
  let sp := A - n * Z.of_nat (length vs) - 512 in
  kept (set_fx m2 sp f) sp entry m' →
  fx_at m' sp = f ∧ word_at m' frame = fp ∧ word_at m' entry = word_at m entry ∧
  ∀ i v a, vs !! i = Some v → a = A - n * (Z.of_nat i + 1) → word_at m' a = v.
Proof.
  intros Hn Hn8 frame A m2 sp [Hfx Hw]. pose proof (align16_le frame).
  assert (0 <= n * Z.of_nat (length vs)) by lia. fold A in H.
  assert (frame = entry - n) as Hframe by done.
  split_and!.
  - rewrite Hfx. cbn. by decide_Z.
  - rewrite Hw by lia. cbn. unfold m2. rewrite push_words_above by lia. cbn. by decide_Z.
  - rewrite Hw by lia. cbn. unfold m2. rewrite push_words_above by lia. cbn. by decide_Z.
  - intros i v a Hi ->. pose proof (lookup_lt_Some _ _ _ Hi). rewrite Hw by nia. cbn.
    unfold m2. by apply push_words_at.
Qed.

Lemma i386_roundtrip r m m' :
  kept (i386_save r m).1 (i386_save r m).2 (esp r) m' →
  i386_resume m' (i386_save r m).2
  = mkregs32 (eax r) (ecx r) (edx r) (ebx r) (esp r + 4) (ebp r) (esi r) (edi r)
      (word_at m (esp r)) (fpu32 r).
Proof.
  set (vs := [eax r; ecx r; edx r; ebx r; align16 (esp r - 4); esp r - 4; esi r; edi r]).
  assert (i386_save r m
    = (set_fx (push_words 4 (set_word m (esp r - 4) (ebp r)) (align16 (esp r - 4)) vs).1
         (align16 (esp r - 4) - 4 * 8 - 512) (fpu32 r), align16 (esp r - 4) - 4 * 8 - 512)) as ->.
  { unfold i386_save. fold vs.
    pose proof (push_words_sp 4 (set_word m (esp r - 4) (ebp r)) (align16 (esp r - 4)) vs) as Hsp.
    destruct (push_words _ _ _ _) as [m2 sp]. cbn [snd] in Hsp. by rewrite Hsp. }
  intros Hk. destruct (kept_words 4 m (esp r) (ebp r) vs (fpu32 r) m' ltac:(lia) ltac:(lia) Hk)
    as (Hf & Hframe & Hret & Hw).
  set (A := align16 (esp r - 4)) in *. change (length vs) with 8%nat in Hf.
  cbn [snd]. unfold i386_resume.
  assert (word_at m' (A - 4 * 8 - 512 + 512 + 8) = esp r - 4) as Hebp
    by (eapply (Hw 5%nat); [reflexivity|lia]).
  rewrite Hebp, Hframe. replace (esp r - 4 + 4) with (esp r) by lia. rewrite Hret.
  f_equal; [eapply (Hw 0%nat)|eapply (Hw 1%nat)|eapply (Hw 2%nat)|eapply (Hw 3%nat)
           |eapply (Hw 6%nat)|eapply (Hw 7%nat)|exact Hf]; (reflexivity || lia).
Qed.

Lemma x64_roundtrip r m m' :
  kept (x64_save r m).1 (x64_save r m).2 (rsp r) m' →
  x64_resume m' (x64_save r m).2
  = mkregs64 (rax r) (rcx r) (rdx r) (rbx r) (rsp r + 8) (rbp r) (rsi r) (rdi r) (r8 r) (r9 r)
      (r10 r) (r11 r) (r12 r) (r13 r) (r14 r) (r15 r) (word_at m (rsp r)) (fpu64 r).
Proof.
  set (A := align16 (rsp r - 8)).
  set (vs := [rax r; rcx r; rdx r; rbx r; A - 32; rsp r - 8; rsi r; rdi r;
     r8 r; r9 r; r10 r; r11 r; r12 r; r13 r; r14 r; r15 r]).
  assert (x64_save r m
    = (set_fx (push_words 8 (set_word m (rsp r - 8) (rbp r)) A vs).1
         (A - 8 * 16 - 512) (fpu64 r), A - 8 * 16 - 512)) as ->.
  { unfold x64_save. fold A. fold vs.
    pose proof (push_words_sp 8 (set_word m (rsp r - 8) (rbp r)) A vs) as Hsp.
    destruct (push_words _ _ _ _) as [m2 sp]. cbn [snd] in Hsp. by rewrite Hsp. }
  intros Hk. destruct (kept_words 8 m (rsp r) (rbp r) vs (fpu64 r) m' ltac:(lia) ltac:(lia) Hk)
    as (Hf & Hframe & Hret & Hw).
  fold A in Hf, Hw. change (length vs) with 16%nat in Hf.
  cbn [snd]. unfold x64_resume.
  assert (word_at m' (A - 8 * 16 - 512 + 512 + 80) = rsp r - 8) as Hrbp
    by (eapply (Hw 5%nat); [reflexivity|lia]).
  assert (word_at m' (A - 8 * 16 - 512 + 512 + 88) = A - 32) as Hrsp
    by (eapply (Hw 4%nat); [reflexivity|lia]).
  rewrite Hrbp, Hrsp, Hframe. replace (rsp r - 8 + 8) with (rsp r) by lia. rewrite Hret.
  f_equal; [eapply (Hw 0%nat)|eapply (Hw 1%nat)|eapply (Hw 2%nat)|eapply (Hw 3%nat)
           |eapply (Hw 6%nat)|eapply (Hw 7%nat)|eapply (Hw 8%nat)|eapply (Hw 9%nat)
           |eapply (Hw 10%nat)|eapply (Hw 11%nat)|eapply (Hw 12%nat)|eapply (Hw 13%nat)
           |eapply (Hw 14%nat)|eapply (Hw 15%nat)|exact Hf]; (reflexivity || lia).
Qed.

(** C29: A context switch is transparent.  When a flow is switched away from and later switched
    back to, with its stack as the switch left it, it continues at its return address with
    every register, the stack pointer past the return address and the floating-point state
    as they were at the call, on i386 and on x86_64. *)
Theorem context_switch_roundtrip (r : regs32) (q : regs64) (m m32 m64 : memory) :
  kept (i386_save r m).1 (i386_save r m).2 (esp r) m32 →
  kept (x64_save q m).1 (x64_save q m).2 (rsp q) m64 →
  i386_resume m32 (i386_save r m).2
  = mkregs32 (eax r) (ecx r) (edx r) (ebx r) (esp r + 4) (ebp r) (esi r) (edi r)
      (word_at m (esp r)) (fpu32 r) ∧
  x64_resume m64 (x64_save q m).2
  = mkregs64 (rax q) (rcx q) (rdx q) (rbx q) (rsp q + 8) (rbp q) (rsi q) (rdi q) (r8 q) (r9 q)
      (r10 q) (r11 q) (r12 q) (r13 q) (r14 q) (r15 q) (word_at m (rsp q)) (fpu64 q).
Proof. intros H32 H64. split; [by apply i386_roundtrip|by apply x64_roundtrip]. Qed.

End Memory.
Arguments memory : clear implicits.
Arguments regs32 : clear implicits.
Arguments regs64 : clear implicits.

(** A switch back at once, on a stack whose top is not a multiple of 16. *)
Lemma context_switch_roundtrip_witness :
  let m := mkmemory (λ a, 7 * a) (λ _, tt) in
  let r := mkregs32 1 2 3 4 4012 6 7 8 9 tt in
  let q := mkregs64 1 2 3 4 8008 6 7 8 9 10 11 12 13 14 15 16 17 tt in
  i386_resume (i386_save r m).1 (i386_save r m).2
  = mkregs32 1 2 3 4 4016 6 7 8 28084 tt ∧
  x64_resume (x64_save q m).1 (x64_save q m).2
  = mkregs64 1 2 3 4 8016 6 7 8 9 10 11 12 13 14 15 16 56056 tt.
Proof.
  intros m r q.
  exact (context_switch_roundtrip r q m (i386_save r m).1 (x64_save q m).1
    (conj eq_refl (λ a _, eq_refl)) (conj eq_refl (λ a _, eq_refl))).
Defined.

(** ** New threads *)
Module Thread.
Import StaticStack.

Definition PAGE_SIZE : nat := 4096.
Definition FXSAVE_DATA_SIZE : Z := 512.
Definition FXSAVE_DATA_ALIGN : Z := 16.

Section New.
Context (thread_start vanish : Z).

(** [stack_pointer -= FXSAVE_DATA_SIZE], the assertion, and [fxsave], which writes [fx]. *)
Definition save_fx (s : t) (fx : list Z) : result t :=
  let s := move_pointer s (- FXSAVE_DATA_SIZE) in
  assert! stack_pointer s `mod` FXSAVE_DATA_ALIGN =? 0;
  store s (stack_pointer s) fx.

(** [Thread_i386(function, param)], with [backing_] at the address [b]. *)
Definition new_i386 (b function param : Z) (fx : list Z) : result t :=
  let I := 0xcdcdcdcd in
  let s := init PAGE_SIZE b in
  s ← push4 s function;
  s ← push4 s param;
  s ← push4 s vanish;
  s ← push4 s thread_start;
  let EBP := stack_pointer s - 4 in
  s ← push 4 s EBP;
  let ESP := stack_pointer s in
  s ← push4 s I; s ← push4 s I; s ← push4 s I; s ← push4 s I;
  s ← push4 s ESP;
  s ← push4 s EBP;
  s ← push4 s I; s ← push4 s I;
  save_fx s fx.

(** [Thread_x86_64(function, param)]. *)
Definition new_x64 (b function param : Z) (fx : list Z) : result t :=
  let I := 0xcdcdcdcdcdcdcdcd in
  let s := init PAGE_SIZE b in
  s ← push8 s vanish;
  s ← push8 s thread_start;
  let RBP := stack_pointer s - 8 in
  s ← push8 s RBP;
  let RSP := stack_pointer s in
  s ← push8 s I; s ← push8 s I; s ← push8 s I; s ← push8 s I;
  s ← push8 s RSP;
  s ← push8 s RBP;
  s ← push8 s function;
  s ← push8 s param;
  s ← push8 s I; s ← push8 s I; s ← push8 s I; s ← push8 s I;
  s ← push8 s I; s ← push8 s I; s ← push8 s I; s ← push8 s I;
  save_fx s fx.

Ltac push_step :=
  match goal with
  | H : pushed ?n ?x ?b ?sz ?ws |- context [push ?n ?x ?v] =>
      let y := fresh "s" in let Hy := fresh "H" in
      destruct (push_ok n x b sz ws v H) as (y & -> & Hy); [cbn [length]; lia|];
      cbn [mbind result_bind]
  end.

(** Below the words pushed, the floating-point state. *)
Lemma save_fx_ok n x b sz ws fx :
  pushed n x b sz ws → length fx = 512%nat →
  Z.of_nat n * Z.of_nat (length ws) + 512 <= sz →
  let sp := b + sz - Z.of_nat n * Z.of_nat (length ws) - 512 in
  if sp `mod` 16 =? 0 then
    ∃ x', save_fx x fx = Ok x' ∧ stack_pointer x' = sp ∧ words_at n x' (sp + 512) ws
  else save_fx x fx = Fault AssertionFailed.
Proof.
  intros (Hb & Hsz & Hsp & Hws) Hfx Hroom sp. unfold save_fx, FXSAVE_DATA_SIZE, FXSAVE_DATA_ALIGN.
  change (- (512)) with (-512). cbn [stack_pointer move_pointer].
  replace (stack_pointer x + -512) with sp by lia.
  destruct (sp `mod` 16 =? 0); cbn [assert_then]; [|done].
  destruct (store_ok (move_pointer x (-512)) sp fx) as (x' & E & Hb' & Hs' & Hp').
  { cbn. lia. } { rewrite Hfx. unfold size in *. cbn in *. lia. }
  exists x'. split; [exact E|]. split; [rewrite Hp'; cbn; lia|].
  intros i v Hi. unfold read. rewrite (load_store_other _ _ _ _ _ _ E) by lia.
  change (load (move_pointer x (-512))) with (load x).
  specialize (Hws i v Hi). unfold read in Hws.
  replace (sp + 512 + Z.of_nat n * Z.of_nat i) with (stack_pointer x + Z.of_nat n * Z.of_nat i) by lia.
  exact Hws.
Qed.

Ltac sp_known :=
  repeat match goal with
  | H : pushed ?n ?x ?b ?sz ?ws |- context [stack_pointer ?x] =>
      let E := fresh "E" in
      pose proof H as (_ & _ & E & _); cbn [length] in E; rewrite E; clear E
  end.

(** The words a new thread's stack holds, the lowest one first. *)
Definition words32 (b function param : Z) : list Z :=
  let frame := b + 4096 - 20 in let I := 0xcdcdcdcd in
  [I; I; frame; frame; I; I; I; I; frame; thread_start; vanish; param; function].

Definition words64 (b function param : Z) : list Z :=
  let frame := b + 4096 - 24 in let I := 0xcdcdcdcdcdcdcdcd in
  [I; I; I; I; I; I; I; I; param; function; frame; frame; I; I; I; I; frame; thread_start; vanish].

(** Push everything, then name the words pushed. *)
Ltac push_everything ws :=
  repeat first [progress sp_known | push_step];
  match goal with
  | H : pushed ?n ?x _ _ ?ws' |- context [save_fx ?x _] =>
      let E := fresh "E" in
      assert (ws' = ws) as E;
      [ unfold words32, words64; repeat apply (f_equal2 cons);
        first [reflexivity | rewrite uwrap_small; [lia|unfold fits in *; cbn in *; lia]]
      | rewrite E in H ]
  end.

Lemma new_i386_ok b function param fx :
  fits 32 function → fits 32 param → fits 32 vanish → fits 32 thread_start →
  0 <= b → b + 4096 <= 2 ^ 32 → length fx = 512%nat →
  let sp := b + 4096 - 564 in
  if sp `mod` 16 =? 0 then
    ∃ s, new_i386 b function param fx = Ok s ∧ stack_pointer s = sp ∧
         words_at 4 s (sp + 512) (words32 b function param)
  else new_i386 b function param fx = Fault AssertionFailed.
Proof.
  intros Hf Hp Hv Ht Hb Hb' Hfx sp. unfold new_i386, push4. cbv zeta.
  pose proof (pushed_init 4 PAGE_SIZE b) as H0.
  change (Z.of_nat PAGE_SIZE) with 4096 in H0.
  push_everything (words32 b function param).
  match goal with H : pushed 4 ?x b 4096 (words32 _ _ _) |- _ =>
    pose proof (save_fx_ok 4 x b 4096 _ fx H Hfx ltac:(cbn; lia)) as Hs end.
  change (Z.of_nat 4 * Z.of_nat (length (words32 b function param))) with 52 in Hs.
  replace (b + 4096 - 52 - 512) with sp in Hs by (unfold sp; lia). exact Hs.
Qed.

Lemma new_x64_ok b function param fx :
  fits 64 function → fits 64 param → fits 64 vanish → fits 64 thread_start →
  0 <= b → b + 4096 <= 2 ^ 64 → length fx = 512%nat →
  let sp := b + 4096 - 664 in
  if sp `mod` 16 =? 0 then
    ∃ s, new_x64 b function param fx = Ok s ∧ stack_pointer s = sp ∧
         words_at 8 s (sp + 512) (words64 b function param)
  else new_x64 b function param fx = Fault AssertionFailed.
Proof.
  intros Hf Hp Hv Ht Hb Hb' Hfx sp. unfold new_x64, push8. cbv zeta.
  pose proof (pushed_init 8 PAGE_SIZE b) as H0.
  change (Z.of_nat PAGE_SIZE) with 4096 in H0.
  push_everything (words64 b function param).
  match goal with H : pushed 8 ?x b 4096 (words64 _ _ _) |- _ =>
    pose proof (save_fx_ok 8 x b 4096 _ fx H Hfx ltac:(cbn; lia)) as Hs end.
  change (Z.of_nat 8 * Z.of_nat (length (words64 b function param))) with 152 in Hs.
  replace (b + 4096 - 152 - 512) with sp in Hs by (unfold sp; lia). exact Hs.
Qed.

(** Memory in which the stack object lies. *)
Definition contains {F} (n : nat) (x : t) (m : memory F) : Prop :=
  ∀ a v, read n x a = Ok v → word_at m a = v.

Lemma contains_word {F} n x a ws (m : memory F) i v b :
  words_at n x a ws → contains n x m → ws !! i = Some v → b = a + Z.of_nat n * Z.of_nat i →
  word_at m b = v.
Proof. intros Hws Hm Hi ->. by apply Hm, Hws. Qed.

Lemma enters_i386 {F} b function param x (m : memory F) :
  words_at 4 x (stack_pointer x + 512) (words32 b function param) →
  stack_pointer x = b + 4096 - 564 → contains 4 x m →
  let r := i386_resume m (stack_pointer x) in
  eip r = thread_start ∧ word_at m (esp r) = vanish ∧
  word_at m (esp r + 4) = param ∧ word_at m (esp r + 8) = function.
Proof.
  intros Hws Hsp Hm r.
  assert (∀ i v c, words32 b function param !! i = Some v →
    c = stack_pointer x + 512 + 4 * Z.of_nat i → word_at m c = v) as Hat.
  { intros i v c Hi ->. by eapply (contains_word 4); [exact Hws|done|exact Hi|]. }
  assert (word_at m (stack_pointer x + 512 + 8) = b + 4096 - 20) as Hebp
    by (eapply (Hat 2%nat); [reflexivity|lia]).
  subst r. unfold i386_resume. cbn [eip esp]. rewrite Hebp.
  split_and!; [eapply (Hat 9%nat)|eapply (Hat 10%nat)|eapply (Hat 11%nat)|eapply (Hat 12%nat)];
    (reflexivity || lia).
Qed.

Lemma enters_x64 {F} b function param x (m : memory F) :
  words_at 8 x (stack_pointer x + 512) (words64 b function param) →
  stack_pointer x = b + 4096 - 664 → contains 8 x m →
  let r := x64_resume m (stack_pointer x) in
  rip r = thread_start ∧ word_at m (rsp r) = vanish ∧ rdi r = param ∧ rsi r = function.
Proof.
  intros Hws Hsp Hm r.
  assert (∀ i v c, words64 b function param !! i = Some v →
    c = stack_pointer x + 512 + 8 * Z.of_nat i → word_at m c = v) as Hat.
  { intros i v c Hi ->. by eapply (contains_word 8); [exact Hws|done|exact Hi|]. }
  assert (word_at m (stack_pointer x + 512 + 80) = b + 4096 - 24) as Hrbp
    by (eapply (Hat 10%nat); [reflexivity|lia]).
  subst r. unfold x64_resume. cbn [rip rsp rdi rsi]. rewrite Hrbp.
  split_and!; [eapply (Hat 17%nat)|eapply (Hat 18%nat)|eapply (Hat 8%nat)|eapply (Hat 9%nat)];
    (reflexivity || lia).
Qed.

(** C30: The first switch to a new thread enters [thread_start(param, function)] with [vanish] as
    its return address, whatever the rest of memory holds: on i386 with the arguments on the
    stack above the return address, on x86_64 with the arguments in [rdi] and [rsi].  But
    the constructor gets that far only when [backing_] lies 4 bytes (on x86_64, 8 bytes)
    past a multiple of 16; at any other address it stops in its own assertion, and always
    when [backing_] has the alignment of 16 that the class declares. *)
Theorem new_thread_enters_thread_start {F} b32 b64 function param fx :
  fits 64 function → fits 64 param → fits 64 vanish → fits 64 thread_start →
  0 <= b32 → b32 + 4096 <= 2 ^ 32 → 0 <= b64 → b64 + 4096 <= 2 ^ 64 → length fx = 512%nat →
  (fits 32 function → fits 32 param → fits 32 vanish → fits 32 thread_start →
   if b32 `mod` 16 =? 4 then
     ∃ s, new_i386 b32 function param fx = Ok s ∧
       ∀ m : memory F, contains 4 s m →
         let r := i386_resume m (stack_pointer s) in
         eip r = thread_start ∧ word_at m (esp r) = vanish ∧
         word_at m (esp r + 4) = param ∧ word_at m (esp r + 8) = function
   else new_i386 b32 function param fx = Fault AssertionFailed) ∧
  (if b64 `mod` 16 =? 8 then
     ∃ s, new_x64 b64 function param fx = Ok s ∧
       ∀ m : memory F, contains 8 s m →
         let r := x64_resume m (stack_pointer s) in
         rip r = thread_start ∧ word_at m (rsp r) = vanish ∧ rdi r = param ∧ rsi r = function
   else new_x64 b64 function param fx = Fault AssertionFailed).
Proof.
  intros Hf Hp Hv Ht Hb Hb' Hc Hc' Hfx. split.
  - intros Hf' Hp' Hv' Ht'.
    pose proof (new_i386_ok b32 function param fx Hf' Hp' Hv' Ht' Hb Hb' Hfx) as H. cbv zeta in H.
    replace (b32 `mod` 16 =? 4) with ((b32 + 4096 - 564) `mod` 16 =? 0)
      by (repeat case_Z; Z.to_euclidean_division_equations; lia).
    destruct ((b32 + 4096 - 564) `mod` 16 =? 0); [|done].
    destruct H as (s & E & Hsp & Hws). exists s. split; [done|]. intros m Hm.
    apply (enters_i386 b32); [by rewrite Hsp|done..].
  - pose proof (new_x64_ok b64 function param fx Hf Hp Hv Ht Hc Hc' Hfx) as H. cbv zeta in H.
    replace (b64 `mod` 16 =? 8) with ((b64 + 4096 - 664) `mod` 16 =? 0)
      by (repeat case_Z; Z.to_euclidean_division_equations; lia).
    destruct ((b64 + 4096 - 664) `mod` 16 =? 0); [|done].
    destruct H as (s & E & Hsp & Hws). exists s. split; [done|]. intros m Hm.
    apply (enters_x64 b64); [by rewrite Hsp|done..].
Qed.

End New.

(** A thread object whose stack lies at 0xC0400014, and one with the declared alignment. *)
Lemma new_thread_enters_thread_start_witness :
  (∃ s, new_i386 0xC0101000 0xC0102000 0xC0400014 0xC0103000 0 (replicate 512 0) = Ok s ∧
     ∀ m : memory unit, contains 4 s m →
       eip (i386_resume m (stack_pointer s)) = 0xC0101000) ∧
  new_x64 0xC0101000 0xC0102000 0xC0400010 0xC0103000 0 (replicate 512 0) = Fault AssertionFailed.
Proof.
  destruct (new_thread_enters_thread_start (F := unit) 0xC0101000 0xC0102000 0xC0400014 0xC0400010
    0xC0103000 0 (replicate 512 0) ltac:(done) ltac:(done) ltac:(done) ltac:(done) ltac:(lia)
    ltac:(lia) ltac:(lia) ltac:(lia) eq_refl) as [Hok Hfault].
  assert (∀ x, 0 <= x < 2 ^ 32 → fits 32 x) as Hfit by done.
  specialize (Hok (Hfit 0xC0103000 ltac:(lia)) (Hfit 0 ltac:(lia)) (Hfit 0xC0102000 ltac:(lia))
    (Hfit 0xC0101000 ltac:(lia))).
  change (0xC0400014 `mod` 16 =? 4) with true in Hok. cbv iota in Hok.
  destruct Hok as (s & E & Hs).
  split; [|exact Hfault]. exists s. split; [exact E|]. intros m Hm. exact (proj1 (Hs m Hm)).
Defined.

End Thread.
