(* ===== verification/SharedPointer.v ===== *)
(** * SharedPointer: reference-counted ownership

    Models [SharedPointer] (src/Common/include/common/shared_pointer.hpp).  The store holds
    the objects that are alive and the reference counts in use, by address; a pointer object
    is its two members.  Every operation holds the interrupt lock while it works, so
    operations do not interleave; the lock itself is modelled with the scheduler.

    The specification knows pointer variables and the objects they refer to, nothing else:
    an object is alive exactly as long as a variable refers to it. *)
From S2P Require Import Prelude Scheduler.

Module SharedPointer.

Record store := mkstore { objects : gset Z; counts : gmap Z Z }.

Record t := mk { data_ : Z; count_ : Z }.

#[global] Instance shared_pointer_eq_dec : EqDecision t.
Proof. solve_decision. Defined.

Definition null : t := mk 0 0.

(** [delete data_] *)
Definition delete_object (st : store) (a : Z) : result store :=
  if a =? 0 then mret st
  else if decide (a ∈ objects st) then mret (mkstore (objects st ∖ {[a]}) (counts st))
  else Fault InvalidAccess.

Definition acquire_unlocked (st : store) (p : t) : result store :=
  if count_ p =? 0 then mret st
  else
    n ← deref InvalidAccess (counts st !! count_ p);
    mret (mkstore (objects st) (<[count_ p := swrap 32 (n + 1)]> (counts st))).

(** The pointer is null afterwards. *)
Definition release_unlocked (st : store) (p : t) : result (store * t) :=
  st ← (if count_ p =? 0 then mret st
        else
          n ← deref InvalidAccess (counts st !! count_ p);
          let st := mkstore (objects st) (<[count_ p := swrap 32 (n - 1)]> (counts st)) in
          if n =? 1 then
            st ← delete_object st (data_ p);
            mret (mkstore (objects st) (delete (count_ p) (counts st)))
          else mret st);
  mret (st, null).

(** [SharedPointer(data)]; [fresh] is where the allocator puts the count. *)
Definition construct (st : store) (data fresh : Z) : store * t :=
  if data =? 0 then (st, null)
  else (mkstore (objects st) (<[fresh := 1]> (counts st)), mk data fresh).

Definition copy_construct (st : store) (other : t) : result (store * t) :=
  let p := mk (data_ other) (count_ other) in
  st ← acquire_unlocked st p;
  mret (st, p).

(** The pointer constructed, and the one moved from. *)
Definition move_construct (other : t) : t * t := (mk (data_ other) (count_ other), null).

(** [SharedPointer(UniquePointer&&)]: the unique pointer is told to leak and then nulled. *)
Definition construct_from_unique (st : store) (other : UniquePointer.t) (fresh : Z)
  : store * t * UniquePointer.t :=
  (mkstore (objects st) (<[fresh := 1]> (counts st)), mk (UniquePointer.data_ other) fresh,
   UniquePointer.null).

Definition get_pointer (p : t) : Z := data_ p.

(** [*this = other] for two distinct pointer objects. *)
Definition copy_assign (st : store) (p other : t) : result (store * t) :=
  '(st, _) ← release_unlocked st p;
  let p := mk (data_ other) (count_ other) in
  st ← acquire_unlocked st p;
  mret (st, p).

Definition move_assign (st : store) (p other : t) : result (store * t * t) :=
  '(st, _) ← release_unlocked st p;
  mret (st, mk (data_ other) (count_ other), null).

Definition assign_from_unique (st : store) (p : t) (other : UniquePointer.t) (fresh : Z)
  : result (store * t * UniquePointer.t) :=
  '(st, _) ← release_unlocked st p;
  mret (construct_from_unique st other fresh).

(** [==] of two distinct pointer objects. *)
Definition equals (p other : t) : bool := data_ p =? data_ other.

Definition not_equals (p other : t) : bool := negb (equals p other).

Definition is_set (p : t) : bool := negb (data_ p =? 0).

Definition get_count (st : store) (p : t) : result Z :=
  if count_ p =? 0 then mret 0 else deref InvalidAccess (counts st !! count_ p).

(** ** Programs that use shared pointers

    Variables by number.  [object] and [fresh] are the addresses that the allocator returns
    for a new object and for its count. *)
Inductive op :=
| Null (i : nat)
| New (i : nat) (object fresh : Z)
| FromUnique (i : nat) (object fresh : Z)
| Copy (i j : nat)
| Move (i j : nat)
| CopyAssign (i j : nat)
| MoveAssign (i j : nat)
| Destroy (i : nat)
| GetCount (i : nat).

Record world := mkw { st : store; vars : gmap nat t }.

Definition var (w : world) (i : nat) : result t := deref InvalidAccess (vars w !! i).

Definition new_object (w : world) (object : Z) : store :=
  mkstore ({[object]} ∪ objects (st w)) (counts (st w)).

Definition run_op (o : op) (w : world) : result (option Z * world) :=
  match o with
  | Null i => mret (None, mkw (st w) (<[i := null]> (vars w)))
  | New i object fresh =>
      let '(s, p) := construct (new_object w object) object fresh in
      mret (None, mkw s (<[i := p]> (vars w)))
  | FromUnique i object fresh =>
      let '(s, p, _) := construct_from_unique (new_object w object) (UniquePointer.init object) fresh in
      mret (None, mkw s (<[i := p]> (vars w)))
  | Copy i j =>
      other ← var w j;
      '(s, p) ← copy_construct (st w) other;
      mret (None, mkw s (<[i := p]> (vars w)))
  | Move i j =>
      other ← var w j;
      let '(p, q) := move_construct other in
      mret (None, mkw (st w) (<[i := p]> (<[j := q]> (vars w))))
  | CopyAssign i j =>
      p ← var w i;
      other ← var w j;
      if decide (i = j) then mret (None, w)
      else
        '(s, p) ← copy_assign (st w) p other;
        mret (None, mkw s (<[i := p]> (vars w)))
  | MoveAssign i j =>
      p ← var w i;
      other ← var w j;
      if decide (i = j) then mret (None, w)
      else
        '(s, p, q) ← move_assign (st w) p other;
        mret (None, mkw s (<[i := p]> (<[j := q]> (vars w))))
  | Destroy i =>
      p ← var w i;
      '(s, _) ← release_unlocked (st w) p;
      mret (None, mkw s (delete i (vars w)))
  | GetCount i =>
      p ← var w i;
      n ← get_count (st w) p;
      mret (Some n, w)
  end.

(** ** The specification: variables and the objects they refer to *)
Notation refs_map := (gmap nat (option Z)).

Definition referring (a : refs_map) (o : Z) : refs_map := filter (λ kv, kv.2 = Some o) a.

Definition refs (a : refs_map) (o : Z) : nat := base.size (referring a o).

Definition alive (a : refs_map) (o : Z) : Prop := ∃ i, a !! i = Some (Some o).

Definition spec_op (o : op) (a : refs_map) : result (option Z * refs_map) :=
  match o with
  | Null i => mret (None, <[i := None]> a)
  | New i object _ | FromUnique i object _ => mret (None, <[i := Some object]> a)
  | Copy i j => x ← deref InvalidAccess (a !! j); mret (None, <[i := x]> a)
  | Move i j => x ← deref InvalidAccess (a !! j); mret (None, <[i := x]> (<[j := None]> a))
  | CopyAssign i j =>
      _ ← deref InvalidAccess (a !! i); x ← deref InvalidAccess (a !! j);
      mret (None, <[i := x]> a)
  | MoveAssign i j =>
      _ ← deref InvalidAccess (a !! i); x ← deref InvalidAccess (a !! j);
      mret (None, if decide (i = j) then a else <[i := x]> (<[j := None]> a))
  | Destroy i => _ ← deref InvalidAccess (a !! i); mret (None, delete i a)
  | GetCount i =>
      x ← deref InvalidAccess (a !! i);
      mret (Some (match x with None => 0 | Some o => Z.of_nat (refs a o) end), a)
  end.

(** *** Counting references *)
Lemma referring_insert_fresh a i x o :
  a !! i = None →
  refs (<[i := x]> a) o = (refs a o + if decide (x = Some o) then 1 else 0)%nat.
Proof.
  intros Hi. unfold refs, referring. rewrite map_filter_insert. cbn. case_decide.
  - rewrite map_size_insert_None; [lia|]. rewrite map_lookup_filter_None. by left.
  - rewrite delete_id by done. lia.
Qed.

Lemma refs_delete a i x o :
  a !! i = Some x → refs a o = (refs (delete i a) o + if decide (x = Some o) then 1 else 0)%nat.
Proof.
  intros Hi. rewrite <-(insert_delete_id a i x Hi) at 1.
  apply referring_insert_fresh, lookup_delete_eq.
Qed.

Lemma refs_insert a i x y o :
  a !! i = Some x →
  (refs (<[i := y]> a) o + (if decide (x = Some o) then 1 else 0)
   = refs a o + if decide (y = Some o) then 1 else 0)%nat.
Proof.
  intros Hi. rewrite (refs_delete a i x o Hi), <-insert_delete_eq.
  rewrite referring_insert_fresh by apply lookup_delete_eq. lia.
Qed.

Lemma refs_alive a o : (0 < refs a o)%nat ↔ alive a o.
Proof.
  unfold refs, alive, referring. split.
  - intros Hsz. destruct (map_choose (filter (λ kv, kv.2 = Some o) a)) as (i & x & Hx).
    { apply map_size_non_empty_iff. lia. }
    apply map_lookup_filter_Some in Hx as [Hx Ho]. cbn in Ho. subst x. by exists i.
  - intros [i Hi]. apply Nat.neq_0_lt_0, map_size_non_empty_iff. intros E.
    assert (filter (λ kv, kv.2 = Some o) a !! i = Some (Some o)) as Hx
      by by apply map_lookup_filter_Some.
    by rewrite E, lookup_empty in Hx.
Qed.

Lemma refs_le_size a o : (refs a o <= base.size a)%nat.
Proof. apply map_size_filter. Qed.

(** ** Representation

    [own] gives the address of the count of each object that is alive. *)
Definition pointer_to (own : gmap Z Z) (x : option Z) : t :=
  match x with
  | None => null
  | Some o => mk o (default 0 (own !! o))
  end.

Record rep_by (own : gmap Z Z) (w : world) (a : refs_map) : Prop := {
  rb_vars : vars w = pointer_to own <$> a;
  rb_objects : objects (st w) = dom own;
  rb_alive : ∀ o, is_Some (own !! o) ↔ alive a o;
  rb_count : ∀ o c, own !! o = Some c →
    o ≠ 0 ∧ c ≠ 0 ∧ counts (st w) !! c = Some (Z.of_nat (refs a o));
  rb_inj : ∀ o o' c, own !! o = Some c → own !! o' = Some c → o = o';
  rb_used : ∀ c, is_Some (counts (st w) !! c) → ∃ o, own !! o = Some c;
}.

Definition rep (w : world) (a : refs_map) : Prop := ∃ own, rep_by own w a.

Lemma rep_var w a i : rep w a → is_Some (a !! i) → is_Some (vars w !! i).
Proof.
  intros [own H] [x Hx]. rewrite (rb_vars _ _ _ H), lookup_fmap, Hx. by eexists.
Qed.

(** A new variable, null. *)
Lemma null_ok own w a i :
  rep_by own w a → a !! i = None →
  rep_by own (mkw (st w) (<[i := null]> (vars w))) (<[i := None]> a).
Proof.
  intros H Hi.
  assert (∀ o, refs (<[i := None]> a) o = refs a o) as Hrefs.
  { intros o. rewrite referring_insert_fresh by done. rewrite decide_False by done. lia. }
  split; cbn [st vars].
  - by rewrite fmap_insert, (rb_vars _ _ _ H).
  - apply H.
  - intros o. rewrite (rb_alive _ _ _ H), <-!refs_alive. by rewrite Hrefs.
  - intros o c Ho. rewrite Hrefs. by apply H.
  - apply H.
  - apply H.
Qed.

(** An object and its count, referred to by a variable that was null. *)
Lemma new_ok own w a i object fresh :
  rep_by own w a → a !! i = None → object ≠ 0 → fresh ≠ 0 →
  ¬ alive a object → counts (st w) !! fresh = None →
  rep_by (<[object := fresh]> own)
    (mkw (mkstore ({[object]} ∪ objects (st w)) (<[fresh := 1]> (counts (st w))))
       (<[i := mk object fresh]> (vars w)))
    (<[i := Some object]> a).
Proof.
  intros H Hi Hobj Hfresh Hdead Hcnt.
  assert (own !! object = None) as Hown.
  { apply eq_None_not_Some. rewrite (rb_alive _ _ _ H). done. }
  assert (refs a object = 0%nat) as H0.
  { destruct (refs a object) eqn:E; [done|]. exfalso. apply Hdead, refs_alive. lia. }
  assert (∀ o, refs (<[i := Some object]> a) o = if decide (o = object) then 1%nat else refs a o)
    as Hrefs.
  { intros o. rewrite referring_insert_fresh by done.
    destruct (decide (o = object)) as [->|Hne]; [rewrite decide_True by done; lia|].
    rewrite decide_False by naive_solver. lia. }
  assert (∀ o c, own !! o = Some c → c ≠ fresh) as Hnf.
  { intros o c Ho ->. destruct (rb_count _ _ _ H _ _ Ho) as (_ & _ & E). by rewrite Hcnt in E. }
  split; cbn [st vars objects counts].
  - rewrite fmap_insert, (rb_vars _ _ _ H). cbn. rewrite lookup_insert_eq. cbn. f_equal.
    apply map_fmap_ext. intros j [o|] Hj; [|done]. cbn.
    rewrite lookup_insert_ne; [done|]. intros ->. apply Hdead. by exists j.
  - by rewrite dom_insert_L, (rb_objects _ _ _ H).
  - intros o. rewrite lookup_insert_is_Some, (rb_alive _ _ _ H), <-!refs_alive, Hrefs.
    destruct (decide (o = object)) as [->|Hne]; naive_solver lia.
  - intros o c Ho. rewrite Hrefs. apply lookup_insert_Some in Ho as [[<- <-]|[Hne Ho]].
    + rewrite decide_True by done. rewrite lookup_insert_eq. done.
    + rewrite decide_False by done. destruct (rb_count _ _ _ H _ _ Ho) as (? & ? & ?).
      rewrite lookup_insert_ne by (by eapply not_eq_sym, Hnf). done.
  - intros o o' c Ho Ho'. apply lookup_insert_Some in Ho as [[<- <-]|[Hne Ho]];
      apply lookup_insert_Some in Ho' as [[<- E]|[Hne' Ho']]; try done.
    + exfalso. by apply (Hnf _ _ Ho').
    + subst c. exfalso. by apply (Hnf _ _ Ho).
    + by eapply H.
  - intros c Hc. apply lookup_insert_is_Some in Hc as [<-|[Hne Hc]].
    + exists object. apply lookup_insert_eq.
    + destruct (rb_used _ _ _ H c Hc) as [o Ho]. exists o. rewrite lookup_insert_ne; [done|].
      intros ->. by rewrite Hown in Ho.
Qed.

(** A null variable takes over the reference of another one. *)
Lemma shared_move_ok own w a i j x :
  rep_by own w a → i ≠ j → a !! i = Some None ∨ a !! i = None → a !! j = Some x →
  rep_by own (mkw (st w) (<[i := pointer_to own x]> (<[j := null]> (vars w))))
    (<[i := x]> (<[j := None]> a)).
Proof.
  intros H Hij Hi Hj.
  assert (∀ o, refs (<[i := x]> (<[j := None]> a)) o = refs a o) as Hrefs.
  { intros o. pose proof (refs_insert a j x None o Hj) as H1.
    rewrite (decide_False (P := None = Some o)) in H1 by done. destruct Hi as [Hi|Hi].
    - pose proof (refs_insert (<[j := None]> a) i None x o) as H2.
      rewrite lookup_insert_ne in H2 by done. specialize (H2 Hi).
      rewrite (decide_False (P := None = Some o)) in H2 by done. lia.
    - rewrite referring_insert_fresh by (by rewrite lookup_insert_ne). lia. }
  split; cbn [st vars].
  - by rewrite !fmap_insert, (rb_vars _ _ _ H).
  - apply H.
  - intros o. rewrite (rb_alive _ _ _ H), <-!refs_alive. by rewrite Hrefs.
  - intros o c Ho. rewrite Hrefs. by apply H.
  - apply H.
  - apply H.
Qed.

Lemma pointer_to_count own w a i o :
  rep_by own w a → a !! i = Some (Some o) →
  ∃ c, own !! o = Some c ∧ pointer_to own (Some o) = mk o c ∧ o ≠ 0 ∧ c ≠ 0 ∧
       counts (st w) !! c = Some (Z.of_nat (refs a o)) ∧ (0 < refs a o)%nat.
Proof.
  intros H Hi. destruct (proj2 (rb_alive _ _ _ H o)) as [c Hc]; [by exists i|].
  destruct (rb_count _ _ _ H o c Hc) as (? & ? & ?). exists c. cbn. rewrite Hc.
  split_and!; try done. apply refs_alive. by exists i.
Qed.

(** The bound on the number of variables that keeps the counts from overflowing. *)
Definition small (a : refs_map) : Prop := Z.of_nat (base.size a) < 2 ^ 30.

(** A variable refers to the object of another one as well. *)
Lemma acquire_ok own w a i j x :
  rep_by own w a → a !! i = Some None ∨ a !! i = None → a !! j = Some x → small a →
  ∃ s, acquire_unlocked (st w) (pointer_to own x) = Ok s ∧
       rep_by own (mkw s (<[i := pointer_to own x]> (vars w))) (<[i := x]> a).
Proof.
  intros H Hi Hj Hsmall.
  assert (∀ o, refs (<[i := x]> a) o = (refs a o + if decide (x = Some o) then 1 else 0)%nat) as Hrefs.
  { intros o. destruct Hi as [Hi|Hi]; [|by apply referring_insert_fresh].
    pose proof (refs_insert a i None x o Hi). rewrite (decide_False (P := None = Some o)) in * by done.
    lia. }
  destruct x as [o|].
  - destruct (pointer_to_count own w a j o H Hj) as (c & Hc & -> & Ho & Hc0 & Hcnt & Hpos).
    unfold acquire_unlocked. cbn [count_]. rewrite (proj2 (Z.eqb_neq _ _) Hc0), Hcnt.
    cbn [deref mbind result_bind mret result_ret].
    pose proof (refs_le_size a o). unfold small in Hsmall.
    rewrite swrap_small by (cbn; lia). eexists. split; [done|]. split; cbn [st vars objects counts].
    + rewrite fmap_insert, (rb_vars _ _ _ H). cbn. by rewrite Hc.
    + apply H.
    + intros o'. rewrite (rb_alive _ _ _ H), <-!refs_alive, Hrefs. case_decide as E; [|by rewrite Nat.add_0_r].
      injection E as <-. split; lia.
    + intros o' c' Ho'. destruct (rb_count _ _ _ H o' c' Ho') as (? & ? & E'). split_and!; [done..|].
      rewrite Hrefs. destruct (decide (o' = o)) as [->|Hne].
      * rewrite Hc in Ho'. injection Ho' as <-. rewrite lookup_insert_eq, decide_True by done.
        f_equal. lia.
      * rewrite decide_False by naive_solver. rewrite Nat.add_0_r, lookup_insert_ne; [done|].
        intros ->. apply Hne. symmetry. by eapply (rb_inj _ _ _ H).
    + apply H.
    + intros c' Hc'. destruct (decide (c' = c)) as [->|Hne]; [by exists o|].
      rewrite lookup_insert_ne in Hc' by done. by apply H.
  - exists (st w). split; [done|].
    assert (∀ o, refs (<[i := None]> a) o = refs a o) as Hrefs'
      by (intros o; rewrite Hrefs, decide_False by done; lia).
    split; cbn [st vars]; try apply H.
    + by rewrite fmap_insert, (rb_vars _ _ _ H).
    + intros o. rewrite (rb_alive _ _ _ H), <-!refs_alive. by rewrite Hrefs'.
    + intros o c Ho. rewrite Hrefs'. by apply H.
Qed.

Lemma refs_drop a i x o :
  a !! i = Some x →
  refs a o = (refs (<[i := None]> a) o + if decide (x = Some o) then 1 else 0)%nat.
Proof.
  intros Hi. pose proof (refs_insert a i x None o Hi).
  rewrite (decide_False (P := None = Some o)) in * by done. lia.
Qed.

Lemma refs_drop_other a i x o :
  a !! i = Some x → x ≠ Some o → refs (<[i := None]> a) o = refs a o.
Proof. intros Hi Hne. rewrite (refs_drop a i x o Hi), decide_False by done. lia. Qed.

(** The last reference to [o] goes, and [o] and its count with it. *)
Lemma drop_last_ok own w a i o c :
  rep_by own w a → a !! i = Some (Some o) → own !! o = Some c → refs (<[i := None]> a) o = 0%nat →
  rep_by (delete o own)
    (mkw (mkstore (objects (st w) ∖ {[o]}) (delete c (counts (st w)))) (<[i := null]> (vars w)))
    (<[i := None]> a).
Proof.
  intros H Hi Hc H0.
  assert (∀ o', o' ≠ o → refs (<[i := None]> a) o' = refs a o') as Hother
    by (intros o' Hne; apply (refs_drop_other _ _ _ _ Hi); naive_solver).
  assert (∀ o' c', own !! o' = Some c' → o' ≠ o → c' ≠ c) as Hne_c
    by (intros o' c' Ho' Hne ->; apply Hne; by eapply H).
  split; cbn [st vars objects counts].
  - rewrite fmap_insert, (rb_vars _ _ _ H). cbn. apply map_eq. intros j.
    destruct (decide (j = i)) as [->|Hji]; [by rewrite !lookup_insert_eq|].
    rewrite !lookup_insert_ne, !lookup_fmap by done.
    destruct (a !! j) as [[o'|]|] eqn:Hj; [|done..]. cbn. do 2 f_equal.
    rewrite lookup_delete_ne; [done|]. intros <-.
    assert (alive (<[i := None]> a) o) as Ha by (exists j; by rewrite lookup_insert_ne).
    apply refs_alive in Ha. lia.
  - by rewrite dom_delete_L, (rb_objects _ _ _ H).
  - intros o'. rewrite <-refs_alive. destruct (decide (o' = o)) as [->|Hne].
    + rewrite lookup_delete_eq. split; [by intros [? ?]|lia].
    + rewrite lookup_delete_ne, Hother by done. rewrite refs_alive. apply H.
  - intros o' c' Ho'. apply lookup_delete_Some in Ho' as [Hne Ho'].
    destruct (rb_count _ _ _ H o' c' Ho') as (? & ? & E). rewrite Hother by done.
    split_and!; [done..|]. by rewrite lookup_delete_ne by (by eapply not_eq_sym, Hne_c).
  - intros o1 o2 c' E1 E2. apply lookup_delete_Some in E1 as [_ E1].
    apply lookup_delete_Some in E2 as [_ E2]. by eapply H.
  - intros c' Hc'. apply lookup_delete_is_Some in Hc' as [Hne Hc'].
    destruct (rb_used _ _ _ H c' Hc') as [o' Ho']. exists o'.
    rewrite lookup_delete_ne; [done|]. intros <-. congruence.
Qed.

(** A reference to [o] goes while others remain. *)
Lemma drop_shared_ok own w a i o c :
  rep_by own w a → a !! i = Some (Some o) → own !! o = Some c → (0 < refs (<[i := None]> a) o)%nat →
  rep_by own
    (mkw (mkstore (objects (st w)) (<[c := Z.of_nat (refs (<[i := None]> a) o)]> (counts (st w))))
       (<[i := null]> (vars w)))
    (<[i := None]> a).
Proof.
  intros H Hi Hc Hpos.
  assert (∀ o', o' ≠ o → refs (<[i := None]> a) o' = refs a o') as Hother
    by (intros o' Hne; apply (refs_drop_other _ _ _ _ Hi); naive_solver).
  split; cbn [st vars objects counts]; try apply H.
  - by rewrite fmap_insert, (rb_vars _ _ _ H).
  - intros o'. rewrite (rb_alive _ _ _ H). destruct (decide (o' = o)) as [->|Hne].
    + rewrite <-(refs_alive (<[i := None]> a)). split; [done|]. intros _. by exists i.
    + by rewrite <-!refs_alive, Hother.
  - intros o' c' Ho'. destruct (rb_count _ _ _ H o' c' Ho') as (? & ? & E). split_and!; [done..|].
    destruct (decide (o' = o)) as [->|Hne].
    + rewrite Hc in Ho'. injection Ho' as <-. by rewrite lookup_insert_eq.
    + rewrite lookup_insert_ne; [by rewrite Hother|].
      intros <-. apply Hne. by eapply (rb_inj _ _ _ H).
  - intros c' Hc'. destruct (decide (c' = c)) as [->|Hne]; [by exists o|].
    rewrite lookup_insert_ne in Hc' by done. by apply H.
Qed.

(** A variable gives up its reference; the object goes with the last one. *)
Lemma release_ok own w a i x :
  rep_by own w a → a !! i = Some x → small a →
  ∃ s own', release_unlocked (st w) (pointer_to own x) = Ok (s, null) ∧
    rep_by own' (mkw s (<[i := null]> (vars w))) (<[i := None]> a) ∧
    ∀ o, alive (<[i := None]> a) o → own' !! o = own !! o.
Proof.
  intros H Hi Hsmall. destruct x as [o|].
  2: { exists (st w), own. split; [done|]. split; [|done]. rewrite (insert_id a) by done.
    destruct H as [Hv ? ? ? ? ?]. split; try done. cbn [vars].
    rewrite Hv. apply map_eq. intros j. destruct (decide (j = i)) as [->|];
      [by rewrite lookup_insert_eq, lookup_fmap, Hi|by rewrite lookup_insert_ne]. }
  destruct (pointer_to_count own w a i o H Hi) as (c & Hc & -> & Ho & Hc0 & Hcnt & Hpos).
  pose proof (refs_le_size a o). unfold small in Hsmall.
  pose proof (refs_drop a i (Some o) o Hi) as Hro. rewrite decide_True in Hro by done.
  unfold release_unlocked. cbn [count_ data_]. rewrite (proj2 (Z.eqb_neq _ _) Hc0), Hcnt.
  cbn [deref mbind result_bind mret result_ret]. rewrite swrap_small by (cbn; lia).
  destruct (Z.eqb_spec (Z.of_nat (refs a o)) 1) as [H1|H1].
  - unfold delete_object. rewrite (proj2 (Z.eqb_neq _ _) Ho). cbn [objects counts].
    rewrite decide_True by (rewrite (rb_objects _ _ _ H); by apply elem_of_dom_2 in Hc).
    cbn [mbind result_bind mret result_ret objects counts]. rewrite delete_insert_eq.
    eexists _, (delete o own). split; [done|]. split; [by apply drop_last_ok; [..|lia]|].
    intros o' Ha. rewrite lookup_delete_ne; [done|]. intros <-. apply refs_alive in Ha. lia.
  - replace (Z.of_nat (refs a o) - 1) with (Z.of_nat (refs (<[i := None]> a) o)) by lia.
    eexists _, own. split; [done|]. split; [by apply drop_shared_ok; [..|lia]|done].
Qed.

(** A null variable goes out of scope. *)
Lemma drop_null_ok own w a i :
  rep_by own (mkw (st w) (<[i := null]> (vars w))) (<[i := None]> a) →
  rep_by own (mkw (st w) (delete i (vars w))) (delete i a).
Proof.
  intros H.
  assert (∀ o, refs (delete i a) o = refs (<[i := None]> a) o) as Hrefs.
  { intros o. rewrite (refs_delete (<[i := None]> a) i None o) by apply lookup_insert_eq.
    rewrite delete_insert_eq, decide_False by done. lia. }
  split; cbn [st vars]; try apply H.
  - pose proof (rb_vars _ _ _ H) as E. cbn [vars] in E.
    rewrite <-(delete_insert_eq (vars w) i null), E, <-fmap_delete. by rewrite delete_insert_eq.
  - intros o. rewrite (rb_alive _ _ _ H), <-!refs_alive. by rewrite Hrefs.
  - intros o c Ho. rewrite Hrefs. by apply H.
Qed.

(** ** The operations *)

(** What the program and the allocator guarantee: variables are declared before they are
    used and not twice, new objects and counts get addresses that are not in use. *)
Definition admissible (o : op) (w : world) (a : refs_map) : Prop :=
  small a ∧
  match o with
  | Null i => a !! i = None
  | New i object fresh | FromUnique i object fresh =>
      a !! i = None ∧ object ≠ 0 ∧ fresh ≠ 0 ∧ object ∉ objects (st w) ∧
      counts (st w) !! fresh = None
  | Copy i j | Move i j => a !! i = None ∧ is_Some (a !! j)
  | CopyAssign i j | MoveAssign i j => is_Some (a !! i) ∧ is_Some (a !! j)
  | Destroy i | GetCount i => is_Some (a !! i)
  end.

Lemma var_ok own w a i x : rep_by own w a → a !! i = Some x → var w i = Ok (pointer_to own x).
Proof. intros H Hi. unfold var. by rewrite (rb_vars _ _ _ H), lookup_fmap, Hi. Qed.

Lemma pointer_to_ext own own' a j x :
  (∀ o, alive a o → own' !! o = own !! o) → a !! j = Some x → pointer_to own' x = pointer_to own x.
Proof. intros He Hj. destruct x as [o|]; [|done]. cbn. rewrite He; [done|]. by exists j. Qed.

Lemma pointer_eta own x : mk (data_ (pointer_to own x)) (count_ (pointer_to own x)) = pointer_to own x.
Proof. by destruct x. Qed.

Lemma not_object_dead own w a object :
  rep_by own w a → object ∉ objects (st w) → ¬ alive a object.
Proof.
  intros H Hno Ha. apply Hno. rewrite (rb_objects _ _ _ H), elem_of_dom. by apply H.
Qed.

Lemma shared_copy_assign_ok own w a i j x y :
  rep_by own w a → i ≠ j → a !! i = Some x → a !! j = Some y → small a →
  ∃ s, copy_assign (st w) (pointer_to own x) (pointer_to own y) = Ok (s, pointer_to own y) ∧
       rep (mkw s (<[i := pointer_to own y]> (vars w))) (<[i := y]> a).
Proof.
  intros H Hij Hi Hj Hsmall. unfold copy_assign.
  destruct (release_ok own w a i x H Hi Hsmall) as (s1 & own1 & -> & H1 & Hext).
  cbn [mbind result_bind]. rewrite pointer_eta.
  assert (<[i := None]> a !! j = Some y) as Hj' by (by rewrite lookup_insert_ne).
  rewrite <-(pointer_to_ext _ _ _ _ _ Hext Hj').
  destruct (acquire_ok own1 _ _ i j y H1 ltac:(left; apply lookup_insert_eq) Hj') as (s2 & E & H2).
  { unfold small in *. by rewrite map_size_insert_Some by (by rewrite Hi). }
  cbn [st] in E. rewrite E. cbn [mbind result_bind mret result_ret]. exists s2. split; [done|].
  exists own1. cbn [vars] in H2. by rewrite !insert_insert_eq in H2.
Qed.

Lemma shared_move_assign_ok own w a i j x y :
  rep_by own w a → i ≠ j → a !! i = Some x → a !! j = Some y → small a →
  ∃ s, move_assign (st w) (pointer_to own x) (pointer_to own y) = Ok (s, pointer_to own y, null) ∧
       rep (mkw s (<[i := pointer_to own y]> (<[j := null]> (vars w)))) (<[i := y]> (<[j := None]> a)).
Proof.
  intros H Hij Hi Hj Hsmall. unfold move_assign.
  destruct (release_ok own w a i x H Hi Hsmall) as (s1 & own1 & -> & H1 & Hext).
  cbn [mbind result_bind mret result_ret]. rewrite pointer_eta.
  assert (<[i := None]> a !! j = Some y) as Hj' by (by rewrite lookup_insert_ne).
  exists s1. split; [done|]. rewrite <-(pointer_to_ext _ _ _ _ _ Hext Hj').
  pose proof (shared_move_ok own1 _ _ i j y H1 Hij ltac:(left; apply lookup_insert_eq) Hj') as H2.
  exists own1. cbn [vars st] in H2.
  by rewrite (insert_insert_ne _ j i), insert_insert_eq, (insert_insert_ne _ j i), insert_insert_eq
    in H2 by done.
Qed.

Lemma step_ok o w a :
  rep w a → admissible o w a → refines rep (spec_op o a) (run_op o w).
Proof.
  intros [own H] [Hsmall Hadm].
  destruct o as [i|i object fresh|i object fresh|i j|i j|i j|i j|i|i]; cbn [spec_op run_op].
  - eexists. split; [done|]. exists own. by apply null_ok.
  - destruct Hadm as (Hi & Hobj & Hfr & Hno & Hcnt). unfold construct.
    rewrite (proj2 (Z.eqb_neq _ _) Hobj). eexists. split; [done|]. eexists. apply new_ok; try done.
    by eapply not_object_dead.
  - destruct Hadm as (Hi & Hobj & Hfr & Hno & Hcnt). eexists. split; [done|]. eexists.
    apply new_ok; try done. by eapply not_object_dead.
  - destruct Hadm as (Hi & x & Hj). rewrite Hj, (var_ok own w a j x H Hj). cbn [deref mbind result_bind].
    unfold copy_construct. rewrite pointer_eta.
    destruct (acquire_ok own w a i j x H (or_intror Hi) Hj Hsmall) as (s & -> & Hs).
    eexists. split; [done|]. by exists own.
  - destruct Hadm as (Hi & x & Hj). rewrite Hj, (var_ok own w a j x H Hj). cbn [deref mbind result_bind].
    unfold move_construct. rewrite pointer_eta. eexists. split; [done|]. exists own.
    apply shared_move_ok; [done| |by right|done]. intros ->. by rewrite Hi in Hj.
  - destruct Hadm as ([x Hi] & y & Hj). rewrite Hi, Hj, (var_ok own w a i x H Hi), (var_ok own w a j y H Hj).
    cbn [deref mbind result_bind]. destruct (decide (i = j)) as [->|Hij].
    + eexists. split; [done|]. exists own. rewrite insert_id by done. done.
    + destruct (shared_copy_assign_ok own w a i j x y H Hij Hi Hj Hsmall) as (s & -> & Hs). by eexists.
  - destruct Hadm as ([x Hi] & y & Hj). rewrite Hi, Hj, (var_ok own w a i x H Hi), (var_ok own w a j y H Hj).
    cbn [deref mbind result_bind]. destruct (decide (i = j)) as [->|Hij].
    + eexists. split; [done|]. by exists own.
    + destruct (shared_move_assign_ok own w a i j x y H Hij Hi Hj Hsmall) as (s & -> & Hs). by eexists.
  - destruct Hadm as [x Hi]. rewrite Hi, (var_ok own w a i x H Hi). cbn [deref mbind result_bind].
    destruct (release_ok own w a i x H Hi Hsmall) as (s & own1 & -> & H1 & _).
    eexists. split; [done|]. exists own1. exact (drop_null_ok own1 (mkw s (vars w)) a i H1).
  - destruct Hadm as [x Hi]. rewrite Hi, (var_ok own w a i x H Hi). cbn [deref mbind result_bind].
    exists w. split; [|by exists own]. unfold get_count. destruct x as [o|]; [|done].
    destruct (pointer_to_count own w a i o H Hi) as (c & Hc & -> & Ho & Hc0 & Hcnt & Hpos).
    cbn [count_]. by rewrite (proj2 (Z.eqb_neq _ _) Hc0), Hcnt.
Qed.

(** ** Reachable states *)
Definition start : world := mkw (mkstore ∅ ∅) ∅.

Inductive reachable : world → refs_map → Prop :=
| reach_start : reachable start ∅
| reach_step w a o r w' a' :
    reachable w a → admissible o w a → spec_op o a = Ok (r, a') → run_op o w = Ok (r, w') →
    reachable w' a'.

Lemma reachable_rep w a : reachable w a → rep w a.
Proof.
  induction 1 as [|w a o r w' a' Hr IH Hadm Hspec Hrun].
  - exists ∅. split; try done.
    + intros o. split; [by intros [? ?]|by intros [i Hi]].
    + by intros c [? ?].
  - pose proof (step_ok o w a IH Hadm) as Hs. rewrite Hspec in Hs.
    destruct Hs as (w'' & E & Hw). rewrite Hrun in E. by injection E as <-.
Qed.

Lemma spec_defined o w a : admissible o w a → ∃ r a', spec_op o a = Ok (r, a').
Proof.
  intros [_ Hadm]. destruct o; cbn [spec_op];
    repeat match goal with
    | H : _ ∧ _ |- _ => destruct H
    | H : is_Some _ |- _ => destruct H as [? H]; rewrite H
    end; eexists _, _; reflexivity.
Qed.

(** One count per live object. *)
Lemma rep_sizes own w a : rep_by own w a → base.size (counts (st w)) = base.size (objects (st w)).
Proof.
  intros H. rewrite (rb_objects _ _ _ H), size_dom.
  rewrite <-(size_dom (D := gset Z) (counts (st w))).
  assert (dom (counts (st w)) = list_to_set (map_to_list own).*2) as ->.
  { apply set_eq. intros c. rewrite elem_of_dom, elem_of_list_to_set, list_elem_of_fmap. split.
    - intros Hc. destruct (rb_used _ _ _ H c Hc) as [o Ho]. exists (o, c).
      by rewrite elem_of_map_to_list.
    - intros ([o c'] & -> & Ho%elem_of_map_to_list). cbn.
      destruct (rb_count _ _ _ H _ _ Ho) as (_ & _ & ->). by eexists. }
  rewrite size_list_to_set; [by rewrite length_fmap, length_map_to_list|].
  apply NoDup_fmap_2_strong; [|apply NoDup_map_to_list].
  intros [o c] [o' c'] Ho%elem_of_map_to_list Ho'%elem_of_map_to_list E. cbn in E. subst c'.
  f_equal. by eapply H.
Qed.



End SharedPointer.
