(* ===== verification/Either.v ===== *)
(** * Either, Optional and Expected: sum types over a union

    [Either] (src/Common/include/common/either.hpp) keeps its value in a union of [left_]
    and [right_] with a flag that says which of the two is there.  The class begins and ends
    the lifetime of the members itself (placement new, explicit destructor calls), so the
    model keeps which member's lifetime has begun apart from the flag: constructing a member
    over a living one, destroying or reading a member that is not there is a fault.  An
    object that was the source of a [std::move] may be assigned or destroyed but not read.

    [Optional] and [Expected] (optional.hpp, expected.hpp) are an [Either] of nothing or of
    an [Error] and a value, with the combinators [map], [and_then] and [or_else] of
    either.hpp.  The functions handed to the combinators may have effects: they act on a
    state [S] and may fault. *)
From S2P Require Import Prelude.

Module Either.

(** ** The objects of a union *)
Inductive object (A : Type) : Type :=
| Live (v : A)
| MovedFrom.
Arguments Live {A} _.
Arguments MovedFrom {A}.

Definition read {A} (x : object A) : result A :=
  match x with Live v => mret v | MovedFrom => Fault InvalidAccess end.

(** The member of the union whose lifetime has begun, if any. *)
Inductive members (L R : Type) : Type :=
| NoMember
| LeftMember (x : object L)
| RightMember (x : object R).
Arguments NoMember {L R}.
Arguments LeftMember {L R} _.
Arguments RightMember {L R} _.

Record t (L R : Type) := mk { members_ : members L R; is_left_ : bool }.
Arguments mk {L R} _ _.
Arguments members_ {L R} _.
Arguments is_left_ {L R} _.

(** An argument passed by reference: another object, or the one assigned to, or a member of
    it. *)
Inductive argument (A : Type) : Type :=
| Other (x : A)
| Own.
Arguments Other {A} _.
Arguments Own {A}.

Section Operations.
Context {L R : Type}.
Implicit Types (u : members L R) (e other : t L R).

(** Access to [left_] and [right_]. *)
Definition left_object u : result (object L) :=
  match u with LeftMember x => mret x | _ => Fault InvalidAccess end.

Definition right_object u : result (object R) :=
  match u with RightMember x => mret x | _ => Fault InvalidAccess end.

(** [new (&left_) Left(v)] *)
Definition construct_left u (v : L) : result (members L R) :=
  match u with NoMember => mret (LeftMember (Live v)) | _ => Fault InvalidAccess end.

Definition construct_right u (v : R) : result (members L R) :=
  match u with NoMember => mret (RightMember (Live v)) | _ => Fault InvalidAccess end.

(** [left_.~Left()] *)
Definition destroy_left u : result (members L R) := _ ← left_object u; mret NoMember.

Definition destroy_right u : result (members L R) := _ ← right_object u; mret NoMember.

(** [destruct()], the body of the destructor. *)
Definition destruct_either e : result (t L R) :=
  u ← (if is_left_ e then destroy_left (members_ e) else destroy_right (members_ e));
  mret (mk u (is_left_ e)).

(** *** Constructors *)
Definition from_left (left : object L) : result (t L R) :=
  v ← read left; u ← construct_left NoMember v; mret (mk u true).

(** The [Either], and the argument after the move. *)
Definition from_left_move (left : object L) : result (t L R * object L) :=
  v ← read left; u ← construct_left NoMember v; mret (mk u true, MovedFrom).

Definition from_right (right : object R) : result (t L R) :=
  v ← read right; u ← construct_right NoMember v; mret (mk u false).

Definition from_right_move (right : object R) : result (t L R * object R) :=
  v ← read right; u ← construct_right NoMember v; mret (mk u false, MovedFrom).

(** The member of [other] copied into the union [u]. *)
Definition copy_member u other : result (members L R) :=
  if is_left_ other then
    x ← left_object (members_ other); v ← read x; construct_left u v
  else
    x ← right_object (members_ other); v ← read x; construct_right u v.

(** The member of [other] moved into the union [u], and [other] after that. *)
Definition move_member u other : result (members L R * t L R) :=
  if is_left_ other then
    x ← left_object (members_ other); v ← read x; u ← construct_left u v;
    mret (u, mk (LeftMember MovedFrom) (is_left_ other))
  else
    x ← right_object (members_ other); v ← read x; u ← construct_right u v;
    mret (u, mk (RightMember MovedFrom) (is_left_ other)).

Definition copy_construct other : result (t L R) :=
  u ← copy_member NoMember other; mret (mk u (is_left_ other)).

Definition move_construct other : result (t L R * t L R) :=
  '(u, o) ← move_member NoMember other; mret (mk u (is_left_ other), o).

(** *** Assignments *)
Definition assign_left e (left : argument (object L)) : result (t L R) :=
  e ← destruct_either e;
  let e := mk (members_ e) true in
  x ← match left with Other x => mret x | Own => left_object (members_ e) end;
  v ← read x;
  u ← construct_left (members_ e) v;
  mret (mk u (is_left_ e)).

Definition assign_left_move e (left : argument (object L)) : result (t L R * object L) :=
  e ← assign_left e left; mret (e, MovedFrom).

Definition assign_right e (right : argument (object R)) : result (t L R) :=
  e ← destruct_either e;
  let e := mk (members_ e) false in
  x ← match right with Other x => mret x | Own => right_object (members_ e) end;
  v ← read x;
  u ← construct_right (members_ e) v;
  mret (mk u (is_left_ e)).

Definition assign_right_move e (right : argument (object R)) : result (t L R * object R) :=
  e ← assign_right e right; mret (e, MovedFrom).

Definition copy_assign e (other : argument (t L R)) : result (t L R) :=
  match other with
  | Own => mret e
  | Other other =>
      e ← destruct_either e;
      u ← copy_member (members_ e) other;
      mret (mk u (is_left_ other))
  end.

(** The [Either] assigned to, and the other one after the move. *)
Definition move_assign e (other : argument (t L R)) : result (t L R * t L R) :=
  match other with
  | Own => mret (e, e)
  | Other other =>
      e ← destruct_either e;
      '(u, o) ← move_member (members_ e) other;
      mret (mk u (is_left_ other), o)
  end.

(** *** Queries *)
Definition is_left e : bool := is_left_ e.

Definition get_left e : result L :=
  assert! is_left e; x ← left_object (members_ e); read x.

Definition get_right e : result R :=
  assert! negb (is_left e); x ← right_object (members_ e); read x.

(** The comparisons of the two types are theirs to define. *)
Section Comparison.
Context (eqL neL : L → L → bool) (eqR neR : R → R → bool).

Definition read_left e : result L := x ← left_object (members_ e); read x.
Definition read_right e : result R := x ← right_object (members_ e); read x.

Definition equals_left e (left : L) : result bool :=
  if is_left_ e then x ← read_left e; mret (eqL x left) else mret false.

Definition differs_left e (left : L) : result bool :=
  if is_left_ e then x ← read_left e; mret (neL x left) else mret true.

Definition equals_right e (right : R) : result bool :=
  if is_left_ e then mret false else x ← read_right e; mret (eqR x right).

Definition differs_right e (right : R) : result bool :=
  if is_left_ e then mret true else x ← read_right e; mret (neR x right).

Definition equals e other : result bool :=
  if negb (eqb (is_left_ e) (is_left_ other)) then mret false
  else if is_left_ e && is_left_ other then
    x ← read_left e; y ← read_left other; mret (eqL x y)
  else x ← read_right e; y ← read_right other; mret (eqR x y).

Definition differs e other : result bool :=
  if negb (eqb (is_left_ e) (is_left_ other)) then mret true
  else if is_left_ e && is_left_ other then
    x ← read_left e; y ← read_left other; mret (neL x y)
  else x ← read_right e; y ← read_right other; mret (neR x y).

End Comparison.
End Operations.

(** ** Programs over variables of type Either *)
Section Programs.
Context {L R : Type} (eqL neL : L → L → bool) (eqR neR : R → R → bool).

Inductive op :=
| FromLeft (i : nat) (l : L)
| FromRight (i : nat) (r : R)
| Copy (i j : nat)
| Move (i j : nat)
| AssignLeft (i : nat) (l : L)
| AssignRight (i : nat) (r : R)
| AssignOwnLeft (i : nat)
| AssignOwnRight (i : nat)
| CopyAssign (i j : nat)
| MoveAssign (i j : nat)
| Destroy (i : nat)
| IsLeft (i : nat)
| GetLeft (i : nat)
| GetRight (i : nat)
| Equals (i j : nat)
| Differs (i j : nat).

Inductive answer :=
| Done
| TheLeft (l : L)
| TheRight (r : R)
| TheBool (b : bool).

Notation world := (gmap nat (t L R)).

Definition var {A} (w : gmap nat A) (i : nat) : result A := deref InvalidAccess (w !! i).

(** A new variable must not be in scope yet. *)
Definition fresh {A} (w : gmap nat A) (i : nat) : result unit :=
  if w !! i is Some _ then Fault InvalidAccess else mret ().

Definition argument_at {A} (i j : nat) (x : A) : argument A := if decide (i = j) then Own else Other x.

Definition run_op (o : op) (w : world) : result (answer * world) :=
  match o with
  | FromLeft i l => _ ← fresh w i; '(e, _) ← from_left_move (Live l); mret (Done, <[i := e]> w)
  | FromRight i r => _ ← fresh w i; '(e, _) ← from_right_move (Live r); mret (Done, <[i := e]> w)
  | Copy i j => _ ← fresh w i; other ← var w j; e ← copy_construct other; mret (Done, <[i := e]> w)
  | Move i j =>
      _ ← fresh w i; other ← var w j; '(e, other) ← move_construct other;
      mret (Done, <[i := e]> (<[j := other]> w))
  | AssignLeft i l => e ← var w i; e ← assign_left e (Other (Live l)); mret (Done, <[i := e]> w)
  | AssignRight i r => e ← var w i; e ← assign_right e (Other (Live r)); mret (Done, <[i := e]> w)
  | AssignOwnLeft i =>
      e ← var w i; assert! is_left e; e ← assign_left e Own; mret (Done, <[i := e]> w)
  | AssignOwnRight i =>
      e ← var w i; assert! negb (is_left e); e ← assign_right e Own; mret (Done, <[i := e]> w)
  | CopyAssign i j =>
      e ← var w i; other ← var w j; e ← copy_assign e (argument_at i j other);
      mret (Done, <[i := e]> w)
  | MoveAssign i j =>
      e ← var w i; other ← var w j; '(e, other) ← move_assign e (argument_at i j other);
      mret (Done, <[i := e]> (<[j := other]> w))
  | Destroy i => e ← var w i; _ ← destruct_either e; mret (Done, delete i w)
  | IsLeft i => e ← var w i; mret (TheBool (is_left e), w)
  | GetLeft i => e ← var w i; l ← get_left e; mret (TheLeft l, w)
  | GetRight i => e ← var w i; r ← get_right e; mret (TheRight r, w)
  | Equals i j => e ← var w i; other ← var w j; b ← equals eqL eqR e other; mret (TheBool b, w)
  | Differs i j => e ← var w i; other ← var w j; b ← differs neL neR e other; mret (TheBool b, w)
  end.

(** ** The specification: a tagged sum, whose value is gone once it was moved from *)
Notation tagged := (object L + object R)%type.

Definition value (x : tagged) : result (L + R) :=
  match x with inl l => inl <$> read l | inr r => inr <$> read r end.

Definition tag (v : L + R) : tagged :=
  match v with inl l => inl (Live l) | inr r => inr (Live r) end.

Definition emptied (x : tagged) : tagged :=
  match x with inl _ => inl MovedFrom | inr _ => inr MovedFrom end.

Definition same_side (x y : tagged) : bool :=
  match x, y with inl _, inl _ | inr _, inr _ => true | _, _ => false end.

Definition compare (fL : L → L → bool) (fR : R → R → bool) (different : bool) (x y : tagged)
  : result bool :=
  if same_side x y then
    v ← value x; v' ← value y;
    mret (match v, v' with
          | inl l, inl l' => fL l l' | inr r, inr r' => fR r r' | _, _ => different end)
  else mret different.

Definition spec_op (o : op) (a : gmap nat tagged) : result (answer * gmap nat tagged) :=
  match o with
  | FromLeft i l => _ ← fresh a i; mret (Done, <[i := inl (Live l)]> a)
  | FromRight i r => _ ← fresh a i; mret (Done, <[i := inr (Live r)]> a)
  | Copy i j => _ ← fresh a i; x ← var a j; v ← value x; mret (Done, <[i := tag v]> a)
  | Move i j =>
      _ ← fresh a i; x ← var a j; v ← value x; mret (Done, <[i := tag v]> (<[j := emptied x]> a))
  | AssignLeft i l => _ ← var a i; mret (Done, <[i := inl (Live l)]> a)
  | AssignRight i r => _ ← var a i; mret (Done, <[i := inr (Live r)]> a)
  | AssignOwnLeft i =>
      x ← var a i; Fault (if x is inl _ then InvalidAccess else AssertionFailed)
  | AssignOwnRight i =>
      x ← var a i; Fault (if x is inr _ then InvalidAccess else AssertionFailed)
  | CopyAssign i j =>
      _ ← var a i; x ← var a j;
      if decide (i = j) then mret (Done, a)
      else v ← value x; mret (Done, <[i := tag v]> a)
  | MoveAssign i j =>
      _ ← var a i; x ← var a j;
      if decide (i = j) then mret (Done, a)
      else v ← value x; mret (Done, <[i := tag v]> (<[j := emptied x]> a))
  | Destroy i => _ ← var a i; mret (Done, delete i a)
  | IsLeft i => x ← var a i; mret (TheBool (if x is inl _ then true else false), a)
  | GetLeft i =>
      x ← var a i;
      if x is inl l then l ← read l; mret (TheLeft l, a) else Fault AssertionFailed
  | GetRight i =>
      x ← var a i;
      if x is inr r then r ← read r; mret (TheRight r, a) else Fault AssertionFailed
  | Equals i j => x ← var a i; y ← var a j; b ← compare eqL eqR false x y; mret (TheBool b, a)
  | Differs i j => x ← var a i; y ← var a j; b ← compare neL neR true x y; mret (TheBool b, a)
  end.

(** The [Either] that represents a tagged value: the flag and the living member agree. *)
Definition of_tagged (x : tagged) : t L R :=
  match x with inl l => mk (LeftMember l) true | inr r => mk (RightMember r) false end.

Definition rep (w : world) (a : gmap nat tagged) : Prop := w = of_tagged <$> a.

Lemma rep_insert w a i x : rep w a → rep (<[i := of_tagged x]> w) (<[i := x]> a).
Proof. intros ->. unfold rep. by rewrite fmap_insert. Qed.

Lemma rep_lookup w a i : rep w a → w !! i = of_tagged <$> a !! i.
Proof. intros ->. apply lookup_fmap. Qed.

Lemma rep_insert_id w a i x : rep w a → a !! i = Some x → <[i := of_tagged x]> w = w.
Proof. intros Hrep Hi. apply insert_id. by rewrite (rep_lookup _ _ i Hrep), Hi. Qed.

Lemma copy_member_ok x : copy_member NoMember (of_tagged x) = (members_ ∘ of_tagged ∘ tag) <$> value x.
Proof. by destruct x as [[?|]|[?|]]. Qed.

Lemma move_member_ok x :
  move_member NoMember (of_tagged x)
  = (λ v, (members_ (of_tagged (tag v)), of_tagged (emptied x))) <$> value x.
Proof. by destruct x as [[?|]|[?|]]. Qed.

Lemma destruct_ok x : ∃ b, destruct_either (of_tagged x) = Ok (mk NoMember b).
Proof. by destruct x as [?|?]; eexists. Qed.

Lemma is_left_value x v : value x = Ok v → mk (members_ (of_tagged (tag v))) (is_left_ (of_tagged x)) = of_tagged (tag v).
Proof. destruct x as [[?|]|[?|]], v; by naive_solver. Qed.

Lemma equals_ok x y : equals eqL eqR (of_tagged x) (of_tagged y) = compare eqL eqR false x y.
Proof. by destruct x as [[?|]|[?|]], y as [[?|]|[?|]]. Qed.

Lemma differs_ok x y : differs neL neR (of_tagged x) (of_tagged y) = compare neL neR true x y.
Proof. by destruct x as [[?|]|[?|]], y as [[?|]|[?|]]. Qed.

(** The cases of an operation that reads a variable. *)
Ltac lookup_var a i Hrep :=
  unfold var; rewrite ?(rep_lookup _ _ i Hrep);
  destruct (a !! i) as [?|] eqn:?; cbn [fmap option_fmap option_map deref mbind result_bind];
  [|reflexivity].

Ltac fresh_var a i Hrep :=
  unfold fresh; rewrite ?(rep_lookup _ _ i Hrep);
  destruct (a !! i) as [?|] eqn:?; cbn [fmap option_fmap option_map mbind result_bind];
  [reflexivity|].

Lemma either_step o w a : rep w a → refines rep (spec_op o a) (run_op o w).
Proof.
  intros Hrep. destruct o as [i l|i r|i j|i j|i l|i r|i|i|i j|i j|i|i|i|i|i j|i j]; cbn [spec_op run_op].
  - fresh_var a i Hrep. eexists. split; [done|]. by apply (rep_insert w a i (inl (Live l))).
  - fresh_var a i Hrep. eexists. split; [done|]. by apply (rep_insert w a i (inr (Live r))).
  - fresh_var a i Hrep. lookup_var a j Hrep. unfold copy_construct. rewrite copy_member_ok.
    destruct (value _) as [v|] eqn:Hv; [|done]. cbn. rewrite (is_left_value _ _ Hv).
    eexists. split; [done|]. by apply rep_insert.
  - fresh_var a i Hrep. lookup_var a j Hrep. unfold move_construct. rewrite move_member_ok.
    destruct (value _) as [v|] eqn:Hv; [|done]. cbn. rewrite (is_left_value _ _ Hv).
    eexists. split; [done|]. by apply rep_insert, rep_insert.
  - lookup_var a i Hrep. unfold assign_left. destruct (destruct_ok s) as [b ->].
    eexists. split; [done|]. by apply (rep_insert w a i (inl (Live l))).
  - lookup_var a i Hrep. unfold assign_right. destruct (destruct_ok s) as [b ->].
    eexists. split; [done|]. by apply (rep_insert w a i (inr (Live r))).
  - lookup_var a i Hrep. by destruct s.
  - lookup_var a i Hrep. by destruct s.
  - lookup_var a i Hrep. lookup_var a j Hrep. unfold argument_at. destruct (decide (i = j)) as [->|].
    + eexists. split; [done|]. by rewrite (rep_insert_id w a j s).
    + unfold copy_assign. destruct (destruct_ok s) as [b ->]. cbn [mbind result_bind members_].
      rewrite copy_member_ok. destruct (value _) as [v|] eqn:Hv; [|done]. cbn.
      rewrite (is_left_value _ _ Hv). eexists. split; [done|]. by apply rep_insert.
  - lookup_var a i Hrep. lookup_var a j Hrep. unfold argument_at. destruct (decide (i = j)) as [->|].
    + eexists. split; [done|]. by rewrite !(rep_insert_id w a j s).
    + unfold move_assign. destruct (destruct_ok s) as [b ->]. cbn [mbind result_bind members_].
      rewrite move_member_ok. destruct (value _) as [v|] eqn:Hv; [|done]. cbn.
      rewrite (is_left_value _ _ Hv). eexists. split; [done|]. by apply rep_insert, rep_insert.
  - lookup_var a i Hrep. destruct (destruct_ok s) as [b ->]. eexists. split; [done|].
    unfold rep. rewrite Hrep. by rewrite fmap_delete.
  - lookup_var a i Hrep. eexists. by split; [by destruct s|].
  - lookup_var a i Hrep. destruct s as [[?|]|?]; [by eexists|done..].
  - lookup_var a i Hrep. destruct s as [?|[?|]]; [done|by eexists|done].
  - lookup_var a i Hrep. lookup_var a j Hrep. rewrite equals_ok.
    destruct (compare _ _ _ _ _); [by eexists|done].
  - lookup_var a i Hrep. lookup_var a j Hrep. rewrite differs_ok.
    destruct (compare _ _ _ _ _); [by eexists|done].
Qed.

(** The flag names the member whose lifetime has begun. *)
Definition consistent (e : t L R) : Prop :=
  match members_ e with
  | NoMember => False
  | LeftMember _ => is_left_ e = true
  | RightMember _ => is_left_ e = false
  end.

Lemma of_tagged_consistent x : consistent (of_tagged x).
Proof. by destruct x. Qed.

Lemma consistent_tagged e : consistent e → ∃ x, e = of_tagged x.
Proof. destruct e as [[|x|x] b]; cbn; intros H; [done|exists (inl x)|exists (inr x)]; by subst. Qed.

Lemma differs_negb (x y : tagged) :
  (∀ l l', neL l l' = negb (eqL l l')) → (∀ r r', neR r r' = negb (eqR r r')) →
  compare neL neR true x y = negb <$> compare eqL eqR false x y.
Proof. intros HL HR. destruct x as [[?|]|[?|]], y as [[?|]|[?|]]; cbn; by rewrite ?HL, ?HR. Qed.

(** C36: [Either] is a type-safe sum.  Any program that constructs, copies, moves, assigns,
    destroys, inspects and compares variables of the type does what the same program does on
    tagged values, operation by operation: the same answers, and a fault exactly where the
    tagged program has one (the wrong [get], a read of a value moved away, or an assignment
    from a reference to the variable's own value, which the assignment destroys first).  So
    no member is ever constructed over a living one, destroyed twice or read as the other;
    in every state reached the flag names the living member of each variable; and [!=] is
    the negation of [==] if it is so for both types. *)
Theorem either_refines_sum os :
  refines rep (run_all spec_op os ∅) (run_all run_op os ∅) ∧
  (∀ rs w i e, run_all run_op os ∅ = Ok (rs, w) → w !! i = Some e → consistent e) ∧
  ((∀ l l', neL l l' = negb (eqL l l')) → (∀ r r', neR r r' = negb (eqR r r')) →
   ∀ e e', consistent e → consistent e' →
     differs neL neR e e' = negb <$> equals eqL eqR e e').
Proof.
  assert (refines rep (run_all spec_op os ∅) (run_all run_op os ∅)) as H.
  { apply run_all_refines; [apply either_step|]. unfold rep. by rewrite fmap_empty. }
  split; [done|]. split.
  - intros rs w i e E Hi. unfold refines in H. rewrite E in H.
    destruct (run_all spec_op os ∅) as [[rs' a]|]; [|done]. destruct H as (w' & [= <- <-] & Hrep).
    rewrite (rep_lookup _ _ i Hrep) in Hi. destruct (a !! i) as [x|]; [|done].
    injection Hi as <-. apply of_tagged_consistent.
  - intros HL HR e e' [x ->]%consistent_tagged [y ->]%consistent_tagged.
    rewrite differs_ok, equals_ok. by apply differs_negb.
Qed.

End Programs.

(** A move leaves a variable that can be assigned again; assigning a variable its own value
    faults. *)
Lemma either_refines_sum_witness :
  let run := run_all (run_op (L := Z) (R := bool) Z.eqb (λ x y, negb (x =? y)) eqb xorb) in
  let prog := [FromLeft 0 7; Move 1 0; AssignRight 0 true; GetLeft 1; Equals 0 1] in
  fst <$> run prog ∅ = Ok [Done; Done; Done; TheLeft 7; TheBool false] ∧
  run [FromLeft 0 7; AssignOwnLeft 0] ∅ = Fault InvalidAccess ∧
  (∀ rs w i e, run prog ∅ = Ok (rs, w) → w !! i = Some e → consistent e).
Proof.
  intros run prog. split; [vm_compute; reflexivity|]. split; [vm_compute; reflexivity|].
  exact (proj1 (proj2 (either_refines_sum Z.eqb (λ x y, negb (x =? y)) eqb xorb prog))).
Defined.

(** ** map, and_then and or_else

    [map_impl] and [and_then_impl] choose among four functions by the type of the value and
    of the function's result: a function of a [Monostate] is called without an argument, and
    one that returns nothing gives a [Monostate]. *)
Inductive Monostate := monostate.

Section Combinators.
Context {L S : Type}.

Inductive Function : Type → Type → Type :=
| Unary {A B} (fn : A → S → result (B * S)) : Function A B
| UnaryVoid {A} (fn : A → S → result S) : Function A Monostate
| Nullary {B} (fn : S → result (B * S)) : Function Monostate B
| NullaryVoid (fn : S → result S) : Function Monostate Monostate.

Definition has_value {A} (self : t L A) : bool := negb (is_left self).

(** [Next(self.get_either().get_left())] *)
Definition next_left {A B} (self : t L A) (s : S) : result (t L B * S) :=
  l ← get_left self; e ← from_left (Live l); mret (e, s).

Definition map_impl_monostate_returns_void (fn : S → result S) (self : t L Monostate) (s : S)
  : result (t L Monostate * S) :=
  if has_value self then s ← fn s; '(e, _) ← from_right_move (Live monostate); mret (e, s)
  else next_left self s.

Definition map_impl_monostate_returns_nonvoid {B} (fn : S → result (B * S)) (self : t L Monostate)
  (s : S) : result (t L B * S) :=
  if has_value self then '(b, s) ← fn s; '(e, _) ← from_right_move (Live b); mret (e, s)
  else next_left self s.

Definition map_impl_returns_void {A} (fn : A → S → result S) (self : t L A) (s : S)
  : result (t L Monostate * S) :=
  if has_value self then
    v ← get_right self; s ← fn v s; '(e, _) ← from_right_move (Live monostate); mret (e, s)
  else next_left self s.

Definition map_impl_returns_nonvoid {A B} (fn : A → S → result (B * S)) (self : t L A) (s : S)
  : result (t L B * S) :=
  if has_value self then
    v ← get_right self; '(b, s) ← fn v s; '(e, _) ← from_right_move (Live b); mret (e, s)
  else next_left self s.

Definition map_impl {A B} (fn : Function A B) : t L A → S → result (t L B * S) :=
  match fn with
  | NullaryVoid fn => map_impl_monostate_returns_void fn
  | Nullary fn => map_impl_monostate_returns_nonvoid fn
  | UnaryVoid fn => map_impl_returns_void fn
  | Unary fn => map_impl_returns_nonvoid fn
  end.

(** A function handed to [and_then] returns the next [Either] itself, or nothing. *)
Inductive Continuation : Type → Type → Type :=
| AndUnary {A B} (fn : A → S → result (t L B * S)) : Continuation A B
| AndUnaryVoid {A} (fn : A → S → result S) : Continuation A Monostate
| AndNullary {B} (fn : S → result (t L B * S)) : Continuation Monostate B
| AndNullaryVoid (fn : S → result S) : Continuation Monostate Monostate.

Definition and_then_impl_monostate_returns_nonvoid {B} (fn : S → result (t L B * S))
  (self : t L Monostate) (s : S) : result (t L B * S) :=
  if has_value self then fn s else next_left self s.

Definition and_then_impl_returns_nonvoid {A B} (fn : A → S → result (t L B * S)) (self : t L A)
  (s : S) : result (t L B * S) :=
  if has_value self then v ← get_right self; fn v s else next_left self s.

Definition and_then_impl {A B} (fn : Continuation A B) : t L A → S → result (t L B * S) :=
  match fn with
  | AndNullaryVoid fn => map_impl_monostate_returns_void fn
  | AndNullary fn => and_then_impl_monostate_returns_nonvoid fn
  | AndUnaryVoid fn => map_impl_returns_void fn
  | AndUnary fn => and_then_impl_returns_nonvoid fn
  end.

(** The value returned is a copy of [self], or [self] moved when it is an rvalue. *)
Definition or_else_impl {A} (fn : S → result S) (self : t L A) (s : S) : result (t L A * S) :=
  s ← (if negb (has_value self) then fn s else mret s);
  e ← copy_construct self; mret (e, s).

Definition or_else_impl_move {A} (fn : S → result S) (self : t L A) (s : S)
  : result (t L A * t L A * S) :=
  s ← (if negb (has_value self) then fn s else mret s);
  '(e, self) ← move_construct self; mret (e, self, s).

(** ** What they compute *)
Definition of_value {A} (x : L + A) : t L A := of_tagged (tag x).

(** The call of a function on a value. *)
Definition call {A B} (fn : Function A B) : A → S → result (B * S) :=
  match fn with
  | Unary fn => fn
  | UnaryVoid fn => λ v s, s ← fn v s; mret (monostate, s)
  | Nullary fn => λ _, fn
  | NullaryVoid fn => λ _ s, s ← fn s; mret (monostate, s)
  end.

Definition continue {A B} (fn : Continuation A B) : A → S → result (t L B * S) :=
  match fn with
  | AndUnary fn => fn
  | AndUnaryVoid fn => λ v s, s ← fn v s; mret (of_value (inr monostate), s)
  | AndNullary fn => λ _, fn
  | AndNullaryVoid fn => λ _ s, s ← fn s; mret (of_value (inr monostate), s)
  end.

(** What is left of an [Either] that is moved. *)
Definition moved {A} (x : L + A) : t L A := of_tagged (emptied (tag x)).

Lemma map_impl_ok {A B} (fn : Function A B) x s :
  map_impl fn (of_value x) s
  = match x with
    | inl l => mret (of_value (inl l), s)
    | inr v => '(b, s) ← call fn v s; mret (of_value (inr b), s)
    end.
Proof.
  destruct x as [l|v], fn as [? ? fn|? fn|? fn|fn]; try reflexivity; cbn;
    [by destruct (fn v s)|by destruct (fn s)].
Qed.

Lemma and_then_impl_ok {A B} (fn : Continuation A B) x s :
  and_then_impl fn (of_value x) s
  = match x with inl l => mret (of_value (inl l), s) | inr v => continue fn v s end.
Proof.
  by destruct x as [l|v], fn as [? ? fn|? fn|? fn|fn].
Qed.

Lemma or_else_impl_ok {A} fn (x : L + A) s :
  or_else_impl fn (of_value x) s
  = (if x is inl _ then s ← fn s; mret (of_value x, s) else mret (of_value x, s)) ∧
  or_else_impl_move fn (of_value x) s
  = (if x is inl _ then s ← fn s; mret (of_value x, moved x, s) else mret (of_value x, moved x, s)).
Proof. by destruct x. Qed.

(** [map], [and_then] and [or_else] compose functions that may fail.  On a value, [map]
    calls the function once and wraps its result, and [and_then] gives what the function
    returns; without a value both keep the left side and do not call the function;
    [or_else] calls its function exactly then and answers what it was called on.  Effects
    and faults of the functions are passed on unchanged and in order.  Hence [and_then] is
    associative, with the wrapping of a value as its unit on both sides, and [map] is the
    [and_then] of the wrapped function. *)
Theorem combinators_form_monad {A B C} (x : L + A) (a : A) (s : S) (fn : Function A B)
    (k : Continuation A B) (h : B → S → result (t L C * S)) (g : S → result S) :
  map_impl fn (of_value x) s
  = match x with
    | inl l => Ok (of_value (inl l), s)
    | inr v => '(b, s) ← call fn v s; Ok (of_value (inr b), s)
    end ∧
  and_then_impl k (of_value x) s
  = match x with inl l => Ok (of_value (inl l), s) | inr v => continue k v s end ∧
  or_else_impl g (of_value x) s
  = (if x is inl _ then s ← g s; Ok (of_value x, s) else Ok (of_value x, s)) ∧
  ('(e, s) ← and_then_impl k (of_value x) s; and_then_impl (AndUnary h) e s)
  = and_then_impl
      (AndUnary (λ v s, '(e, s) ← continue k v s; and_then_impl (AndUnary h) e s)) (of_value x) s ∧
  and_then_impl k (of_value (inr a)) s = continue k a s ∧
  and_then_impl (AndUnary (λ v s, mret (of_value (inr v), s))) (of_value x) s = Ok (of_value x, s) ∧
  map_impl fn (of_value x) s
  = and_then_impl (AndUnary (λ v s, '(b, s) ← call fn v s; mret (of_value (inr b), s)))
      (of_value x) s.
Proof.
  rewrite map_impl_ok, !and_then_impl_ok. split_and!; try done.
  - apply or_else_impl_ok.
  - by destruct x.
  - by destruct x.
Qed.

End Combinators.

End Either.

(** ** Optional *)
Module Optional.
Import Either.

Inductive None_ := none.

(** [either_] *)
Definition t (A : Type) : Type := Either.t None_ A.

Section Operations.
Context {A : Type}.
Implicit Types (o other : t A).

Definition init : result (t A) := from_left (Live none).
Definition from_none (n : None_) : result (t A) := from_left (Live none).
Definition copy_construct other : result (t A) := Either.copy_construct other.
Definition move_construct other : result (t A * t A) := Either.move_construct other.
Definition from_value (value : object A) : result (t A) := from_right value.
Definition from_value_move (value : object A) : result (t A * object A) := from_right_move value.

Definition assign_value o (value : argument (object A)) : result (t A) := assign_right o value.

Definition assign_value_move o (value : argument (object A)) : result (t A * object A) :=
  assign_right_move o value.

Definition reset o : result (t A) := assign_left o (Other (Live none)).

Definition assign_none o (n : None_) : result (t A) := reset o.

(** The classes of [Optional] and of its [Either] both compare the addresses. *)
Definition copy_assign o (other : argument (t A)) : result (t A) :=
  match other with Own => mret o | Other _ => Either.copy_assign o other end.

Definition move_assign o (other : argument (t A)) : result (t A * t A) :=
  match other with Own => mret (o, o) | Other _ => Either.move_assign o other end.

Definition has_value o : bool := negb (is_left o).

Definition to_bool o : bool := has_value o.

Definition get_value o : result A := get_right o.

Definition star o : result A := get_value o.

Definition arrow o : result A := assert! has_value o; get_right o.

Section Comparison.
Context (eqA neA : A → A → bool).

(** [None] has one value. *)
Definition eq_none (x y : None_) : bool := true.
Definition ne_none (x y : None_) : bool := false.

Definition equals_none o : bool := negb (has_value o).
Definition differs_none o : bool := negb (equals_none o).

Definition equals o (other : argument (t A)) : result bool :=
  match other with Own => mret true | Other other => Either.equals eq_none eqA o other end.

Definition differs o (other : argument (t A)) : result bool :=
  match other with Own => mret false | Other other => Either.differs ne_none neA o other end.

End Comparison.

Definition map {S B} (fn : Function (S := S) A B) o (s : S) : result (t B * S) := map_impl fn o s.

Definition and_then {S B} (fn : Continuation (L := None_) (S := S) A B) o (s : S)
  : result (t B * S) := and_then_impl fn o s.

Definition or_else {S} (fn : S → result S) o (s : S) : result (t A * S) := or_else_impl fn o s.

(** [make_optional(value)] *)
Definition make_optional (value : object A) : result (t A * object A) := from_value_move value.

End Operations.

(** The [Optional] that represents an option. *)
Definition of_option {A} (x : option A) : t A :=
  of_value (match x with Some v => inr v | None => inl none end).

(** C0: [Optional] is the option type.  Its constructors and assignments give the option
    they are named after whatever was there before, [has_value] and the comparison with
    [none] say whether there is a value, [get_value], [*] and [->] answer it or stop in an
    assertion, [==] and [!=] compare options, and [map], [and_then] and [or_else] are the
    map, bind and alternative of the option type over functions with effects. *)
Theorem optional_implements_option {A B S} (x y : option A) (v : A) (s : S)
    (eqA neA : A → A → bool) (fn : A → S → result (B * S)) (k : A → S → result (option B * S))
    (g : S → result S) :
  (init = Ok (of_option (A := A) None) ∧ from_value (Live v) = Ok (of_option (Some v)) ∧
   copy_construct (of_option x) = Ok (of_option x)) ∧
  (assign_value (of_option x) (Other (Live v)) = Ok (of_option (Some v)) ∧
   reset (of_option x) = Ok (of_option None) ∧
   copy_assign (of_option x) (Other (of_option y)) = Ok (of_option y) ∧
   fst <$> move_assign (of_option x) (Other (of_option y)) = Ok (of_option y)) ∧
  (has_value (of_option x) = bool_decide (is_Some x) ∧
   equals_none (of_option x) = bool_decide (x = None) ∧
   get_value (of_option x) = deref AssertionFailed x ∧
   star (of_option x) = deref AssertionFailed x ∧ arrow (of_option x) = deref AssertionFailed x) ∧
  (equals eqA (of_option x) (Other (of_option y))
   = Ok (match x, y with Some a, Some b => eqA a b | None, None => true | _, _ => false end) ∧
   differs neA (of_option x) (Other (of_option y))
   = Ok (match x, y with Some a, Some b => neA a b | None, None => false | _, _ => true end)) ∧
  (map (Unary fn) (of_option x) s
   = match x with
     | Some a => '(b, s) ← fn a s; Ok (of_option (Some b), s)
     | None => Ok (of_option None, s)
     end ∧
   and_then (AndUnary (λ a s, '(o, s) ← k a s; mret (of_option o, s))) (of_option x) s
   = match x with
     | Some a => '(o, s) ← k a s; Ok (of_option o, s)
     | None => Ok (of_option None, s)
     end ∧
   or_else g (of_option x) s
   = match x with
     | Some a => Ok (of_option (Some a), s)
     | None => s ← g s; Ok (of_option None, s)
     end).
Proof. destruct x, y; by split_and!. Qed.

End Optional.

(** ** Expected *)
Module Expected.
Import Either.

(** The two strings as the addresses that the structure keeps. *)
Record Error := mkError { error_code : Z; error_domain : Z; error_description : Z }.

Definition t (A : Type) : Type := Either.t Error A.

Section Operations.
Context {A S : Type}.
Implicit Types (x : t A).

Definition from_value (value : object A) : result (t A) := from_right value.
Definition from_value_move (value : object A) : result (t A * object A) := from_right_move value.
Definition from_error (error : object Error) : result (t A) := from_left error.
Definition from_error_move (error : object Error) : result (t A * object Error) := from_left_move error.

Definition has_value x : bool := negb (is_left x).
Definition get_error x : result Error := get_left x.
Definition get_value x : result A := get_right x.

(** [map_error() const]: [*this] is copied to the result. *)
Definition map_error (fn : Error → S → result (Error * S)) x (s : S) : result (t A * S) :=
  if has_value x then x ← copy_construct x; mret (x, s)
  else
    e ← get_error x; '(e, s) ← fn e s;
    '(x, _) ← from_error_move (Live e); mret (x, s).

(** [map_error() &&] returns a reference; what it refers to is [*this], or the temporary,
    which is destroyed at the end of the return statement. *)
Definition map_error_move (fn : Error → S → result (Error * S)) x (s : S) : result (t A * S) :=
  if has_value x then mret (x, s)
  else
    e ← get_error x; '(e, s) ← fn e s;
    '(temporary, _) ← from_error_move (Live e);
    temporary ← destruct_either temporary;
    mret (temporary, s).

Definition map {B} (fn : Function (S := S) A B) x (s : S) : result (t B * S) := map_impl fn x s.

Definition and_then {B} (fn : Continuation (L := Error) (S := S) A B) x (s : S)
  : result (t B * S) := and_then_impl fn x s.

Definition or_else (fn : S → result S) x (s : S) : result (t A * S) := or_else_impl fn x s.

(** [Expected] holds an error or a value.  Each getter answers its side or stops in an
    assertion, and [map_error] of an lvalue changes the error and keeps a value.  But
    [map_error] of an rvalue answers a reference to a temporary that no longer exists when
    there is an error: reading the error through it is an invalid access. *)
Theorem expected_error_mapping (v : A) (e : Error) (fn : Error → S → result (Error * S)) (s : S) :
  let with_value := of_value (inr v) in
  let with_error := of_value (A := A) (inl e) in
  (get_value with_value = Ok v ∧ get_error with_value = Fault AssertionFailed ∧
   get_error with_error = Ok e ∧ get_value with_error = Fault AssertionFailed) ∧
  map_error fn with_value s = Ok (with_value, s) ∧
  map_error fn with_error s = ('(e, s) ← fn e s; Ok (of_value (inl e), s)) ∧
  map_error_move fn with_value s = Ok (with_value, s) ∧
  ('(x, _) ← map_error_move fn with_error s; get_error x)
  = ('(_, _) ← fn e s; Fault InvalidAccess).
Proof. cbv zeta. split_and!; try done. cbn. by destruct (fn e s) as [[e' s']|]. Qed.

End Operations.
End Expected.
