(* ===== verification/KernelBoot.v ===== *)
(** * KernelBoot: the kernel brings up its memory

    Models the part of the constructor of [Kernel] (src/Kernel/src/kernel.cpp) that
    prepares memory on i386, in its order: [prepare_kernel_address_space],
    [initialize_page_frame_allocator], [initialize_kernel_malloc] and
    [initialize_physical_memory_map].  The operations are those of the address-space
    bootstrapper and the physical memory map ([Paging], [PageMaps]), of the page frame
    allocator and its configuration ([PageFrameAllocator], [BootMemory]) and of the heap
    ([MallocZone]); this file is about their composition.

    The initial state is what the boot code of src/Boot/i386/boot.S leaves: a page
    directory of which only the entry of the first 4 MB of the kernel refers to a page
    table.  The symbols of the linker script (src/Boot/common/kernel.ld) are parameters.
    A store goes through the MMU: writing to a page that is not mapped for writing is a
    page fault, which stops the kernel. *)
From S2P Require Import Prelude PageFrameAllocator PageEntries Paging.
From S2P Require Import BootMemory PageMaps PageMapLaws MallocZone.
Import Mmu.

Module Kernel.

Notation K := I386Resolver.KERNEL_VIRTUAL_START_ADDR.
Notation Pte := I386PageTableEntry.flag.
Notation Pde := I386PageDirectoryEntry.flag.

(** The allocator of the i386 kernel: one bit for each page of the 32 MB region. *)
Definition NUMBER_OF_PAGE_FRAMES : Z := KERNEL_MEMORY_REGION_SIZE / PAGE_SIZE.

Notation Pfa := ConcretePageFrameAllocator.t.

#[local] Instance kernel_frames : PageFrameAllocator Pfa :=
  ConcretePageFrameAllocator.concrete_pfa 32 NUMBER_OF_PAGE_FRAMES.

#[local] Instance kernel_frames_laws : PageFrameAllocatorLaws Pfa :=
  ConcretePageFrameAllocator.concrete_pfa_laws 32 NUMBER_OF_PAGE_FRAMES.

(** The symbols of the linker script, and where the page tables of the bootstrapper lie. *)
Record image := mkimage {
  page_tables_ : Z;
  g_kernel_text_begin : Z;
  g_kernel_text_end : Z;
  g_kernel_rodata_begin : Z;
  g_kernel_rodata_end : Z;
  g_kernel_image_end : Z;
}.

(** [phys_map_] with the MMU and the page frame allocator it works on, and the heap. *)
Record t := mk { phys_map_ : ConcreteMap.t Pfa; heap_ : option MallocZone.zone }.

Definition hardware (k : t) : hw := hw_ (ConcreteMap.state (phys_map_ k)).

Definition page_frame_allocator_ (k : t) : Pfa := alloc_ (ConcreteMap.state (phys_map_ k)).

Definition with_state (k : t) (s : st Pfa) : t :=
  mk (ConcreteMap.mk s (ConcreteMap.managed_ (phys_map_ k))) (heap_ k).

Section Boot.
Context (new_table : st Pfa → Z) (img : image).

(** [WRITABLE | GLOBAL] *)
Definition kernel_flags : Z := Z.lor UnmanagedMap.WRITABLE UnmanagedMap.GLOBAL.

Definition prepare_kernel_address_space (k : t) : result t :=
  s ← Bootstrapper.prepare_address_space (F := Pde) K I386Resolver.PageTable_COUNT
        I386Resolver.sizeof_entry (page_tables_ img) I386Resolver.enumerate_page_directory_entries
        (Bootstrapper.init I386Resolver.PageTable_COUNT (page_tables_ img) (hardware k));
  let k := with_state k (mkst (Bootstrapper.hw_ s) (page_frame_allocator_ k)) in
  let linear_address := get_kernel_virtual_start_address K in
  m ← ConcreteMap.map_pages new_table (phys_map_ k) linear_address
        (linear_address + KERNEL_MEMORY_REGION_SIZE) kernel_flags;
  m ← ConcreteMap.set_readonly m (g_kernel_text_begin img) (g_kernel_text_end img);
  m ← ConcreteMap.set_readonly m (g_kernel_rodata_begin img) (g_kernel_rodata_end img);
  mret (mk m (heap_ k)).

(** The boot information is at [info], with the memory map [mb] and the modules [mods]. *)
Definition initialize_page_frame_allocator (fuel : nat) (info : multiboot_info)
    (mb : gmap Z mmap_entry) (mods : gmap Z module_t) (k : t) : result t :=
  frames ← MemoryMap.init 32 K mb info;
  a ← @Configuration.configure 32 K (g_kernel_image_end img) _ (memory_map_enumerator 32 mb) _ _ mods
        fuel frames (Modules.init 32 K info) (page_frame_allocator_ k);
  mret (with_state k (mkst (hardware k) a)).

(** Whether the processor lets the kernel write to the page of an address. *)
Definition is_writable (h : hw) (la : Z) : bool :=
  match UnmanagedMap.mapping (F := Pte) (get_cr3 h) h la with
  | Some (_, (writable, _, _)) => writable
  | None => false
  end.

(** [memset(begin, value, length)] of whole pages. *)
Definition memset (h : hw) (begin value length : Z) : result (gmap Z Z) :=
  if forallb (λ i, is_writable h (begin + i * PAGE_SIZE)) (seqZ 0 (length / PAGE_SIZE))
  then mret (fill ∅ begin value length)
  else Fault InvalidAccess.

Definition EIGHT_MB : Z := 8 * 1024 * 1024.

Definition MAGIC_NUMBER_UNINITIALIZED_HEAP : Z := 0xCD.

Definition initialize_kernel_malloc (k : t) : result t :=
  let length := EIGHT_MB in
  '(begin_physical_addr, a) ← pfa_allocate (page_frame_allocator_ k) length;
  let k := with_state k (mkst (hardware k) a) in
  let begin := convert_physical_to_logical_address 32 K begin_physical_addr in
  bytes ← memset (hardware k) begin MAGIC_NUMBER_UNINITIALIZED_HEAP length;
  z ← MallocZone.create 32 ∅ bytes begin length;
  mret (mk (phys_map_ k) (Some z)).

Definition initialize_physical_memory_map (k : t) : result t :=
  m ← ConcreteMap.heap_is_ready (phys_map_ k); mret (mk m (heap_ k)).

(** The steps of the constructor that lead to the heap. *)
Definition boot_memory (fuel : nat) (info : multiboot_info) (mb : gmap Z mmap_entry)
    (mods : gmap Z module_t) (k : t) : result t :=
  k ← prepare_kernel_address_space k;
  k ← initialize_page_frame_allocator fuel info mb mods k;
  initialize_kernel_malloc k.

End Boot.

(** ** A directory of page tables

    [table j] is the page table of the directory entry [j], or 0. *)
Section Tables.
Context (pd : Z) (table : Z → Z).

(** The tables are whole pages above the start of the kernel, different from each other
    and from the directory. *)
Definition tables_apart : Prop :=
  K < pd ∧ pd `mod` PAGE_SIZE = 0 ∧ pd + PAGE_SIZE <= 2 ^ 32 ∧
  (∀ j, 0 <= j < 1024 → table j ≠ 0 →
     K < table j ∧ table j `mod` PAGE_SIZE = 0 ∧ table j + PAGE_SIZE <= 2 ^ 32 ∧ table j ≠ pd) ∧
  (∀ j j', 0 <= j < 1024 → 0 <= j' < 1024 → table j ≠ 0 → table j = table j' → j = j').

Definition directory_of (m : gmap Z Z) : Prop :=
  ∀ j, 0 <= j < 1024 → ∃ d, m !! (pd + j * 4) = Some d ∧ fits 32 d ∧
    I386PageDirectoryEntry.get_address d = if table j =? 0 then 0 else table j - K.

Notation index2 := I386Resolver.get_page_directory_index.
Notation index1 := I386Resolver.get_page_table_index.

Definition entry_at (la : Z) : Z :=
  if table (index2 la) =? 0 then 0 else table (index2 la) + index1 la * 4.

Context (Hapart : tables_apart).

Lemma p2l_table j : 0 <= j < 1024 → table j ≠ 0 →
  convert_physical_to_logical_address 32 K (table j - K) = table j.
Proof.
  intros Hj Hnz. destruct Hapart as (_ & _ & _ & Ht & _). destruct (Ht j Hj Hnz) as (? & ? & ? & ?).
  unfold convert_physical_to_logical_address. rewrite Z.sub_add.
  apply uwrap_small. unfold fits, I386Resolver.KERNEL_VIRTUAL_START_ADDR, PAGE_SIZE in *. lia.
Qed.

(** What the walk of the MMU finds, and the entries it reads. *)
Lemma walk_tables m la :
  directory_of m → fits 32 la →
  let ref := walk (convert_physical_to_logical_address 32 K) 4 I386PageDirectoryEntry.get_address
               index1 I386Laws.levels in
  ref m pd la = Ok (entry_at la) ∧
  visited (convert_physical_to_logical_address 32 K) 4 I386PageDirectoryEntry.get_address
    I386Laws.levels m pd la = [pd + index2 la * 4].
Proof.
  intros Hdir Hla ref. destruct (I386Laws.i386_index_range la Hla) as [H2 H1].
  destruct (Hdir (index2 la) H2) as (d & Hd & _ & Had).
  pose proof Hapart as (Hpd & _). assert (0 < K) by done.
  unfold ref, entry_at. cbn [walk visited I386Laws.levels]. unfold load. decide_Z. rewrite Hd.
  cbn [deref mbind result_bind]. rewrite Had.
  destruct (Z.eqb_spec (table (index2 la)) 0) as [Hz|Hz]; [by rewrite Z.eqb_refl|].
  destruct (proj1 (proj2 (proj2 (proj2 Hapart))) _ H2 Hz) as (Hgt & _).
  rewrite (proj2 (Z.eqb_neq _ 0)) by lia.
  rewrite (p2l_table _ H2 Hz). by rewrite (proj2 (Z.eqb_neq _ 0)) by lia.
Qed.

(** Addresses in different pages differ. *)
Lemma page_words_differ t t' i i' :
  t `mod` PAGE_SIZE = 0 → t' `mod` PAGE_SIZE = 0 → 0 <= i < 1024 → 0 <= i' < 1024 →
  t + i * 4 = t' + i' * 4 → t = t' ∧ i = i'.
Proof.
  unfold PAGE_SIZE. intros. Z.to_euclidean_division_equations. lia.
Qed.

Lemma tables_separated m cr3_ :
  directory_of m → convert_physical_to_logical_address 32 K cr3_ = pd →
  pr_separated (F := Pte) m cr3_ ∧
  ∀ la, fits 32 la → pr_get_page_table_entry (F := Pte) m cr3_ la = Ok (entry_at la).
Proof.
  intros Hdir Hcr. destruct Hapart as (Hpd & Hpda & _ & Ht & Hinj). split.
  - cbn [pr_separated I386Laws.i386_resolver]. unfold separated.
    change I386Resolver.W with 32. change I386Resolver.sizeof_entry with 4. rewrite Hcr.
    intros la la' e Hla Hla'. destruct (walk_tables m la Hdir Hla) as [-> _].
    destruct (walk_tables m la' Hdir Hla') as [-> ->]. intros [= <-] He.
    destruct (I386Laws.i386_index_range la Hla) as [H2 H1].
    destruct (I386Laws.i386_index_range la' Hla') as [H2' H1'].
    unfold entry_at in *. destruct (Z.eqb_spec (table (index2 la)) 0) as [|Hz]; [done|].
    destruct (Ht _ H2 Hz) as (_ & Hal & _ & Hne). split.
    + intros [E|[]%elem_of_nil]%elem_of_cons. apply Hne. by apply (page_words_differ _ _ _ _ Hal Hpda H1 H2').
    + intros [= E]. destruct (Z.eqb_spec (table (index2 la')) 0) as [|Hz']; [lia|].
      destruct (Ht _ H2' Hz') as (_ & Hal' & _).
      destruct (page_words_differ _ _ _ _ Hal' Hal H1' H1 E) as [E2 E1].
      apply Hinj in E2; [|done..].
      unfold index2, I386Resolver.get_page_directory_index, I386Resolver.get_page_table_index in *.
      change 0x3FF with (Z.ones 10) in E1.
      rewrite !shiftr_land_ones in E1 by lia. rewrite !Z.shiftr_div_pow2 in E2 by lia.
      change (2 ^ 22) with (4096 * 1024) in E2. rewrite <-!Z.div_div in E2 by lia.
      change (2 ^ 12) with 4096 in E1. change (2 ^ 10) with 1024 in E1.
      unfold PAGE_SIZE. f_equal. rewrite (Z.div_mod (la / 4096) 1024), (Z.div_mod (la' / 4096) 1024) by lia.
      congruence.
  - intros la Hla. cbn [pr_get_page_table_entry I386Laws.i386_resolver].
    rewrite I386Laws.i386_resolver_walks by done. change I386Resolver.W with 32.
    rewrite Hcr. by apply walk_tables.
Qed.

(** Storing to an entry of a page table leaves the directory as it is, so the operations of
    the unmanaged map do. *)
Lemma directory_store m la v :
  directory_of m → fits 32 la → entry_at la ≠ 0 → directory_of (<[entry_at la := v]> m).
Proof.
  intros Hdir Hla Hnz j Hj. destruct (I386Laws.i386_index_range la Hla) as [H2 H1].
  rewrite lookup_insert_ne; [by apply Hdir|]. unfold entry_at in *.
  destruct (Z.eqb_spec (table (index2 la)) 0) as [|Hz]; [done|].
  destruct Hapart as (_ & Hpda & _ & Ht & _). destruct (Ht _ H2 Hz) as (_ & Hal & _ & Hne).
  intros E. apply Hne. by apply (page_words_differ _ _ (index1 la) j Hal Hpda H1 Hj).
Qed.

Lemma entry_of_walk m c la e :
  directory_of m → convert_physical_to_logical_address 32 K c = pd → fits 32 la →
  pr_get_page_table_entry (F := Pte) m c la = Ok e → e = entry_at la.
Proof.
  intros Hdir Hc Hla. rewrite (proj2 (tables_separated m c Hdir Hc) la Hla). by intros [= <-].
Qed.

Lemma map_pages_directory c h b e f h' :
  directory_of (mem h) → convert_physical_to_logical_address 32 K c = pd → fits 32 b →
  UnmanagedMap.map_pages (F := Pte) c h b e f = Ok h' → directory_of (mem h').
Proof.
  intros Hdir Hc Hb. unfold UnmanagedMap.map_pages. intros (_ & E)%assert_ok.
  refine (for_pages_invariant 32 (λ h, directory_of (mem h)) _ _ _ _ _ _ _ _ Hb Hdir E); [|done].
  intros page s s' Hp Hs
    (pa & _ & (w & Ew & (Hw & (d & _ & (d' & _ & [= <-])%bind_ok)%bind_ok)%assert_ok)%bind_ok)%bind_ok.
  rewrite (entry_of_walk _ _ _ _ Hs Hc Hp Ew) in *. apply directory_store; [done..|].
  by apply negb_true_iff, Z.eqb_neq in Hw.
Qed.

Lemma set_readonly_directory c h b e h' :
  directory_of (mem h) → convert_physical_to_logical_address 32 K c = pd → fits 32 b →
  UnmanagedMap.set_readonly (F := Pte) c h b e = Ok h' → directory_of (mem h').
Proof.
  intros Hdir Hc Hb. unfold UnmanagedMap.set_readonly. intros (h1 & E & E')%bind_ok.
  assert (mem h' = mem h1) as ->.
  { refine (for_pages_preserves _ mem _ _ _ _ _ _ _ E'). by intros ? ? ? [= <-]. }
  refine (for_pages_invariant 32 (λ h, directory_of (mem h)) _ _ _ _ _ _ _ _ Hb Hdir E); [|done].
  intros page s s' Hp Hs (w & Ew & (Hw & (d & _ & [= <-])%bind_ok)%assert_ok)%bind_ok.
  rewrite (entry_of_walk _ _ _ _ Hs Hc Hp Ew) in *. apply directory_store; [done..|].
  by apply negb_true_iff, Z.eqb_neq in Hw.
Qed.

End Tables.

(** ** The tables before and after the bootstrapper *)

(** The directory entry of the kernel's first 4 MB has the page table [pt] of the boot
    code; the next seven get the first tables of the pool. *)
Definition table_before (pt j : Z) : Z := if j =? 768 then pt else 0.

Definition table_after (pt page_tables j : Z) : Z :=
  if j =? 768 then pt
  else if (769 <=? j) && (j <=? 775) then page_tables + (j - 769) * PAGE_SIZE else 0.

Definition directory (h : hw) : Z := I386Resolver.get_page_directory (cr3 h).

(** A whole page of the kernel's memory, outside the pool of page tables. *)
Definition kernel_page (page_tables a : Z) : Prop :=
  K < a ∧ a `mod` PAGE_SIZE = 0 ∧ a + PAGE_SIZE <= 2 ^ 32 ∧
  (a + PAGE_SIZE <= page_tables ∨ page_tables + 8 * PAGE_SIZE <= a).

(** What the boot code leaves. *)
Record boot_tables (h : hw) (pt page_tables : Z) : Prop := {
  bt_directory_page : kernel_page page_tables (directory h);
  bt_table_page : kernel_page page_tables pt;
  bt_pool : K < page_tables ∧ page_tables `mod` PAGE_SIZE = 0 ∧ page_tables + 8 * PAGE_SIZE <= 2 ^ 32;
  bt_apart : directory h ≠ pt;
  bt_directory : directory_of (directory h) (table_before pt) (mem h);
  bt_table : ∀ i, 0 <= i < 1024 → ∃ d, mem h !! (pt + i * 4) = Some d ∧ fits 32 d;
}.

Lemma table_after_page h pt page_tables j :
  boot_tables h pt page_tables → 768 <= j <= 775 →
  K < table_after pt page_tables j ∧ table_after pt page_tables j `mod` PAGE_SIZE = 0 ∧
  table_after pt page_tables j + PAGE_SIZE <= 2 ^ 32 ∧
  table_after pt page_tables j ≠ directory h.
Proof.
  intros [(? & ? & ? & ?) (? & ? & ? & ?) (? & ? & ?) ? _ _] Hj. unfold table_after.
  case_Z; [by split_and!|]. decide_Z. unfold PAGE_SIZE in *.
  split_and!; [lia|by rewrite Z_mod_plus_full|lia|lia].
Qed.

Lemma table_after_0 pt page_tables j : ¬ 768 <= j <= 775 → table_after pt page_tables j = 0.
Proof. intros Hj. unfold table_after. destruct (Z.eqb_spec j 768); [lia|]. repeat case_Z; lia. Qed.

Lemma tables_after_apart h pt page_tables :
  boot_tables h pt page_tables → tables_apart (directory h) (table_after pt page_tables).
Proof.
  intros Hb. pose proof Hb as [(? & ? & ? & ?) (? & ? & ? & ?) (? & ? & ?) ? _ _].
  split_and!; [done..| |].
  - intros j Hj Hnz. apply (table_after_page h); [done|].
    destruct (decide (768 <= j <= 775)); [done|]. by rewrite table_after_0 in Hnz.
  - intros j j' Hj Hj' Hnz. assert (768 <= j <= 775 ∧ (table_after pt page_tables j = table_after pt page_tables j' → 768 <= j' <= 775))
      as [Hr Hr'].
    { destruct (decide (768 <= j <= 775)); [|by rewrite table_after_0 in Hnz]. split; [done|].
      intros E. destruct (decide (768 <= j' <= 775)); [done|]. rewrite E, table_after_0 in Hnz; done. }
    intros E. specialize (Hr' E). unfold table_after, PAGE_SIZE in *. repeat case_Z; lia.
Qed.

(** The state in which the bootstrapper starts to work on the directory: its pool is clear. *)
Section Bootstrap.
Context (h : hw) (pt page_tables : Z) (Hb : boot_tables h pt page_tables).
Notation pd := (directory h).

Definition cleared : Bootstrapper.t :=
  Bootstrapper.mk (Bootstrapper.NUMBER_OF_PAGE_TABLES 1024) page_tables
    (with_mem h (Bootstrapper.clear_page_tables 1024 4 page_tables (mem h))).

Lemma cleared_outside a i :
  kernel_page page_tables a → 0 <= i < 1024 →
  mem (Bootstrapper.hw_ cleared) !! (a + i * 4) = mem h !! (a + i * 4).
Proof.
  intros (_ & _ & _ & Ha) Hi. apply Bootstrapper.clear_page_tables_outside; [done|].
  change (Bootstrapper.NUMBER_OF_PAGE_TABLES 1024 * 1024 * 4) with (8 * PAGE_SIZE).
  unfold PAGE_SIZE in *. lia.
Qed.

Lemma cleared_pool j i :
  769 <= j <= 775 → 0 <= i < 1024 →
  mem (Bootstrapper.hw_ cleared) !! (table_after pt page_tables j + i * 4) = Some 0.
Proof.
  intros Hj Hi. unfold table_after. decide_Z.
  replace (page_tables + (j - 769) * PAGE_SIZE + i * 4) with (page_tables + ((j - 769) * 1024 + i) * 4)
    by (unfold PAGE_SIZE; lia).
  apply Bootstrapper.clear_page_tables_at; [done|].
  change (Bootstrapper.NUMBER_OF_PAGE_TABLES 1024 * 1024) with 8192. lia.
Qed.

Lemma cleared_pool_ok : Bootstrapper.pool_ok (F := Pde) K cleared.
Proof.
  destruct (bt_pool _ _ _ Hb) as (Hpg & Hpga & Hpgl). intros i Hi.
  change (Bootstrapper.count_ cleared) with 8 in Hi.
  change (Bootstrapper.next_page_table_ cleared) with page_tables. assert (0 < K) by done.
  split; [unfold PAGE_SIZE in *; lia|]. split; [unfold fits, PAGE_SIZE in *; cbn; lia|].
  replace (_ + i * PAGE_SIZE - K) with (page_tables + (i - 0xC0000) * PAGE_SIZE)
    by (unfold PAGE_SIZE; change K with 0xC0000000; cbn; lia). by rewrite Z_mod_plus_full.
Qed.

(** The first entry has its page table already. *)
Lemma prepare_first : Bootstrapper.prepare_page_directory_entry (F := Pde) K (pd + 768 * 4) cleared = Ok cleared.
Proof.
  pose proof Hb as [Hpd (Hpt & _) _ _ Hdir _]. pose proof Hpd as (Hgt & _). assert (0 < K) by done.
  unfold Bootstrapper.prepare_page_directory_entry, load.
  rewrite cleared_outside by (done || lia). destruct (Hdir 768 ltac:(lia)) as (d & Hd & _ & Had). rewrite Hd.
  rewrite (proj2 (Z.eqb_neq (pd + 768 * 4) 0)) by lia. cbn [deref mbind result_bind].
  change (table_before pt 768) with pt in Had. rewrite (proj2 (Z.eqb_neq pt 0)) in Had by lia.
  change (pe_get_address (F := Pde) d) with (I386PageDirectoryEntry.get_address d). rewrite Had.
  by rewrite (proj2 (Z.eqb_neq (pt - K) 0)) by lia.
Qed.

Lemma table_before_0 j : j ≠ 768 → table_before pt j = 0.
Proof. intros Hj. unfold table_before. by case_Z. Qed.

(** The other seven get the first tables of the pool. *)
Notation fresh_entries := ((λ j, pd + j * 4) <$> seqZ 769 7).

Lemma prepare_others :
  ∃ s, Bootstrapper.prepare_all (F := Pde) K fresh_entries cleared = Ok s ∧
    cr3 (Bootstrapper.hw_ s) = cr3 h ∧
    (∀ e, e ∉ fresh_entries → mem (Bootstrapper.hw_ s) !! e = mem (Bootstrapper.hw_ cleared) !! e) ∧
    ∀ j, 769 <= j <= 775 → ∃ d, mem (Bootstrapper.hw_ s) !! (pd + j * 4) = Some d ∧ fits 32 d ∧
      I386PageDirectoryEntry.get_address d = page_tables + (j - 769) * PAGE_SIZE - K.
Proof.
  pose proof Hb as [Hpd _ _ _ Hdir _]. pose proof Hpd as (Hgt & _). assert (0 < K) by done.
  destruct (Bootstrapper.prepare_all_fresh (F := Pde) K PagingProperties.pde_flags_distinct_i386
              fresh_entries cleared) as (s & E & Hcr & Hout & Hin).
  - apply NoDup_fmap_2; [intros x y; lia|]. apply NoDup_seqZ.
  - done.
  - exact cleared_pool_ok.
  - intros e (j & -> & Hj%elem_of_seqZ)%list_elem_of_fmap. split; [lia|].
    destruct (Hdir j ltac:(lia)) as (d & Hd & Hf & Ha). rewrite table_before_0 in Ha by lia.
    exists d. by rewrite cleared_outside by (done || lia).
  - exists s. split_and!; [done..|]. intros j Hj.
    destruct (Hin (Z.to_nat (j - 769)) (pd + j * 4)) as (d & Hd & Hf & Ha).
    { rewrite list_lookup_fmap, lookup_seqZ_lt by lia. cbn. do 2 f_equal. lia. }
    exists d. split_and!; [done..|]. rewrite Z2Nat.id in Ha by lia. exact Ha.
Qed.

Lemma prepare_address_space_run s :
  Bootstrapper.prepare_all (F := Pde) K fresh_entries cleared = Ok s →
  Bootstrapper.prepare_address_space (F := Pde) K 1024 4 page_tables
    I386Resolver.enumerate_page_directory_entries (Bootstrapper.init 1024 page_tables h)
  = Ok (Bootstrapper.mk (Bootstrapper.count_ s) (Bootstrapper.next_page_table_ s) (reload (Bootstrapper.hw_ s))).
Proof.
  intros E. destruct (bt_directory_page _ _ _ Hb) as (Hgt & _). assert (0 < K) by done.
  unfold Bootstrapper.prepare_address_space, Bootstrapper.prepare_address_space_internal,
    I386Resolver.enumerate_page_directory_entries.
  set (s0 := Bootstrapper.mk _ _ _). change s0 with cleared.
  change (get_cr3 (Bootstrapper.hw_ (Bootstrapper.init 1024 page_tables h))) with (cr3 h).
  change (KERNEL_MEMORY_REGION_SIZE <? 2 ^ 31 - 1) with true. cbn [assert_then].
  change (Z.to_nat _) with 8%nat. change KERNEL_MEMORY_REGION_SIZE with (Z.of_nat 8 * 0x400000).
  rewrite (Bootstrapper.i386_enumerate_prepares K) by (done || (change (0 < pd); lia)).
  change (I386Resolver.get_page_directory (cr3 h)) with pd.
  change (seqZ (K / 2 ^ 22) (Z.of_nat 8)) with (768 :: seqZ 769 7). cbn [fmap list_fmap].
  cbn [Bootstrapper.prepare_all]. rewrite prepare_first. cbn [mbind result_bind]. by rewrite E.
Qed.

(** The bootstrapper leaves a directory of eight tables, all of whose entries are there. *)
Lemma bootstrap_ok :
  ∃ s, Bootstrapper.prepare_address_space (F := Pde) K 1024 4 page_tables
         I386Resolver.enumerate_page_directory_entries (Bootstrapper.init 1024 page_tables h) = Ok s ∧
    cr3 (Bootstrapper.hw_ s) = cr3 h ∧
    directory_of pd (table_after pt page_tables) (mem (Bootstrapper.hw_ s)) ∧
    ∀ j i, 768 <= j <= 775 → 0 <= i < 1024 →
      ∃ d, mem (Bootstrapper.hw_ s) !! (table_after pt page_tables j + i * 4) = Some d ∧ fits 32 d.
Proof.
  pose proof Hb as [Hpd Hptp (Hpg & _) _ Hdir Htab]. assert (0 < K) by done.
  destruct prepare_others as (s & E & Hcr & Hout & Hin). rewrite (prepare_address_space_run s E).
  eexists. split; [reflexivity|]. cbn [Bootstrapper.hw_ reload mem cr3]. split; [exact Hcr|]. split.
  - intros j Hj. destruct (decide (769 <= j <= 775)) as [Hr|Hr].
    + destruct (Hin j Hr) as (d & Hd & Hf & Ha). exists d. split_and!; [done..|]. rewrite Ha.
      unfold table_after. decide_Z. rewrite (proj2 (Z.eqb_neq _ 0)); unfold PAGE_SIZE in *; lia.
    + destruct (Hdir j Hj) as (d & Hd & Hf & Ha). exists d. split_and!; [|done|].
      * rewrite Hout, cleared_outside by (done || (intros (j' & ? & ?%elem_of_seqZ)%list_elem_of_fmap; lia)).
        done.
      * rewrite Ha. destruct (decide (j = 768)) as [->|]; [done|].
        by rewrite table_before_0, table_after_0 by lia.
  - intros j i Hj Hi. destruct (table_after_page h pt page_tables j Hb Hj) as (_ & Hal & _ & Hnd).
    rewrite Hout.
    2: { intros (j' & E' & Hj'%elem_of_seqZ)%list_elem_of_fmap. apply Hnd. destruct Hpd as (_ & Hpda & _).
         by apply (page_words_differ _ _ i j' Hal Hpda Hi ltac:(lia)). }
    destruct (decide (j = 768)) as [->|Hj768].
    + change (table_after pt page_tables 768) with pt. rewrite cleared_outside by done. by apply Htab.
    + exists 0. by rewrite cleared_pool by lia.
Qed.
End Bootstrap.

(** ** The kernel's region *)
Notation region_end := (K + KERNEL_MEMORY_REGION_SIZE).

Notation mapping := (UnmanagedMap.mapping (F := Pte)).
Notation has_pte := (UnmanagedMap.has_pte (F := Pte)).

(** The paging structures after the bootstrapper, whatever the entries of the tables say. *)
Record prepared (h : hw) (cr3_ : Z) : Prop := {
  pr_cr3 : cr3 h = cr3_;
  pr_sep : pr_separated (F := Pte) (mem h) cr3_;
  pr_pte : ∀ la, K <= la < region_end → has_pte cr3_ h la;
}.

Lemma K_fits : fits 32 K.
Proof. by split. Qed.

Lemma region_index la :
  K <= la < region_end → fits 32 la ∧ 768 <= I386Resolver.get_page_directory_index la <= 775.
Proof.
  change K with 0xC0000000. change KERNEL_MEMORY_REGION_SIZE with 0x2000000.
  intros Hla. split; [unfold fits; lia|].
  unfold I386Resolver.get_page_directory_index. rewrite Z.shiftr_div_pow2 by lia.
  pose proof (Z.div_mod la (2 ^ 22) ltac:(done)). pose proof (Z.mod_pos_bound la (2 ^ 22) ltac:(done)). lia.
Qed.

Lemma directory_prepared h pt page_tables h' :
  boot_tables h pt page_tables → cr3 h' = cr3 h →
  directory_of (directory h) (table_after pt page_tables) (mem h') →
  (∀ j i, 768 <= j <= 775 → 0 <= i < 1024 →
     ∃ d, mem h' !! (table_after pt page_tables j + i * 4) = Some d ∧ fits 32 d) →
  prepared h' (cr3 h) ∧
  (∀ la, fits 32 la → ¬ K <= la < region_end → mapping (cr3 h) h' la = None).
Proof.
  intros Hb Hcr Hdir Hwords. pose proof (tables_after_apart _ _ _ Hb) as Hapart.
  destruct (tables_separated _ _ Hapart (mem h') (cr3 h) Hdir eq_refl) as [Hsep Hw]. split; [split|].
  - done.
  - done.
  - intros la Hla. destruct (region_index la Hla) as [Hf Hi].
    destruct (table_after_page h pt page_tables _ Hb Hi) as (Hgt & _).
    destruct (I386Laws.i386_index_range la Hf) as [_ H1].
    destruct (Hwords _ _ Hi H1) as (d & Hd & Hdf). assert (0 < K) by done.
    exists (entry_at (table_after pt page_tables) la), d. unfold entry_at.
    rewrite (proj2 (Z.eqb_neq (table_after _ _ _) 0)) by lia. split_and!; [|lia|done..].
    rewrite Hw by done. unfold entry_at. by rewrite (proj2 (Z.eqb_neq (table_after _ _ _) 0)) by lia.
  - intros la Hf Hla. unfold UnmanagedMap.mapping. rewrite Hw by done. unfold entry_at.
    rewrite table_after_0; [done|]. intros Hi. apply Hla.
    unfold I386Resolver.get_page_directory_index in Hi. rewrite Z.shiftr_div_pow2 in Hi by lia.
    change K with 0xC0000000. change KERNEL_MEMORY_REGION_SIZE with 0x2000000.
    pose proof (Z.div_mod la (2 ^ 22) ltac:(done)). pose proof (Z.mod_pos_bound la (2 ^ 22) ltac:(done)). lia.
Qed.

(** The page an address lies in. *)
Definition page_base (la : Z) : Z := la - la `mod` PAGE_SIZE.

Lemma same_page_range la begin n :
  fits 32 la → begin `mod` PAGE_SIZE = 0 → 0 <= begin → begin + Z.of_nat n * PAGE_SIZE < 2 ^ 32 →
  UnmanagedMap.in_pages (F := Pte) begin n la = (begin <=? la) && (la <? begin + Z.of_nat n * PAGE_SIZE).
Proof.
  intros Hf Hal Hb He. unfold UnmanagedMap.in_pages. cbn [pr_pages I386Laws.i386_resolver].
  apply eq_true_iff_eq. rewrite existsb_exists, andb_true_iff, Z.leb_le, Z.ltb_lt.
  unfold page_of, PAGE_SIZE, fits in *. split.
  - intros (i & Hi%list_elem_of_In%elem_of_seqZ & E%Z.eqb_eq).
    rewrite Z.div_add in E by lia.
    rewrite !Z.mod_small in E by (Z.to_euclidean_division_equations; lia).
    Z.to_euclidean_division_equations; lia.
  - intros Hr. exists (la / 4096 - begin / 4096). split.
    + apply list_elem_of_In, elem_of_seqZ. Z.to_euclidean_division_equations; lia.
    + apply Z.eqb_eq. rewrite Z.div_add by lia. do 2 f_equal. lia.
Qed.

Lemma mapping_same_page c h la la' :
  fits 32 la → fits 32 la' → la / PAGE_SIZE = la' / PAGE_SIZE → mapping c h la = mapping c h la'.
Proof.
  intros Hf Hf' E. unfold UnmanagedMap.mapping.
  rewrite (pr_same_page (F := Pte) (mem h) c la la'); [done|done..|]. unfold page_of. by rewrite E.
Qed.

Lemma map_region_ok h c :
  prepared h c →
  ∃ h', UnmanagedMap.map_pages (F := Pte) c h K region_end kernel_flags = Ok h' ∧ prepared h' c ∧
    ∀ la, fits 32 la →
      mapping c h' la
      = if (K <=? la) && (la <? region_end) then
          if page_base la =? K then None else Some (page_base la - K, (true, true, false))
        else mapping c h la.
Proof.
  intros [Hcr Hsep Hpte]. unfold UnmanagedMap.map_pages. change (K <? region_end) with true.
  change (page_fuel K region_end) with (Z.to_nat 8192). cbn [assert_then].
  assert (∀ i, 0 <= i < 8192 → K <= K + i * PAGE_SIZE < region_end) as Hin.
  { intros i Hi. change KERNEL_MEMORY_REGION_SIZE with 0x2000000. unfold PAGE_SIZE. lia. }
  destruct (UnmanagedMap.map_pages_loop (F := Pte) PagingProperties.pte_flags_distinct_i386 c kernel_flags
              region_end (Z.to_nat 8192) ltac:(done) ltac:(done) K h Hsep)
    as (h' & E & Hsep' & Hkeep & Hm & Ho); rewrite ?Z2Nat.id in * by lia; try done.
  { intros i Hi. split; [by apply Hpte, Hin|]. cbn [pr_K I386Laws.i386_resolver].
    replace (K + i * PAGE_SIZE - K) with (i * PAGE_SIZE) by lia.
    split; [unfold fits, PAGE_SIZE; lia|apply Z_mod_mult]. }
  exists h'. split; [done|]. split; [split|].
  - rewrite <-Hcr. refine (for_pages_preserves _ cr3 _ _ _ _ _ _ _ E).
    intros page s s' (? & _ & Hs)%bind_ok. exact (UnmanagedMap.map_page_cr3 (F := Pte) _ _ _ _ _ _ Hs).
  - done.
  - intros la Hla. apply Hkeep; [by apply region_index|by apply Hpte].
  - intros la Hf. destruct ((K <=? la) && (la <? region_end)) eqn:Hr.
    + apply andb_true_iff in Hr as [H1%Z.leb_le H2%Z.ltb_lt].
      set (i := (la - K) / PAGE_SIZE).
      assert (page_base la = K + i * PAGE_SIZE ∧ 0 <= i < 8192 ∧ la / PAGE_SIZE = (K + i * PAGE_SIZE) / PAGE_SIZE)
        as (Ep & Hi & Ed).
      { unfold i, page_base. change K with 0xC0000000 in *. change KERNEL_MEMORY_REGION_SIZE with 0x2000000 in *.
        unfold PAGE_SIZE. Z.to_euclidean_division_equations; lia. }
      destruct (region_index _ (Hin i Hi)) as [Hfp _].
      rewrite (mapping_same_page c h' la (K + i * PAGE_SIZE) Hf Hfp Ed), (Hm i Hi), Ep.
      clear - i. unfold UnmanagedMap.logical_mapping. cbn [pr_K I386Laws.i386_resolver].
      destruct (Z.eqb_spec (K + i * PAGE_SIZE - K) 0), (Z.eqb_spec (K + i * PAGE_SIZE) K);
        [done|lia|lia|done].
    + apply Ho; [done|]. intros i Hi. cbn [pr_pages I386Laws.i386_resolver]. unfold page_of.
      destruct (region_index _ (Hin i Hi)) as [Hfp _]. intros Eq.
      apply andb_false_iff in Hr. rewrite Z.leb_gt, Z.ltb_ge in Hr.
      specialize (Hin i Hi). unfold fits in *.
      change K with 0xC0000000 in *. change KERNEL_MEMORY_REGION_SIZE with 0x2000000 in *.
      unfold PAGE_SIZE in *. rewrite !Z.mod_small in Eq by (Z.to_euclidean_division_equations; lia).
      Z.to_euclidean_division_equations; lia.
Qed.

(** A section of the image: whole pages of the region, above its first page. *)
Definition section_ok (b e : Z) : Prop :=
  K < b ∧ b < e ∧ e <= region_end ∧ b `mod` PAGE_SIZE = 0 ∧ e `mod` PAGE_SIZE = 0.

Lemma section_fits b e : section_ok b e → fits 32 b.
Proof.
  intros (? & ? & ? & _). change K with 0xC0000000 in *.
  change KERNEL_MEMORY_REGION_SIZE with 0x2000000 in *. unfold fits. lia.
Qed.

Definition in_section (b e la : Z) : bool := (b <=? la) && (la <? e).

Lemma readonly_section_ok h c b e :
  prepared h c → section_ok b e →
  ∃ h', UnmanagedMap.set_readonly (F := Pte) c h b e = Ok h' ∧ prepared h' c ∧
    ∀ la, fits 32 la →
      mapping c h' la
      = if in_section b e la then UnmanagedMap.readonly (mapping c h la) else mapping c h la.
Proof.
  intros [Hcr Hsep Hpte] (Hb & Hbe & He & Hba & Hea).
  set (n := Z.to_nat ((e - b) / PAGE_SIZE)).
  assert (b + Z.of_nat n * PAGE_SIZE = e ∧ 0 <= b ∧ e < 2 ^ 32) as (En & Hb0 & He32).
  { unfold n. change K with 0xC0000000 in *. change KERNEL_MEMORY_REGION_SIZE with 0x2000000 in *.
    unfold PAGE_SIZE in *. rewrite Z2Nat.id by (apply Z.div_pos; lia).
    Z.to_euclidean_division_equations; lia. }
  destruct (UnmanagedMap.set_readonly_ok (F := Pte) PagingProperties.pte_flags_distinct_i386 c h b n)
    as (h' & E & Hcr' & Hsep' & Hkeep & Hm); [done|done|done|by rewrite En| |].
  { intros i Hi. apply Hpte. unfold PAGE_SIZE in *. lia. }
  exists h'. rewrite En in E. split; [done|]. split; [split|].
  - by rewrite Hcr'.
  - done.
  - intros la Hla. apply Hkeep; [by apply region_index|by apply Hpte].
  - intros la Hf. rewrite Hm, same_page_range by (done || by rewrite En). by rewrite En.
Qed.

(** ** prepare_kernel_address_space *)
Section Prepare.
Context (new_table : st Pfa → Z) (img : image).

Definition image_ok : Prop :=
  section_ok (g_kernel_text_begin img) (g_kernel_text_end img) ∧
  section_ok (g_kernel_rodata_begin img) (g_kernel_rodata_end img).

Definition is_code_or_rodata (la : Z) : bool :=
  in_section (g_kernel_text_begin img) (g_kernel_text_end img) la ||
  in_section (g_kernel_rodata_begin img) (g_kernel_rodata_end img) la.

(** Each page of the region at its frame, but for the frame 0; code and constants cannot be
    written. *)
Definition kernel_mapping (la : Z) : option (Z * (bool * bool * bool)) :=
  if (K <=? la) && (la <? region_end) then
    if page_base la =? K then None
    else Some (page_base la - K, (negb (is_code_or_rodata la), true, false))
  else None.

Lemma on_unmanaged_ok m h' f :
  f (hw_ (ConcreteMap.state m)) = Ok h' →
  ConcreteMap.on_unmanaged m f
  = Ok (ConcreteMap.mk (mkst h' (alloc_ (ConcreteMap.state m))) (ConcreteMap.managed_ (S := Pfa) m)).
Proof. intros E. unfold ConcreteMap.on_unmanaged. by rewrite E. Qed.

Lemma unmanaged_readonly_ok m h' c b e :
  cr3 (hw_ (ConcreteMap.state m)) = c → section_ok b e →
  UnmanagedMap.set_readonly (F := Pte) c (hw_ (ConcreteMap.state m)) b e = Ok h' →
  ConcreteMap.set_readonly (S := Pfa) m b e
  = Ok (ConcreteMap.mk (mkst h' (alloc_ (ConcreteMap.state m))) (ConcreteMap.managed_ m)).
Proof.
  intros <- (Hb & Hbe & _) E. unfold ConcreteMap.set_readonly. decide_Z. by apply on_unmanaged_ok.
Qed.

Lemma unmanaged_map_region_ok m h' c f :
  cr3 (hw_ (ConcreteMap.state m)) = c →
  UnmanagedMap.map_pages (F := Pte) c (hw_ (ConcreteMap.state m)) K region_end f = Ok h' →
  ConcreteMap.map_pages (S := Pfa) new_table m K region_end f
  = Ok (ConcreteMap.mk (mkst h' (alloc_ (ConcreteMap.state m))) (ConcreteMap.managed_ m)).
Proof.
  intros <- E. unfold ConcreteMap.map_pages.
  assert (is_page_aligned K = true ∧ (K <? region_end) = true ∧ (region_end <? K) = false)
    as (-> & -> & ->) by (split_and!; reflexivity).
  cbn [assert_then]. unfold ConcreteMap.on_unmanaged, get_cr3. rewrite E. reflexivity.
Qed.

Lemma bind_step {A B} (x : result A) (a : A) (f : A → result B) (y : result B) :
  x = Ok a → f a = y → (x ≫= f) = y.
Proof. by intros -> <-. Qed.

(** The steps, when each succeeds. *)
Lemma prepare_steps k s h1 h2 h3 c :
  image_ok →
  Bootstrapper.prepare_address_space (F := Pde) K I386Resolver.PageTable_COUNT
    I386Resolver.sizeof_entry (page_tables_ img) I386Resolver.enumerate_page_directory_entries
    (Bootstrapper.init I386Resolver.PageTable_COUNT (page_tables_ img) (hardware k)) = Ok s →
  cr3 (Bootstrapper.hw_ s) = c → cr3 h1 = c → cr3 h2 = c →
  UnmanagedMap.map_pages (F := Pte) c (Bootstrapper.hw_ s) K region_end kernel_flags = Ok h1 →
  UnmanagedMap.set_readonly (F := Pte) c h1 (g_kernel_text_begin img) (g_kernel_text_end img) = Ok h2 →
  UnmanagedMap.set_readonly (F := Pte) c h2 (g_kernel_rodata_begin img) (g_kernel_rodata_end img) = Ok h3 →
  prepare_kernel_address_space new_table img k
  = Ok (with_state k (mkst h3 (page_frame_allocator_ k))).
Proof.
  intros [Htext Hro] E Hc0 Hc1 Hc2 E1 E2 E3. unfold prepare_kernel_address_space.
  apply (bind_step _ _ _ _ E). cbv zeta. unfold get_kernel_virtual_start_address.
  eapply bind_step; [apply (unmanaged_map_region_ok _ h1 c); [exact Hc0|exact E1]|].
  eapply bind_step; [apply (unmanaged_readonly_ok _ h2 c); [exact Hc1|exact Htext|exact E2]|].
  eapply bind_step; [apply (unmanaged_readonly_ok _ h3 c); [exact Hc2|exact Hro|exact E3]|].
  reflexivity.
Qed.

(** What the kernel's page tables say after the preparation. *)
Record address_space_ready (h : hw) (pd pt : Z) : Prop := {
  as_directory : directory h = pd;
  as_tables : directory_of pd (table_after pt (page_tables_ img)) (mem h);
  as_mapping : ∀ la, fits 32 la → mapping (cr3 h) h la = kernel_mapping la;
}.

Lemma prepare_kernel_address_space_ok k pt :
  boot_tables (hardware k) pt (page_tables_ img) → image_ok →
  ∃ h', prepare_kernel_address_space new_table img k
        = Ok (with_state k (mkst h' (page_frame_allocator_ k))) ∧
    address_space_ready h' (directory (hardware k)) pt.
Proof.
  intros Hb Himg. pose proof Himg as [Htext Hro]. set (c := cr3 (hardware k)).
  destruct (bootstrap_ok _ _ _ Hb) as (s & E & Hcr & Hdir & Hwords).
  destruct (directory_prepared _ _ _ _ Hb Hcr Hdir Hwords) as [Hp0 Hout].
  destruct (map_region_ok _ c Hp0) as (h1 & E1 & Hp1 & Hm1).
  destruct (readonly_section_ok h1 c _ _ Hp1 Htext) as (h2 & E2 & Hp2 & Hm2).
  destruct (readonly_section_ok h2 c _ _ Hp2 Hro) as (h3 & E3 & Hp3 & Hm3).
  exists h3. split; [apply (prepare_steps k s h1 h2 h3 c); (done || apply Hp1 || apply Hp2)|].
  pose proof (tables_after_apart _ _ _ Hb) as Hapart. split.
  - unfold directory. by rewrite (pr_cr3 _ _ Hp3).
  - eapply (set_readonly_directory _ _ Hapart c h2); [|done|exact (section_fits _ _ Hro)|exact E3].
    eapply (set_readonly_directory _ _ Hapart c h1); [|done|exact (section_fits _ _ Htext)|exact E2].
    exact (map_pages_directory _ _ Hapart c _ K _ _ _ Hdir eq_refl K_fits E1).
  - intros la Hf. rewrite (pr_cr3 _ _ Hp3).
    rewrite Hm3, Hm2, Hm1 by done. unfold kernel_mapping, is_code_or_rodata.
    destruct ((K <=? la) && (la <? region_end)) eqn:Hr.
    + destruct (page_base la =? K); by destruct (in_section _ _ _), (in_section _ _ _).
    + rewrite Hout; [by destruct (in_section _ _ _), (in_section _ _ _)|done|].
      apply andb_false_iff in Hr. rewrite Z.leb_gt, Z.ltb_ge in Hr. lia.
Qed.

(** ** The frames and the heap *)

(** The sections lie in the image. *)
Definition image_bounds : Prop :=
  g_kernel_text_end img <= g_kernel_image_end img ∧
  g_kernel_rodata_end img <= g_kernel_image_end img ∧
  g_kernel_image_end img `mod` PAGE_SIZE = 0.

(** A run of frames for the heap, all usable. *)
Definition heap_frames : Z := EIGHT_MB / PAGE_SIZE.

Definition room_at (usable : Z → Prop) (f0 : Z) : Prop :=
  1 <= f0 ∧ f0 + heap_frames <= NUMBER_OF_PAGE_FRAMES ∧ ∀ f, f0 <= f < f0 + heap_frames → usable f.

Lemma room_is_span (a : Pfa) (usable : Z → Prop) f0 :
  (∀ f, 0 <= f < NUMBER_OF_PAGE_FRAMES → pfa_free a f = true ↔ usable f) →
  1 <= f0 < NUMBER_OF_PAGE_FRAMES →
  ConcretePageFrameAllocator.span_is_free NUMBER_OF_PAGE_FRAMES a f0 EIGHT_MB ↔ room_at usable f0.
Proof.
  intros Hfree Hf0. unfold ConcretePageFrameAllocator.span_is_free, room_at.
  change (ConcretePageFrameAllocator.pages_spanned EIGHT_MB) with heap_frames.
  assert (heap_frames = 2048) as Hh by reflexivity. split.
  - intros H. destruct (H (f0 + heap_frames - 1)) as [Hlast _]; [lia|]. split_and!; [lia|lia|].
    intros f Hf. destruct (H f Hf) as [? Hfr]. apply Hfree; [lia|exact Hfr].
  - intros (_ & Hle & H) f Hf. split; [lia|]. apply Hfree; [lia|by apply H].
Qed.

(** A page of the region above the image can be written. *)
Lemma writable_above_image h pd pt f :
  address_space_ready h pd pt → image_bounds →
  1 <= f < NUMBER_OF_PAGE_FRAMES → g_kernel_image_end img <= f * PAGE_SIZE + K →
  is_writable h (K + f * PAGE_SIZE) = true.
Proof.
  intros [_ _ Hm] (Ht & Hr & _) Hf Hend. assert (NUMBER_OF_PAGE_FRAMES = 8192) as Hn by reflexivity.
  rewrite Hn in Hf. unfold is_writable, get_cr3. rewrite Hm.
  2: { change K with 0xC0000000. unfold fits, PAGE_SIZE. lia. }
  assert (page_base (K + f * PAGE_SIZE) = K + f * PAGE_SIZE) as Hpb.
  { unfold page_base. change K with (0xC0000 * PAGE_SIZE). rewrite <-Z.mul_add_distr_r, Z_mod_mult. lia. }
  unfold kernel_mapping. rewrite Hpb, (proj2 (Z.leb_le K _)), (proj2 (Z.ltb_lt _ region_end)).
  2: { change KERNEL_MEMORY_REGION_SIZE with (8192 * PAGE_SIZE). unfold PAGE_SIZE. lia. }
  2: { unfold PAGE_SIZE. lia. }
  cbn [andb]. rewrite (proj2 (Z.eqb_neq _ K)) by (unfold PAGE_SIZE; lia).
  unfold is_code_or_rodata, in_section.
  rewrite (proj2 (Z.ltb_ge _ (g_kernel_text_end img))), (proj2 (Z.ltb_ge _ (g_kernel_rodata_end img))) by lia.
  by rewrite !andb_false_r.
Qed.

Lemma null_page_not_writable h pd pt :
  address_space_ready h pd pt → is_writable h K = false.
Proof.
  intros [_ _ Hm]. unfold is_writable, get_cr3. rewrite Hm by exact K_fits.
  unfold kernel_mapping. assert (page_base K = K) as -> by reflexivity. rewrite Z.eqb_refl.
  by destruct (_ && _).
Qed.

Lemma initialize_page_frame_allocator_ok fuel info mb mods e es ms k :
  image_ok → image_bounds →
  boot_information 32 K (S := Pfa) info mb mods e es ms →
  (length (concat (frames_of <$> e :: es)) <= fuel)%nat →
  ∃ a, initialize_page_frame_allocator img fuel info mb mods k = Ok (with_state k (mkst (hardware k) a)) ∧
    pfa_inv a ∧
    ∀ f, 0 <= f < NUMBER_OF_PAGE_FRAMES →
      pfa_free a f = true ↔ free_after K (g_kernel_image_end img) (e :: es) ms f.
Proof.
  intros [(Ht1 & Ht2 & _) _] (Ht & _) Hinfo Hfuel.
  destruct (configure_ok 32 K (g_kernel_image_end img) info mb mods e es ms fuel (page_frame_allocator_ k))
    as (frames & a & E1 & E2 & Hinv & Hfree); [done|split; [done|lia]|reflexivity|by vm_compute|done..|].
  exists a. split; [|done]. unfold initialize_page_frame_allocator.
  by apply (bind_step _ _ _ _ E1), (bind_step _ _ _ _ E2).
Qed.

Lemma usable_above_image es ms f :
  image_bounds → free_after K (g_kernel_image_end img) es ms f →
  g_kernel_image_end img <= f * PAGE_SIZE + K.
Proof.
  intros (_ & _ & Hal) [(x & _ & <- & Hb & _) _]. change K with (0xC0000 * PAGE_SIZE) in *.
  unfold PAGE_SIZE in *. Z.to_euclidean_division_equations. lia.
Qed.

Lemma memset_ok h begin v n :
  (∀ i, 0 <= i < n / PAGE_SIZE → is_writable h (begin + i * PAGE_SIZE) = true) →
  ∃ bytes, memset h begin v n = Ok bytes.
Proof.
  intros Hw. unfold memset. eexists. rewrite (proj2 (forallb_forall _ _)); [done|].
  intros i Hi%list_elem_of_In%elem_of_seqZ. apply Hw. lia.
Qed.

Lemma memset_faults h begin v n :
  PAGE_SIZE <= n → is_writable h begin = false → memset h begin v n = Fault InvalidAccess.
Proof.
  intros Hn Hw. unfold memset. assert (1 <= n / PAGE_SIZE) by (apply Z.div_le_lower_bound; [done|lia]).
  rewrite seqZ_cons by lia. cbn [forallb]. by rewrite Z.mul_0_l, Z.add_0_r, Hw.
Qed.

Lemma frame_logical f :
  0 <= f < NUMBER_OF_PAGE_FRAMES →
  convert_physical_to_logical_address 32 K (PAGE_SIZE * f) = K + f * PAGE_SIZE.
Proof.
  assert (NUMBER_OF_PAGE_FRAMES = 8192) as -> by reflexivity. intros Hf.
  unfold convert_physical_to_logical_address. rewrite uwrap_small; [lia|].
  change K with 0xC0000000. unfold fits, PAGE_SIZE. lia.
Qed.

(** What the allocator answers: the first run of frames, or 0. *)
Lemma allocate_heap (a : Pfa) usable :
  pfa_inv a → (∀ f, 0 <= f < NUMBER_OF_PAGE_FRAMES → pfa_free a f = true ↔ usable f) →
  ∃ r a', pfa_allocate a EIGHT_MB = Ok (r, a') ∧ pfa_inv a' ∧
    (∀ f0, room_at usable f0 → (∀ f, f < f0 → ¬ room_at usable f) →
       r = PAGE_SIZE * f0 ∧
       ∀ f, 0 <= f < NUMBER_OF_PAGE_FRAMES →
         pfa_free a' f = true ↔ usable f ∧ ¬ f0 <= f < f0 + heap_frames) ∧
    ((∀ f0, ¬ room_at usable f0) → r = 0).
Proof.
  intros Ha Hfree. assert (NUMBER_OF_PAGE_FRAMES = 8192 ∧ heap_frames = 2048) as [HN Hh] by (split; reflexivity).
  destruct (ConcretePageFrameAllocator.allocate_ok 32 NUMBER_OF_PAGE_FRAMES a EIGHT_MB)
    as (r & a' & E & Ha' & Hspec); [by split|done|done|done|].
  exists r, a'. split; [exact E|]. split; [done|].
  destruct Hspec as [(-> & _ & Hno)|(f1 & -> & Hf1 & Hspan & Hfirst & Hfr & _)]; split.
  - intros f0 Hroom _. destruct (Hno f0); [|apply (room_is_span a usable); [done| |done]];
      destruct Hroom as (? & ? & _); lia.
  - done.
  - intros f0 Hroom Hleast. apply (room_is_span a usable) in Hspan; [|done..].
    assert (f1 = f0) as ->.
    { destruct (Z.lt_trichotomy f1 f0) as [Hlt|[|Hlt]]; [by destruct (Hleast f1)|done|].
      pose proof Hroom as (Hr1 & _). destruct (Hfirst f0); [lia|].
      by apply (room_is_span a usable); [done|lia|]. }
    split; [done|]. intros f Hf. change (pfa_free a' f) with (ConcretePageFrameAllocator.free a' f).
    rewrite Hfr by done. change (EIGHT_MB / PAGE_SIZE) with heap_frames.
    rewrite andb_true_iff, negb_true_iff, andb_false_iff, Z.leb_gt, Z.ltb_ge.
    rewrite <-Hfree by done. change (pfa_free a f) with (ConcretePageFrameAllocator.free a f).
    split; intros [? ?]; split; (done || lia).
  - intros Hnone. apply (room_is_span a usable) in Hspan; [|done..]. by destruct (Hnone f1).
Qed.

(** The heap: the first run of usable frames becomes one free block. *)
Lemma initialize_kernel_malloc_ok k pd pt usable f0 :
  address_space_ready (hardware k) pd pt → image_bounds → pfa_inv (page_frame_allocator_ k) →
  (∀ f, 0 <= f < NUMBER_OF_PAGE_FRAMES → pfa_free (page_frame_allocator_ k) f = true ↔ usable f) →
  (∀ f, usable f → g_kernel_image_end img <= f * PAGE_SIZE + K) →
  room_at usable f0 → (∀ f, f < f0 → ¬ room_at usable f) →
  let start := K + f0 * PAGE_SIZE in
  ∃ a z, initialize_kernel_malloc k = Ok (mk (phys_map_ (with_state k (mkst (hardware k) a))) (Some z)) ∧
    pfa_inv a ∧
    (∀ f, 0 <= f < NUMBER_OF_PAGE_FRAMES →
       pfa_free a f = true ↔ usable f ∧ ¬ f0 <= f < f0 + heap_frames) ∧
    MallocZone.inv 32 (start + EIGHT_MB) z
      [(EIGHT_MB - MallocZone.sizeof_MallocZone 32 - MallocZone.sizeof_MallocBlock 32, false)].
Proof.
  intros Has Him Ha Hfree Habove Hroom Hleast start.
  destruct (allocate_heap _ usable Ha Hfree) as (r & a & E & Ha' & Hr & _).
  destruct (Hr f0 Hroom Hleast) as [-> Hfr]. destruct Hroom as (Hr1 & Hr2 & Hru).
  assert (NUMBER_OF_PAGE_FRAMES = 8192 ∧ heap_frames = 2048) as [HN Hh] by (split; reflexivity).
  destruct (memset_ok (hardware k) start MAGIC_NUMBER_UNINITIALIZED_HEAP EIGHT_MB) as (bytes & Em).
  { change (EIGHT_MB / PAGE_SIZE) with heap_frames. intros i Hi. unfold start.
    rewrite <-Z.add_assoc, <-Z.mul_add_distr_r.
    apply (writable_above_image _ pd pt); [done..|lia|]. apply Habove, Hru. lia. }
  destruct (MallocZone.create_ok 32 (or_introl eq_refl) ∅ bytes start EIGHT_MB) as (z & Ez & _ & Hz).
  { unfold start, PAGE_SIZE. change K with 0xC0000000. lia. }
  { done. }
  { unfold start, PAGE_SIZE. change K with 0xC0000000. change EIGHT_MB with (heap_frames * 4096).
    destruct (_ =? 0); [lia|]. Z.to_euclidean_division_equations; lia. }
  assert (start `mod` 4 = 0) as Hal.
  { unfold start. change K with (0x30000000 * 4). change PAGE_SIZE with (1024 * 4).
    rewrite Z.mul_assoc, <-Z.mul_add_distr_r. apply Z_mod_mult. }
  rewrite Hal in Hz. exists a, z. split; [|done]. unfold initialize_kernel_malloc.
  apply (bind_step _ _ _ _ E). cbv beta iota zeta. rewrite frame_logical by lia.
  apply (bind_step _ _ _ _ Em), (bind_step _ _ _ _ Ez). reflexivity.
Qed.

(** Without such a run the allocator answers 0, and the kernel clears the page of frame 0,
    which is not mapped. *)
Lemma initialize_kernel_malloc_faults k pd pt usable :
  address_space_ready (hardware k) pd pt → pfa_inv (page_frame_allocator_ k) →
  (∀ f, 0 <= f < NUMBER_OF_PAGE_FRAMES → pfa_free (page_frame_allocator_ k) f = true ↔ usable f) →
  (∀ f0, ¬ room_at usable f0) →
  initialize_kernel_malloc k = Fault InvalidAccess.
Proof.
  intros Has Ha Hfree Hno. destruct (allocate_heap _ usable Ha Hfree) as (r & a & E & _ & _ & Hr).
  rewrite (Hr Hno) in E. unfold initialize_kernel_malloc. apply (bind_step _ _ _ _ E). cbv beta iota zeta.
  change (convert_physical_to_logical_address 32 K 0) with K.
  rewrite memset_faults; [done|done|by apply (null_page_not_writable _ pd pt)].
Qed.

Lemma kernel_page_is_table a :
  K < a → a `mod` PAGE_SIZE = 0 → a + PAGE_SIZE <= 2 ^ 32 → is_table (F2 := Pde) 32 K a.
Proof.
  intros Ha Hal Hle. split_and!; [done..|].
  change (fits 32 (a - K) ∧ (a - K) `mod` PAGE_SIZE = 0). split.
  - change K with 0xC0000000 in *. unfold fits, PAGE_SIZE in *. lia.
  - change K with (0xC0000 * PAGE_SIZE). unfold PAGE_SIZE in *.
    replace (a - 0xC0000 * 4096) with (a + - 0xC0000 * 4096) by lia. by rewrite Z_mod_plus_full.
Qed.

(** The managed map over the directory that the boot leaves is well formed. *)
Lemma initialize_physical_memory_map_ok k pt pd :
  tables_apart pd (table_after pt (page_tables_ img)) →
  address_space_ready (hardware k) pd pt → pfa_inv (page_frame_allocator_ k) →
  ∃ c, initialize_physical_memory_map k
       = Ok (mk (ConcreteMap.mk (ConcreteMap.state (phys_map_ k)) (Some c)) (heap_ k)) ∧
    ManagedI386Laws.inv (ManagedI386.mk (ConcreteMap.state (phys_map_ k)) c).
Proof.
  intros (Hpd & Hal & Hle & _) [<- Hdir _] Ha.
  destruct (ManagedI386Laws.i386_init_ok (ConcreteMap.state (phys_map_ k))) as (m & E & Hinv & Hst).
  - exact (kernel_page_is_table _ Hpd Hal Hle).
  - done.
  - intros i Hi. destruct (Hdir i Hi) as (d & Hd & Hf & Hadr). exists d. split_and!; [done..|].
    intros Hlt. rewrite table_after_0 in Hadr by lia. exact Hadr.
  - exists (ManagedI386.pml2_ m). rewrite <-Hst. split; [|by destruct m].
    unfold initialize_physical_memory_map, ConcreteMap.heap_is_ready. rewrite Hst.
    rewrite E. cbn [mbind result_bind mret result_ret]. by rewrite Hst.
Qed.

(** The first two steps, for both outcomes of the third. *)
Lemma boot_frames_ok fuel info mb mods e es ms k pt :
  boot_tables (hardware k) pt (page_tables_ img) → image_ok → image_bounds →
  boot_information 32 K (S := Pfa) info mb mods e es ms →
  (length (concat (frames_of <$> e :: es)) <= fuel)%nat →
  ∃ h a, let k1 := with_state k (mkst h a) in
    boot_memory new_table img fuel info mb mods k
    = initialize_kernel_malloc k1 ∧
    address_space_ready h (directory (hardware k)) pt ∧ pfa_inv a ∧
    ∀ f, 0 <= f < NUMBER_OF_PAGE_FRAMES →
      pfa_free a f = true ↔ free_after K (g_kernel_image_end img) (e :: es) ms f.
Proof.
  intros Hb Himg Hbounds Hinfo Hfuel.
  destruct (prepare_kernel_address_space_ok k pt Hb Himg) as (h & E1 & Has).
  set (k0 := with_state k (mkst h (page_frame_allocator_ k))) in *.
  destruct (initialize_page_frame_allocator_ok fuel info mb mods e es ms k0 Himg Hbounds Hinfo Hfuel)
    as (a & E2 & Ha & Hfree).
  exists h, a. split; [|done]. unfold boot_memory. cbv zeta.
  by apply (bind_step _ _ _ _ E1), (bind_step _ _ _ _ E2).
Qed.
End Prepare.
End Kernel.

(** ** Properties *)
Module KernelBootProperties.
Import Kernel.
#[local] Existing Instances kernel_frames kernel_frames_laws.

(** A machine as the boot code leaves it: the page directory at 0xC0150000, the page table of
    the first 4 MB at 0xC0151000, the pool at 0xC0140000. *)
Definition demo_image : image :=
  mkimage 0xC0140000 0xC0101000 0xC0120000 0xC0120000 0xC0130000 0xC0200000.

Definition demo_words (base : Z) (m : gmap Z Z) : gmap Z Z :=
  foldr (λ i, <[base + i * 4 := 0]>) m (seqZ 0 1024).

Definition demo_memory : gmap Z Z :=
  <[0xC0150000 + 768 * 4 := 0x151003]> (demo_words 0xC0150000 (demo_words 0xC0151000 ∅)).

Definition demo_kernel : t :=
  mk (ConcreteMap.init (mkst (Mmu.mk 0x150000 demo_memory []) (ConcretePageFrameAllocator.init 8192))) None.

Definition demo_word_ok (a address : Z) : bool :=
  match demo_memory !! a with
  | Some d => (0 <=? d) && (d <? 2 ^ 32) && (I386PageDirectoryEntry.get_address d =? address)
  | None => false
  end.

Lemma demo_word a address :
  demo_word_ok a address = true →
  ∃ d, demo_memory !! a = Some d ∧ fits 32 d ∧ I386PageDirectoryEntry.get_address d = address.
Proof.
  unfold demo_word_ok. destruct (demo_memory !! a) as [d|]; [|done].
  intros [[H1%Z.leb_le H2%Z.ltb_lt]%andb_true_iff H3%Z.eqb_eq]%andb_true_iff. by exists d.
Qed.

Lemma demo_directory_check :
  forallb (λ j, demo_word_ok (0xC0150000 + j * 4) (if j =? 768 then 0x151000 else 0)) (seqZ 0 1024) = true.
Proof. vm_compute. reflexivity. Qed.

Lemma demo_table_check : forallb (λ i, demo_word_ok (0xC0151000 + i * 4) 0) (seqZ 0 1024) = true.
Proof. vm_compute. reflexivity. Qed.

Lemma demo_tables : boot_tables (hardware demo_kernel) 0xC0151000 (page_tables_ demo_image).
Proof.
  assert (∀ P, forallb P (seqZ 0 1024) = true → ∀ i, 0 <= i < 1024 → P i = true) as Hall.
  { intros P HP i Hi. rewrite forallb_forall in HP. apply HP, list_elem_of_In, elem_of_seqZ. lia. }
  pose proof (Hall _ demo_directory_check) as Hdir. pose proof (Hall _ demo_table_check) as Htab.
  cbv beta in Hdir, Htab. split.
  - split_and!; [done|done|done|by right].
  - split_and!; [done|done|done|by right].
  - by split_and!.
  - done.
  - intros j Hj. destruct (demo_word _ _ (Hdir j Hj)) as (d & Hd & Hf & Ha). exists d.
    split; [exact Hd|]. split; [exact Hf|]. rewrite Ha. unfold table_before. by destruct (j =? 768).
  - intros i Hi. destruct (demo_word _ _ (Htab i Hi)) as (d & Hd & Hf & _).
    exact (ex_intro _ d (conj Hd Hf)).
Qed.

Lemma demo_image_ok : image_ok demo_image ∧ image_bounds demo_image.
Proof. by split_and!. Qed.

(** [Kernel::prepare_kernel_address_space], run on the page tables that the boot code
    leaves, returns.  Afterwards the processor finds each page of the 32 MB kernel region
    at the frame with its physical address, global, with the supervisor bit clear, and
    writable unless it holds code or constants; the page of frame 0 and everything outside the region is not
    mapped. *)
Theorem kernel_address_space_prepared (new_table : st ConcretePageFrameAllocator.t → Z) img k pt :
  boot_tables (hardware k) pt (page_tables_ img) → image_ok img →
  ∃ k', prepare_kernel_address_space new_table img k = Ok k' ∧
    page_frame_allocator_ k' = page_frame_allocator_ k ∧ heap_ k' = heap_ k ∧
    ∀ la, fits 32 la →
      UnmanagedMap.mapping (F := I386PageTableEntry.flag) (cr3 (hardware k')) (hardware k') la
      = kernel_mapping img la.
Proof.
  intros Hb Himg. destruct (prepare_kernel_address_space_ok new_table img k pt Hb Himg) as (h & E & Has).
  eexists. split; [exact E|]. split_and!; [done..|]. apply Has.
Qed.

Lemma kernel_address_space_prepared_witness :
  ∃ k', prepare_kernel_address_space (λ _, 0) demo_image demo_kernel = Ok k' ∧
    let found := UnmanagedMap.mapping (F := I386PageTableEntry.flag) (cr3 (hardware k')) (hardware k') in
    found 0xC0101123 = Some (0x101000, (false, true, false)) ∧
    found 0xC0140000 = Some (0x140000, (true, true, false)) ∧ found 0xC0000010 = None.
Proof.
  destruct (kernel_address_space_prepared (λ _, 0) demo_image demo_kernel 0xC0151000 demo_tables)
    as (k' & E & _ & _ & Hm); [apply demo_image_ok|].
  exists k'. split; [exact E|]. cbv zeta. 
  split_and!; (etrans; [apply Hm; by split|vm_compute; reflexivity]).
Defined.

(** The boot information of [BootMemory], and a machine with less memory. *)
Notation available_low := (mk_mmap 20 0 0xA0000 1).
Notation reserved := (mk_mmap 20 0xF0000 0x10000 2).
Notation demo_module := (mk_module 0x300000 0x301800).

Lemma demo_boot_information n :
  0 < n < 0x10000000 → n `mod` PAGE_SIZE = 0 →
  boot_information 32 I386Resolver.KERNEL_VIRTUAL_START_ADDR BootMemoryProperties.demo_info
    (<[0xC0008030 := mk_mmap 20 0x100000 n 1]> BootMemoryProperties.demo_map)
    BootMemoryProperties.demo_mods available_low
    [reserved; mk_mmap 20 0x100000 n 1] [demo_module].
Proof.
  intros Hn Hal. split.
  - done.
  - cbv zeta. cbn [chain size]. split_and!; try done.
    by exists (mk_mmap 0 0 0 0).
  - done.
  - repeat apply Forall_cons_2; try apply Forall_nil_2; [done|done|].
    intros _. cbn [base_addr_low length_low]. split_and!; [done|lia|done|lia].
  - cbn [modules_at]. by split_and!.
  - done.
  - repeat constructor; done.
Qed.

Lemma demo_usable n f :
  0 <= n →
  free_after I386Resolver.KERNEL_VIRTUAL_START_ADDR (g_kernel_image_end demo_image)
    [available_low; reserved; mk_mmap 20 0x100000 (n * PAGE_SIZE) 1] [demo_module] f ↔
  0x200 <= f < 0x100 + n ∧ f < 8192 ∧ ¬ 0x300 <= f <= 0x301.
Proof.
  intros Hn. unfold free_after. cbn [fmap list_fmap concat]. unfold frames_of. cbn [available type].
  change (available available_low) with true. change (available reserved) with false.
  change (available (mk_mmap 20 0x100000 (n * PAGE_SIZE) 1)) with true. cbn [base_addr_low length_low].
  rewrite Z.div_mul by done. change (0xA0000 / PAGE_SIZE) with 160.
  change I386Resolver.KERNEL_VIRTUAL_START_ADDR with 0xC0000000.
  change (g_kernel_image_end demo_image) with 0xC0200000.
  change Configuration.KERNEL_MEMORY_REGION_SIZE with 0x2000000. unfold pages_from, PAGE_SIZE. split.
  - intros [(x & Hx & <- & Hb & He) Hm].
    rewrite app_nil_r, app_nil_l in Hx. rewrite elem_of_app, !list_elem_of_fmap in Hx.
    assert (¬ 0x300000 <= 4096 * (x / 4096) < 0x301800) as Hm'.
    { intros Hm'. apply Hm. exists demo_module. by split; [apply list_elem_of_here|]. }
    destruct Hx as [(i & -> & Hi%elem_of_seqZ)|(i & -> & Hi%elem_of_seqZ)];
      Z.to_euclidean_division_equations; lia.
  - intros (Hf & He & Hm). split.
    + exists (0x100000 + (f - 0x100) * 4096). split_and!.
      * rewrite app_nil_r, app_nil_l, elem_of_app, !list_elem_of_fmap. right.
        exists (f - 0x100). split; [done|]. apply elem_of_seqZ. lia.
      * Z.to_euclidean_division_equations; lia.
      * lia.
      * lia.
    + intros (m & [->|[]%not_elem_of_nil]%elem_of_cons & H). cbn in H. lia.
Qed.



(** When no run of 2048 usable frames is left, the frame allocator answers 0 and
    [Kernel::initialize_kernel_malloc] does not look at the answer: it clears the heap at
    the start of the kernel region, whose first page is not mapped, and the constructor
    dies on a page fault. *)
Theorem kernel_heap_allocation_unchecked (new_table : st ConcretePageFrameAllocator.t → Z) img fuel info
    mb mods e es ms k pt :
  boot_tables (hardware k) pt (page_tables_ img) → image_ok img → image_bounds img →
  boot_information 32 I386Resolver.KERNEL_VIRTUAL_START_ADDR info mb mods e es ms →
  (length (concat (frames_of <$> e :: es)) <= fuel)%nat →
  (∀ f0, ¬ room_at (free_after I386Resolver.KERNEL_VIRTUAL_START_ADDR (g_kernel_image_end img) (e :: es) ms) f0) →
  boot_memory new_table img fuel info mb mods k = Fault InvalidAccess.
Proof.
  intros Hb Himg Hbounds Hinfo Hfuel Hno.
  destruct (boot_frames_ok new_table img fuel info mb mods e es ms k pt Hb Himg Hbounds Hinfo Hfuel)
    as (h & a & -> & Has & Ha & Hfree).
  by rewrite (initialize_kernel_malloc_faults img (with_state k (mkst h a)) _ _ _ Has Ha Hfree Hno).
Qed.

Lemma kernel_heap_allocation_unchecked_witness :
  boot_memory (λ _, 0) demo_image 4000 BootMemoryProperties.demo_info
    (<[0xC0008030 := mk_mmap 20 0x100000 (0x400 * PAGE_SIZE) 1]> BootMemoryProperties.demo_map)
    BootMemoryProperties.demo_mods demo_kernel = Fault InvalidAccess.
Proof.
  apply (kernel_heap_allocation_unchecked (λ _, 0) demo_image 4000 BootMemoryProperties.demo_info
    (<[0xC0008030 := mk_mmap 20 0x100000 (0x400 * PAGE_SIZE) 1]> BootMemoryProperties.demo_map)
    BootMemoryProperties.demo_mods available_low
    [reserved; mk_mmap 20 0x100000 (0x400 * PAGE_SIZE) 1] [demo_module] demo_kernel 0xC0151000).
  - exact demo_tables.
  - apply demo_image_ok.
  - apply demo_image_ok.
  - by apply demo_boot_information.
  - vm_compute. lia.
  - intros f (_ & _ & H). change heap_frames with 2048 in H.
    pose proof (H f ltac:(lia)) as H1%demo_usable; [|done].
    pose proof (H (f + 2047) ltac:(lia)) as H2%demo_usable; [|done]. lia.
Defined.

End KernelBootProperties.
