(* ===== verification/Locks.v ===== *)
(** * Locks: Mutex, SpinLock, the pthread mutexes and LockGuard

    Models src/Common/include/common/mutex.hpp, spin_lock.hpp, src/Common/src/spin_lock.c,
    src/Common/include/common/lock_guard.hpp and the mutexes of
    src/Common/src/libcxxrt/pthread.cpp.

    A thread is the sequence of its synchronisation actions.  The loops of the lock
    operations are run iteration by iteration, and any thread may be switched away from
    between two atomic actions: [step] interleaves the threads in every possible way, as
    preemption does.  [rr_step] is the schedule without preemption, in which a thread runs
    until it calls [yield]: the round robin that the scheduler implements ([yield_rotates]).

    The theorems: mutual exclusion under every interleaving; no deadlock when locks nest in a
    fixed order; a [Mutex] lets each waiting thread through after every other thread has
    passed at most once; and the wait loop of [spin_lock] can miss the release of the lock. *)
From S2P Require Import Prelude Storage Vector Scheduler.

Module Locks.

(** The classes of locks; a lock is known by its address. *)
Inductive lock_kind := MutexLock | SpinLockLock | PthreadLock.

(** [Retry] is the inner loop of [spin_lock], [Work] stands for code between the calls. *)
Inductive action :=
| Lock (l : Z)
| Retry (l : Z)
| Unlock (l : Z)
| Yield
| Work.

#[global] Instance action_eq_dec : EqDecision action.
Proof. solve_decision. Defined.

(** The locks whose flag is set. *)
Implicit Types (taken : gset Z) (l : Z) (k p q : list action).

(** [lock_.exchange(true)]: the flag before. *)
Definition exchange taken l : bool * gset Z := (bool_decide (l ∈ taken), {[l]} ∪ taken).

(** [cmpxchg(lock, 0, 1)]: whether it stored. *)
Definition cmpxchg taken l : bool * gset Z :=
  if bool_decide (l ∈ taken) then (false, taken) else (true, {[l]} ∪ taken).

(** What an action does in a thread that continues with [k]: the flags, what is left of the
    thread, and whether it called [yield]. *)
Definition outcome : Type := gset Z * list action * bool.

Definition mutex_lock taken l k : outcome :=
  let '(old, taken) := exchange taken l in
  if old then (taken, Lock l :: k, true) else (taken, k, false).

Definition mutex_unlock taken l k : outcome := (taken ∖ {[l]}, k, true).

Definition spin_lock taken l k : outcome :=
  let '(stored, taken) := cmpxchg taken l in
  if stored then (taken, k, false) else (taken, Retry l :: k, false).

(** [while ( *lock == 0) pause();] *)
Definition spin_wait taken l k : outcome :=
  if bool_decide (l ∈ taken) then (taken, Lock l :: k, false) else (taken, Retry l :: k, false).

Definition spin_unlock taken l k : outcome := (taken ∖ {[l]}, k, false).

Definition pthread_mutex_lock taken l k : outcome :=
  let '(stored, taken) := cmpxchg taken l in
  if stored then (taken, k, false) else (taken, Lock l :: k, true).

Definition pthread_mutex_unlock taken l k : result outcome :=
  assert! bool_decide (l ∈ taken);
  mret (taken ∖ {[l]}, k, false).

(** ** LockGuard

    The base class of the tuple is constructed first, so the last lock is taken first; the
    destructors release the locks in the opposite order. *)
Fixpoint guard_construct (locks : list Z) : list action :=
  match locks with
  | [] => []
  | lock :: locks => guard_construct locks ++ [Lock lock]
  end.

Fixpoint guard_destroy (locks : list Z) : list action :=
  match locks with
  | [] => []
  | lock :: locks => Unlock lock :: guard_destroy locks
  end.

(** [{ LockGuard guard{locks...}; body }] *)
Definition guard_scope (locks : list Z) (body : list action) : list action :=
  guard_construct locks ++ body ++ guard_destroy locks.

Section Machine.
Context (kind : Z → lock_kind).

Definition run_action taken (a : action) k : result outcome :=
  match a with
  | Lock l =>
      match kind l with
      | MutexLock => mret (mutex_lock taken l k)
      | SpinLockLock => mret (spin_lock taken l k)
      | PthreadLock => mret (pthread_mutex_lock taken l k)
      end
  | Retry l => mret (spin_wait taken l k)
  | Unlock l =>
      match kind l with
      | MutexLock => mret (mutex_unlock taken l k)
      | SpinLockLock => mret (spin_unlock taken l k)
      | PthreadLock => pthread_mutex_unlock taken l k
      end
  | Yield => mret (taken, k, true)
  | Work => mret (taken, k, false)
  end.

(** ** Every interleaving *)
Record state := mk { taken : gset Z; threads : list (list action) }.

Inductive step : state → state → Prop :=
| step_thread s i a k t p y :
    threads s !! i = Some (a :: k) → run_action (taken s) a k = Ok (t, p, y) →
    step s (mk t (<[i := p]> (threads s))).

(** ** Round robin: the thread at the head of the queue has the processor

    The threads have names.  One that has nothing left to do vanishes. *)
Record rr_state := mkrr { rr_taken : gset Z; queue : list (Z * list action) }.

Definition rr_step (s : rr_state) : result rr_state :=
  match queue s with
  | [] => mret s
  | (_, []) :: waiting => mret (mkrr (rr_taken s) waiting)
  | (id, a :: k) :: waiting =>
      '(t, p, yields) ← run_action (rr_taken s) a k;
      mret (mkrr t (if yields : bool then waiting ++ [(id, p)] else (id, p) :: waiting))
  end.

Fixpoint rr_run (n : nat) (s : rr_state) : result rr_state :=
  match n with
  | O => mret s
  | S n => s ← rr_step s; rr_run n s
  end.

(** ** Who holds a lock

    A thread holds [l] as often as it has unlocks of [l] to come that have no lock before
    them. *)
Definition effect l (a : action) : Z :=
  match a with
  | Lock l' | Retry l' => if l =? l' then -1 else 0
  | Unlock l' => if l =? l' then 1 else 0
  | Yield | Work => 0
  end.

Fixpoint held l p : Z :=
  match p with
  | [] => 0
  | a :: p => effect l a + held l p
  end.

(** Each unlock has its lock, and for a whole thread each lock its unlock. *)
Fixpoint bracketed p : Prop :=
  match p with
  | [] => True
  | a :: k => (∀ l, 0 <= held l (a :: k)) ∧ bracketed k
  end.

Definition closed p : Prop := bracketed p ∧ ∀ l, held l p = 0.

Lemma held_app l p q : held l (p ++ q) = held l p + held l q.
Proof. induction p as [|a p IH]; cbn [held app]; lia. Qed.

Lemma bracketed_nonneg p l : bracketed p → 0 <= held l p.
Proof. destruct p as [|a p]; cbn [bracketed]; [done|]. intros [H _]. apply H. Qed.

Lemma bracketed_app p q : bracketed p → bracketed q → bracketed (p ++ q).
Proof.
  induction p as [|a p IH]; [done|]. cbn [bracketed app]. intros [H1 H2] Hq. split; [|by auto].
  intros l. change (a :: p ++ q) with ((a :: p) ++ q). rewrite held_app.
  specialize (H1 l). pose proof (bracketed_nonneg q l Hq). lia.
Qed.

Lemma closed_app p q : closed p → closed q → closed (p ++ q).
Proof.
  intros [H1 H2] [H3 H4]. split; [by apply bracketed_app|]. intros l. by rewrite held_app, H2, H4.
Qed.

(** *** LockGuard brackets its scope *)
Definition count l (locks : list Z) : Z := held l (guard_destroy locks).

Lemma destroy_bracketed locks : bracketed (guard_destroy locks).
Proof.
  induction locks as [|l' locks IH]; [done|]. cbn [guard_destroy bracketed]. split; [|done].
  intros l. cbn [held effect]. pose proof (bracketed_nonneg _ l IH). case_Z; lia.
Qed.

Lemma construct_held l locks : held l (guard_construct locks) = - count l locks.
Proof.
  unfold count. induction locks as [|l' locks IH]; [done|].
  cbn [guard_construct guard_destroy]. rewrite held_app. cbn [held effect]. case_Z; lia.
Qed.

Lemma construct_bracketed locks q :
  bracketed q → (∀ l, count l locks <= held l q) → bracketed (guard_construct locks ++ q).
Proof.
  revert q. induction locks as [|l' locks IH]; intros q Hq Hle; [done|]. cbn [guard_construct].
  rewrite <-app_assoc. apply IH.
  - split; [|done]. intros l. specialize (Hle l). unfold count in Hle.
    cbn [guard_destroy held effect app] in *.
    pose proof (bracketed_nonneg _ l (destroy_bracketed locks)). destruct (l =? l'); lia.
  - intros l. specialize (Hle l). unfold count in *. cbn [guard_destroy held effect app] in *.
    destruct (l =? l'); lia.
Qed.

Lemma scope_closed locks body : closed body → closed (guard_scope locks body).
Proof.
  intros [Hb Hz]. unfold guard_scope. split.
  - apply construct_bracketed; [apply bracketed_app; [done|apply destroy_bracketed]|].
    intros l. rewrite held_app, Hz. unfold count. lia.
  - intros l. rewrite !held_app, construct_held, Hz. unfold count. lia.
Qed.

(** ** Sums over the threads *)
Fixpoint sum_held l (ps : list (list action)) : Z :=
  match ps with
  | [] => 0
  | p :: ps => held l p + sum_held l ps
  end.

Lemma sum_held_insert l ps i p p' :
  ps !! i = Some p → sum_held l (<[i := p']> ps) = sum_held l ps - held l p + held l p'.
Proof.
  revert i. induction ps as [|q ps IH]; intros [|i] Hi; try done.
  - injection Hi as ->. cbn. lia.
  - change (<[S i := p']> (q :: ps)) with (q :: <[i := p']> ps). cbn [sum_held]. rewrite (IH i Hi). lia.
Qed.

Lemma sum_held_app l ps qs : sum_held l (ps ++ qs) = sum_held l ps + sum_held l qs.
Proof. induction ps as [|p ps IH]; cbn; lia. Qed.

Lemma sum_held_nonneg l ps : Forall bracketed ps → 0 <= sum_held l ps.
Proof.
  induction 1 as [|p ps Hp _ IH]; cbn; [done|]. pose proof (bracketed_nonneg p l Hp). lia.
Qed.

Lemma sum_held_ge l ps i p : Forall bracketed ps → ps !! i = Some p → held l p <= sum_held l ps.
Proof.
  intros Hps Hi. pose proof (sum_held_insert l ps i p [] Hi) as E. cbn [held] in E.
  assert (Forall bracketed (<[i := []]> ps)) as H by (by apply Forall_insert).
  pose proof (sum_held_nonneg l _ H). lia.
Qed.

Lemma sum_held_pos l ps : 0 < sum_held l ps → ∃ i p, ps !! i = Some p ∧ 0 < held l p.
Proof.
  induction ps as [|p ps IH]; cbn; [lia|]. intros H.
  destruct (Z.lt_ge_cases 0 (held l p)); [by exists 0%nat, p|].
  destruct IH as (i & q & ? & ?); [lia|]. by exists (S i), q.
Qed.

(** ** The invariant: a flag is set exactly when one thread holds the lock *)
Definition flag taken l : Z := if bool_decide (l ∈ taken) then 1 else 0.

Definition inv (t : gset Z) (ps : list (list action)) : Prop :=
  Forall bracketed ps ∧ ∀ l, sum_held l ps = flag t l.

Lemma flag_take taken l l' : l' ∉ taken → flag ({[l']} ∪ taken) l = flag taken l + (if l =? l' then 1 else 0).
Proof.
  intros Hn. unfold flag. destruct (Z.eqb_spec l l') as [->|Hne].
  - rewrite bool_decide_true by set_solver. by rewrite bool_decide_false.
  - rewrite Z.add_0_r. by rewrite (bool_decide_ext _ (l ∈ taken)) by set_solver.
Qed.

Lemma flag_release taken l l' :
  l' ∈ taken → flag (taken ∖ {[l']}) l = flag taken l - (if l =? l' then 1 else 0).
Proof.
  intros Hn. unfold flag. destruct (Z.eqb_spec l l') as [->|Hne].
  - rewrite bool_decide_false by set_solver. by rewrite bool_decide_true.
  - rewrite Z.sub_0_r. by rewrite (bool_decide_ext _ (l ∈ taken)) by set_solver.
Qed.

(** What an action does to the holders, whatever the class of the lock; a thread about to
    unlock finds the flag set. *)
Lemma run_action_ok taken a k :
  (∀ l, a = Unlock l → l ∈ taken) →
  ∃ t p y, run_action taken a k = Ok (t, p, y) ∧
    (∀ l, held l p - held l (a :: k) = flag t l - flag taken l) ∧
    (bracketed (a :: k) → bracketed p) ∧
    (p = k ∨ ∃ l, (a = Lock l ∨ a = Retry l) ∧ (p = Lock l :: k ∨ p = Retry l :: k) ∧ t = taken).
Proof.
  intros Hun.
  assert (∀ l', l' ∉ taken → ∀ l, held l k - held l (Lock l' :: k) = flag ({[l']} ∪ taken) l - flag taken l) as Htake.
  { intros l' Hn l. rewrite flag_take by done. cbn [held effect]. destruct (l =? l'); lia. }
  assert (∀ l', l' ∈ taken → ∀ l, held l k - held l (Unlock l' :: k) = flag (taken ∖ {[l']}) l - flag taken l) as Hrel.
  { intros l' Hn l. rewrite flag_release by done. cbn [held effect]. destruct (l =? l'); lia. }
  destruct a as [l|l|l| |]; cbn [run_action].
  - unfold mutex_lock, spin_lock, pthread_mutex_lock, exchange, cmpxchg.
    destruct (decide (l ∈ taken)) as [Hin|Hn];
      [rewrite (bool_decide_true (l ∈ taken)) by done|rewrite (bool_decide_false (l ∈ taken)) by done].
    + assert ({[l]} ∪ taken = taken) as Eu by set_solver. rewrite ?Eu.
      destruct (kind l); do 3 eexists; (split; [done|]); (split; [intros; cbn [held effect]; lia|]);
        (split; [done|]); right; exists l; naive_solver.
    + destruct (kind l); do 3 eexists; (split; [done|]); (split; [by apply Htake|]);
        (split; [intros [_ ?]; done|by left]).
  - unfold spin_wait. destruct (bool_decide _); do 3 eexists; (split; [done|]);
      (split; [intros; cbn [held effect]; lia|]); (split; [done|]); right; exists l; naive_solver.
  - pose proof (Hun l eq_refl) as Hin. unfold mutex_unlock, spin_unlock, pthread_mutex_unlock.
    rewrite (bool_decide_true (l ∈ taken)) by done. cbn [assert_then].
    destruct (kind l); do 3 eexists; (split; [done|]); (split; [by apply Hrel|]);
        (split; [intros [_ ?]; done|by left]).
  - do 3 eexists. split; [done|]. split; [intros; cbn [held effect]; lia|]. split; [intros [_ ?]; done|by left].
  - do 3 eexists. split; [done|]. split; [intros; cbn [held effect]; lia|]. split; [intros [_ ?]; done|by left].
Qed.

Lemma inv_holder t ps i p l : inv t ps → ps !! i = Some p → 0 < held l p → l ∈ t.
Proof.
  intros [Hb Hs] Hi Hp. pose proof (sum_held_ge l ps i p Hb Hi) as Hge. rewrite Hs in Hge.
  unfold flag in Hge. destruct (bool_decide _) eqn:E; [by apply bool_decide_eq_true in E|lia].
Qed.

Lemma inv_unlock t ps i a k : inv t ps → ps !! i = Some (a :: k) → ∀ l, a = Unlock l → l ∈ t.
Proof.
  intros Hinv Hi l ->. apply (inv_holder t ps i (Unlock l :: k) l Hinv Hi).
  destruct Hinv as [Hb _]. pose proof (Forall_lookup_1 _ _ _ _ Hb Hi) as [_ Hk].
  pose proof (bracketed_nonneg k l Hk). cbn [held effect]. rewrite Z.eqb_refl. lia.
Qed.

Lemma inv_run t ps i a k t' p y :
  inv t ps → ps !! i = Some (a :: k) → run_action t a k = Ok (t', p, y) → inv t' (<[i := p]> ps).
Proof.
  intros Hinv Hi E. destruct (run_action_ok t a k (inv_unlock t ps i a k Hinv Hi))
    as (t1 & p1 & y1 & E1 & Hh & Hbr & _). rewrite E in E1. injection E1 as <- <- <-.
  destruct Hinv as [Hb Hs]. split.
  - apply Forall_insert; [done|]. apply Hbr. exact (Forall_lookup_1 _ _ _ _ Hb Hi).
  - intros l. rewrite (sum_held_insert l ps i (a :: k) p Hi), Hs. specialize (Hh l). lia.
Qed.

Lemma inv_step s s' : inv (taken s) (threads s) → step s s' → inv (taken s') (threads s').
Proof. intros Hinv Hst. destruct Hst as [s i a k t p y Hi E]. cbn. by eapply inv_run. Qed.

Lemma inv_init ps : Forall closed ps → inv ∅ ps.
Proof.
  intros H. split; [eapply Forall_impl; [exact H|]; by intros ? [? _]|]. intros l. unfold flag.
  rewrite bool_decide_false by set_solver.
  induction H as [|p ps [_ Hp] _ IH]; cbn; [done|]. by rewrite Hp, IH.
Qed.

Lemma inv_exclusive t ps l i j p q :
  inv t ps → i ≠ j → ps !! i = Some p → ps !! j = Some q → 0 < held l p → ¬ 0 < held l q.
Proof.
  intros [Hb Hs] Hij Hi Hj Hp Hq. pose proof (sum_held_insert l ps i p [] Hi) as E.
  assert (Forall bracketed (<[i := []]> ps)) as Hb' by (by apply Forall_insert).
  assert (<[i := []]> ps !! j = Some q) as Hj' by (by rewrite list_lookup_insert_ne).
  pose proof (sum_held_ge l _ j q Hb' Hj') as Hge. cbn [held] in E. rewrite Hs in E.
  unfold flag in E. destruct (bool_decide _); lia.
Qed.

(** ** Who passes a waiting thread *)

Lemma inv_perm t ps qs : ps ≡ₚ qs → inv t ps → inv t qs.
Proof.
  intros Hp [Hb Hs]. split; [by rewrite <-Hp|]. intros l. rewrite <-Hs. clear Hb Hs.
  induction Hp; cbn [sum_held]; lia.
Qed.

Lemma rr_step_keeps_inv s :
  inv (rr_taken s) (queue s).*2 → ∃ s', rr_step s = Ok s' ∧ inv (rr_taken s') (queue s').*2.
Proof.
  destruct s as [t [|[id [|a k]] w]]; intros Hinv; unfold rr_step; cbn [queue rr_taken] in *.
  - by eexists.
  - eexists. split; [done|]. destruct Hinv as [Hb Hs]. apply Forall_cons in Hb as [_ Hb].
    split; [done|]. intros l. by rewrite <-Hs.
  - cbn [fmap list_fmap snd] in *.
    destruct (run_action_ok t a k (inv_unlock t _ 0 a k Hinv eq_refl)) as (t' & p & y & E & _).
    pose proof (inv_run t _ 0 a k t' p y Hinv eq_refl E) as Hinv'.
    rewrite E. cbn [mbind result_bind mret result_ret]. eexists. split; [done|].
    destruct y; cbn [queue rr_taken]; [|done].
    rewrite fmap_app. refine (inv_perm _ _ _ _ Hinv'). cbn. by rewrite Permutation_cons_append.
Qed.

(** Whether the thread on the processor takes [l] now. *)
Definition takes l (s : rr_state) : bool :=
  match queue s with
  | (_, Lock l' :: _) :: _ => (l' =? l) && negb (bool_decide (l ∈ rr_taken s))
  | _ => false
  end.

Definition on_cpu (s : rr_state) (w : Z) : bool :=
  match queue s with
  | (id, _) :: _ => id =? w
  | [] => false
  end.

(** How often the others take [l] in [n] steps, or until [w] takes it. *)
Fixpoint passes l (w : Z) (n : nat) (s : rr_state) : result nat :=
  match n with
  | O => mret 0%nat
  | S n =>
      if takes l s && on_cpu s w then mret 0%nat
      else
        s' ← rr_step s;
        c ← passes l w n s';
        mret (Nat.b2n (takes l s) + c)%nat
  end.

(** [c] threads can pass one that waits for [l] behind [before] and in front of [after]:
    those before it, from the head if the lock is free and else from behind the thread that
    holds it. *)
Definition ahead l taken (before after : list (Z * list action)) (c : nat) : Prop :=
  l ∉ taken ∧ c = length before ∨
  l ∈ taken ∧
  ((∃ b1 h b2, before = b1 ++ h :: b2 ∧ 0 < held l h.2 ∧ c = length b2) ∨
   (∃ a1 h a2, after = a1 ++ h :: a2 ∧ 0 < held l h.2 ∧ c = (length a2 + length before)%nat)).

Definition candidates l (w : Z) k (s : rr_state) (c : nat) : Prop :=
  ∃ before after, queue s = before ++ (w, Lock l :: k) :: after ∧ ahead l (rr_taken s) before after c.

Lemma candidates_bound l w k s c : candidates l w k s c → (c < length (queue s))%nat.
Proof.
  intros (b & a & -> & Hc). rewrite length_app. cbn.
  destruct Hc as [[_ ->]|[_ [(b1 & h & b2 & -> & _ & ->)|(a1 & h & a2 & -> & _ & ->)]]];
    rewrite ?length_app; cbn; lia.
Qed.

Lemma candidates_exist l w k s :
  inv (rr_taken s) (queue s).*2 → (w, Lock l :: k) ∈ queue s → held l (Lock l :: k) <= 0 →
  ∃ c, candidates l w k s c.
Proof.
  intros [Hb Hs] (before & after & Eq)%list_elem_of_split Hw.
  destruct (decide (l ∈ rr_taken s)) as [Hin|Hn].
  2: { exists (length before), before, after. split; [done|by left]. }
  destruct (sum_held_pos l (queue s).*2) as (i & p & Hi & Hp).
  { rewrite Hs. unfold flag. by rewrite bool_decide_true. }
  apply list_elem_of_lookup_2, list_elem_of_fmap in Hi as (h & -> & Hh).
  rewrite Eq, elem_of_app, elem_of_cons in Hh. destruct Hh as [Hh|[->|Hh]].
  - apply list_elem_of_split in Hh as (b1 & b2 & ->). exists (length b2), (b1 ++ h :: b2), after.
    split; [done|]. right. split; [done|]. left. by exists b1, h, b2.
  - cbn [snd] in Hp. lia.
  - apply list_elem_of_split in Hh as (a1 & a2 & ->). exists (length a2 + length before)%nat, before, (a1 ++ h :: a2).
    split; [done|]. right. split; [done|]. right. by exists a1, h, a2.
Qed.

(** How an action changes the flags. *)
Lemma run_action_flags taken a k t p y :
  run_action taken a k = Ok (t, p, y) →
  (t = taken ∧ ∀ l, a = Lock l → l ∈ taken) ∨
  (∃ l, a = Lock l ∧ l ∉ taken ∧ t = {[l]} ∪ taken ∧ p = k ∧ y = false) ∨
  (∃ l, a = Unlock l ∧ t = taken ∖ {[l]} ∧ p = k ∧ (kind l = MutexLock → y = true)).
Proof.
  intros E. destruct a as [l|l|l| |]; cbn [run_action] in E.
  - unfold mutex_lock, spin_lock, pthread_mutex_lock, exchange, cmpxchg in E.
    destruct (decide (l ∈ taken)) as [Hin|Hn].
    + rewrite (bool_decide_true (l ∈ taken)) in E by done. left.
      split; [|by intros ? [= <-]]. destruct (kind l); injection E as <- _ _; [set_solver|done..].
    + rewrite (bool_decide_false (l ∈ taken)) in E by done. right. left. exists l.
      destruct (kind l); by injection E as <- <- <-.
  - unfold spin_wait in E. left. split; [|done]. destruct (bool_decide _); by injection E as <- _ _.
  - right. right. exists l. destruct (kind l); [by injection E as <- <- <-..|].
    apply assert_ok in E as [_ E]. by injection E as <- <- <-.
  - left. by injection E as <- _ _.
  - left. by injection E as <- _ _.
Qed.

Lemma takes_cons l t id a k w :
  takes l (mkrr t ((id, a :: k) :: w)) = true ↔ a = Lock l ∧ l ∉ t.
Proof.
  unfold takes. cbn [queue rr_taken]. destruct a as [l'| | | |]; try (by split; [|intros [? _]]).
  rewrite andb_true_iff, Z.eqb_eq, negb_true_iff, bool_decide_eq_false. naive_solver.
Qed.

(** A thread that does not change the flag of [l] stays where it was, or goes to the end. *)
Lemma ahead_stays l t t' id p p' before after c :
  (l ∈ t ↔ l ∈ t') → held l p' = held l p →
  ahead l t ((id, p) :: before) after c → ahead l t' ((id, p') :: before) after c.
Proof.
  intros Ht Hp [[Hn ->]|[Hin [(b1 & h & b2 & E & Hh & ->)|Ha]]].
  - left. split; [by rewrite <-Ht|done].
  - right. split; [by apply Ht|]. left. destruct b1 as [|x b1]; injection E as <- ->.
    + exists [], (id, p'), b2. split; [done|]. split; [cbn [snd] in *; lia|done].
    + by exists ((id, p') :: b1), h, b2.
  - right. split; [by apply Ht|]. by right.
Qed.

Lemma ahead_rotates l t t' id p p' before after c :
  (l ∈ t ↔ l ∈ t') → held l p' = held l p →
  ahead l t ((id, p) :: before) after c →
  ∃ c', ahead l t' before (after ++ [(id, p')]) c' ∧ (c' <= c)%nat.
Proof.
  intros Ht Hp [[Hn ->]|[Hin [(b1 & h & b2 & E & Hh & ->)|(a1 & h & a2 & -> & Hh & ->)]]].
  - exists (length before). split; [left; split; [by rewrite <-Ht|done]|cbn; lia].
  - destruct b1 as [|x b1]; injection E as <- ->.
    + exists (length b2). split; [|done]. right. split; [by apply Ht|]. right.
      exists after, (id, p'), []. split; [done|]. split; [cbn [snd] in *; lia|done].
    + exists (length b2). split; [|done]. right. split; [by apply Ht|]. left. by exists b1, h, b2.
  - exists (length (a2 ++ [(id, p')]) + length before)%nat. split.
    + right. split; [by apply Ht|]. right. exists a1, h, (a2 ++ [(id, p')]). by rewrite <-app_assoc.
    + rewrite length_app. cbn. lia.
Qed.

(** When the thread at the head is the one that holds [l], those before it wait for it. *)
Lemma ahead_of_holder l t id p before x after c :
  inv t ((id, p) :: before ++ x :: after).*2 → 0 < held l p →
  ahead l t ((id, p) :: before) after c → c = length before.
Proof.
  intros Hinv Hp Ha.
  assert (∀ h, h ∈ before ++ x :: after → 0 < held l h.2 → False) as Hno.
  { intros h Hh Hpos. apply (list_elem_of_fmap_2 snd) in Hh. apply list_elem_of_lookup in Hh as [j Hj].
    exact (inv_exclusive t _ l 0 (S j) p h.2 Hinv ltac:(done) eq_refl Hj Hp Hpos). }
  destruct Ha as [[Hn _]|[_ [(b1 & h & b2 & E & Hh & ->)|(a1 & h & a2 & -> & Hh & ->)]]].
  - destruct Hn. exact (inv_holder t _ 0 p l Hinv eq_refl Hp).
  - destruct b1 as [|y b1]; injection E as E1 E2; [by subst|]. subst. destruct (Hno h); [set_solver|done].
  - destruct (Hno h); [set_solver|done].
Qed.

Lemma candidates_step l w kw t id a k before after c t' p y :
  kind l = MutexLock →
  inv t ((id, a :: k) :: before ++ (w, Lock l :: kw) :: after).*2 →
  ahead l t ((id, a :: k) :: before) after c → run_action t a k = Ok (t', p, y) →
  let rest := before ++ (w, Lock l :: kw) :: after in
  ∃ c', candidates l w kw (mkrr t' (if y : bool then rest ++ [(id, p)] else (id, p) :: rest)) c' ∧
        (Nat.b2n (takes l (mkrr t ((id, a :: k) :: rest))) + c' <= c)%nat.
Proof.
  intros Hk Hinv Ha E rest.
  destruct (run_action_ok t a k (inv_unlock t _ 0 a k Hinv eq_refl)) as (t1 & p1 & y1 & E1 & Hh & _).
  rewrite E in E1. injection E1 as <- <- <-. specialize (Hh l).
  pose proof Hinv as [[[Hb Hbk] _]%Forall_cons _]. specialize (Hb l).
  assert (∀ b', b' = takes l (mkrr t ((id, a :: k) :: rest)) → ¬ (a = Lock l ∧ l ∉ t) → b' = false) as Hnot.
  { intros b' -> Hn. apply not_true_iff_false. by rewrite takes_cons. }
  destruct (run_action_flags t a k t' p y E) as [[-> Hl]|[(l' & -> & Hn & -> & -> & ->)|(l' & -> & -> & -> & Hy)]].
  - rewrite (Hnot _ eq_refl) by naive_solver. cbn [Nat.b2n Nat.add].
    assert (held l p = held l (a :: k)) as Ep by lia. destruct y.
    + destruct (ahead_rotates l t t id (a :: k) p before after c ltac:(done) Ep Ha) as (c' & Hc' & Hle).
      exists c'. split; [|done]. exists before, (after ++ [(id, p)]). unfold rest. by rewrite <-app_assoc.
    + exists c. split; [|done]. exists ((id, p) :: before), after. split; [done|]. by eapply ahead_stays.
  - destruct (decide (l' = l)) as [->|Hne].
    + rewrite (proj2 (takes_cons l t id (Lock l) k rest)) by done. cbn [Nat.b2n].
      destruct Ha as [[_ ->]|[? _]]; [|done]. exists (length before). split; [|cbn; lia].
      exists ((id, k) :: before), after. split; [done|]. right. split; [cbn; set_solver|]. left.
      exists [], (id, k), before. split; [done|]. split; [|done].
      cbn [held effect snd] in *. rewrite Z.eqb_refl in Hb. lia.
    + rewrite (Hnot _ eq_refl) by naive_solver. exists c. split; [|done].
      exists ((id, k) :: before), after. split; [done|].
      apply (ahead_stays l t _ id (Lock l' :: k)); [cbn; set_solver| |done].
      cbn [held effect]. case_Z; [congruence|lia].
  - rewrite (Hnot _ eq_refl) by naive_solver. destruct (decide (l' = l)) as [->|Hne].
    + rewrite Hy by done. pose proof (bracketed_nonneg k l Hbk) as Hk0.
      assert (0 < held l (Unlock l :: k)) as Hpos by (cbn [held effect]; rewrite Z.eqb_refl; lia).
      rewrite (ahead_of_holder _ _ _ _ _ _ _ _ Hinv Hpos Ha). exists (length before). split; [|done].
      exists before, (after ++ [(id, k)]). unfold rest. split; [by rewrite <-app_assoc|].
      left. split; [cbn; set_solver|done].
    + assert (held l k = held l (Unlock l' :: k)) as Ep by (cbn [held effect]; case_Z; [congruence|lia]).
      assert (l ∈ t ↔ l ∈ t ∖ {[l']}) as Ht by set_solver. destruct y.
      * destruct (ahead_rotates l t _ id _ k before after c Ht Ep Ha) as (c' & Hc' & Hle).
        exists c'. split; [|done]. exists before, (after ++ [(id, k)]). unfold rest. by rewrite <-app_assoc.
      * exists c. split; [|done]. exists ((id, k) :: before), after. split; [done|]. by eapply ahead_stays.
Qed.

Lemma candidates_next l w k s c :
  kind l = MutexLock → inv (rr_taken s) (queue s).*2 → candidates l w k s c →
  takes l s && on_cpu s w = true ∨
  ∃ s' c', rr_step s = Ok s' ∧ inv (rr_taken s') (queue s').*2 ∧ candidates l w k s' c' ∧
           (Nat.b2n (takes l s) + c' <= c)%nat.
Proof.
  intros Hk Hinv (before & after & Eq & Ha).
  destruct (rr_step_keeps_inv s Hinv) as (s' & E & Hinv'). destruct s as [t q]. cbn [queue rr_taken] in *. subst q.
  destruct before as [|[id [|a k1]] before]; cbn [app] in *.
  - destruct Ha as [[Hn _]|[Hin [([] & ? & ? & ? & _)|(a1 & h & a2 & -> & Hh & ->)]]]; [|done..|].
    + left. rewrite (proj2 (takes_cons l t w (Lock l) k after)) by done. cbn. by rewrite Z.eqb_refl.
    + right. exists s', (length a2). split; [done|]. split; [done|].
      assert (takes l (mkrr t ((w, Lock l :: k) :: a1 ++ h :: a2)) = false) as ->.
      { apply not_true_iff_false. rewrite takes_cons. by intros [_ ?]. }
      split; [|cbn; lia]. unfold rr_step in E. cbn [queue rr_taken run_action] in E. rewrite Hk in E.
      unfold mutex_lock, exchange in E. rewrite bool_decide_true in E by done.
      injection E as <-. exists (a1 ++ h :: a2), []. split; [done|]. right. split; [cbn; set_solver|].
      left. by exists a1, h, a2.
  - right. injection E as <-. exists (mkrr t (before ++ (w, Lock l :: k) :: after)).
    destruct Ha as [[Hn ->]|[Hin [(b1 & h & b2 & E & Hh & ->)|(a1 & h & a2 & -> & Hh & ->)]]].
    + exists (length before). split_and!; [done|done| |cbn; lia]. exists before, after. split; [done|by left].
    + destruct b1 as [|x b1]; injection E as <- ->; [cbn in Hh; lia|]. exists (length b2).
      split_and!; [done|done| |cbn; lia]. exists (b1 ++ h :: b2), after. split; [done|]. right.
      split; [done|]. left. by exists b1, h, b2.
    + exists (length a2 + length before)%nat. split_and!; [done|done| |cbn; lia].
      exists before, (a1 ++ h :: a2). split; [done|]. right. split; [done|]. right. by exists a1, h, a2.
  - right. unfold rr_step in E. cbn [queue rr_taken] in E.
    apply bind_ok in E as ([[t' p] y] & E & Es'). injection Es' as <-.
    destruct (candidates_step l w k t id a k1 before after c t' p y Hk Hinv Ha E) as (c' & Hc' & Hle).
    eexists _, c'. unfold rr_step. cbn [queue rr_taken]. by rewrite E.
Qed.

Lemma passes_bounded l w k n s c :
  kind l = MutexLock → inv (rr_taken s) (queue s).*2 → candidates l w k s c →
  ∃ m, passes l w n s = Ok m ∧ (m <= c)%nat.
Proof.
  intros Hk. revert s c. induction n as [|n IH]; intros s c Hinv Hc; cbn [passes].
  { exists 0%nat. split; [done|lia]. }
  destruct (candidates_next l w k s c Hk Hinv Hc) as [->|(s' & c' & E & Hinv' & Hc' & Hle)].
  { exists 0%nat. split; [done|lia]. }
  destruct (takes l s && on_cpu s w); [exists 0%nat; split; [done|lia]|].
  rewrite E. cbn [mbind result_bind]. destruct (IH s' c' Hinv' Hc') as (m & -> & Hm).
  cbn [mbind result_bind]. eexists. split; [done|lia].
Qed.

(** A run that empties the queue serves every thread that waits. *)
Lemma waiter_served l w k n s c t :
  kind l = MutexLock → inv (rr_taken s) (queue s).*2 → candidates l w k s c →
  rr_run n s = Ok (mkrr t []) →
  ∃ m s', rr_run m s = Ok s' ∧ takes l s' = true ∧ on_cpu s' w = true.
Proof.
  intros Hk. revert s c. induction n as [|n IH]; intros s c Hinv Hc; cbn [rr_run].
  { intros [= ->]. apply candidates_bound in Hc. cbn in Hc. lia. }
  destruct (candidates_next l w k s c Hk Hinv Hc) as [H|(s' & c' & Es & Hinv' & Hc' & _)].
  { intros _. exists 0%nat, s. apply andb_true_iff in H. done. }
  rewrite Es. cbn [mbind result_bind]. intros Hr. destruct (IH s' c' Hinv' Hc' Hr) as (m & s2 & E & H).
  exists (S m), s2. split; [|done]. cbn [rr_run]. by rewrite Es.
Qed.

(** ** Locks that nest in a fixed order *)
Section Order.
Context (rank : Z → Z).

(** A lock is taken only while all those that the thread holds come before it. *)
Fixpoint ordered p : Prop :=
  match p with
  | [] => True
  | a :: k =>
      match a with
      | Lock l => ∀ l', 0 < held l' (a :: k) → rank l' < rank l
      | Retry _ => False
      | _ => True
      end ∧ ordered k
  end.

Definition runnable taken p : bool :=
  match p with
  | Lock l :: _ => negb (bool_decide (l ∈ taken))
  | _ => true
  end.

Lemma rank_bound (ps : list (list action)) :
  ∃ M, ∀ i l k, ps !! i = Some (Lock l :: k) → rank l <= M.
Proof.
  induction ps as [|p ps [M IH]]; [by exists 0|].
  exists (match p with Lock l :: _ => Z.max (rank l) M | _ => M end).
  intros [|i] l k Hi; [injection Hi as ->; lia|]. specialize (IH i l k Hi).
  destruct p as [|[] ?]; lia.
Qed.

(** Some thread can go on: otherwise each waits for one that waits for a later lock. *)
Lemma progress t ps :
  inv t ps → Forall ordered ps → ps ≠ [] → ∃ i p, ps !! i = Some p ∧ runnable t p = true.
Proof.
  intros Hinv Hord Hne. destruct (decide (Exists (λ p, runnable t p = true) ps)) as [H|H].
  { apply Exists_exists in H as (p & Hp & Hr). apply list_elem_of_lookup in Hp as [i Hi]. by exists i, p. }
  exfalso.
  assert (∀ i p, ps !! i = Some p → ∃ l k, p = Lock l :: k ∧ l ∈ t) as Hall.
  { intros i p Hi. assert (runnable t p = false) as Hr.
    { apply not_true_iff_false. intros Hr. apply H, Exists_exists. exists p.
      split; [by eapply list_elem_of_lookup_2|done]. }
    destruct p as [|[l| | | |] k]; try done. exists l, k. split; [done|].
    apply negb_false_iff in Hr. by apply bool_decide_eq_true in Hr. }
  assert (∀ i l k, ps !! i = Some (Lock l :: k) → ∃ j l' k', ps !! j = Some (Lock l' :: k') ∧ rank l < rank l')
    as Hnext.
  { intros i l k Hi. destruct (Hall i _ Hi) as (l0 & k0 & [= <- <-] & Hin).
    destruct (sum_held_pos l ps) as (j & p & Hj & Hp).
    { destruct Hinv as [_ ->]. unfold flag. by rewrite bool_decide_true. }
    destruct (Hall j p Hj) as (l' & k' & -> & _). exists j, l', k'. split; [done|].
    pose proof (Forall_lookup_1 _ _ _ _ Hord Hj) as [Ho _]. by apply Ho. }
  destruct ps as [|p0 ps0] eqn:Eps; [done|]. rewrite <-Eps in *.
  destruct (Hall 0%nat p0) as (l0 & k0 & -> & _); [by rewrite Eps|].
  assert (∀ n : nat, ∃ i l k, ps !! i = Some (Lock l :: k) ∧ rank l0 + Z.of_nat n <= rank l) as Hup.
  { induction n as [|n (i & l & k & Hi & Hr)]; [exists 0%nat, l0, k0; rewrite Eps; split; [done|lia]|].
    destruct (Hnext i l k Hi) as (j & l' & k' & Hj & Hlt). exists j, l', k'. split; [done|lia]. }
  destruct (rank_bound ps) as [M HM]. destruct (Hup (Z.to_nat (M - rank l0 + 1))) as (i & l & k & Hi & Hr).
  specialize (HM i l k Hi). lia.
Qed.

(** ** Round robin completes every thread *)
Context (no_spin : ∀ l, kind l ≠ SpinLockLock).

Definition rr_inv (s : rr_state) : Prop := inv (rr_taken s) (queue s).*2 ∧ Forall ordered (queue s).*2.

Lemma ordered_run taken a k t p y : ordered (a :: k) → run_action taken a k = Ok (t, p, y) → ordered p.
Proof.
  intros Ho E. assert (p = k ∨ p = a :: k) as [-> | ->]; [|by destruct Ho|done].
  destruct a as [l|l|l| |]; cbn [run_action] in E; [|by destruct Ho| | |].
  - pose proof (no_spin l). unfold mutex_lock, pthread_mutex_lock, exchange, cmpxchg in E.
    destruct (kind l); try done; destruct (bool_decide (l ∈ taken)); injection E as <- <- <-; eauto.
  - destruct (kind l); [injection E as <- <- <-; by left..|].
    apply assert_ok in E as [_ E]. injection E as <- <- <-. by left.
  - injection E as <- <- <-. by left.
  - injection E as <- <- <-. by left.
Qed.

Lemma run_blocked taken l k :
  l ∈ taken → run_action taken (Lock l) k = Ok (taken, Lock l :: k, true).
Proof.
  intros Hin. assert ({[l]} ∪ taken = taken) as Eu by set_solver. cbn [run_action].
  pose proof (no_spin l). unfold mutex_lock, pthread_mutex_lock, exchange, cmpxchg.
  rewrite (bool_decide_true (l ∈ taken)) by done. rewrite Eu. by destruct (kind l).
Qed.

(** What an iteration of a thread that can go on leaves of it. *)
Lemma run_runnable taken a k t p y :
  ordered (a :: k) → runnable taken (a :: k) = true → run_action taken a k = Ok (t, p, y) → p = k.
Proof.
  intros Ho Hr E. destruct a as [l|l|l| |]; cbn [run_action runnable] in *; [|by destruct Ho| | |].
  - apply negb_true_iff in Hr. unfold mutex_lock, pthread_mutex_lock, exchange, cmpxchg in E.
    pose proof (no_spin l). rewrite Hr in E. destruct (kind l); try done; by injection E as <- <- <-.
  - destruct (kind l); [by injection E as <- <- <-..|]. apply assert_ok in E as [_ E].
    by injection E as <- <- <-.
  - by injection E as <- <- <-.
  - by injection E as <- <- <-.
Qed.

Lemma rr_step_inv s : rr_inv s → ∃ s', rr_step s = Ok s' ∧ rr_inv s'.
Proof.
  intros [Hinv Hord]. destruct (rr_step_keeps_inv s Hinv) as (s' & E & Hinv'). exists s'.
  split; [done|]. split; [done|]. unfold rr_step in E.
  destruct s as [t [|[id [|a k]] w]]; cbn [queue rr_taken] in *.
  - by injection E as <-.
  - injection E as <-. by apply Forall_cons in Hord as [_ ?].
  - apply bind_ok in E as ([[t' p] y] & E & [= <-]). cbn [queue].
    apply Forall_cons in Hord as [Ho Hord]. pose proof (ordered_run _ _ _ _ _ _ Ho E) as Hp.
    destruct y; [rewrite fmap_app; apply Forall_app|]; by repeat constructor.
Qed.

Fixpoint total (q : list (Z * list action)) : nat :=
  match q with
  | [] => 0
  | (_, p) :: q => S (length p + total q)
  end.

Lemma total_app x y : total (x ++ y) = (total x + total y)%nat.
Proof. induction x as [|[id p] x IH]; cbn; lia. Qed.

(** A step either shortens what is left to do or moves a waiting thread to the end. *)
Lemma rr_step_progress s id p w :
  rr_inv s → queue s = (id, p) :: w →
  ∃ s', rr_step s = Ok s' ∧ rr_inv s' ∧
    (runnable (rr_taken s) p = true ∧ (total (queue s') < total (queue s))%nat ∨
     runnable (rr_taken s) p = false ∧ s' = mkrr (rr_taken s) (w ++ [(id, p)])).
Proof.
  intros Hs Eq. destruct (rr_step_inv s Hs) as (s' & E & Hs'). exists s'. split; [done|]. split; [done|].
  destruct Hs as [_ Hord]. rewrite Eq in Hord. apply Forall_cons in Hord as [Ho _]. cbn [snd] in Ho.
  unfold rr_step in E. rewrite Eq in E. destruct p as [|a k].
  - injection E as <-. left. rewrite Eq. cbn. split; [done|lia].
  - apply bind_ok in E as ([[t p'] y] & E & [= <-]).
    destruct (runnable (rr_taken s) (a :: k)) eqn:Hr; [left|right]; (split; [done|]).
    + pose proof (run_runnable _ _ _ _ _ _ Ho Hr E) as ->. rewrite Eq. cbn [queue total length].
      destruct y; [rewrite total_app|]; cbn [total]; lia.
    + destruct a as [l| | | |]; try done. apply negb_false_iff, bool_decide_eq_true in Hr.
      rewrite run_blocked in E by done. by injection E as <- <- <-.
Qed.

Lemma rr_completes s : rr_inv s → ∃ n t, rr_run n s = Ok (mkrr t []).
Proof.
  remember (total (queue s)) as T eqn:ET. revert s ET.
  induction T as [T IH] using lt_wf_ind. intros s -> Hs.
  destruct (decide (queue s = [])) as [E0|Hne].
  { exists 0%nat, (rr_taken s). destruct s as [t q]. cbn in *. by subst. }
  destruct (progress (rr_taken s) (queue s).*2) as (i & p & Hi & Hr);
    [apply Hs|apply Hs|by destruct (queue s)|].
  revert s IH Hs Hne Hi Hr. induction i as [|i IHi]; intros s IH Hs Hne Hi Hr;
    (destruct (queue s) as [|[id p0] w] eqn:Eq; [done|]); clear Hne;
    destruct (rr_step_progress s id p0 w Hs Eq) as (s' & E & Hs' & [[Hr0 Hlt]|[Hr0 ->]]).
  1, 3: rewrite Eq in Hlt; destruct (IH _ Hlt s' eq_refl Hs') as (n & t & En); exists (S n), t; cbn [rr_run]; by rewrite E.
  - cbn in Hi. injection Hi as ->. congruence.
  - destruct (IHi (mkrr (rr_taken s) (w ++ [(id, p0)]))) as (n & t & En); cbn [queue rr_taken].
    + intros T HT. apply IH. rewrite total_app in HT. cbn in *. lia.
    + done.
    + by destruct w.
    + cbn in Hi. rewrite fmap_app. by apply lookup_app_l_Some.
    + done.
    + exists (S n), t. cbn [rr_run]. by rewrite E.
Qed.

Lemma rr_run_inv n s s' : rr_inv s → rr_run n s = Ok s' → rr_inv s'.
Proof.
  revert s. induction n as [|n IH]; intros s Hs; cbn [rr_run]; [by intros [= <-]|].
  destruct (rr_step_inv s Hs) as (s1 & -> & H1). by apply IH.
Qed.
End Order.
End Machine.

(** The yield of the scheduler's specification is the rotation of the queue here: the
    current thread goes to the end. *)
Definition line (a : Scheduler.queues) : list (Z * Z) :=
  option_list (Scheduler.current a) ++ Scheduler.ready a ++ Scheduler.spent a.

Lemma yield_rotates a c rest :
  line a = c :: rest → Scheduler.current a = Some c → line (Scheduler.spec_yield a) = rest ++ [c].
Proof.
  destruct a as [ready spent cur]. unfold line, Scheduler.spec_yield. cbn. intros E ->. cbn in *.
  injection E as <-. destruct ready as [|n ready]; [destruct spent as [|n spent]|]; cbn;
    by rewrite ?app_nil_r, <-?app_assoc.
Qed.

(** ** Properties *)

(** C15: Under every interleaving of threads that lock and unlock mutexes, spin locks and
    pthread mutexes in scopes, no lock is ever held by two threads at once, the flag of a
    lock is set exactly while a thread holds it, and the assertion in
    [pthread_mutex_unlock] never fails. *)
Theorem mutual_exclusion (kind : Z → lock_kind) ps s :
  Forall closed ps → rtc (step kind) (mk ∅ ps) s →
  (∀ l i j p q, i ≠ j → threads s !! i = Some p → threads s !! j = Some q →
     0 < held l p → ¬ 0 < held l q) ∧
  (∀ l, l ∈ taken s ↔ ∃ i p, threads s !! i = Some p ∧ 0 < held l p) ∧
  (∀ i a k, threads s !! i = Some (a :: k) → ∃ o, run_action kind (taken s) a k = Ok o).
Proof.
  intros Hps Hr. assert (inv (taken s) (threads s)) as Hinv.
  { remember (mk ∅ ps) as s0 eqn:E0. assert (inv (taken s0) (threads s0)) as H0.
    { subst. by apply inv_init. }
    clear E0. induction Hr as [|s0 s1 s2 Hst _ IH]; [done|]. apply IH. by eapply inv_step. }
  split_and!.
  - intros. by eapply inv_exclusive.
  - intros l. split.
    + intros Hin. apply sum_held_pos. destruct Hinv as [_ ->]. unfold flag. by rewrite bool_decide_true.
    + intros (i & p & Hi & Hp). by eapply inv_holder.
  - intros i a k Hi. destruct (run_action_ok kind (taken s) a k (inv_unlock _ _ i a k Hinv Hi))
      as (t & p & y & E & _). by exists (t, p, y).
Qed.

Lemma mutual_exclusion_witness :
  ∃ s, let kind := λ l, if l =? 1 then MutexLock else PthreadLock in
    rtc (step kind) (mk ∅ [guard_scope [1; 2] [Work]; guard_scope [1] [Work]]) s ∧
    threads s = [[Work; Unlock 1; Unlock 2]; guard_scope [1] [Work]] ∧ 1 ∈ taken s ∧
    ¬ 0 < held 1 (guard_scope [1] [Work]).
Proof.
  set (kind := λ l, if l =? 1 then MutexLock else PthreadLock).
  set (ps := [guard_scope [1; 2] [Work]; guard_scope [1] [Work]]).
  assert (rtc (step kind) (mk ∅ ps)
            (mk ({[1]} ∪ ({[2]} ∪ ∅)) [[Work; Unlock 1; Unlock 2]; guard_scope [1] [Work]])) as Hr.
  { eapply rtc_l; [apply (step_thread kind (mk ∅ ps) 0 (Lock 2) [Lock 1; Work; Unlock 1; Unlock 2]
                            ({[2]} ∪ ∅) [Lock 1; Work; Unlock 1; Unlock 2] false); reflexivity|].
    apply rtc_once. exact (step_thread kind (mk ({[2]} ∪ ∅) [[Lock 1; Work; Unlock 1; Unlock 2]; _])
      0 (Lock 1) [Work; Unlock 1; Unlock 2] _ _ _ eq_refl eq_refl). }
  eexists. split; [exact Hr|]. split; [done|].
  assert (Forall closed ps) as Hps.
  { repeat apply Forall_cons_2; try apply Forall_nil_2; apply scope_closed; by repeat split. }
  destruct (mutual_exclusion kind ps _ Hps Hr) as (Hx & Ht & _). split.
  - apply Ht. by exists 0%nat, [Work; Unlock 1; Unlock 2].
  - by apply (Hx 1 0%nat 1%nat [Work; Unlock 1; Unlock 2]).
Defined.

(** [spin_lock] waits in the wrong case: between two attempts it stays in its inner loop
    while the lock is free.  If the lock is released between the attempt that failed and the
    test of the inner loop, and no other thread takes it again, the thread hangs forever
    before a lock that nobody holds. *)
Theorem spin_lock_misses_release (kind : Z → lock_kind) l :
  kind l = SpinLockLock →
  ∃ s, rtc (step kind) (mk ∅ [guard_scope [l] []; guard_scope [l] []]) s ∧
    l ∉ taken s ∧ threads s = [[]; [Retry l; Unlock l]] ∧ ∀ s', rtc (step kind) s s' → s' = s.
Proof.
  intros Hk. set (t1 := {[l]} ∪ ∅ : gset Z). assert (l ∈ t1) as Hin by set_solver.
  exists (mk (t1 ∖ {[l]}) [[]; [Retry l; Unlock l]]). split_and!.
  - eapply rtc_l; [apply (step_thread kind _ 0 (Lock l) [Unlock l] t1 [Unlock l] false); [done|]|].
    { cbn [run_action taken]. rewrite Hk. unfold spin_lock, cmpxchg. by rewrite bool_decide_false. }
    eapply rtc_l; [apply (step_thread kind _ 1 (Lock l) [Unlock l] t1 [Retry l; Unlock l] false); [done|]|].
    { cbn [run_action taken]. rewrite Hk. unfold spin_lock, cmpxchg. by rewrite bool_decide_true. }
    apply rtc_once. apply (step_thread kind (mk t1 [[Unlock l]; [Retry l; Unlock l]]) 0 (Unlock l) []
      (t1 ∖ {[l]}) [] false); [done|]. cbn [run_action]. by rewrite Hk.
  - cbn. set_solver.
  - done.
  - intros s' Hr. remember (mk (t1 ∖ {[l]}) _) as s eqn:Es. induction Hr as [|s s1 s2 Hst _ IH]; [done|].
    enough (s1 = s) as Heq by (rewrite Heq in *; by apply IH). clear IH. subst s.
    inversion Hst as [? i a k t p y Hi E]; subst. cbn in Hi.
    destruct i as [|[|i]]; cbn in Hi; [done| |done]. injection Hi as <- <-. cbn [run_action taken] in E.
    unfold spin_wait in E. rewrite bool_decide_false in E by set_solver. by injection E as <- <- <-.
Qed.

(** Two guards over the same mutexes in opposite orders can block each other for good. *)
Theorem opposite_guards_deadlock (kind : Z → lock_kind) :
  kind 1 = MutexLock → kind 2 = MutexLock →
  ∃ s, rtc (step kind) (mk ∅ [guard_scope [1; 2] []; guard_scope [2; 1] []]) s ∧
    threads s = [[Lock 1; Unlock 1; Unlock 2]; [Lock 2; Unlock 2; Unlock 1]] ∧
    ∀ s', rtc (step kind) s s' → s' = s.
Proof.
  intros H1 H2. set (t := {[1]} ∪ ({[2]} ∪ ∅) : gset Z).
  exists (mk t [[Lock 1; Unlock 1; Unlock 2]; [Lock 2; Unlock 2; Unlock 1]]). split_and!.
  - eapply rtc_l; [apply (step_thread kind _ 0 (Lock 2) [Lock 1; Unlock 1; Unlock 2] ({[2]} ∪ ∅)
                            [Lock 1; Unlock 1; Unlock 2] false); [done|by cbn; rewrite H2]|].
    apply rtc_once. apply (step_thread kind (mk _ [_; _]) 1 (Lock 1) [Lock 2; Unlock 2; Unlock 1] t
      [Lock 2; Unlock 2; Unlock 1] false); [done|by cbn; rewrite H1].
  - done.
  - intros s' Hr. remember (mk t _) as s eqn:Es. induction Hr as [|s s1 s2 Hst _ IH]; [done|].
    enough (s1 = s) as Heq by (rewrite Heq in *; by apply IH). clear IH. subst s.
    inversion Hst as [? i a k t0 p y Hi E]; subst. cbn in Hi.
    destruct i as [|[|i]]; cbn in Hi; [| |done]; injection Hi as <- <-; cbn [run_action taken] in E.
    + rewrite H1 in E. unfold mutex_lock, exchange in E. rewrite bool_decide_true in E by set_solver.
      injection E as <- <- <-. cbn. f_equal; set_solver.
    + rewrite H2 in E. unfold mutex_lock, exchange in E. rewrite bool_decide_true in E by set_solver.
      injection E as <- <- <-. cbn. f_equal; set_solver.
Qed.


End Locks.

(** ** The pthread stubs for the C++ runtime *)
Module Pthread.
Import Storage.

Section Methods.
Context (W : Z).

(** [ThreadSpecificDataStore]: a value is a pointer, null at first.  The operations run
    under a mutex of their own. *)
Record store := mkstore { next_key_ : Z; values_ : Vector.t Z }.

Definition init : store := mkstore 0 Vector.init.

Definition allocate_next_key (x : store) : result (Z * store) :=
  values ← Vector.push_back (values_ x) 0;
  mret (next_key_ x, mkstore (uwrap W (next_key_ x + 1)) values).

Definition get (x : store) (key : Z) : result Z := Vector.at_ (values_ x) (swrap 32 key).

Definition set (x : store) (key value : Z) : result store :=
  values ← Vector.at_assign (values_ x) (swrap 32 key) value;
  mret (mkstore (next_key_ x) values).

(** A key of the interface is an [int]. *)
Definition pthread_key_create (x : store) : result (Z * store) :=
  '(key, x) ← allocate_next_key x; mret (swrap 32 key, x).

Definition pthread_getspecific (x : store) (key : Z) : result Z := get x (uwrap W key).

Definition pthread_setspecific (x : store) (key data : Z) : result store := set x (uwrap W key) data.

(** [pthread_once]: [init] acts on a state of its own. *)
Definition pthread_once {S : Type} (control : Z) (init : S → result S) (s : S) : result (Z * S) :=
  if control =? 0 then s ← init s; mret (1, s) else mret (control, s).

(** *** Abstractly: a list of values *)
Definition store_rep (x : store) (vs : list Z) : Prop :=
  next_key_ x = Z.of_nat (length vs) ∧ ∃ cap, Vector.rep (values_ x) (vs, cap).

Inductive op := Create | Get (key : Z) | Set_ (key data : Z).

(** A thread runs an operation and gets a key, a value or nothing. *)
Definition run_op (o : op) (x : store) : result (Z * store) :=
  match o with
  | Create => pthread_key_create x
  | Get key => v ← pthread_getspecific x key; mret (v, x)
  | Set_ key data => x ← pthread_setspecific x key data; mret (0, x)
  end.

Definition valid (vs : list Z) (key : Z) : bool := (0 <=? key) && (key <? Z.of_nat (length vs)).

Definition spec_op (o : op) (vs : list Z) : result (Z * list Z) :=
  match o with
  | Create => mret (Z.of_nat (length vs), vs ++ [0])
  | Get key => if valid vs key then v ← deref InvalidAccess (nthZ vs key); mret (v, vs)
               else Fault AssertionFailed
  | Set_ key data => if valid vs key then mret (0, <[Z.to_nat key := data]> vs)
                     else Fault AssertionFailed
  end.

Context (HW : W = 32 ∨ W = 64).

Lemma key_conversion key : - 2 ^ 31 <= key < 2 ^ 31 → swrap 32 (uwrap W key) = key.
Proof.
  intros Hk. unfold swrap, uwrap. rewrite <-(swrap_small 32 key) at 2 by (cbn; lia). unfold swrap.
  destruct HW as [-> | ->].
  - cbn. rewrite Z.add_mod_idemp_l by done. done.
  - cbn. f_equal.
    rewrite <-(Z.add_mod_idemp_l (key `mod` 2 ^ 64)), <-(Z.add_mod_idemp_l key) by done.
    rewrite <-Znumtheory.Zmod_div_mod; [done|done|done|]. by exists (2 ^ 32).
Qed.

Definition key_ok (o : op) : Prop :=
  match o with
  | Create => True
  | Get key | Set_ key _ => - 2 ^ 31 <= key < 2 ^ 31
  end.

Lemma store_op_refines o x vs :
  key_ok o → Z.of_nat (length vs) < 2 ^ 30 → store_rep x vs →
  refines store_rep (spec_op o vs) (run_op o x).
Proof.
  intros Hk Hn [Hnext [cap Hrep]]. destruct o as [|key|key data]; cbn [run_op spec_op key_ok] in *.
  - unfold pthread_key_create, allocate_next_key.
    destruct (Vector.vec_push_back_ok _ _ _ 0 Hrep Hn) as (v & cap' & -> & Hv).
    cbn [mbind result_bind mret result_ret refines]. rewrite Hnext, swrap_small by (cbn; lia).
    eexists. split; [done|]. split; [|by exists cap']. cbn. rewrite length_app. cbn.
    rewrite uwrap_small; [lia|]. unfold fits. destruct HW as [-> | ->]; lia.
  - unfold pthread_getspecific, get. rewrite key_conversion, (Vector.vec_at_ok _ vs cap) by done.
    fold (valid vs key). destruct (valid vs key); [|done]. cbn [mbind result_bind].
    destruct (nthZ vs key); [|done]. cbn. eexists. split; [done|]. by split; [|exists cap].
  - unfold pthread_setspecific, set. rewrite key_conversion by done.
    destruct (valid vs key) eqn:Hv; unfold valid in Hv.
    + apply andb_true_iff in Hv as [?%Z.leb_le ?%Z.ltb_lt].
      destruct (Vector.vec_at_assign_ok _ vs cap key data Hrep) as (v & -> & Hr); [lia|].
      cbn. eexists. split; [done|]. split; [cbn; by rewrite length_insert|by exists cap].
    + destruct Hrep as (Hc & _). cbn in Hc. unfold Vector.at_assign. by rewrite Hc, Hv.
Qed.

(** However many threads take part, the store is one list of values: a key names one cell,
    which every thread reads and writes.  A key that was never created stops the kernel. *)
Theorem specific_data_is_one_list os :
  Forall key_ok os → Z.of_nat (length os) < 2 ^ 30 →
  refines store_rep (run_all spec_op os []) (run_all run_op os init).
Proof.
  intros Hk Hl. assert (store_rep init []) as Hi by (split; [done|]; exists 0; apply Vector.vec_rep_init).
  assert (Z.of_nat (length (A := Z) []) + Z.of_nat (length os) < 2 ^ 30) as Hlen by (cbn; lia).
  revert Hi Hlen. generalize init. generalize (nil (A := Z)). clear Hl.
  induction Hk as [|o os Ho _ IH]; intros vs x Hrep Hlen; cbn [run_all length] in *; [by exists x|].
  pose proof (store_op_refines o x vs Ho ltac:(lia) Hrep) as H. unfold refines in H.
  destruct (spec_op o vs) as [[r vs']|f] eqn:E; [|by rewrite H]. destruct H as (x' & -> & Hrep').
  cbn [mbind result_bind].
  assert (length vs' <= S (length vs))%nat as Hvs.
  { destruct o; cbn in E; [injection E as _ <-; rewrite length_app; cbn; lia| |];
      destruct (valid vs _); try done; [destruct (nthZ vs _); [|done]|];
      injection E as _ <-; rewrite ?length_insert; lia. }
  specialize (IH vs' x' Hrep' ltac:(lia)). unfold refines in IH.
  destruct (run_all spec_op os vs') as [[rs vs2]|f]; cbn; [|by rewrite IH].
  destruct IH as (x2 & -> & ?). by exists x2.
Qed.

(** The initialisation runs once. *)
Theorem pthread_once_runs_once {S : Type} (f : S → result S) (s s' : S) (c : Z) :
  pthread_once 0 f s = Ok (c, s') → f s = Ok s' ∧ ∀ s2, pthread_once c f s2 = Ok (c, s2).
Proof.
  unfold pthread_once. cbn [Z.eqb]. intros (s1 & E & [= <- <-])%bind_ok. done.
Qed.
End Methods.
End Pthread.
