(* ===== verification/Symbolicator.v ===== *)
(** * Symbolicator: the names of addresses in the kernel

    Models [Symbolicator] (src/Kernel/include/symbolicator.hpp, src/symbolicator.cpp) and
    the factories that fill it from the section headers which the boot loader passes on
    (generic_symbolicator_factory.hpp, symbolicator_factory_elf32.hpp, _elf64.hpp).

    The factories read structures in memory as the ELF parsers do (Elf.v); a registered
    name is a copy on the heap that the symbol owns, represented by its characters.  The
    demangler of the C++ runtime is a parameter, and so is the address of the array that
    [new] returns for the copy of the section headers. *)
From S2P Require Import Prelude Storage Vector Strings Paging Elf.
Import Storage Strings Elf Mmu.

Module Symbolicator.

Record Symbol := mksymbol { address : Z; name : list Z }.

#[global] Instance symbol_eq_dec : EqDecision Symbol.
Proof. solve_decision. Defined.

(** [registered_symbols_] *)
Definition t : Type := Vector.t Symbol.

Definition init : t := Vector.init.

Section Lookup.
Context (demangle_gnu3 : list Z → option (list Z)).
Implicit Types (s : t) (ip : Z) (best : option Symbol).

Definition register_symbol s (symbol : Symbol) : result t := Vector.push_back s symbol.

Definition demangle (possibly_mangled : list Z) : option (list Z) :=
  match possibly_mangled with
  | 95 :: 90 :: _ => demangle_gnu3 possibly_mangled
  | _ => Some possibly_mangled
  end.

Definition better ip (symbol : Symbol) best : bool :=
  (address symbol <=? ip) &&
  match best with None => true | Some b => address b <? address symbol end.

(** The loop of [symbolicate], [n] symbols from its end. *)
Fixpoint symbolicate_loop (n : nat) s (i : Z) ip best : result (option Symbol) :=
  match n with
  | O => mret best
  | S n =>
      symbol ← Vector.at_ s i;
      symbolicate_loop n s (i + 1) ip (if better ip symbol best then Some symbol else best)
  end.

Definition symbolicate s (instruction_pointer : Z) : result (option (list Z)) :=
  assert! 0 <? Vector.size s;
  best ← symbolicate_loop (Z.to_nat (Vector.size s)) s 0 instruction_pointer None;
  mret (best ← best; demangle (name best)).

(** *** The reference: the first of the symbols with the greatest address up to [ip] *)
Definition best_from ip best (symbols : list Symbol) : option Symbol :=
  fold_left (λ best symbol, if better ip symbol best then Some symbol else best) symbols best.

Definition is_best ip (symbols : list Symbol) (i : nat) (b : Symbol) : Prop :=
  symbols !! i = Some b ∧ address b <= ip ∧
  (∀ j x, symbols !! j = Some x → address x <= ip → address x <= address b) ∧
  (∀ j x, (j < i)%nat → symbols !! j = Some x → address x ≠ address b).

Lemma is_best_keep ip symbols i b x :
  is_best ip symbols i b → (address x <= ip → address x <= address b) → is_best ip (symbols ++ [x]) i b.
Proof.
  intros (Hi & Hb & Hmax & Hfirst) Hx. split_and!; [by apply lookup_app_l_Some|done| |].
  - intros j y Hj Hy. apply lookup_app_Some in Hj as [Hj|[_ Hj]]; [by apply (Hmax j)|].
    apply list_lookup_singleton_Some in Hj as [_ <-]. by apply Hx.
  - intros j y Hlj Hj. pose proof (lookup_lt_Some _ _ _ Hi). rewrite lookup_app_l in Hj by lia. eauto.
Qed.

Lemma is_best_new ip symbols x :
  address x <= ip → (∀ y, y ∈ symbols → address y <= ip → address y < address x) →
  is_best ip (symbols ++ [x]) (length symbols) x.
Proof.
  intros Hx Hlt. split_and!; [by rewrite lookup_app_r, Nat.sub_diag|done| |].
  - intros j y Hj Hy. apply lookup_app_Some in Hj as [Hj|[_ Hj]].
    + apply list_elem_of_lookup_2 in Hj. specialize (Hlt y Hj Hy). lia.
    + by apply list_lookup_singleton_Some in Hj as [_ <-].
  - intros j y Hlj Hj E. rewrite lookup_app_l in Hj by done. apply list_elem_of_lookup_2 in Hj.
    specialize (Hlt y Hj ltac:(lia)). lia.
Qed.

Lemma best_from_spec ip symbols :
  match best_from ip None symbols with
  | None => ∀ x, x ∈ symbols → ip < address x
  | Some b => ∃ i, is_best ip symbols i b
  end.
Proof.
  induction symbols as [|x symbols IH] using rev_ind; [by intros x ?%not_elem_of_nil|].
  unfold best_from in *. rewrite fold_left_app. cbn [fold_left].
  destruct (fold_left _ symbols None) as [b|]; unfold better.
  - destruct IH as (i & Hb).
    destruct (Z.leb_spec (address x) ip), (Z.ltb_spec (address b) (address x)); cbn [andb];
      try (exists i; apply is_best_keep; [done|lia]).
    exists (length symbols). apply is_best_new; [done|]. intros y Hy Hle.
    apply list_elem_of_lookup in Hy as [j Hj]. destruct Hb as (_ & _ & Hmax & _). specialize (Hmax j y Hj Hle). lia.
  - rewrite andb_true_r. destruct (Z.leb_spec (address x) ip).
    + exists (length symbols). apply is_best_new; [done|]. intros y Hy. specialize (IH y Hy). lia.
    + intros y [Hy|Hy]%elem_of_app; [by apply IH|]. by apply list_elem_of_singleton in Hy as ->.
Qed.

Lemma is_best_unique ip symbols i b i' b' :
  is_best ip symbols i b → is_best ip symbols i' b' → b = b'.
Proof.
  intros (Hi & Hb & Hmax & Hfirst) (Hi' & Hb' & Hmax' & Hfirst').
  pose proof (Hmax i' b' Hi' Hb'). pose proof (Hmax' i b Hi Hb).
  destruct (Nat.lt_trichotomy i i') as [Hlt|[<-|Hlt]]; [|congruence|].
  - destruct (Hfirst' i b Hlt Hi). lia.
  - destruct (Hfirst i' b' Hlt Hi'). lia.
Qed.

Lemma best_from_is_best ip symbols i b :
  is_best ip symbols i b → best_from ip None symbols = Some b.
Proof.
  intros Hb. pose proof (best_from_spec ip symbols) as H. destruct (best_from ip None symbols) as [b'|].
  - destruct H as [i' H]. f_equal. by apply (is_best_unique ip symbols i' b' i b).
  - destruct Hb as (Hi & Hle & _). specialize (H b (list_elem_of_lookup_2 _ _ _ Hi)). lia.
Qed.

Lemma symbolicate_loop_ok s symbols cap ip :
  Vector.rep s (symbols, cap) →
  ∀ n i best, (i + n = length symbols)%nat →
  symbolicate_loop n s (Z.of_nat i) ip best = Ok (best_from ip best (drop i symbols)).
Proof.
  intros Hrep n. induction n as [|n IH]; intros i best Hn; cbn [symbolicate_loop].
  { rewrite drop_ge by lia. done. }
  rewrite (Vector.vec_at_ok s symbols cap) by done. decide_Z. cbn [andb].
  destruct (lookup_lt_is_Some_2 symbols i) as [x Hx]; [lia|].
  unfold nthZ. decide_Z. rewrite Nat2Z.id, Hx. cbn [deref mbind result_bind].
  rewrite (drop_S _ _ _ Hx). replace (Z.of_nat i + 1) with (Z.of_nat (S i)) by lia.
  apply IH. lia.
Qed.

Lemma symbolicate_ok s symbols cap ip :
  Vector.rep s (symbols, cap) → symbols ≠ [] →
  symbolicate s ip = Ok (best ← best_from ip None symbols; demangle (name best)).
Proof.
  intros Hrep Hne. pose proof Hrep as (Hc & _). cbn in Hc. unfold symbolicate, Vector.size. rewrite Hc.
  assert (0 < length symbols)%nat by (destruct symbols; [done|cbn; lia]). decide_Z. cbn [assert_then].
  rewrite Nat2Z.id. by rewrite (symbolicate_loop_ok s symbols cap ip Hrep _ 0%nat) by lia.
Qed.
End Lookup.

(** ** The factories *)

(** What [multiboot_info] says about the section headers. *)
Record elf_section_header_table := mk_elf_sec { num : Z; size : Z; addr : Z }.

Definition SHT_SYMTAB : Z := 2.
Definition STT_FUNC : Z := 2.
Definition sh_addr := 3%nat.

Definition Elf32_Sym : layout := [4; 4; 4; 1; 1; 2].
Definition Elf64_Sym : layout := [4; 1; 1; 2; 8; 4].

(** The structures of a factory, with the places of the fields of a symbol. *)
Record factory := mk_factory {
  f_shdr : layout;
  f_sym : layout;
  sizeof_ElfSymbol : Z;
  st_name : nat;
  st_info : nat;
  st_value : nat;
}.

(** The last structure is padded to the alignment of its 8-byte field. *)
Definition SymbolicatorFactoryElf32 : factory := mk_factory Elf32_Shdr Elf32_Sym 16 0 3 1.
Definition SymbolicatorFactoryElf64 : factory := mk_factory Elf64_Shdr Elf64_Sym 24 0 1 4.

Section Factory.
Context (W K : Z) (fmt : factory) (shdr_table_ : Z).
Implicit Types (m : gmap Z Z) (v : t).

Definition p2l := convert_physical_to_logical_address W K.

Definition is_elf_symbol_a_function m (elf_symbol : Z) : result bool :=
  info ← read_field (f_sym fmt) m elf_symbol (st_info fmt);
  mret (Z.land info 0xF =? STT_FUNC).

(** A field of [shdr_table_[i]]. *)
Definition shdr_field m (i : Z) (k : nat) : result Z :=
  read_field (f_shdr fmt) m (shdr_table_ + i * sizeof (f_shdr fmt)) k.

(** The loop of [get_shdr_of_type]: without a match, the first header. *)
Fixpoint shdr_loop (n : nat) m (type i : Z) : result Z :=
  match n with
  | O => mret 0
  | S n => ty ← shdr_field m i sh_type; if ty =? type then mret i else shdr_loop n m type (i + 1)
  end.

Definition get_shdr_of_type m (count type : Z) : result Z := shdr_loop (Z.to_nat count) m type 0.

Definition get_string_table m (count : Z) : result Z :=
  i ← get_shdr_of_type m count SHT_STRTAB;
  a ← shdr_field m i sh_addr;
  mret (p2l a).

(** The characters that [strdup] copies. *)
Fixpoint read_chars (n : nat) m (a : Z) : result (list Z) :=
  match n with
  | O => mret []
  | S n => c ← Strings.load m a; cs ← read_chars n m (a + 1); mret (c :: cs)
  end.

Definition duplicate m (a : Z) : result (list Z) :=
  length ← strlen W m a; read_chars (Z.to_nat length) m a.

Definition register_elf_symbol m (count elf_symbol : Z) v : result t :=
  is_function ← is_elf_symbol_a_function m elf_symbol;
  assert! is_function;
  address ← read_field (f_sym fmt) m elf_symbol (st_value fmt);
  index ← read_field (f_sym fmt) m elf_symbol (st_name fmt);
  strings ← get_string_table m count;
  name ← duplicate m (strings + index);
  register_symbol v (mksymbol address name).

Fixpoint register_loop (n : nat) m (count elf_symbol : Z) v : result t :=
  match n with
  | O => mret v
  | S n =>
      is_function ← is_elf_symbol_a_function m elf_symbol;
      v ← (if is_function : bool then register_elf_symbol m count elf_symbol v else mret v);
      register_loop n m count (elf_symbol + sizeof_ElfSymbol fmt) v
  end.

Definition register_all_symbols m (count : Z) v : result t :=
  i ← get_shdr_of_type m count SHT_SYMTAB;
  a ← shdr_field m i sh_addr;
  size ← shdr_field m i sh_size;
  register_loop (Z.to_nat (size / sizeof_ElfSymbol fmt)) m count (p2l a) v.

Definition make_symbolicator m (elf_sec : elf_section_header_table) : result (t * gmap Z Z) :=
  assert! sizeof (f_shdr fmt) =? size elf_sec;
  m ← memmove W m shdr_table_ (p2l (addr elf_sec)) (uwrap 32 (num elf_sec * size elf_sec));
  v ← register_all_symbols m (num elf_sec) init;
  mret (v, m).

(** ** What lies in memory *)

(** A section header by its type, address and size; a symbol with its name. *)
Record section := mk_section { s_type : Z; s_addr : Z; s_size : Z }.
Record elf_symbol := mk_elf_symbol { es_name : Z; es_info : Z; es_value : Z; es_chars : list Z }.

Definition is_function (e : elf_symbol) : bool := Z.land (es_info e) 0xF =? STT_FUNC.

Definition section_at m (a : Z) (x : section) : Prop :=
  read_field (f_shdr fmt) m a sh_type = Ok (s_type x) ∧
  read_field (f_shdr fmt) m a sh_addr = Ok (s_addr x) ∧
  read_field (f_shdr fmt) m a sh_size = Ok (s_size x).

Definition sections_at m (base : Z) (xs : list section) : Prop :=
  ∀ i x, xs !! i = Some x → section_at m (base + Z.of_nat i * sizeof (f_shdr fmt)) x.

Fixpoint symbols_at m (base strings : Z) (es : list elf_symbol) : Prop :=
  match es with
  | [] => True
  | e :: es =>
      (read_field (f_sym fmt) m base (st_info fmt) = Ok (es_info e) ∧
       read_field (f_sym fmt) m base (st_value fmt) = Ok (es_value e) ∧
       read_field (f_sym fmt) m base (st_name fmt) = Ok (es_name e) ∧
       (is_function e = true →
        cstr m (strings + es_name e) (es_chars e) ∧ Z.of_nat (length (es_chars e)) < 2 ^ W)) ∧
      symbols_at m (base + sizeof_ElfSymbol fmt) strings es
  end.

(** The functions among the symbols. *)
Definition functions (es : list elf_symbol) : list Symbol :=
  omap (λ e, if is_function e then Some (mksymbol (es_value e) (es_chars e)) else None) es.

(** The first section of a type. *)
Definition first_section (type : Z) (xs : list section) (i : nat) (x : section) : Prop :=
  xs !! i = Some x ∧ s_type x = type ∧ ∀ j y, (j < i)%nat → xs !! j = Some y → s_type y ≠ type.

Lemma shdr_loop_ok m xs type i x :
  sections_at m shdr_table_ xs → first_section type xs i x →
  get_shdr_of_type m (Z.of_nat (length xs)) type = Ok (Z.of_nat i).
Proof.
  intros Hxs (Hi & Hty & Hbefore). unfold get_shdr_of_type. rewrite Nat2Z.id.
  pose proof (lookup_lt_Some _ _ _ Hi) as Hlt.
  enough (∀ n j, (j + n = length xs)%nat → (j <= i)%nat → shdr_loop n m type (Z.of_nat j) = Ok (Z.of_nat i))
    as H by (apply (H _ 0%nat); lia).
  induction n as [|n IH]; intros j Hj Hle; [lia|]. cbn [shdr_loop]. unfold shdr_field.
  destruct (lookup_lt_is_Some_2 xs j) as [y Hy]; [lia|]. destruct (Hxs j y Hy) as (Ht & _).
  rewrite Ht. cbn [mbind result_bind]. destruct (decide (j = i)) as [->|Hne].
  - assert (y = x) as -> by congruence. by rewrite (proj2 (Z.eqb_eq _ _) Hty).
  - rewrite (proj2 (Z.eqb_neq _ _)) by (apply (Hbefore j y); [lia|done]).
    replace (Z.of_nat j + 1) with (Z.of_nat (S j)) by lia. apply IH; lia.
Qed.

Lemma read_chars_ok m a cs : cstr m a cs → read_chars (length cs) m a = Ok cs.
Proof.
  revert a. induction cs as [|c cs IH]; intros a; cbn [cstr read_chars length]; [done|].
  intros (Ha & _ & Hc & Hcs). by rewrite (str_load m a c Ha Hc), (IH _ Hcs).
Qed.

Lemma duplicate_ok m a cs :
  cstr m a cs → Z.of_nat (length cs) < 2 ^ W → duplicate m a = Ok cs.
Proof.
  intros Hcs Hl. unfold duplicate, strlen. pose proof (cstr_positive _ _ _ Hcs).
  rewrite (proj2 (Z.eqb_neq a 0)) by lia.
  rewrite (strlen_loop_ok W m a cs 0) by (done || (pose proof (cstr_fuel _ _ _ Hcs); unfold fuel_for; lia)).
  cbn [mbind result_bind]. rewrite Z.add_0_l, Nat2Z.id. by apply read_chars_ok.
Qed.

Lemma register_loop_ok m count strings es :
  get_string_table m count = Ok strings →
  ∀ base v symbols cap, symbols_at m base strings es → Vector.rep v (symbols, cap) →
  Z.of_nat (length symbols + length es) < 2 ^ 30 →
  ∃ v' cap', register_loop (length es) m count base v = Ok v' ∧
             Vector.rep v' (symbols ++ functions es, cap').
Proof.
  intros Hstr. induction es as [|e es IH]; intros base v symbols cap Hes Hv Hn;
    cbn [register_loop length functions omap list_omap symbols_at] in *.
  { exists v, cap. by rewrite app_nil_r. }
  destruct Hes as [(Hinfo & Hval & Hname & Hf) Hes].
  unfold is_elf_symbol_a_function at 1. rewrite Hinfo. cbn [mbind result_bind]. fold (is_function e).
  destruct (is_function e) eqn:Ef; cbn [mbind result_bind].
  - destruct (Hf eq_refl) as [Hcs Hl]. unfold register_elf_symbol, is_elf_symbol_a_function.
    rewrite Hinfo. cbn [mbind result_bind]. fold (is_function e). rewrite Ef. cbn [assert_then].
    rewrite Hval, Hname, Hstr. cbn [mbind result_bind]. rewrite (duplicate_ok _ _ _ Hcs Hl).
    cbn [mbind result_bind]. unfold register_symbol.
    destruct (Vector.vec_push_back_ok v symbols cap (mksymbol (es_value e) (es_chars e)) Hv)
      as (v1 & cap1 & -> & Hv1); [lia|]. cbn [mbind result_bind].
    destruct (IH _ v1 _ cap1 Hes Hv1) as (v2 & cap2 & E & Hv2); [rewrite length_app; cbn; lia|].
    exists v2, cap2. split; [done|]. by rewrite <-app_assoc in Hv2.
  - apply (IH _ v symbols cap Hes Hv). lia.
Qed.

(** *** The same bytes at another place *)
Definition same_bytes m m' (a a' n : Z) : Prop :=
  ∀ i, 0 <= i < n → m' !! (a' + i) = m !! (a + i) ∧ 0 < a + i ∧ 0 < a' + i.

Lemma read_le_moved m m' n a a' :
  same_bytes m m' a a' (Z.of_nat n) → read_le m' a' n = read_le m a n.
Proof.
  revert a a'. induction n as [|n IH]; intros a a' H; [done|]. cbn [read_le].
  destruct (H 0) as (H0 & Ha & Ha'); [lia|]. rewrite !Z.add_0_r in *.
  unfold Strings.load. rewrite (proj2 (Z.eqb_neq a 0)), (proj2 (Z.eqb_neq a' 0)), H0 by lia.
  rewrite (IH (a + 1) (a' + 1)); [done|]. intros i Hi. rewrite <-!Z.add_assoc. apply H. lia.
Qed.

Lemma read_field_moved L m m' a a' n k :
  0 <= offset L k → offset L k + Z.of_nat (width L k) <= n → same_bytes m m' a a' n →
  read_field L m' a' k = read_field L m a k.
Proof.
  intros H0 Hn H. unfold read_field. apply read_le_moved. intros i Hi. rewrite <-!Z.add_assoc.
  apply H. lia.
Qed.

Context (HF : fmt = SymbolicatorFactoryElf32 ∨ fmt = SymbolicatorFactoryElf64).

Lemma shdr_fields k : k ∈ [sh_type; sh_addr; sh_size] →
  0 <= offset (f_shdr fmt) k ∧ offset (f_shdr fmt) k + Z.of_nat (width (f_shdr fmt) k) <= sizeof (f_shdr fmt).
Proof.
  intros Hk. destruct HF as [-> | ->]; repeat (apply elem_of_cons in Hk as [->|Hk]; [by vm_compute|]);
    by apply not_elem_of_nil in Hk.
Qed.

Lemma sym_fields k : k ∈ [st_info fmt; st_value fmt; st_name fmt] →
  0 <= offset (f_sym fmt) k ∧ offset (f_sym fmt) k + Z.of_nat (width (f_sym fmt) k) <= sizeof_ElfSymbol fmt.
Proof.
  intros Hk. destruct HF as [-> | ->]; repeat (apply elem_of_cons in Hk as [->|Hk]; [by vm_compute|]);
    by apply not_elem_of_nil in Hk.
Qed.

Lemma sections_moved m m' base base' xs :
  same_bytes m m' base base' (Z.of_nat (length xs) * sizeof (f_shdr fmt)) →
  sections_at m base xs → sections_at m' base' xs.
Proof.
  intros H Hxs i x Hi. destruct (Hxs i x Hi) as (H1 & H2 & H3). pose proof (lookup_lt_Some _ _ _ Hi) as Hlt.
  assert (0 < sizeof (f_shdr fmt)) as Hsz by (destruct HF as [-> | ->]; done).
  assert (∀ k, k ∈ [sh_type; sh_addr; sh_size] →
    read_field (f_shdr fmt) m' (base' + Z.of_nat i * sizeof (f_shdr fmt)) k
    = read_field (f_shdr fmt) m (base + Z.of_nat i * sizeof (f_shdr fmt)) k) as Hk.
  { intros k Hk. destruct (shdr_fields k Hk) as [Ho Hw].
    apply (read_field_moved _ m m' _ _ (sizeof (f_shdr fmt))); [done|done|].
    intros j Hj. rewrite <-!Z.add_assoc. apply H. nia. }
  unfold section_at. rewrite !Hk by set_solver. done.
Qed.

(** Bytes outside the new array are kept. *)
Definition kept m m' (n : Z) : Prop :=
  ∀ a, ¬ shdr_table_ <= a < shdr_table_ + n → m' !! a = m !! a.

Definition apart (n a len : Z) : Prop := a + len <= shdr_table_ ∨ shdr_table_ + n <= a.

Lemma symbols_kept m m' n base strings strings_size es :
  kept m m' n → 0 < base → apart n base (Z.of_nat (length es) * sizeof_ElfSymbol fmt) →
  apart n strings strings_size →
  Forall (λ e, is_function e = true → 0 <= es_name e ∧ es_name e + Z.of_nat (length (es_chars e)) < strings_size) es →
  symbols_at m base strings es → symbols_at m' base strings es.
Proof.
  intros Hkept Hbase Hap Hs Hin. assert (0 < sizeof_ElfSymbol fmt) as Hsz by (destruct HF as [-> | ->]; done).
  revert base Hbase Hap. induction Hin as [|e es Hname _ IH]; intros base Hbase Hap;
    cbn [symbols_at length] in *; [done|]. unfold apart in Hap, Hs.
  intros [(H1 & H2 & H3 & H4) Hes]. split; [split_and!|].
  1, 2, 3: rewrite (read_field_moved _ m m' base base (sizeof_ElfSymbol fmt));
    [done|apply sym_fields; set_solver..|];
    intros i Hi; split; [apply Hkept; nia|lia].
  - intros Hf. destruct (H4 Hf) as [Hc Hl]. destruct (Hname Hf) as [Hn1 Hn2]. split; [|done].
    apply (cstr_frame m); [|done]. intros i Hi. apply Hkept. lia.
  - apply IH; [lia|unfold apart; nia|done].
Qed.

(** ** The symbols of the kernel image, as the boot loader leaves them *)
Record boot_symbols m (sec : elf_section_header_table) (xs : list section) (es : list elf_symbol)
    (symtab strtab : section) : Prop := {
  bs_size : size sec = sizeof (f_shdr fmt);
  bs_num : num sec = Z.of_nat (length xs);
  bs_bytes : num sec * size sec < 2 ^ 32;
  bs_chars : chars m;
  bs_source : readable m (p2l (addr sec)) (num sec * size sec);
  bs_array : readable m shdr_table_ (num sec * size sec);
  bs_sections : sections_at m (p2l (addr sec)) xs;
  bs_symtab : ∃ i, first_section SHT_SYMTAB xs i symtab;
  bs_strtab : ∃ i, first_section SHT_STRTAB xs i strtab;
  bs_symbols : symbols_at m (p2l (s_addr symtab)) (p2l (s_addr strtab)) es;
  bs_count : s_size symtab = Z.of_nat (length es) * sizeof_ElfSymbol fmt;
  bs_few : Z.of_nat (length es) < 2 ^ 30;
  bs_positive : 0 < p2l (s_addr symtab);
  bs_names : Forall (λ e, is_function e = true →
    0 <= es_name e ∧ es_name e + Z.of_nat (length (es_chars e)) < s_size strtab) es;
  bs_symtab_apart : apart (num sec * size sec) (p2l (s_addr symtab)) (s_size symtab);
  bs_strtab_apart : apart (num sec * size sec) (p2l (s_addr strtab)) (s_size strtab);
}.

Lemma make_symbolicator_ok m sec xs es symtab strtab :
  32 <= W → boot_symbols m sec xs es symtab strtab →
  ∃ v m' cap, make_symbolicator m sec = Ok (v, m') ∧ Vector.rep v (functions es, cap).
Proof.
  intros HW [Hsz Hnum Hbytes Hchars Hsrc Harr Hsec (i1 & Hsym) (i2 & Hstr) Hes Hcount Hfew Hpos Hnames Hap1 Hap2].
  set (n := num sec * size sec) in *.
  assert (0 < sizeof (f_shdr fmt) ∧ 0 < sizeof_ElfSymbol fmt) as [Hs1 Hs2] by (destruct HF as [-> | ->]; done).
  assert (0 <= n < 2 ^ W) as Hn.
  { split; [unfold n; nia|]. apply (Z.lt_le_trans _ (2 ^ 32)); [done|]. apply Z.pow_le_mono_r; lia. }
  unfold make_symbolicator. rewrite Hsz, Z.eqb_refl. cbn [assert_then]. rewrite <-Hsz. fold n.
  rewrite uwrap_small by (split; [apply Hn|done]).
  destruct (memory_functions_correct W m shdr_table_ (p2l (addr sec)) n 0) as [(m' & -> & Hcp) _];
    [lia|done..|]. cbn [mbind result_bind].
  assert (kept m m' n) as Hkept.
  { intros a Ha. rewrite Hcp. destruct (Z.leb_spec shdr_table_ a), (Z.ltb_spec a (shdr_table_ + n)); try done. lia. }
  assert (sections_at m' shdr_table_ xs) as Hsec'.
  { apply (sections_moved m m' (p2l (addr sec))); [|done]. intros i Hi.
    assert (0 <= i < n) as Hi' by (unfold n; rewrite Hnum, Hsz; lia).
    split; [|by split; [apply Hsrc|apply Harr]]. rewrite Hcp. decide_Z. cbn [andb]. f_equal. lia. }
  assert (symbols_at m' (p2l (s_addr symtab)) (p2l (s_addr strtab)) es) as Hes'.
  { apply (symbols_kept m m' n _ _ (s_size strtab)); [done|done|by rewrite <-Hcount|done..]. }
  pose proof (shdr_loop_ok m' xs _ _ _ Hsec' Hsym) as E1. pose proof (shdr_loop_ok m' xs _ _ _ Hsec' Hstr) as E2.
  pose proof Hsym as (Hi1 & _). pose proof Hstr as (Hi2 & _).
  destruct (Hsec' _ _ Hi1) as (_ & Ha1 & Hz1). destruct (Hsec' _ _ Hi2) as (_ & Ha2 & _).
  assert (get_string_table m' (num sec) = Ok (p2l (s_addr strtab))) as Estr.
  { unfold get_string_table. rewrite Hnum, E2. cbn [mbind result_bind]. unfold shdr_field. by rewrite Ha2. }
  destruct (register_loop_ok m' (num sec) _ es Estr _ init [] 0 Hes' Vector.vec_rep_init) as (v & cap & E & Hv).
  { cbn. lia. }
  exists v, m', cap. split; [|done]. unfold register_all_symbols. rewrite Hnum, E1. cbn [mbind result_bind].
  unfold shdr_field. rewrite Ha1. cbn [mbind result_bind]. rewrite Hz1. cbn [mbind result_bind].
  rewrite Hcount, Z.div_mul, Nat2Z.id, <-Hnum by lia. by rewrite E.
Qed.
End Factory.

(** ** Properties *)


(** Three section headers at 0x1000, a symbol table with a variable and the function f at
    0x2000, and its strings at 0x3000; the array is at 0x5000. *)
Definition le4 (x : Z) : list Z := (λ i, swrap 8 (x / 256 ^ i)) <$> seqZ 0 4.

Definition demo_header (type addr size : Z) : list Z :=
  concat (le4 <$> [0; type; 0; addr; 0; size; 0; 0; 0; 0]).

Definition demo_memory : gmap Z Z :=
  bytes_at 0xC0001000 (demo_header 0 0 0 ++ demo_header 2 0x2000 32 ++ demo_header 3 0x3000 4) ∪
  bytes_at 0xC0002000 (le4 0 ++ le4 0x10 ++ le4 4 ++ [1; 0; 0; 0] ++ le4 1 ++ le4 0xC0100000 ++ le4 8 ++ [18; 0; 0; 0]) ∪
  bytes_at 0xC0003000 [0; 102; 0; 0] ∪ bytes_at 0xC0005000 (replicate 120 0).

Lemma readable_check m a n :
  forallb (λ i, (0 <? a + i) && bool_decide (is_Some (m !! (a + i)))) (seqZ 0 n) = true → readable m a n.
Proof.
  intros H i Hi. rewrite forallb_forall in H. specialize (H i).
  rewrite andb_true_iff, Z.ltb_lt, bool_decide_eq_true in H. apply H, list_elem_of_In, elem_of_seqZ. lia.
Qed.

Lemma demo_symbols :
  boot_symbols 32 0xC0000000 SymbolicatorFactoryElf32 0xC0005000 demo_memory (mk_elf_sec 3 40 0x1000)
    [mk_section 0 0 0; mk_section 2 0x2000 32; mk_section 3 0x3000 4]
    [mk_elf_symbol 0 1 0x10 []; mk_elf_symbol 1 18 0xC0100000 [102]]
    (mk_section 2 0x2000 32) (mk_section 3 0x3000 4).
Proof.
  split.
  - reflexivity.
  - reflexivity.
  - reflexivity.
  - apply map_Forall_to_list. apply (bool_decide_unpack _). vm_compute. exact I.
  - apply readable_check. vm_compute. reflexivity.
  - apply readable_check. vm_compute. reflexivity.
  - intros [|[|[|i]]] x Hx; [injection Hx as <-; vm_compute; by split_and!..|discriminate].
  - exists 1%nat. split_and!; [done..|]. intros [|j] y Hj Hy; [by injection Hy as <-|lia].
  - exists 2%nat. split_and!; [done..|]. intros [|[|j]] y Hj Hy; [by injection Hy as <-|by injection Hy as <-|lia].
  - vm_compute. by split_and!.
  - reflexivity.
  - reflexivity.
  - reflexivity.
  - repeat constructor; by vm_compute.
  - by left.
  - by left.
Qed.

End Symbolicator.
