(* ===== verification/Allocator.v ===== *)
(** * Allocator: malloc and its family for the whole kernel

    Models the functions of src/Common/src/stdlib.cpp over the interface [MemoryAllocator]
    (common/memory_allocator.hpp), which the kernel's heap implements, and the aligned
    [operator new] of src/Common/src/c_plus_plus_support.cpp.

    The state is the global allocator, if it has been set, and the interrupt lock that
    every call holds while it works.  Memory is that of the allocator; writing through
    null is a fault. *)
From S2P Require Import Prelude Scheduler MallocZone.

(** The interface of an allocator, with the memory that it manages. *)
Class MemoryAllocator (A : Type) := {
  ma_malloc : A → Z → result (Z * A);
  ma_memalign : A → Z → Z → result (Z * A);
  ma_realloc : A → Z → Z → result (Z * A);
  ma_free : A → Z → result A;
  ma_bytes : A → gmap Z Z;
  ma_with_bytes : A → gmap Z Z → A;
}.

#[global] Instance malloc_zone_allocator (W : Z) : MemoryAllocator MallocZone.zone := {|
  ma_malloc := MallocZone.malloc W;
  ma_memalign := MallocZone.memalign W;
  ma_realloc := MallocZone.realloc W;
  ma_free := MallocZone.free W;
  ma_bytes := MallocZone.bytes;
  ma_with_bytes := MallocZone.with_bytes;
|}.

Module GlobalAllocator.

Record t (A : Type) := mk { g_malloc_mutex : InterruptLock.t; g_allocator : option A }.
Arguments mk {A} _ _.
Arguments g_malloc_mutex {A} _.
Arguments g_allocator {A} _.

Section Functions.
Context {A : Type} `{MemoryAllocator A} (W : Z).
Implicit Types (g : t A).

Definition set_global_allocator g (a : option A) : result (t A) :=
  a ← deref AssertionFailed a; mret (mk (g_malloc_mutex g) (Some a)).

(** [LockGuard guard{g_malloc_mutex}; assert(g_allocator && ..);] and then the call. *)
Definition guarded {X : Type} g (call : A → result (X * A)) : result (X * t A) :=
  let lock := InterruptLock.lock (g_malloc_mutex g) in
  a ← deref AssertionFailed (g_allocator g);
  '(x, a) ← call a;
  mret (x, mk (InterruptLock.unlock lock) (Some a)).

Definition malloc g (size : Z) : result (Z * t A) := guarded g (λ a, ma_malloc a size).

(** [memset(dst, 0, n)] *)
Definition clear (a : A) (dst n : Z) : result A :=
  if n =? 0 then mret a
  else if dst =? 0 then Fault NullDereference
  else mret (ma_with_bytes a (fill (ma_bytes a) dst 0 n)).

Definition calloc g (count size : Z) : result (Z * t A) :=
  guarded g (λ a,
    '(result, a) ← ma_malloc a (uwrap W (count * size));
    a ← clear a result (uwrap W (count * size));
    mret (result, a)).

Definition memalign g (size align : Z) : result (Z * t A) := guarded g (λ a, ma_memalign a size align).

Definition realloc g (ptr size : Z) : result (Z * t A) := guarded g (λ a, ma_realloc a ptr size).

Definition free g (ptr : Z) : result (unit * t A) := guarded g (λ a, a ← ma_free a ptr; mret (tt, a)).

(** [allocate_memory_for_aligned_new]: the handler may change the heap; without one the
    request ends in [std::bad_alloc], which is the answer [None]. *)
Fixpoint aligned_new_loop (fuel : nat) (handler : option (t A → result (t A))) g
    (size align allocation : Z) : result (option Z * t A) :=
  if allocation =? 0 then
    match fuel, handler with
    | O, _ => Fault OutOfFuel
    | S fuel, Some h =>
        g ← h g;
        '(allocation, g) ← memalign g size align;
        aligned_new_loop fuel handler g size align allocation
    | S _, None => mret (None, g)
    end
  else mret (Some allocation, g).

Definition allocate_memory_for_aligned_new (fuel : nat) handler g (size align : Z)
  : result (option Z * t A) :=
  let size := if size =? 0 then 1 else size in
  '(allocation, g) ← memalign g size align;
  aligned_new_loop fuel handler g size align allocation.

(** The lock is as it was when a call returns. *)
Definition lock_ok (x : InterruptLock.t) : Prop :=
  0 <= InterruptLock.count_ x < 2 ^ 31 - 1 ∧ (InterruptLock.count_ x = 0 → InterruptLock.enabled x = true).

Lemma guarded_ok {X : Type} g a (call : A → result (X * A)) :
  lock_ok (g_malloc_mutex g) → g_allocator g = Some a →
  guarded g call = ('(x, a) ← call a; mret (x, mk (g_malloc_mutex g) (Some a))).
Proof.
  intros [Hc He] Ha. unfold guarded. rewrite Ha. cbn [deref mbind result_bind].
  by rewrite InterruptLock.lock_unlock.
Qed.

Lemma guarded_unset {X : Type} g (call : A → result (X * A)) :
  g_allocator g = None → guarded g call = Fault AssertionFailed.
Proof. intros E. unfold guarded. by rewrite E. Qed.

End Functions.

(** ** On the kernel's heap *)
(** [calloc] multiplies in the width of [size_t], asks for that many bytes and clears them.
    When no block is left for them it writes through null instead of answering null; a
    product that does not fit in the width is reduced, so that the caller gets a block that
    is smaller than what it asked for. *)
Theorem calloc_contract W limit z bs count size lock :
  W = 32 ∨ W = 64 → MallocZone.inv W limit z bs → lock_ok lock →
  let n := uwrap W (count * size) in
  let answer := @calloc _ (malloc_zone_allocator W) W (mk lock (Some z)) count size in
  (MallocZone.no_fit W (λ _, true) (MallocZone.rounded W n) (MallocZone.head_ z) bs ∧
   answer = if n =? 0 then Ok (0, mk lock (Some z)) else Fault NullDereference) ∨
  ∃ p z' b, answer = Ok (p, mk lock (Some (MallocZone.with_bytes z' b))) ∧
    MallocZone.allocated W limit z bs (MallocZone.rounded W n) 4 p z' ∧
    ∀ a, b !! a = if (p <=? a) && (a <? p + n) then Some 0 else MallocZone.bytes z !! a.
Proof.
  intros HW Hinv Hlock n answer. assert (fits W n) as Hn by (apply uwrap_fits; destruct HW; lia).
  assert (0 <= n) as Hn0 by apply Hn. subst answer. unfold calloc. rewrite (guarded_ok _ z) by done. fold n.
  destruct (MallocZone.malloc_allocs W HW limit z bs n Hinv Hn) as (p & z' & E & Hcase).
  cbn [ma_malloc malloc_zone_allocator]. rewrite E. cbn [mbind result_bind]. unfold clear.
  destruct Hcase as [(-> & -> & Hno)|(Hal & _ & Hb)].
  - left. split; [done|]. rewrite Z.eqb_refl. by destruct (n =? 0).
  - right. pose proof Hal as (bs' & s & _ & Hp & _). destruct (Z.eqb_spec n 0) as [Hz|Hz].
    + exists p, z', (MallocZone.bytes z'). cbn. split; [by destruct z'|]. split; [done|].
      intros a. rewrite Hz, Z.add_0_r, Hb. destruct (Z.leb_spec p a), (Z.ltb_spec a p); try done. lia.
    + rewrite (proj2 (Z.eqb_neq p 0) Hp). cbn [mbind result_bind mret result_ret]. eexists p, z', _.
      split; [reflexivity|]. split; [done|]. intros a. cbn. by rewrite lookup_fill, Hb.
Qed.

Lemma calloc_contract_witness :
  @calloc _ (malloc_zone_allocator 32) 32 (mk (InterruptLock.mk 0 true) (Some MallocZone.demo_zone)) 500 2
  = Fault NullDereference ∧
  ∃ p z' b, @calloc _ (malloc_zone_allocator 32) 32 (mk (InterruptLock.mk 0 true) (Some MallocZone.demo_zone))
              0x40000001 8 = Ok (p, mk (InterruptLock.mk 0 true) (Some (MallocZone.with_bytes z' b))) ∧
    MallocZone.allocated 32 4352 MallocZone.demo_zone [(232, false)] 8 4 p z'.
Proof.
  split; [vm_compute; reflexivity|].
  destruct (calloc_contract 32 4352 MallocZone.demo_zone [(232, false)] 0x40000001 8 (InterruptLock.mk 0 true)
    (or_introl eq_refl) MallocZone.demo_inv) as [[_ E]|(p & z' & b & E & Hal & _)].
  - by split; [split|].
  - vm_compute in E. discriminate E.
  - exists p, z', b. split; [exact E|exact Hal].
Defined.

(** The aligned [operator new] cannot report that memory is short: where it should ask the
    handler or throw [std::bad_alloc], the heap has already read through null. *)
Theorem aligned_new_never_throws W limit z bs lock fuel handler size align :
  W = 32 ∨ W = 64 → MallocZone.inv W limit z bs → lock_ok lock →
  fits W size → 0 < align → align `mod` 4 = 0 →
  let n := MallocZone.rounded W (if size =? 0 then 1 else size) in
  n + MallocZone.sizeof_MallocBlock W + align < 2 ^ W →
  let answer := @allocate_memory_for_aligned_new _ (malloc_zone_allocator W) fuel handler
                  (mk lock (Some z)) size align in
  (MallocZone.no_fit W (λ _, true) (n + MallocZone.sizeof_MallocBlock W + align) (MallocZone.head_ z) bs ∧
   answer = Fault NullDereference) ∨
  ∃ p z', answer = Ok (Some p, mk lock (Some z')) ∧ MallocZone.allocated W limit z bs n align p z'.
Proof.
  intros HW Hinv Hlock Hs Hal Hal4 n Hn answer. subst answer.
  unfold allocate_memory_for_aligned_new, memalign. rewrite (guarded_ok _ z) by done.
  cbn [ma_memalign malloc_zone_allocator].
  assert (fits W (if size =? 0 then 1 else size)) as Hs'.
  { destruct (size =? 0); [|done]. unfold fits. destruct HW as [-> | ->]; lia. }
  destruct (MallocZone.memalign_ok W HW limit z bs _ align Hinv Hs' Hal Hal4 Hn) as [[Hno ->]|(p & z' & -> & H)].
  - by left.
  - right. exists p, z'. split; [|done]. cbn [mbind result_bind mret result_ret].
    destruct H as (bs' & s & _ & Hp & _). destruct fuel; cbn [aligned_new_loop];
      by rewrite (proj2 (Z.eqb_neq p 0) Hp).
Qed.
End GlobalAllocator.
