(* ===== verification/Logging.v ===== *)
(** * Logging: text output streams, the logger and the rest of stdio

    Models the interface [TextOutputStream] (common/text_output_stream.hpp) with its
    implementations [Serial] (drivers/pc/serial.cpp), [BochsE9Hack] and the terminal, the
    [Logger] (src/Common/src/logger.cpp), the functions of src/Common/src/stdio.cpp that
    print through [vsnprintf], [UnlockedTextTerminal::printf] and the class [TextTerminal]
    that guards a terminal with the interrupt lock.

    Local arrays are placed in the memory at addresses that are parameters; the compiler
    keeps them apart from everything else in use.  A message is what the items of its
    format leave in a buffer of that size ([Printf.kept]). *)
From S2P Require Import Prelude TextDisplay Strings Printf Storage RingBuffer Terminal Scheduler Interrupts.
Import Strings Printf.

(** ** Streams *)
Class TextOutputStream (T : Type) := put_char : T → Z → result T.

Section Streams.
Context {T : Type} `{TextOutputStream T}.
Implicit Types (m : gmap Z Z) (st : T) (cs : list Z).

(** [while ( *s) putchar( *s++);], the body of [puts] in every class. *)
Fixpoint puts_loop (fuel : nat) m (s : Z) st : result T :=
  match fuel with
  | O => Fault OutOfFuel
  | S fuel =>
      c ← load m s;
      if c =? 0 then mret st else st ← put_char st c; puts_loop fuel m (s + 1) st
  end.

Definition puts m (s : Z) st : result T := puts_loop (fuel_for m) m s st.

Fixpoint put_all st cs : result T :=
  match cs with [] => mret st | c :: cs => st ← put_char st c; put_all st cs end.

Lemma puts_loop_ok fuel m s st cs : cstr m s cs → (length cs < fuel)%nat → puts_loop fuel m s st = put_all st cs.
Proof.
  revert fuel s st. induction cs as [|c cs IH]; intros [|fuel] s st Hcs Hf; cbn [length] in Hf; try lia;
    cbn [puts_loop put_all]; pose proof (cstr_head _ _ _ Hcs) as ->; cbn [mbind result_bind].
  - done.
  - destruct Hcs as (_ & Hc & _ & Hcs). rewrite (proj2 (Z.eqb_neq _ _) Hc).
    destruct (put_char st c); [|done]. cbn. apply IH; [done|lia].
Qed.

Lemma puts_ok m s st cs : cstr m s cs → puts m s st = put_all st cs.
Proof. intros Hcs. apply puts_loop_ok; [done|]. unfold fuel_for. pose proof (cstr_fuel _ _ _ Hcs). lia. Qed.

Lemma put_all_app st cs cs' : put_all st (cs ++ cs') = st ← put_all st cs; put_all st cs'.
Proof. revert st. induction cs as [|c cs IH]; intros st; [done|]. cbn. destruct (put_char st c); [apply IH|done]. Qed.

End Streams.

(** ** Serial and BochsE9Hack: the accesses to the ports, oldest first

    [Serial::pause] counts down a local variable. *)
Module Serial.

Definition COM1 : Z := 0x3F8.

Definition putchar (h : list io) (ch : Z) : list io := outb h COM1 (uwrap 8 ch).

(** The constructor. *)
Definition init (h : list io) : list io :=
  let h := outb h (COM1 + 1) 0x00 in
  let h := outb h (COM1 + 3) 0x80 in
  let h := outb h (COM1 + 0) 0x01 in
  let h := outb h (COM1 + 1) 0x00 in
  let h := outb h (COM1 + 3) 0x03 in
  let h := outb h (COM1 + 2) 0xC7 in
  let h := outb h (COM1 + 4) 0x0B in
  putchar h 0.

Record t := mk { history : list io }.

#[global] Instance serial_stream : TextOutputStream t := λ s ch, Ok (mk (putchar (history s) ch)).

Lemma put_all_serial s cs : put_all s cs = Ok (mk (history s ++ ((λ c, Out COM1 (uwrap 8 c)) <$> cs))).
Proof.
  revert s. induction cs as [|c cs IH]; intros [h]; cbn; [by rewrite app_nil_r|].
  rewrite IH. cbn. unfold putchar, outb. by rewrite <-app_assoc.
Qed.

End Serial.

Module BochsE9Hack.

Definition BOCHS_LOGGER_PORT : Z := 0xe9.

Record t := mk { history : list io }.

#[global] Instance bochs_stream : TextOutputStream t := λ s ch,
  Ok (mk (outb (history s) BOCHS_LOGGER_PORT (uwrap 8 ch))).

End BochsE9Hack.

#[global] Instance terminal_stream {D} `{TextDisplayDevice D} : TextOutputStream (TextTerminal.t D) :=
  TextTerminal.putchar.

Lemma put_all_terminal {D} `{TextDisplayDevice D} (s : TextTerminal.t D) cs :
  put_all s cs = TextTerminal.put_list s cs.
Proof.
  revert s. induction cs as [|c cs IH]; intros s; [done|]. cbn.
  unfold put_char, terminal_stream. destruct (TextTerminal.putchar s c); [apply IH|done].
Qed.

(** ** Literals and local arrays *)
Definition chars_of (s : string) : list Z := (λ a, Z.of_N (Ascii.N_of_ascii a)) <$> String.list_ascii_of_string s.
Arguments chars_of : simpl never.

(** [char buffer[n] = {0};] *)
Definition new_array (m : gmap Z Z) (a n : Z) : gmap Z Z := fill m a 0 n.

(** The string at [p] is known and does not meet the [n] bytes at [a]. *)
Definition string_at (m : gmap Z Z) (a n p : Z) (cs : list Z) : Prop := cstr m p cs ∧ apart p cs a n.

Definition disjoint (a n a' n' : Z) : Prop := a + n <= a' ∨ a' + n' <= a.

Lemma string_new_array m a n p cs : 0 <= n → string_at m a n p cs → cstr (new_array m a n) p cs.
Proof.
  intros Hn [H Hap]. apply (cstr_frame m); [|done]. intros x Hx. unfold new_array. rewrite lookup_fill by done.
  unfold apart in Hap. destruct (Z.leb_spec a x), (Z.ltb_spec x (a + n)); try done. lia.
Qed.

Lemma new_array_readable m a n : 0 < a → 0 <= n → readable (new_array m a n) a n.
Proof. intros Ha Hn i Hi. split; [lia|]. unfold new_array. rewrite lookup_fill by done. decide_Z. by eexists. Qed.

Lemma new_array_outside m a n x : 0 <= n → ¬ a <= x < a + n → new_array m a n !! x = m !! x.
Proof.
  intros Hn Hx. unfold new_array. rewrite lookup_fill by done.
  destruct (Z.leb_spec a x), (Z.ltb_spec x (a + n)); done || lia.
Qed.

(** A message formatted into an array. *)
Lemma message_ok W m a n fmt fs args strs its :
  W = 32 ∨ W = 64 → 1 <= n → readable m a n → string_at m a n fmt fs →
  (∀ p cs, strs p = Some cs → string_at m a n p cs) →
  expand W strs fs false args = Some its → Z.of_nat (length its) < 2 ^ 31 →
  ∃ m', vsnprintf W m a n fmt args = Ok (m', counted n its) ∧ cstr m' a (kept n its) ∧
    ∀ x, ¬ a <= x < a + n → m' !! x = m !! x.
Proof.
  intros HW Hn Hr [Hf Hfa] Hs He Hl.
  destruct (vsnprintf_ok W m a n fmt fs args strs its) as (m' & E & Hc & Hout); try done.
  exists m'. split_and!; [done..|]. intros x Hx. pose proof (kept_length n its Hn). apply Hout. lia.
Qed.

(** A string that lies outside the bytes written is still there. *)
Lemma string_survives m m' a n b k p cs :
  (∀ x, ¬ a <= x < a + n → m' !! x = m !! x) → string_at m a n p cs → apart p cs b k → string_at m' b k p cs.
Proof.
  intros Hm [Hc Hap] Hb. split; [|done]. apply (cstr_frame m); [|done]. intros x Hx. apply Hm.
  unfold apart in Hap. lia.
Qed.

(** Literal characters stand for themselves. *)
Definition literal (cs : list Z) : Prop := Forall (λ c, c ≠ 37) cs.

Lemma expand_literal W strs cs fs args :
  literal cs → expand W strs (cs ++ fs) false args = app (Char <$> cs) <$> expand W strs fs false args.
Proof.
  induction 1 as [|c cs Hc _ IH]; [cbn [app]; by destruct (expand W strs fs false args)|].
  cbn [app expand]. rewrite (proj2 (Z.eqb_neq _ _) Hc), IH. by destruct (expand W strs fs false args).
Qed.

Lemma expand_all_literal W strs cs args : literal cs → expand W strs cs false args = Some (Char <$> cs).
Proof. intros H. rewrite <-(app_nil_r cs) at 1. rewrite expand_literal by done. cbn. by rewrite app_nil_r. Qed.

(** A conversion. *)
Lemma expand_conversion W strs c fs args its args' :
  conversion_items W strs c args = Some (its, args') →
  expand W strs (37 :: c :: fs) false args = app its <$> expand W strs fs false args'.
Proof. intros E. cbn [expand Z.eqb Pos.eqb]. by rewrite E. Qed.

Lemma expand_string W strs p cs fs args :
  p ≠ 0 → strs p = Some cs →
  expand W strs (37 :: 115 :: fs) false (p :: args) = app (Char <$> cs) <$> expand W strs fs false args.
Proof.
  intros Hp E. apply expand_conversion. unfold conversion_items. rewrite bool_decide_true by by do 5 right; left.
  cbn [Z.eqb Pos.eqb]. by rewrite (proj2 (Z.eqb_neq _ _) Hp), E.
Qed.

(** Without arguments an expansion is no longer than its format. *)
Lemma expand_no_args W fs percent its :
  expand W (λ _, None) fs percent [] = Some its → (length its <= length fs)%nat.
Proof.
  revert percent its. induction fs as [|c fs IH]; intros percent its E; cbn [expand] in E.
  { by injection E as <-. }
  assert (∀ x pct, app [x] <$> expand W (λ _, None) fs pct [] = Some its → (length its <= length (c :: fs))%nat) as Hc.
  { intros x pct E'. destruct (expand W _ fs pct []) as [its'|] eqn:E2; [|done]. injection E' as <-.
    apply IH in E2. cbn. lia. }
  destruct percent.
  - unfold conversion_items in E. case_bool_decide; [done|]. by apply (Hc (Char c) false).
  - destruct (c =? 37); [apply IH in E; cbn; lia|]. by apply (Hc (Char c) false).
Qed.

(** ** Logger *)
Module Logger.

Definition LOGGER_MESSAGE_SIZE : Z := 1024.

Section Methods.
Context (W : Z) {T : Type} `{TextOutputStream T}.
(** Where the local arrays and the format literal of [log] lie. *)
Context (message buffer log_fmt : Z).

Record t := mk { stream_ : option T }.

Definition set_text_output_stream (l : t) (stream : option T) : result t :=
  stream ← deref AssertionFailed stream; mret (mk (Some stream)).

(** "%s: %s\n" *)
Definition log_format : list Z := [37; 115; 58; 32; 37; 115; 10].

Definition log m (l : t) (function fmt : Z) (args : list Z) : result (gmap Z Z * t) :=
  stream ← deref AssertionFailed (stream_ l);
  let m := new_array m message LOGGER_MESSAGE_SIZE in
  let m := new_array m buffer LOGGER_MESSAGE_SIZE in
  '(m, _) ← vsnprintf W m message LOGGER_MESSAGE_SIZE fmt args;
  '(m, _) ← vsnprintf W m buffer LOGGER_MESSAGE_SIZE log_fmt [function; message];
  stream ← puts m buffer stream;
  mret (m, mk (Some stream)).

(** The line that is written for a message. *)
Definition log_line (function msg : list Z) : list Z :=
  kept LOGGER_MESSAGE_SIZE (Char <$> function ++ [58; 32] ++ msg ++ [10]).

(** The arrays and strings of a call of [log], in memory [m]: the arrays do not meet each
    other, nor the strings and the format literal. *)
Record log_frame m (function fmt : Z) (fn fs : list Z) (strs : Z → option (list Z)) : Prop := {
  lf_message : 0 < message;
  lf_buffer : 0 < buffer;
  lf_apart : disjoint message LOGGER_MESSAGE_SIZE buffer LOGGER_MESSAGE_SIZE;
  lf_known : ∀ p cs, (p, cs) = (fmt, fs) ∨ (p, cs) = (function, fn) ∨ (p, cs) = (log_fmt, log_format)
               ∨ strs p = Some cs →
             string_at m message LOGGER_MESSAGE_SIZE p cs ∧ apart p cs buffer LOGGER_MESSAGE_SIZE;
}.

Lemma log_ok m st function fmt fn fs args strs its :
  W = 32 ∨ W = 64 → log_frame m function fmt fn fs strs → function ≠ 0 → Z.of_nat (length fn) < 2 ^ 30 →
  expand W strs fs false args = Some its → Z.of_nat (length its) < 2 ^ 31 →
  ∃ m', log m (mk (Some st)) function fmt args
    = (st ← put_all st (log_line fn (kept LOGGER_MESSAGE_SIZE its)); mret (m', mk (Some st))) ∧
    ∀ x, ¬ message <= x < message + LOGGER_MESSAGE_SIZE → ¬ buffer <= x < buffer + LOGGER_MESSAGE_SIZE →
         m' !! x = m !! x.
Proof.
  intros HW [Hm Hb Hap Hk] Hf0 Hfn He Hl. unfold log, log_line. cbn [stream_ deref mbind result_bind].
  set (N := LOGGER_MESSAGE_SIZE) in *. assert (N = 1024) as HN by done. clearbody N.
  set (m0 := new_array (new_array m message N) buffer N).
  assert (∀ p cs, string_at m message N p cs ∧ apart p cs buffer N → string_at m0 message N p cs) as H0.
  { intros p cs [Hs Hbs]. split; [|apply Hs]. apply string_new_array; [lia|]. split; [|done].
    apply string_new_array; [lia|done]. }
  destruct (message_ok W m0 message N fmt fs args strs its) as (m1 & -> & Hc1 & Ho1); try done; [lia| |..].
  { intros i Hi. unfold m0. split; [lia|]. rewrite new_array_outside by (unfold disjoint in Hap; lia).
    by apply new_array_readable; lia. }
  { apply H0, Hk. by left. }
  { intros p cs Hp. apply H0, Hk. by do 3 right. }
  cbn [mbind result_bind].
  assert (∀ p cs, string_at m message N p cs ∧ apart p cs buffer N → string_at m1 buffer N p cs) as H1.
  { intros p cs [Hs Hbs]. eapply (string_survives m0); [done|by apply H0|done]. }
  set (msg := kept N its) in *.
  assert (string_at m1 buffer N message msg) as Hmsg.
  { split; [done|]. pose proof (kept_length N its ltac:(lia)). unfold apart, disjoint in *. subst msg. lia. }
  destruct (message_ok W m1 buffer N log_fmt log_format [function; message]
    (λ p, if p =? message then Some msg else if p =? function then Some fn else None)
    (Char <$> fn ++ [58; 32] ++ msg ++ [10])) as (m2 & -> & Hc2 & Ho2); try done; [lia|..].
  { intros i Hi. split; [lia|]. rewrite Ho1 by (unfold disjoint in Hap; lia).
    apply (new_array_readable (new_array m message N) buffer N); lia. }
  { apply H1, Hk. by do 2 right; left. }
  { intros p cs Hp. destruct (Z.eqb_spec p message) as [->|]; [by injection Hp as <-|].
    destruct (Z.eqb_spec p function) as [->|]; [|done]. injection Hp as <-. apply H1, Hk. by right; left. }
  { change log_format with (37 :: 115 :: [58; 32] ++ 37 :: 115 :: [10]).
    assert (function ≠ message) as Hne.
    { destruct (Hk function fn ltac:(by right; left)) as [[_ Hfa] _]. unfold apart in Hfa. lia. }
    rewrite (expand_string W _ function fn) by (done || (cbv beta; decide_Z; done)).
    rewrite (expand_literal W _ [58; 32]) by by repeat constructor.
    rewrite (expand_string W _ message msg) by (lia || (cbv beta; by rewrite Z.eqb_refl)).
    rewrite expand_all_literal by by repeat constructor. cbn [fmap option_fmap option_map].
    by rewrite !fmap_app. }
  { rewrite length_fmap, !length_app. cbn. pose proof (kept_length N its ltac:(lia)). subst msg. lia. }
  cbn [mbind result_bind]. exists m2. split; [by rewrite (puts_ok m2 buffer st _ Hc2)|].
  intros x Hx1 Hx2. rewrite Ho2, Ho1 by done. unfold m0. by rewrite !new_array_outside by lia.
Qed.

End Methods.
End Logger.

(** ** The rest of stdio.cpp *)
Module Stdio.

Section Functions.
Context (W : Z).
Implicit Types (m : gmap Z Z).

(** The arguments of a variadic function are those its [va_list] ranges over. *)
Definition snprintf m (str size fmt : Z) (args : list Z) : result (gmap Z Z * Z) := vsnprintf W m str size fmt args.

(** [small] is the local array, [block] the one that [calloc] answers.  A [va_list] of
    i386 is passed by value, so that the second call reads the same arguments. *)
Definition vasprintf m (small block fmt : Z) (args : list Z) : result (gmap Z Z * Z * Z) :=
  let m := new_array m small 1 in
  '(m, len) ← vsnprintf W m small 1 fmt args;
  let m := fill m block 0 (uwrap W (len + 1)) in
  '(m, c) ← vsnprintf W m block (uwrap W len) fmt args;
  mret (m, block, c).

Definition asprintf m (small block fmt : Z) (args : list Z) : result (gmap Z Z * Z * Z) :=
  vasprintf m small block fmt args.

(** [vasprintf] always loses the last character of a plain message, and returns the length
    it should have had. *)
Theorem vasprintf_drops_last m small new fmt fs args strs cs :
  W = 32 → 0 < small → 0 < new → disjoint small 1 new (Z.of_nat (length cs) + 1) →
  (∀ p ds, (p, ds) = (fmt, fs) ∨ strs p = Some ds →
     string_at m small 1 p ds ∧ apart p ds new (Z.of_nat (length cs) + 1)) →
  expand W strs fs false args = Some (Char <$> cs) → Forall (λ c, storable c = true) cs → cs ≠ [] →
  Z.of_nat (length cs) < 2 ^ 30 →
  ∃ m', vasprintf m small new fmt args = Ok (m', new, Z.of_nat (length cs)) ∧
    cstr m' new (take (length cs - 1) cs).
Proof.
  intros HW Hs Hn Hd Hk He Hst Hne Hl. unfold vasprintf. rewrite HW in *.
  assert (0 < length cs)%nat as Hpos by (destruct cs; [done|cbn; lia]). set (L := Z.of_nat (length cs)) in *.
  destruct (message_ok 32 (new_array m small 1) small 1 fmt fs args strs (Char <$> cs))
    as (m1 & -> & _ & Ho1); try done; [by left|apply new_array_readable; lia|..].
  { destruct (Hk fmt fs ltac:(by left)) as [H1 H2]. split; [by apply string_new_array|apply H1]. }
  { intros p ds Hp. destruct (Hk p ds ltac:(by right)) as [H1 H2]. split; [by apply string_new_array|apply H1]. }
  { rewrite length_fmap. lia. }
  cbn [mbind result_bind]. rewrite counted_chars. fold L.
  rewrite !uwrap_small by (unfold fits; lia).
  assert (∀ p ds, string_at m small 1 p ds ∧ apart p ds new (L + 1) →
    string_at (fill m1 new 0 (L + 1)) new L p ds) as H1.
  { intros p ds [H1 H2]. split; [|unfold apart in *; lia]. apply (string_new_array m1); [lia|].
    split; [|done]. apply (cstr_frame m); [|apply H1]. intros x Hx. destruct H1 as [_ H1].
    unfold apart in H1. rewrite Ho1 by lia. apply new_array_outside; lia. }
  destruct (message_ok 32 (fill m1 new 0 (L + 1)) new L fmt fs args strs (Char <$> cs))
    as (m2 & -> & Hc2 & _); try done; [by left|lia| |..].
  { intros i Hi. apply (new_array_readable m1 new (L + 1)); lia. }
  { apply H1, Hk. by left. }
  { intros p ds Hp. apply H1, Hk. by right. }
  { rewrite length_fmap. lia. }
  cbn [mbind result_bind mret result_ret]. rewrite counted_chars. exists m2. split; [done|].
  rewrite kept_chars in Hc2.
  assert (filter storable cs = cs) as Ef
    by (clear -Hst; induction Hst as [|c l Hc _ IH]; [done|]; by rewrite filter_cons_True, IH by by rewrite Hc).
  rewrite Ef in Hc2. by replace (length cs - 1)%nat with (Z.to_nat (L - 1)) by lia.
Qed.

(** [printf] and [fprintf], which ignores the stream: the arrays of [Logger.log], the array
    [buffer] and the function name. *)
Context {T : Type} `{TextOutputStream T} (message log_buffer log_fmt buffer name : Z).

Definition PRINTF_BUFFER_SIZE : Z := 128.

Definition printf m (l : Logger.t) (fmt : Z) (args : list Z) : result (gmap Z Z * Logger.t * Z) :=
  let m := new_array m buffer PRINTF_BUFFER_SIZE in
  '(m, c) ← vsnprintf W m buffer PRINTF_BUFFER_SIZE fmt args;
  '(m, l) ← Logger.log W message log_buffer log_fmt m l name buffer [];
  mret (m, l, c).

Definition fprintf m (l : Logger.t) (fmt : Z) (args : list Z) : result (gmap Z Z * Logger.t * Z) :=
  printf m l fmt args.

(** [printf] passes the finished message to the logger as a format: it is expanded once
    more, without arguments.  A message without percent signs is logged as it is. *)
Theorem printf_formats_twice m st fmt fs args strs its fn its' :
  W = 32 ∨ W = 64 → 0 < message → 0 < log_buffer → 0 < buffer → name ≠ 0 → Z.of_nat (length fn) < 2 ^ 30 →
  disjoint message Logger.LOGGER_MESSAGE_SIZE log_buffer Logger.LOGGER_MESSAGE_SIZE →
  disjoint buffer PRINTF_BUFFER_SIZE message Logger.LOGGER_MESSAGE_SIZE →
  disjoint buffer PRINTF_BUFFER_SIZE log_buffer Logger.LOGGER_MESSAGE_SIZE →
  (∀ p cs, (p, cs) = (name, fn) ∨ (p, cs) = (log_fmt, Logger.log_format) →
     string_at m buffer PRINTF_BUFFER_SIZE p cs ∧ apart p cs message Logger.LOGGER_MESSAGE_SIZE ∧
     apart p cs log_buffer Logger.LOGGER_MESSAGE_SIZE) →
  string_at m buffer PRINTF_BUFFER_SIZE fmt fs →
  (∀ p cs, strs p = Some cs → string_at m buffer PRINTF_BUFFER_SIZE p cs) →
  expand W strs fs false args = Some its → Z.of_nat (length its) < 2 ^ 31 →
  expand W (λ _, None) (kept PRINTF_BUFFER_SIZE its) false [] = Some its' →
  ∃ m', printf m (Logger.mk (Some st)) fmt args
    = (st ← put_all st (Logger.log_line fn (kept Logger.LOGGER_MESSAGE_SIZE its'));
       mret (m', Logger.mk (Some st), counted PRINTF_BUFFER_SIZE its)).
Proof.
  intros HW Hm Hlb Hb Hn Hfn D1 D2 D3 Hk Hf Hs He Hl He'. unfold printf.
  destruct (message_ok W (new_array m buffer PRINTF_BUFFER_SIZE) buffer PRINTF_BUFFER_SIZE fmt fs args strs its)
    as (m1 & -> & Hc1 & Ho1); try done; [by apply new_array_readable|..].
  { split; [by apply string_new_array|apply Hf]. }
  { intros p cs Hp. split; [by apply string_new_array, Hs|by apply Hs]. }
  cbn [mbind result_bind]. pose proof (kept_length PRINTF_BUFFER_SIZE its ltac:(done)) as Hlen.
  destruct (Logger.log_ok W message log_buffer log_fmt m1 st name buffer fn (kept PRINTF_BUFFER_SIZE its) []
    (λ _, None) its') as (m' & -> & _); try done.
  - split; [done..|]. intros p cs Hp.
    assert (string_at m1 message Logger.LOGGER_MESSAGE_SIZE buffer (kept PRINTF_BUFFER_SIZE its) ∧
      apart buffer (kept PRINTF_BUFFER_SIZE its) log_buffer Logger.LOGGER_MESSAGE_SIZE) as Hbuf.
    { unfold string_at, apart, disjoint in *. split; [split; [done|]|]; lia. }
    destruct Hp as [[= -> ->]|Hp]; [done|].
    assert ((p, cs) = (name, fn) ∨ (p, cs) = (log_fmt, Logger.log_format)) as Hp'
      by (destruct Hp as [?|[?|?]]; [by left|by right|done]).
    destruct (Hk p cs Hp') as (H1 & H2 & H3). split; [|done].
    apply (string_survives (new_array m buffer PRINTF_BUFFER_SIZE) m1 buffer PRINTF_BUFFER_SIZE); [done| |done].
    split; [by apply string_new_array|apply H1].
  - assert (length its' <= length (kept PRINTF_BUFFER_SIZE its))%nat; [|unfold PRINTF_BUFFER_SIZE in *; lia].
    clear -He'. by eapply expand_no_args.
  - exists m'. by destruct (put_all st _).
Qed.

End Functions.
End Stdio.

(** ** The terminal *)
Module LockedTerminal.

Section Methods.
Context (W : Z) {D : Type} `{TextDisplayDevice D}.
Implicit Types (m : gmap Z Z).

(** [UnlockedTextTerminal::puts] on a C string and [printf], with its local array. *)
Definition impl_puts m (s : Z) (t : TextTerminal.t D) : result (TextTerminal.t D) :=
  if s =? 0 then mret t else puts m s t.

Definition BUFFER_SIZE : Z := 512.

Definition impl_printf (buffer : Z) m (t : TextTerminal.t D) (fmt : Z) (args : list Z)
  : result (gmap Z Z * TextTerminal.t D * Z) :=
  let m := new_array m buffer BUFFER_SIZE in
  '(m, r) ← vsnprintf W m buffer BUFFER_SIZE fmt args;
  t ← impl_puts m buffer t;
  mret (m, t, r).

(** The class [TextTerminal]: its lock, which all locks share, and the terminal. *)
Record t := mk { lock_ : InterruptLock.t; impl_ : TextTerminal.t D }.

Definition guarded {A} (x : t) (call : TextTerminal.t D → result (A * TextTerminal.t D)) : result (A * t) :=
  let lock := InterruptLock.lock (lock_ x) in
  '(a, i) ← call (impl_ x);
  mret (a, mk (InterruptLock.unlock lock) i).

Definition void (call : TextTerminal.t D → result (TextTerminal.t D)) (i : TextTerminal.t D)
  : result (unit * TextTerminal.t D) := i ← call i; mret (tt, i).

Definition putchar (x : t) (ch : Z) : result (unit * t) := guarded x (void (λ i, TextTerminal.putchar i ch)).
Definition puts m (s : Z) (x : t) : result (unit * t) := guarded x (void (impl_puts m s)).
Definition putv (CAPACITY : Z) (x : t) (buf : RingBuffer.t Z) : result (unit * t) :=
  guarded x (void (λ i, TextTerminal.putv CAPACITY i buf)).
Definition printf (buffer : Z) m (x : t) (fmt : Z) (args : list Z) : result (gmap Z Z * Z * t) :=
  guarded x (λ i, '(m, i, r) ← impl_printf buffer m i fmt args; mret (m, r, i)).
Definition move_cursor_left (x : t) : result (unit * t) := guarded x (void TextTerminal.move_cursor_left).
Definition move_cursor_right (x : t) : result (unit * t) := guarded x (void TextTerminal.move_cursor_right).
Definition move_cursor_to_end (x : t) : result (unit * t) := guarded x (void TextTerminal.move_cursor_to_end).

Lemma impl_puts_ok m s i cs : cstr m s cs → impl_puts m s i = TextTerminal.put_list i cs.
Proof.
  intros Hcs. pose proof (cstr_positive _ _ _ Hcs). unfold impl_puts.
  rewrite (proj2 (Z.eqb_neq s 0)) by lia. by rewrite (puts_ok m s i cs), put_all_terminal.
Qed.

Lemma puts_guarded m s x cs :
  cstr m s cs →
  puts m s x = (i ← TextTerminal.put_list (impl_ x) cs;
                mret (tt, mk (InterruptLock.unlock (InterruptLock.lock (lock_ x))) i)).
Proof.
  intros Hcs. unfold puts, guarded, void. rewrite (impl_puts_ok _ _ _ cs) by done.
  by destruct (TextTerminal.put_list (impl_ x) cs).
Qed.

(** [printf] puts the message on the terminal and leaves the lock as it was. *)
Theorem terminal_printf_prints buffer m x fmt fs args strs its :
  W = 32 ∨ W = 64 → 0 < buffer → string_at m buffer BUFFER_SIZE fmt fs →
  (∀ p cs, strs p = Some cs → string_at m buffer BUFFER_SIZE p cs) →
  expand W strs fs false args = Some its → Z.of_nat (length its) < 2 ^ 31 →
  0 <= InterruptLock.count_ (lock_ x) < 2 ^ 31 - 1 →
  (InterruptLock.count_ (lock_ x) = 0 → InterruptLock.enabled (lock_ x) = true) →
  ∃ m', printf buffer m x fmt args
    = (i ← TextTerminal.put_list (impl_ x) (kept BUFFER_SIZE its);
       mret (m', counted BUFFER_SIZE its, mk (lock_ x) i)) ∧
    ∀ a, ¬ buffer <= a < buffer + BUFFER_SIZE → m' !! a = m !! a.
Proof.
  intros HW Hb Hf Hs He Hl Hc Hi. unfold printf, guarded, impl_printf.
  destruct (message_ok W (new_array m buffer BUFFER_SIZE) buffer BUFFER_SIZE fmt fs args strs its)
    as (m' & -> & Hc' & Ho); try done.
  - by apply new_array_readable.
  - split; [by apply string_new_array|apply Hf].
  - intros p cs Hp. split; [by apply string_new_array, Hs|by apply Hs].
  - cbn [mbind result_bind]. rewrite (impl_puts_ok _ _ _ _ Hc'). exists m'. split.
    + destruct (TextTerminal.put_list _ _); [|done]. cbn. by rewrite InterruptLock.lock_unlock.
    + intros a Ha. rewrite Ho by done. by apply new_array_outside.
Qed.

End Methods.
End LockedTerminal.

(** "%%d" is passed on as "%d", which asks for an argument that is not there. *)
Example printf_percent_faults :
  let m := bytes_at 16 [37; 37; 100; 0] ∪ bytes_at 32 (chars_of "printf" ++ [0]) ∪
           bytes_at 48 (Logger.log_format ++ [0]) in
  Stdio.printf 32 4096 8192 48 12288 32 m (Logger.mk (Some (Serial.mk []))) 16 [] = Fault InvalidAccess.
Proof. vm_compute. reflexivity. Qed.

(** The log as the serial port sees it. *)
Theorem log_reaches_serial W message buffer log_fmt m h function fmt fn fs args strs its :
  W = 32 ∨ W = 64 → Logger.log_frame message buffer log_fmt m function fmt fn fs strs →
  function ≠ 0 → Z.of_nat (length fn) < 2 ^ 30 →
  expand W strs fs false args = Some its → Z.of_nat (length its) < 2 ^ 31 →
  ∃ m', Logger.log W message buffer log_fmt m (Logger.mk (Some (Serial.mk h))) function fmt args
    = Ok (m', Logger.mk (Some (Serial.mk (h ++ ((λ c, Out Serial.COM1 (uwrap 8 c)) <$>
        Logger.log_line fn (kept Logger.LOGGER_MESSAGE_SIZE its)))))).
Proof.
  intros HW Hf Hfn Hl He Hi. destruct (Logger.log_ok W message buffer log_fmt m (Serial.mk h)
    function fmt fn fs args strs its) as (m' & -> & _); try done. exists m'. by rewrite Serial.put_all_serial.
Qed.
