(* ===== verification/Panic.v ===== *)
(** * Panic: what the kernel reports before it halts

    Models [panic] and [PanicKernel] (src/Kernel/src/platform/i386/panic.cpp, shared by both
    platforms), and the interrupt handlers that end in it: [PageFaultInterruptHandler] and
    [PanicInterruptHandler] of i386 and x86_64.

    The unwinder of the compiler runtime is a parameter: the frames it walks, with the name
    that the symbolicator gives each (a pointer, null without a name).  So are the addresses
    of the local arrays and of the string literals.  A call that does not return answers the
    machine in which it halts. *)
From S2P Require Import Prelude TextDisplay Strings Printf Storage RingBuffer Terminal Scheduler Interrupts Logging.
Import Strings Printf.

(** ** Formats by their parts: literal characters, then a conversion *)
Section Parts.
Context (W : Z).

Definition format_of (parts : list (list Z * Z)) (tail : list Z) : list Z :=
  concat ((λ '(cs, c), cs ++ [37; c]) <$> parts) ++ tail.

Fixpoint part_items (strs : Z → option (list Z)) (parts : list (list Z * Z)) (args tail : list Z)
  : option (list item) :=
  match parts with
  | [] => Some (Char <$> tail)
  | (cs, c) :: parts =>
      match conversion_items W strs c args with
      | Some (its, args) => (λ rest, (Char <$> cs) ++ its ++ rest) <$> part_items strs parts args tail
      | None => None
      end
  end.

Lemma expand_parts strs parts args tail :
  Forall (λ p, literal p.1) parts → literal tail →
  expand W strs (format_of parts tail) false args = part_items strs parts args tail.
Proof.
  intros Hp Ht. revert args. induction Hp as [|[cs c] parts Hc Hp IH]; intros args.
  { unfold format_of. cbn. by apply expand_all_literal. }
  unfold format_of. cbn [fmap list_fmap concat part_items]. rewrite <-!app_assoc. cbn [app].
  rewrite expand_literal by done. fold (format_of parts tail).
  destruct (conversion_items W strs c args) as [[its args']|] eqn:E.
  - rewrite (expand_conversion _ _ _ _ _ _ _ E). fold (format_of parts tail). rewrite IH.
    by destruct (part_items strs parts args' tail).
  - cbn [expand Z.eqb Pos.eqb]. by rewrite E.
Qed.

End Parts.

(** ** The literals *)
Definition NL : list Z := [10].
Definition PANIC_ : list Z := chars_of "PANIC: ".
Definition BACK_TRACE : list Z := chars_of "Back Trace:" ++ NL.
Definition END_BACK_TRACE : list Z := chars_of "End Back Trace" ++ NL.
Definition INTERRUPT_DURING_PANIC : list Z := chars_of "Interrupt occurred during panic. Halting immediately.".
Definition trace_parts : list (list Z * Z) := [([], 112); (chars_of ": ", 115)].
Definition trace_format : list Z := format_of trace_parts NL.
Definition reentry_parts : list (list Z * Z) :=
  [(chars_of "Reentrant call to panic. Halting immediately. Message is:" ++ NL, 115)].
Definition reentry_format : list Z := format_of reentry_parts [].

Module PanicKernel.

Section Methods.
Context (W : Z) {D : Type} `{TextDisplayDevice D}.
(** The addresses of the literals and of the local arrays of [panic], [trace] and
    [reentry]; the frames of the stack: instruction pointer and symbol name. *)
Context (literal_at : list Z → Z) (panic_buffer trace_buffer reentry_buffer : Z) (frames : list (Z * Z)).
Implicit Types (m : gmap Z Z).

Definition PANIC_BUFFER_SIZE : Z := 512.
Definition TRACE_BUFFER_SIZE : Z := 75.
Definition REENTRY_BUFFER_SIZE : Z := 160.

(** The interrupt flag with the count that all locks share, the accesses to the ports, the
    display, and [g_panic_kernel]: its terminal. *)
Record machine := mk {
  irq : InterruptLock.t;
  ports : list io;
  display : D;
  g_panic_kernel : option (TextTerminal.t D);
}.

Definition disable_interrupts (x : machine) : machine :=
  mk (InterruptLock.mk (InterruptLock.count_ (irq x)) false) (ports x) (display x) (g_panic_kernel x).

(** [logger_.puts(s); terminal_.puts(s);] *)
Definition puts m (s : Z) (x : machine) : result machine :=
  t ← deref NullDereference (g_panic_kernel x);
  h ← Logging.puts m s (Serial.mk (ports x));
  '(_, t) ← LockedTerminal.puts m s (LockedTerminal.mk (irq x) t);
  mret (mk (LockedTerminal.lock_ t) (Serial.history h) (TextTerminal.display_ (LockedTerminal.impl_ t))
          (Some (LockedTerminal.impl_ t))).

Definition trace m (frame : Z * Z) (x : machine) : result (gmap Z Z * machine) :=
  let m := new_array m trace_buffer TRACE_BUFFER_SIZE in
  '(m, _) ← vsnprintf W m trace_buffer TRACE_BUFFER_SIZE (literal_at trace_format) [frame.1; frame.2];
  x ← puts m trace_buffer x;
  mret (m, x).

(** The callbacks of the unwinder. *)
Fixpoint trace_all (fs : list (Z * Z)) m (x : machine) : result (gmap Z Z * machine) :=
  match fs with
  | [] => mret (m, x)
  | f :: fs => '(m, x) ← trace m f x; trace_all fs m x
  end.

Definition backtrace m (x : machine) : result (gmap Z Z * machine) :=
  x ← puts m (literal_at BACK_TRACE) x;
  '(m, x) ← trace_all frames m x;
  x ← puts m (literal_at END_BACK_TRACE) x;
  mret (m, x).

(** The constructor: a terminal on the display, and the serial port. *)
Definition construct (x : machine) : result machine :=
  t ← TextTerminal.init (display x);
  mret (mk (irq x) (Serial.init (ports x)) (display x) (Some t)).

(** [display_.clear()]; the terminal draws on that display. *)
Definition clear_display (x : machine) : result machine :=
  t ← deref NullDereference (g_panic_kernel x);
  let d := display_clear (TextTerminal.display_ t) in
  mret (mk (irq x) (ports x) d (Some (TextTerminal.mk d (TextTerminal.cursor_ t) (TextTerminal.lines_ t)))).

Definition run m (message : Z) (x : machine) : result (gmap Z Z * machine) :=
  x ← clear_display x;
  x ← puts m (literal_at PANIC_) x;
  x ← puts m message x;
  x ← puts m (literal_at NL) x;
  backtrace m x.

Definition reentry m (message : Z) (x : machine) : result (gmap Z Z * machine) :=
  let m := new_array m reentry_buffer REENTRY_BUFFER_SIZE in
  '(m, _) ← vsnprintf W m reentry_buffer REENTRY_BUFFER_SIZE (literal_at reentry_format) [message];
  x ← puts m reentry_buffer x;
  mret (m, x).

Definition interrupt m (x : machine) : result machine := puts m (literal_at INTERRUPT_DURING_PANIC) x.

(** [on_interrupt_during_panic]: without a panic there is no object to call. *)
Definition on_interrupt_during_panic m (x : machine) : result machine := interrupt m x.

Definition panic m (fmt : Z) (args : list Z) (x : machine) : result (gmap Z Z * machine) :=
  let x := disable_interrupts x in
  '(m, _) ← vsnprintf W m panic_buffer PANIC_BUFFER_SIZE fmt args;
  match g_panic_kernel x with
  | Some _ => reentry m panic_buffer x
  | None => x ← construct x; run m panic_buffer x
  end.

(** ** What is reported *)

(** After the characters [cs] in any number of calls of [puts]: the lock of the terminal
    has enabled interrupts if no lock was held. *)
Definition unlocked (l : InterruptLock.t) : InterruptLock.t :=
  if InterruptLock.count_ l =? 0 then InterruptLock.mk 0 true else l.

Definition said (x : machine) (cs : list Z) (l : InterruptLock.t) : result machine :=
  t ← deref NullDereference (g_panic_kernel x);
  t ← TextTerminal.put_list t cs;
  mret (mk l (ports x ++ ((λ c, Out Serial.COM1 (uwrap 8 c)) <$> cs)) (TextTerminal.display_ t) (Some t)).

Definition lock_bounded (l : InterruptLock.t) : Prop := 0 <= InterruptLock.count_ l < 2 ^ 31 - 1.

Lemma unlocked_ok l : lock_bounded l → InterruptLock.unlock (InterruptLock.lock l) = unlocked l.
Proof.
  intros Hb. unfold unlocked. destruct (Z.eqb_spec (InterruptLock.count_ l) 0) as [E|].
  - destruct l as [c e]. cbn in E. by subst c.
  - by apply InterruptLock.lock_unlock.
Qed.

Lemma unlocked_bounded l : lock_bounded l → lock_bounded (unlocked l).
Proof. unfold unlocked, lock_bounded. destruct (_ =? _); cbn; lia. Qed.

Lemma unlocked_idem l : unlocked (unlocked l) = unlocked l.
Proof.
  unfold unlocked. destruct (Z.eqb_spec (InterruptLock.count_ l) 0) as [E|E]; [done|].
  by rewrite (proj2 (Z.eqb_neq _ _) E).
Qed.

Lemma puts_said m s x cs : lock_bounded (irq x) → cstr m s cs → puts m s x = said x cs (unlocked (irq x)).
Proof.
  intros Hb Hcs. unfold puts, said. destruct (g_panic_kernel x) as [t|]; [|done]. cbn [deref mbind result_bind].
  rewrite (puts_ok m s _ cs Hcs), Serial.put_all_serial. cbn [mbind result_bind].
  rewrite (LockedTerminal.puts_guarded _ _ _ cs) by done. cbn [LockedTerminal.impl_ LockedTerminal.lock_].
  destruct (TextTerminal.put_list t cs); [|done]. cbn. by rewrite unlocked_ok.
Qed.

Lemma say_list_app (t : TextTerminal.t D) cs cs' :
  TextTerminal.put_list t (cs ++ cs') = (t ← TextTerminal.put_list t cs; TextTerminal.put_list t cs').
Proof. by rewrite <-!put_all_terminal, put_all_app. Qed.

(** Saying one thing after another. *)
Lemma said_app x cs cs' l l' : (x ← said x cs l; said x cs' l') = said x (cs ++ cs') l'.
Proof.
  unfold said. destruct (g_panic_kernel x) as [t|]; [|done]. cbn [deref mbind result_bind].
  rewrite say_list_app. destruct (TextTerminal.put_list t cs) as [t1|]; [|done]. cbn.
  destruct (TextTerminal.put_list t1 cs'); [|done]. cbn. by rewrite fmap_app, app_assoc.
Qed.

Lemma said_irq x cs l x' : said x cs l = Ok x' → irq x' = l.
Proof.
  unfold said. intros E. destruct (g_panic_kernel x) as [t|]; [|done]. cbn in E.
  destruct (TextTerminal.put_list t cs); [|done]. cbn in E. by injection E as <-.
Qed.

(** ** The back trace

    [names] are the symbol names in memory; a frame without a name is printed as null. *)
Context (names : Z → option (list Z)).

Definition name_of (symbol : Z) : option (list Z) :=
  if symbol =? 0 then Some (chars_of "(null)") else names symbol.

Definition frame_items (f : Z * Z) : list item :=
  pointer_items W (uwrap W f.1) ++ (Char <$> chars_of ": " ++ default [] (name_of f.2) ++ NL).

Definition frame_line (f : Z * Z) : list Z := kept TRACE_BUFFER_SIZE (frame_items f).

Definition report (msg : list Z) : list Z :=
  PANIC_ ++ msg ++ NL ++ BACK_TRACE ++ concat (frame_line <$> frames) ++ END_BACK_TRACE.

Definition literals : list (list Z) := [PANIC_; NL; BACK_TRACE; END_BACK_TRACE; trace_format].

(** The strings of the report: none meets the array of [trace]. *)
Record trace_frame m (fs : list (Z * Z)) : Prop := {
  tf_buffer : 0 < trace_buffer;
  tf_literals : ∀ cs, cs ∈ literals → string_at m trace_buffer TRACE_BUFFER_SIZE (literal_at cs) cs;
  tf_names : ∀ p cs, names p = Some cs → string_at m trace_buffer TRACE_BUFFER_SIZE p cs;
  tf_frames : Forall (λ f, ∃ cs, name_of f.2 = Some cs ∧ Z.of_nat (length cs) < 2 ^ 30) fs;
}.

Lemma trace_frame_kept m m' fs :
  (∀ a, ¬ trace_buffer <= a < trace_buffer + TRACE_BUFFER_SIZE → m' !! a = m !! a) →
  trace_frame m fs → trace_frame m' fs.
Proof.
  intros Hm [Hb Hl Hn Hf]. split; [done| | |done]; intros.
  - eapply string_survives; [done|by apply Hl|by apply Hl].
  - eapply string_survives; [done|by apply Hn|by apply Hn].
Qed.

Lemma pointer_items_length x : W = 32 ∨ W = 64 → 0 <= x < 2 ^ W → (length (pointer_items W x) <= 50)%nat.
Proof.
  intros HW Hx. unfold pointer_items. rewrite !length_app, !length_replicate, length_fmap.
  unfold pointer_digits. rewrite length_fmap, length_rev.
  pose proof (lsd_length 16 (Z.to_nat (W / 4)) x) as Hl.
  assert (Z.to_nat (W / 4) <= 16)%nat by (destruct HW as [E|E]; rewrite E; vm_compute; lia). cbn [length]. lia.
Qed.

Lemma conversion_pointer strs x args :
  conversion_items W strs 112 (x :: args) = Some (pointer_items W (uwrap W x), args).
Proof. done. Qed.

Lemma conversion_name p args cs :
  name_of p = Some cs → conversion_items W names 115 (p :: args) = Some (Char <$> cs, args).
Proof.
  unfold name_of, conversion_items. intros E. rewrite bool_decide_true by by do 5 right; left.
  cbn [Z.eqb Pos.eqb]. destruct (p =? 0); by simplify_eq; rewrite ?E.
Qed.

Lemma trace_ok m f :
  W = 32 ∨ W = 64 → trace_frame m [f] →
  ∃ m', (∀ x, lock_bounded (irq x) →
           trace m f x = (x ← said x (frame_line f) (unlocked (irq x)); mret (m', x))) ∧
    ∀ a, ¬ trace_buffer <= a < trace_buffer + TRACE_BUFFER_SIZE → m' !! a = m !! a.
Proof.
  intros HW [Hb Hl Hn Hf]. apply Forall_singleton in Hf as (cs & Hcs & Hlen). unfold trace.
  set (m0 := new_array m trace_buffer TRACE_BUFFER_SIZE).
  assert (∀ p ds, string_at m trace_buffer TRACE_BUFFER_SIZE p ds → string_at m0 trace_buffer TRACE_BUFFER_SIZE p ds)
    as H0 by (intros p ds Hs; split; [by apply string_new_array|apply Hs]).
  destruct (message_ok W m0 trace_buffer TRACE_BUFFER_SIZE (literal_at trace_format) trace_format [f.1; f.2]
    names (frame_items f)) as (m1 & -> & Hc1 & Ho1); try done.
  - by apply new_array_readable.
  - apply H0, Hl. by do 4 right; left.
  - intros p ds Hp. by apply H0, Hn.
  - unfold trace_format. rewrite expand_parts by by repeat constructor.
    unfold frame_items. rewrite Hcs. cbn [part_items trace_parts].
    rewrite conversion_pointer, (conversion_name f.2 [] cs Hcs).
    cbn [fmap option_fmap option_map default]. by rewrite !fmap_app.
  - unfold frame_items. rewrite Hcs, length_app, length_fmap, !length_app. change (default [] (Some cs)) with cs.
    pose proof (pointer_items_length (uwrap W f.1) HW ltac:(apply Z.mod_pos_bound; destruct HW as [E|E]; rewrite E; done)).
    change (length (chars_of ": ")) with 2%nat. change (length NL) with 1%nat. lia.
  - exists m1. cbn [mbind result_bind]. split.
    + intros x Hx. by rewrite (puts_said m1 trace_buffer x _ Hx Hc1).
    + intros a Ha. rewrite Ho1 by done. by apply new_array_outside.
Qed.

Lemma trace_all_ok fs m :
  W = 32 ∨ W = 64 → trace_frame m fs →
  ∃ m', (∀ x cs l, lock_bounded l → unlocked l = l →
           (x ← said x cs l; trace_all fs m x)
           = (x ← said x (cs ++ concat (frame_line <$> fs)) l; mret (m', x))) ∧ trace_frame m' fs.
Proof.
  intros HW. revert m. induction fs as [|f fs IH]; intros m Hm.
  { exists m. split; [|done]. intros x cs l _ _. cbn. by rewrite app_nil_r. }
  destruct Hm as [Hb Hl Hn Hf]. apply Forall_cons in Hf as [Hf Hfs].
  destruct (trace_ok m f HW) as (m1 & Ht & Ho); [by split; [..|constructor]|].
  destruct (IH m1) as (m2 & Hall & Hm2); [by apply (trace_frame_kept m)|].
  exists m2. split; [|destruct Hm2; by split; [..|constructor]]. intros x cs l Hlb Hlu.
  rewrite fmap_cons. cbn [concat trace_all]. rewrite app_assoc, <-(Hall x _ l Hlb Hlu), <-(said_app x cs _ l l).
  destruct (said x cs l) as [x1|] eqn:E; [|done]. cbn [mbind result_bind]. pose proof (said_irq _ _ _ _ E) as Hi.
  rewrite Ht by by rewrite Hi. rewrite Hi, Hlu. by destruct (said x1 (frame_line f) l).
Qed.

Lemma said_puts m s x cs cs' l l' :
  lock_bounded l → cstr m s cs' → l' = unlocked l →
  (x ← said x cs l; puts m s x) = said x (cs ++ cs') l'.
Proof.
  intros Hl Hs ->. rewrite <-(said_app x cs cs' l). destruct (said x cs l) as [x1|] eqn:E; [|done].
  pose proof (said_irq _ _ _ _ E) as Hi. cbn [mbind result_bind]. rewrite (puts_said m s x1 cs'); by rewrite ?Hi.
Qed.

(** The whole report of [run], on a display that has been cleared. *)
Lemma run_ok m message msg x :
  W = 32 ∨ W = 64 → trace_frame m frames → cstr m message msg → lock_bounded (irq x) →
  ∃ m', run m message x = (x1 ← clear_display x; x2 ← said x1 (report msg) (unlocked (irq x)); mret (m', x2)).
Proof.
  intros HW Hm Hmsg Hb. destruct (trace_all_ok frames m HW Hm) as (m' & Hall & Hm').
  exists m'. unfold run, backtrace. destruct (clear_display x) as [x1|] eqn:E1; [|done].
  assert (irq x1 = irq x) as Hi.
  { unfold clear_display in E1. destruct (g_panic_kernel x); [|done]. by injection E1 as <-. }
  cbn [mbind result_bind]. set (l := unlocked (irq x)).
  assert (lock_bounded l) as Hlb by by apply unlocked_bounded.
  assert (unlocked l = l) as Hlu by apply unlocked_idem.
  assert (∀ cs, cs ∈ literals → cstr m (literal_at cs) cs) as Hlit by (intros cs Hcs; by apply Hm).
  rewrite (puts_said m _ x1 PANIC_) by (try rewrite Hi; done || (apply Hlit; by left)). rewrite Hi. fold l.
  unfold report. rewrite <-(said_app x1 PANIC_ _ l l).
  assert (∀ x cs s cs' rest (K : machine → result (gmap Z Z * machine)),
    cstr m s cs' →
    (∀ x, (x ← said x cs' l; K x) = (x ← said x (cs' ++ rest) l; mret (m', x))) →
    (x ← said x cs l; x ← puts m s x; K x) = (x ← (x ← said x cs l; said x (cs' ++ rest) l); mret (m', x))) as Hstep.
  { intros y cs s cs' rest K Hs HK. destruct (said y cs l) as [y1|] eqn:E; [|done]. cbn [mbind result_bind].
    pose proof (said_irq _ _ _ _ E) as Hi1. rewrite (puts_said m s y1 cs') by by rewrite ?Hi1.
    rewrite Hi1, Hlu. apply HK. }
  apply Hstep; [done|]. intros y. rewrite <-(said_app y msg _ l l).
  apply Hstep; [apply Hlit; by right; left|]. clear y. intros y. rewrite <-(said_app y NL _ l l).
  apply Hstep; [apply Hlit; by do 2 right; left|]. clear y. intros y.
  rewrite app_assoc. rewrite <-(said_app y _ END_BACK_TRACE l l).
  specialize (Hall y BACK_TRACE l Hlb Hlu). destruct (said y BACK_TRACE l) as [y1|].
  2: { cbn in Hall |- *. destruct (said y (BACK_TRACE ++ _) l); [done|]. by injection Hall as <-. }
  cbn [mbind result_bind] in *. rewrite Hall.
  destruct (said y (BACK_TRACE ++ _) l) as [y2|] eqn:E2; [|done]. cbn [mbind result_bind mret result_ret].
  pose proof (said_irq _ _ _ _ E2) as Hi2. rewrite (puts_said m' _ y2 END_BACK_TRACE); rewrite ?Hi2, ?Hlu; try done.
  destruct Hm' as [_ Hl' _ _]. apply Hl'. by do 3 right; left.
Qed.

(** What a panic outside of another one does with its message. *)
Definition reported (x : machine) (msg : list Z) (m' : gmap Z Z) : result (gmap Z Z * machine) :=
  t ← TextTerminal.init (display x);
  let d := display_clear (TextTerminal.display_ t) in
  t ← TextTerminal.put_list (TextTerminal.mk d (TextTerminal.cursor_ t) (TextTerminal.lines_ t)) (report msg);
  mret (m', mk (unlocked (InterruptLock.mk (InterruptLock.count_ (irq x)) false))
              (Serial.init (ports x) ++ ((λ c, Out Serial.COM1 (uwrap 8 c)) <$> report msg))
              (TextTerminal.display_ t) (Some t)).

(** The strings and arrays of a call of [panic]. *)
Record panic_frame m (fmt : Z) (fs : list Z) (strs : Z → option (list Z)) : Prop := {
  pf_buffer : readable m panic_buffer PANIC_BUFFER_SIZE;
  pf_apart : disjoint panic_buffer PANIC_BUFFER_SIZE trace_buffer TRACE_BUFFER_SIZE;
  pf_trace : trace_frame m frames;
  pf_literals : ∀ cs, cs ∈ literals → apart (literal_at cs) cs panic_buffer PANIC_BUFFER_SIZE;
  pf_names : ∀ p cs, names p = Some cs → apart p cs panic_buffer PANIC_BUFFER_SIZE;
  pf_known : ∀ p cs, (p, cs) = (fmt, fs) ∨ strs p = Some cs →
               string_at m panic_buffer PANIC_BUFFER_SIZE p cs;
}.

Lemma panic_ok m fmt fs args strs its x :
  W = 32 ∨ W = 64 → panic_frame m fmt fs strs → lock_bounded (irq x) → g_panic_kernel x = None →
  expand W strs fs false args = Some its → Z.of_nat (length its) < 2 ^ 31 →
  ∃ m', panic m fmt args x = reported x (kept PANIC_BUFFER_SIZE its) m'.
Proof.
  intros HW [Hr Hap Ht Hl Hn Hk] Hb Hg He Hlen. unfold panic.
  destruct (message_ok W m panic_buffer PANIC_BUFFER_SIZE fmt fs args strs its) as (m1 & -> & Hc1 & Ho1);
    try done; [by apply Hk; left|by intros; apply Hk; right|].
  cbn [mbind result_bind disable_interrupts g_panic_kernel]. rewrite Hg.
  assert (trace_frame m1 frames) as Ht1.
  { destruct Ht as [Hb1 Hl1 Hn1 Hf1]. split; [done| | |done]; intros.
    - split; [|by apply Hl1]. apply (cstr_frame m); [|by apply Hl1]. intros a Ha. apply Ho1.
      unshelve epose proof (Hl cs _) as Hcs; [done|]. unfold apart in Hcs. lia.
    - split; [|by apply Hn1]. apply (cstr_frame m); [|by apply Hn1]. intros a Ha. apply Ho1.
      unshelve epose proof (Hn p cs _) as Hcs; [done|]. unfold apart in Hcs. lia. }
  unfold reported, construct, disable_interrupts. cbn [display irq ports].
  destruct (TextTerminal.init (display x)) as [t|f]; [|by exists m1]. cbn [mbind result_bind mret result_ret].
  destruct (run_ok m1 panic_buffer _ (mk (InterruptLock.mk (InterruptLock.count_ (irq x)) false)
    (Serial.init (ports x)) (display x) (Some t)) HW Ht1 Hc1 Hb) as (m2 & ->).
  exists m2. unfold clear_display, said. cbn [g_panic_kernel deref mbind result_bind mret result_ret ports irq].
  by destruct (TextTerminal.put_list _ _).
Qed.

(** A second panic, while one is being reported, only says so. *)
Lemma reentry_ok m fmt fs args strs its x t :
  W = 32 ∨ W = 64 → readable m panic_buffer PANIC_BUFFER_SIZE → 0 < reentry_buffer →
  disjoint panic_buffer PANIC_BUFFER_SIZE reentry_buffer REENTRY_BUFFER_SIZE →
  (∀ p cs, (p, cs) = (fmt, fs) ∨ strs p = Some cs → string_at m panic_buffer PANIC_BUFFER_SIZE p cs) →
  string_at m panic_buffer PANIC_BUFFER_SIZE (literal_at reentry_format) reentry_format →
  apart (literal_at reentry_format) reentry_format reentry_buffer REENTRY_BUFFER_SIZE →
  lock_bounded (irq x) → g_panic_kernel x = Some t →
  expand W strs fs false args = Some its → Z.of_nat (length its) < 2 ^ 31 →
  let msg := kept PANIC_BUFFER_SIZE its in
  ∃ m', panic m fmt args x
    = (x ← said (disable_interrupts x)
             (kept REENTRY_BUFFER_SIZE (Char <$> (chars_of "Reentrant call to panic. Halting immediately. Message is:" ++ NL) ++ msg))
             (unlocked (irq (disable_interrupts x)));
       mret (m', x)).
Proof.
  intros HW Hr Hrb Hd Hk Hrf Hra Hb Hg He Hlen msg. destruct x as [l0 h0 d0 g0]. cbn in Hg. subst g0. unfold panic.
  destruct (message_ok W m panic_buffer PANIC_BUFFER_SIZE fmt fs args strs its) as (m1 & -> & Hc1 & Ho1);
    try done; [by apply Hk; left|by intros; apply Hk; right|].
  cbn [mbind result_bind disable_interrupts g_panic_kernel irq ports display]. unfold reentry.
  pose proof (kept_length PANIC_BUFFER_SIZE its ltac:(done)) as Hml. fold msg in Hc1, Hml.
  set (m2 := new_array m1 reentry_buffer REENTRY_BUFFER_SIZE).
  assert (string_at m1 reentry_buffer REENTRY_BUFFER_SIZE panic_buffer msg) as Hmsg.
  { split; [done|]. unfold apart, disjoint in *. lia. }
  assert (0 < panic_buffer) as Hpb by (by eapply cstr_positive).
  destruct (message_ok W m2 reentry_buffer REENTRY_BUFFER_SIZE (literal_at reentry_format) reentry_format
    [panic_buffer] (λ p, if p =? panic_buffer then Some msg else None)
    (Char <$> (chars_of "Reentrant call to panic. Halting immediately. Message is:" ++ NL) ++ msg))
    as (m3 & -> & Hc3 & _); try done.
  - by apply new_array_readable.
  - assert (string_at m1 reentry_buffer REENTRY_BUFFER_SIZE (literal_at reentry_format) reentry_format) as Hs.
    { by eapply string_survives. }
    split; [by apply string_new_array|apply Hs].
  - intros p cs Hp. destruct (Z.eqb_spec p panic_buffer) as [->|]; [|done]. injection Hp as <-.
    split; [by apply string_new_array|apply Hmsg].
  - unfold reentry_format. rewrite expand_parts by by repeat constructor. cbn [part_items reentry_parts].
    unfold conversion_items. rewrite bool_decide_true by by do 5 right; left. cbn [Z.eqb Pos.eqb].
    rewrite (proj2 (Z.eqb_neq panic_buffer 0)) by lia. rewrite Z.eqb_refl.
    cbn [fmap option_fmap option_map]. by rewrite !fmap_app, !app_nil_r.
  - rewrite length_fmap, length_app. change (length (_ ++ NL)) with 58%nat. unfold PANIC_BUFFER_SIZE in *. lia.
  - exists m3. cbn [mbind result_bind]. by rewrite (puts_said m3 reentry_buffer (disable_interrupts (mk l0 h0 d0 (Some t))) _ Hb Hc3).
Qed.

End Methods.
End PanicKernel.

(** ** Rows: a label and a value *)
Section Rows.
Context (W : Z) (strs : Z → option (list Z)).

(** A label, a conversion and its argument. *)
Definition row : Type := list Z * Z * Z.

Definition field (c x : Z) : option (list item) := fst <$> conversion_items W strs c [x].

Definition row_items (r : row) : list item := (Char <$> r.1.1) ++ default [] (field r.1.2 r.2).

Definition row_text (r : row) : list Z := r.1.1 ++ text (default [] (field r.1.2 r.2)).

Definition rows_text (rows : list row) : list Z := concat (row_text <$> rows).

(** A row can be printed: its label is literal and printable, and so is its string. *)
Definition plain (cs : list Z) : Prop := Forall (λ c, c ≠ 37 ∧ storable c = true) cs.

Definition good_row (r : row) : Prop :=
  plain r.1.1 ∧ (r.1.2 = 112 ∨ (r.1.2 = 120 ∨ r.1.2 = 117) ∨ (r.1.2 = 115 ∧ r.2 ≠ 0 ∧ ∃ cs, strs r.2 = Some cs ∧ plain cs)).

Lemma plain_literal cs : plain cs → literal cs.
Proof. intros H. eapply Forall_impl; [exact H|]. by intros c [? _]. Qed.

Lemma rows_expand_tail rows tail :
  Forall good_row rows →
  part_items W strs (fst <$> rows) (snd <$> rows) tail
  = Some (concat (row_items <$> rows) ++ (Char <$> tail)).
Proof.
  induction 1 as [|[[l c] x] rows Hg _ IH]; [done|]. rewrite !fmap_cons. cbn [fst snd part_items concat].
  assert (conversion_items W strs c (x :: (snd <$> rows)) = Some (default [] (field c x), snd <$> rows)) as ->.
  { destruct Hg as (_ & [Hc|[[Hc|Hc]|(Hc & Hx & cs & Hs & _)]]); cbn [fst snd] in *; subst c; [done..|].
    unfold field, conversion_items. rewrite !bool_decide_true by by do 5 right; left. cbn [Z.eqb Pos.eqb].
    by rewrite (proj2 (Z.eqb_neq _ _) Hx), Hs. }
  rewrite IH. cbn [fmap option_fmap option_map]. unfold row_items at 2. cbn [fst snd]. by rewrite <-!app_assoc.
Qed.

Lemma rows_expand rows :
  Forall good_row rows →
  part_items W strs (fst <$> rows) (snd <$> rows) [] = Some (concat (row_items <$> rows)).
Proof. intros Hg. by rewrite rows_expand_tail, app_nil_r. Qed.

Lemma text_app its its' : text (its ++ its') = text its ++ text its'.
Proof. apply omap_app. Qed.

Lemma rows_text_ok rows : text (concat (row_items <$> rows)) = rows_text rows.
Proof.
  unfold rows_text. induction rows as [|r rows IH]; [done|]. rewrite !fmap_cons. cbn [concat]. rewrite text_app.
  f_equal; [|exact IH]. unfold row_items. by rewrite text_app, text_chars.
Qed.

Lemma digits_plain base ds :
  Forall (λ c, is_valid_digit_for_char base c = true ∧ c ≠ 0) ds → plain ds.
Proof.
  intros H. eapply Forall_impl; [exact H|]. intros c [Hc _]. split; [|by eapply digit_storable].
  intros ->. by vm_compute in Hc.
Qed.

Lemma plain_app cs cs' : plain cs → plain cs' → plain (cs ++ cs').
Proof. intros. by apply Forall_app. Qed.

Lemma pointer_text x :
  text (pointer_items W x)
  = [48; 120] ++ replicate (Z.to_nat (W / 4) - length (pointer_digits W x)) 48 ++ pointer_digits W x.
Proof.
  unfold pointer_items. rewrite !text_app, text_chars. cbn [text omap list_omap written].
  set (z := (_ - _)%nat). assert (text (replicate z Pad) = []) as -> by (clearbody z; by induction z).
  assert (text (replicate z Zero) = replicate z 48) as ->; [|done].
  clearbody z. induction z as [|z IH]; [done|]. cbn. by f_equal.
Qed.

Lemma pointer_digits_plain x : plain (pointer_digits W x).
Proof.
  apply (digits_plain 16), Forall_fmap, Forall_rev. eapply Forall_impl; [by apply lsd_range|].
  intros d Hd. destruct table_lower_16 as [_ Ht]. by destruct (Ht d Hd) as (_ & ? & ? & _).
Qed.

Lemma field_plain r : good_row r → plain (text (default [] (field r.1.2 r.2))).
Proof.
  destruct r as [[l c] x]. intros (_ & [Hc|[[Hc|Hc]|(Hc & Hx & cs & Hs & Hp)]]); cbn [fst snd] in *; subst c.
  - change (default [] (field 112 x)) with (pointer_items W (uwrap W x)). rewrite pointer_text.
    apply (plain_app [48; 120]); [by repeat constructor|]. apply plain_app, pointer_digits_plain.
    by apply Forall_replicate.
  - change (default [] (field 120 x)) with (Char <$> numeral 16 (uwrap 32 x) digits_lower). rewrite text_chars.
    apply (digits_plain 16). by apply numeral_ok; [apply table_lower_16|done|apply uwrap_32_range].
  - change (default [] (field 117 x)) with (Char <$> numeral 10 (uwrap 32 x) digits_lower). rewrite text_chars.
    apply (digits_plain 10). by apply numeral_ok; [apply table_lower_10|done|apply uwrap_32_range].
  - unfold field, conversion_items. rewrite bool_decide_true by by do 5 right; left. cbn [Z.eqb Pos.eqb].
    rewrite (proj2 (Z.eqb_neq _ _) Hx), Hs. change (plain (text (Char <$> cs))). by rewrite text_chars.
Qed.

Lemma rows_plain rows : Forall good_row rows → plain (rows_text rows).
Proof.
  unfold rows_text. induction 1 as [|r rows Hg _ IH]; [constructor|]. rewrite fmap_cons. cbn [concat].
  apply plain_app; [|done]. apply plain_app; [apply Hg|by apply field_plain].
Qed.

(** Plain items leave a prefix of their text, which is plain. *)
Lemma filter_plain cs : plain cs → filter storable cs = cs.
Proof. induction 1 as [|c cs [_ Hc] _ IH]; [done|]. by rewrite filter_cons_True, IH by by rewrite Hc. Qed.

Lemma kept_prefix n its : plain (text its) → kept n its `prefix_of` text its.
Proof.
  intros Hp. unfold kept, spent. rewrite <-(filter_plain (text its)), <-filter_text by done.
  exists (omap written (drop (Z.to_nat (n - 1)) (filter takes_room its))). by rewrite <-omap_app, take_drop.
Qed.

Lemma kept_whole n its : plain (text its) → Z.of_nat (length its) < n → kept n its = text its.
Proof.
  intros Hp Hn. unfold kept, spent. pose proof (length_filter takes_room its).
  rewrite take_ge by lia. by rewrite filter_text, filter_plain.
Qed.

Lemma text_length its : (length (text its) <= length its)%nat.
Proof. unfold text. induction its as [|it its IH]; [done|]. cbn. destruct (written it); cbn; lia. Qed.

Lemma prefix_plain cs cs' : cs `prefix_of` cs' → plain cs' → plain cs.
Proof. intros [k ->]. by intros [? _]%Forall_app. Qed.

(** The room a row needs at most: two characters for each leading zero of a pointer. *)
Definition row_room (r : row) : nat :=
  (length r.1.1 + if (r.1.2 =? 112)%Z then 2 + 2 * Z.to_nat (W / 4)
                  else if ((r.1.2 =? 120) || (r.1.2 =? 117))%Z then 10 else length (default [] (strs r.2)))%nat.

Lemma row_room_ok r : good_row r → (length (row_items r) <= row_room r)%nat.
Proof.
  intros Hg. destruct r as [[l c] x]. unfold row_items, row_room.
  rewrite length_app, length_fmap. destruct Hg as (_ & [Hc|[[Hc|Hc]|(Hc & Hx & cs & Hs & _)]]); cbn [fst snd] in *; subst c.
  - change (default [] (field 112 x)) with (pointer_items W (uwrap W x)). unfold pointer_items.
    rewrite !length_app, !length_replicate, length_fmap. cbn [length Z.eqb Pos.eqb].
    assert (length (pointer_digits W (uwrap W x)) <= Z.to_nat (W / 4))%nat; [|lia].
    unfold pointer_digits. rewrite length_fmap, length_rev. apply lsd_length.
  - change (default [] (field 120 x)) with (Char <$> numeral 16 (uwrap 32 x) digits_lower).
    rewrite length_fmap. cbn [Z.eqb Pos.eqb orb].
    destruct (numeral_ok 16 (uwrap 32 x) digits_lower) as (_ & ? & _); [apply table_lower_16|done|apply uwrap_32_range|].
    lia.
  - change (default [] (field 117 x)) with (Char <$> numeral 10 (uwrap 32 x) digits_lower).
    rewrite length_fmap. cbn [Z.eqb Pos.eqb orb].
    destruct (numeral_ok 10 (uwrap 32 x) digits_lower) as (_ & ? & _); [apply table_lower_10|done|apply uwrap_32_range|].
    lia.
  - unfold field, conversion_items. rewrite bool_decide_true by by do 5 right; left. cbn [Z.eqb Pos.eqb].
    rewrite (proj2 (Z.eqb_neq _ _) Hx), Hs. change (length l + length (Char <$> cs) <= length l + length cs)%nat.
    rewrite length_fmap. lia.
Qed.

Lemma rows_room rows :
  Forall good_row rows →
  (length (concat (row_items <$> rows)) <= sum_list (row_room <$> rows))%nat.
Proof.
  induction 1 as [|r rows Hg _ IH]; [done|]. rewrite !fmap_cons. cbn [concat].
  change (sum_list (row_room r :: (row_room <$> rows))) with (row_room r + sum_list (row_room <$> rows))%nat.
  rewrite length_app. pose proof (row_room_ok r Hg). lia.
Qed.

End Rows.

(** ** The handlers *)
Module Handlers.

Definition TB : list Z := [9].

(** The registers in [InterruptParameters] of each platform. *)
Record i386_params := mk_i386 {
  eip : Z; error_code : Z; edi : Z; esi : Z; ebp : Z; esp : Z; ebx : Z; edx : Z; ecx : Z; eax : Z;
}.

Record x64_params := mk_x64 {
  rip : Z; error_code64 : Z; r15 : Z; r14 : Z; r13 : Z; r12 : Z; r11 : Z; r10 : Z; r9 : Z; r8 : Z;
  rdi : Z; rsi : Z; rbp : Z; rsp : Z; rbx : Z; rdx : Z; rcx : Z; rax : Z;
}.

Definition get_page_fault_error_string (error_code : Z) : list Z :=
  chars_of
    match error_code with
    | 0 => "supervisory process tried to read a non-present page entry"
    | 1 => "supervisory process tried to read a page and caused a protection fault"
    | 2 => "supervisory process tried to write to a non-present page entry"
    | 3 => "supervisory process tried to write a page and caused a protection fault"
    | 4 => "user process tried to read a non-present page entry"
    | 5 => "user process tried to read a page and caused a protection fault"
    | 6 => "user process tried to write to a non-present page entry"
    | 7 => "user process tried to write a page and caused a protection fault"
    | _ => "unknown"
    end.

(** The reports, row by row: what stands before a value, its conversion (112: p, 120: x,
    115: s), and the value.  The format of a report is that of its rows. *)
Definition P : Z := 112.
Definition X : Z := 120.
Definition STR : Z := 115.

Definition i386_page_fault_rows (cr2 : Z) (p : i386_params) (error_string : Z) : list row :=
  [(chars_of "Page Fault. Faulting Address: ", P, cr2);
   (NL ++ chars_of "Registers:" ++ NL ++ chars_of "edi = ", P, edi p);
   (TB ++ chars_of "esi = ", P, esi p); (TB ++ chars_of "ebp = ", P, ebp p);
   (NL ++ chars_of "esp = ", P, esp p); (TB ++ chars_of "ebx = ", P, ebx p);
   (TB ++ chars_of "edx = ", P, edx p);
   (NL ++ chars_of "ecx = ", P, ecx p); (TB ++ chars_of "eax = ", P, eax p);
   (TB ++ chars_of "eip = ", P, eip p);
   (NL ++ chars_of "Error Code: 0x", X, error_code p);
   (NL, STR, error_string)].

Definition x64_register_rows (first : list Z) (p : x64_params) : list row :=
  [(first, P, r15 p); (TB ++ chars_of "r14 = ", P, r14 p);
   (NL ++ chars_of "r13 = ", P, r13 p); (TB ++ chars_of "r12 = ", P, r12 p);
   (NL ++ chars_of "r11 = ", P, r11 p); (TB ++ chars_of "r10 = ", P, r10 p);
   (NL ++ chars_of "r9  = ", P, r9 p); (TB ++ chars_of "r8  = ", P, r8 p);
   (NL ++ chars_of "rdi = ", P, rdi p); (TB ++ chars_of "rsi = ", P, rsi p);
   (NL ++ chars_of "rbp = ", P, rbp p); (TB ++ chars_of "rsp = ", P, rsp p);
   (NL ++ chars_of "rbx = ", P, rbx p); (TB ++ chars_of "rdx = ", P, rdx p);
   (NL ++ chars_of "rcx = ", P, rcx p); (TB ++ chars_of "rax = ", P, rax p);
   (NL ++ chars_of "rip = ", P, rip p)].

Definition x64_page_fault_rows (cr2 : Z) (p : x64_params) (error_string : Z) : list row :=
  [(chars_of "Page Fault. Faulting Address: ", P, cr2)] ++
  x64_register_rows (NL ++ chars_of "Registers:" ++ NL ++ chars_of "r15 = ") p ++
  [(NL ++ chars_of "Error Code: 0x", X, error_code64 p); (NL, STR, error_string)].

(** [PanicInterruptHandler]: with and without an error code. *)
Definition i386_panic_rows (error_code_present_ : bool) (p : i386_params) (message_ : Z) : list row :=
  [(chars_of "Registers:" ++ NL ++ chars_of "edi = 0x", X, edi p);
   (TB ++ chars_of "esi = 0x", X, esi p); (TB ++ chars_of "ebp = 0x", X, ebp p);
   (NL ++ chars_of "esp = 0x", X, esp p); (TB ++ chars_of "ebx = 0x", X, ebx p);
   (TB ++ chars_of "edx = 0x", X, edx p);
   (NL ++ chars_of "ecx = 0x", X, ecx p); (TB ++ chars_of "eax = 0x", X, eax p);
   (TB ++ chars_of "eip = ", P, eip p)] ++
  (if error_code_present_ then [(NL ++ chars_of "Error Code: 0x", X, error_code p)] else []) ++
  [(NL, STR, message_)].

Definition x64_panic_rows (error_code_present_ : bool) (p : x64_params) (message_ : Z) : list row :=
  x64_register_rows (chars_of "Registers:" ++ NL ++ chars_of "r15 = ") p ++
  (if error_code_present_ then [(NL ++ chars_of "Error Code: 0x", X, error_code64 p)] else []) ++
  [(NL, STR, message_)].

Section Handlers.
Context {D : Type} `{TextDisplayDevice D}.
Context (literal_at : list Z → Z) (panic_buffer trace_buffer reentry_buffer : Z) (frames : list (Z * Z)).
(** The array of the handler. *)
Context (array : Z).
Implicit Types (m : gmap Z Z) (x : PanicKernel.machine (D := D)).

Definition panic W := PanicKernel.panic W literal_at panic_buffer trace_buffer reentry_buffer frames.

(** [snprintf(array, n, ..); panic(array);] *)
Definition format_and_panic W (n : Z) (rows : list row) m x : result (gmap Z Z * PanicKernel.machine) :=
  '(m, _) ← Stdio.snprintf W m array n (literal_at (format_of rows.*1 [])) rows.*2;
  panic W m array [] x.

(** [PageFaultInterruptHandler::int_handler] *)
Definition i386_page_fault (cr2 : Z) (p : i386_params) m x : result (gmap Z Z * PanicKernel.machine) :=
  let m := new_array m array 512 in
  let error_string := get_page_fault_error_string (error_code p) in
  format_and_panic 32 512 (i386_page_fault_rows cr2 p (literal_at error_string)) m x.

Definition x64_page_fault (cr2 : Z) (p : x64_params) m x : result (gmap Z Z * PanicKernel.machine) :=
  let m := new_array m array 512 in
  let error_string := get_page_fault_error_string (uwrap 32 (error_code64 p)) in
  format_and_panic 64 512 (x64_page_fault_rows cr2 p (literal_at error_string)) m x.

(** [PanicInterruptHandler::int_handler]: the array is static; [message_] is the member of
    the handler. *)
Definition i386_panic_handler (error_code_present_ : bool) (message_ : Z) (p : i386_params) m x
  : result (gmap Z Z * PanicKernel.machine) :=
  format_and_panic 32 1024 (i386_panic_rows error_code_present_ p message_) m x.

Definition x64_panic_handler (error_code_present_ : bool) (message_ : Z) (p : x64_params) m x
  : result (gmap Z Z * PanicKernel.machine) :=
  format_and_panic 64 1024 (x64_panic_rows error_code_present_ p message_) m x.

(** ** Where the strings and arrays lie *)
Context (names : Z → option (list Z)).

(** The report of a panic with message [msg], [PanicKernel.reported], and its lines. *)
Definition reported W x (msg : list Z) (m' : gmap Z Z) : result (gmap Z Z * PanicKernel.machine) :=
  PanicKernel.reported W frames names x msg m'.

Record handler_frame m (n : Z) (fmt : list Z) (strs : Z → option (list Z)) : Prop := {
  hf_array : 0 < array;
  hf_panic : readable m panic_buffer PanicKernel.PANIC_BUFFER_SIZE;
  hf_trace : 0 < trace_buffer;
  hf_array_panic : disjoint array n panic_buffer PanicKernel.PANIC_BUFFER_SIZE;
  hf_panic_trace : disjoint panic_buffer PanicKernel.PANIC_BUFFER_SIZE trace_buffer PanicKernel.TRACE_BUFFER_SIZE;
  hf_strings : ∀ p cs, (cs ∈ PanicKernel.literals ∧ p = literal_at cs) ∨ names p = Some cs →
    string_at m array n p cs ∧ apart p cs panic_buffer PanicKernel.PANIC_BUFFER_SIZE ∧
    apart p cs trace_buffer PanicKernel.TRACE_BUFFER_SIZE;
  hf_frames : Forall (λ f, ∃ cs, PanicKernel.name_of names f.2 = Some cs ∧ Z.of_nat (length cs) < 2 ^ 30) frames;
  hf_format : string_at m array n (literal_at fmt) fmt;
  hf_values : ∀ p cs, strs p = Some cs → string_at m array n p cs;
}.

Lemma handler_frame_array m n fmt strs :
  1 <= n → handler_frame m n fmt strs → handler_frame (new_array m array n) n fmt strs.
Proof.
  intros Hn [Ha Hp Ht D1 D2 Hs Hf Hfmt Hv].
  assert (∀ p cs, string_at m array n p cs → string_at (new_array m array n) array n p cs) as Hk
    by (intros p cs Hp'; split; [apply string_new_array; [lia|done]|apply Hp']).
  split; try done.
  - intros i Hi. rewrite new_array_outside; [by apply Hp|lia|]. unfold disjoint in D1. lia.
  - intros p cs Hp'. destruct (Hs p cs Hp') as (? & ? & ?). by split_and!; [apply Hk|..].
  - by apply Hk.
  - intros p cs Hp'. by apply Hk, Hv.
Qed.

(** A handler hands its report to [panic], which copies it once more. *)
Lemma format_and_panic_ok W n rows strs m x :
  W = 32 ∨ W = 64 → 1 <= n <= 1024 → readable m array n →
  handler_frame m n (format_of rows.*1 []) strs → Forall (good_row strs) rows →
  Z.of_nat (sum_list (row_room W strs <$> rows)) < 2 ^ 30 →
  PanicKernel.lock_bounded (PanicKernel.irq x) → PanicKernel.g_panic_kernel x = None →
  let its := concat (row_items W strs <$> rows) in
  ∃ m', format_and_panic W n rows m x = reported W x (take 511 (kept n its)) m'.
Proof.
  intros HW Hn Hr [Ha Hp Ht D1 D2 Hs Hf Hfmt Hv] Hg Hsum Hlock Hnone its.
  pose proof (rows_room W strs rows Hg) as Hroom. fold its in Hroom.
  assert (plain (text its)) as Hplain by (unfold its; rewrite rows_text_ok; by apply rows_plain).
  pose proof (prefix_plain _ _ (kept_prefix n its Hplain) Hplain) as Hkp.
  pose proof (kept_length n its ltac:(lia)) as Hkl.
  unfold format_and_panic, Stdio.snprintf.
  destruct (message_ok W m array n (literal_at (format_of rows.*1 [])) (format_of rows.*1 []) rows.*2 strs its)
    as (m1 & -> & Hc1 & Ho1); try done; try lia.
  { rewrite expand_parts; [by apply rows_expand| |constructor].
    apply Forall_fmap. eapply Forall_impl; [exact Hg|]. intros r [Hr1 _]. by apply plain_literal. }
  cbn [mbind result_bind]. unfold panic, reported.
  assert (∀ p cs, (cs ∈ PanicKernel.literals ∧ p = literal_at cs) ∨ names p = Some cs → cstr m1 p cs) as Hs1.
  { intros p cs Hp'. destruct (Hs p cs Hp') as ([Hc Hap] & _). apply (cstr_frame m); [|done].
    intros a Ha'. apply Ho1. unfold apart in Hap. lia. }
  replace (take 511 (kept n its)) with (kept PanicKernel.PANIC_BUFFER_SIZE (Char <$> kept n its))
    by (rewrite kept_chars, filter_plain by done; done).
  apply (PanicKernel.panic_ok W literal_at panic_buffer trace_buffer reentry_buffer frames names m1 array
    (kept n its) [] (λ _, None)); try done.
  - split; try done.
    + intros i Hi. rewrite Ho1; [by apply Hp|]. unfold disjoint in D1. lia.
    + split; try done.
      * intros cs Hcs. split; [apply Hs1; by left|]. by destruct (Hs (literal_at cs) cs ltac:(by left)) as (_ & _ & ?).
      * intros p cs Hcs. split; [apply Hs1; by right|]. by destruct (Hs p cs ltac:(by right)) as (_ & _ & ?).
    + intros cs Hcs. by destruct (Hs (literal_at cs) cs ltac:(by left)) as (_ & ? & _).
    + intros p cs Hcs. by destruct (Hs p cs ltac:(by right)) as (_ & ? & _).
    + intros p cs [[= -> ->]|?]; [|done]. split; [done|]. unfold apart, disjoint in *. lia.
  - by apply expand_all_literal, plain_literal.
  - rewrite length_fmap. lia.
Qed.

(** The string that a report ends with. *)
Definition only (p : Z) (cs : list Z) : Z → option (list Z) := λ q, if q =? p then Some cs else None.

Lemma only_good p cs label : p ≠ 0 → plain cs → plain label → good_row (only p cs) (label, STR, p).
Proof. intros Hp Hc Hl. split; [done|]. right; right. split_and!; [done..|]. exists cs. unfold only. by rewrite Z.eqb_refl. Qed.

Lemma plain_check cs : forallb (λ c, negb (c =? 37) && storable c) cs = true → plain cs.
Proof.
  intros Hf. apply Forall_forall. intros c Hc. rewrite forallb_forall in Hf. specialize (Hf c).
  rewrite andb_true_iff, negb_true_iff, Z.eqb_neq in Hf. by apply Hf, list_elem_of_In.
Qed.

Lemma error_string_plain e : plain (get_page_fault_error_string e) ∧
  (length (get_page_fault_error_string e) <= 80)%nat ∧
  (0 <= e < 8 → (51 <= length (get_page_fault_error_string e))%nat).
Proof.
  assert (∀ cs : list Z, forallb (λ c, negb (c =? 37) && storable c) cs && (51 <=? length cs)%nat &&
    (length cs <=? 80)%nat = true → plain cs ∧ (length cs <= 80)%nat ∧ (0 <= e < 8 → (51 <= length cs)%nat)) as Hc.
  { intros cs [[H1 H2%Nat.leb_le]%andb_true_iff H3%Nat.leb_le]%andb_true_iff.
    split_and!; [by apply plain_check|done|done]. }
  destruct (decide (0 <= e < 8)) as [He|He].
  - assert (e = 0 ∨ e = 1 ∨ e = 2 ∨ e = 3 ∨ e = 4 ∨ e = 5 ∨ e = 6 ∨ e = 7) as Hcase by lia.
    destruct Hcase as [->|[->|[->|[->|[->|[->|[->| ->]]]]]]]; apply Hc; vm_compute; reflexivity.
  - assert (get_page_fault_error_string e = chars_of "unknown") as ->.
    { unfold get_page_fault_error_string. destruct e as [|q|q]; [lia| |done].
      do 3 (destruct q as [q|q|]; try done; try lia). }
    split_and!; [by apply plain_check; vm_compute|vm_compute; lia|lia].
Qed.

Lemma label_rows_good strs (rows : list row) :
  forallb (λ r, forallb (λ c, negb (c =? 37) && storable c) r.1.1 && ((r.1.2 =? P) || (r.1.2 =? X))) rows = true →
  Forall (good_row strs) rows.
Proof.
  intros Hf. apply Forall_forall. intros r Hr. rewrite forallb_forall in Hf.
  specialize (Hf r). rewrite andb_true_iff, orb_true_iff, !Z.eqb_eq in Hf.
  destruct Hf as [H1 H2]; [by apply list_elem_of_In|]. split; [by apply plain_check|]. tauto.
Qed.

(** A report that fits into both buffers arrives whole. *)
Lemma report_whole W n rows strs m x :
  W = 32 ∨ W = 64 → 1 <= n <= 1024 → readable m array n →
  handler_frame m n (format_of rows.*1 []) strs → Forall (good_row strs) rows →
  Z.of_nat (sum_list (row_room W strs <$> rows)) < n → (length (rows_text W strs rows) <= 511)%nat →
  PanicKernel.lock_bounded (PanicKernel.irq x) → PanicKernel.g_panic_kernel x = None →
  ∃ m', format_and_panic W n rows m x = reported W x (rows_text W strs rows) m'.
Proof.
  intros HW Hn Hr Hf Hg Hsum Hlen Hlock Hnone. pose proof (rows_room W strs rows Hg) as Hroom.
  destruct (format_and_panic_ok W n rows strs m x) as (m' & E); try done; [lia|]. exists m'. rewrite E.
  assert (plain (text (concat (row_items W strs <$> rows)))) as Hp by (rewrite rows_text_ok; by apply rows_plain).
  rewrite (kept_whole n _ Hp), rows_text_ok, take_ge by (done || lia). done.
Qed.

Lemma rows_text_room W strs rows :
  Forall (good_row strs) rows → (length (rows_text W strs rows) <= sum_list (row_room W strs <$> rows))%nat.
Proof.
  intros Hg. rewrite <-rows_text_ok. etrans; [apply text_length|by apply rows_room].
Qed.

(** The rows of a report: labels and numbers, and a string at the end. *)
Lemma report_rows m n fmt p cs (init : list row) label :
  handler_frame m n fmt (only p cs) → plain cs →
  forallb (λ r, forallb (λ c, negb (c =? 37) && storable c) r.1.1 && ((r.1.2 =? P) || (r.1.2 =? X))) init = true →
  plain label → Forall (good_row (only p cs)) (init ++ [(label, STR, p)]).
Proof.
  intros Hf Hc Hi Hl. apply Forall_app. split; [by apply label_rows_good|]. apply Forall_singleton, only_good; try done.
  destruct Hf as [_ _ _ _ _ _ _ _ Hv]. destruct (Hv p cs) as [Hs _]; [unfold only; by rewrite Z.eqb_refl|].
  apply cstr_positive in Hs. lia.
Qed.

Lemma only_eq p cs : only p cs p = Some cs.
Proof. unfold only. by rewrite Z.eqb_refl. Qed.

Lemma i386_page_fault_room cr2 p q strs :
  sum_list (row_room 32 strs <$> i386_page_fault_rows cr2 p q) = (310 + (length (default [] (strs q)) + 0))%nat.
Proof. vm_compute. reflexivity. Qed.

Lemma x64_page_fault_room cr2 p q strs :
  sum_list (row_room 64 strs <$> x64_page_fault_rows cr2 p q) = (798 + (length (default [] (strs q)) + 0))%nat.
Proof. vm_compute. reflexivity. Qed.

Lemma i386_page_fault_ok cr2 p m x :
  let err := get_page_fault_error_string (error_code p) in
  let rows := i386_page_fault_rows cr2 p (literal_at err) in
  let strs := only (literal_at err) err in
  handler_frame m 512 (format_of rows.*1 []) strs →
  PanicKernel.lock_bounded (PanicKernel.irq x) → PanicKernel.g_panic_kernel x = None →
  ∃ m', i386_page_fault cr2 p m x = reported 32 x (rows_text 32 strs rows) m'.
Proof.
  intros err rows strs Hf Hlock Hnone. destruct (error_string_plain (error_code p)) as (Hep & Hel & _).
  fold err in Hep, Hel. apply handler_frame_array in Hf; [|done].
  assert (Forall (good_row strs) rows) as Hg.
  { change rows with (take 11 rows ++ [(NL, STR, literal_at err)]).
    by eapply report_rows; [..|apply plain_check]. }
  pose proof (i386_page_fault_room cr2 p (literal_at err) strs) as Hsum. fold rows in Hsum.
  assert (strs (literal_at err) = Some err) as Herr by apply only_eq.
  rewrite Herr in Hsum. cbn [default from_option id] in Hsum. pose proof (rows_text_room 32 strs rows Hg).
  apply report_whole; try done; [by left|apply new_array_readable; [by destruct Hf|done]|lia|lia].
Qed.

(** The lengths of literals. *)
Ltac literal_lengths :=
  repeat match goal with
  | |- context [length (NL ++ ?l)] => let n := eval vm_compute in (length (NL ++ l)) in change (length (NL ++ l)) with n
  | |- context [length (TB ++ ?l)] => let n := eval vm_compute in (length (TB ++ l)) in change (length (TB ++ l)) with n
  | |- context [length (chars_of ?l)] =>
      let n := eval vm_compute in (length (chars_of l)) in change (length (chars_of l)) with n
  | H : context [length (NL ++ ?l)] |- _ =>
      let n := eval vm_compute in (length (NL ++ l)) in change (length (NL ++ l)) with n in H
  | |- context [length NL] => change (length NL) with 1%nat
  end.

(** On x86_64 the array is too small for the registers and the explanation. *)
Lemma pointer_text_length (x : Z) : length (text (pointer_items 64 x)) = 18%nat.
Proof.
  rewrite pointer_text, !length_app, length_replicate. pose proof (lsd_length 16 (Z.to_nat (64 / 4)) x) as Hl.
  unfold pointer_digits. rewrite length_fmap, length_rev. change (Z.to_nat (64 / 4)) with 16%nat in *. cbn [length]. lia.
Qed.

Lemma row_pointer_length strs label (x : Z) : length (row_text 64 strs (label, P, x)) = (length label + 18)%nat.
Proof.
  unfold row_text. rewrite length_app. cbn [fst snd].
  change (default [] (field 64 strs P x)) with (pointer_items 64 (uwrap 64 x)). by rewrite pointer_text_length.
Qed.

Lemma row_hex_length strs label (x : Z) :
  (length label + 1 <= length (row_text 64 strs (label, X, x)))%nat.
Proof.
  unfold row_text. rewrite length_app. cbn [fst snd].
  change (default [] (field 64 strs X x)) with (Char <$> numeral 16 (uwrap 32 x) digits_lower). rewrite text_chars.
  destruct (numeral_ok 16 (uwrap 32 x) digits_lower) as (Hne & _); [apply table_lower_16|done|apply uwrap_32_range|].
  destruct (numeral 16 _ _); [done|]. cbn [length]. lia.
Qed.

Lemma row_string_length strs label p cs : p ≠ 0 → strs p = Some cs →
  length (row_text 64 strs (label, STR, p)) = (length label + length cs)%nat.
Proof.
  intros Hp E. unfold row_text. rewrite length_app. cbn [fst snd]. unfold field, conversion_items.
  rewrite bool_decide_true by by do 5 right; left. cbn [Z.eqb Pos.eqb]. rewrite (proj2 (Z.eqb_neq _ _) Hp), E.
  change (length label + length (text (Char <$> cs)) = length label + length cs)%nat. by rewrite text_chars.
Qed.

Lemma rows_text_cons W strs r rows : length (rows_text W strs (r :: rows)) = (length (row_text W strs r) + length (rows_text W strs rows))%nat.
Proof. unfold rows_text. rewrite fmap_cons. cbn [concat]. by rewrite length_app. Qed.

Lemma x64_page_fault_ok cr2 p m x :
  let err := get_page_fault_error_string (uwrap 32 (error_code64 p)) in
  let rows := x64_page_fault_rows cr2 p (literal_at err) in
  let strs := only (literal_at err) err in
  handler_frame m 512 (format_of rows.*1 []) strs →
  PanicKernel.lock_bounded (PanicKernel.irq x) → PanicKernel.g_panic_kernel x = None →
  ∃ m' msg, x64_page_fault cr2 p m x = reported 64 x msg m' ∧ msg `prefix_of` rows_text 64 strs rows ∧
    (uwrap 32 (error_code64 p) < 8 → (length msg + 41 <= length (rows_text 64 strs rows))%nat).
Proof.
  intros err rows strs Hf Hlock Hnone.
  destruct (error_string_plain (uwrap 32 (error_code64 p))) as (Hep & Hel & Hmin). fold err in Hep, Hel, Hmin.
  apply handler_frame_array in Hf; [|done].
  assert (Forall (good_row strs) rows) as Hg.
  { change rows with (take 19 rows ++ [(NL, STR, literal_at err)]).
    by eapply report_rows; [..|apply plain_check]. }
  pose proof (x64_page_fault_room cr2 p (literal_at err) strs) as Hsum. fold rows in Hsum.
  assert (strs (literal_at err) = Some err) as Herr by apply only_eq.
  rewrite Herr in Hsum. cbn [default from_option id] in Hsum.
  assert (readable (new_array m array 512) array 512) as Hr by (apply new_array_readable; [by destruct Hf|done]).
  assert (Z.of_nat (sum_list (row_room 64 strs <$> rows)) < 2 ^ 30) as Hsz by lia.
  destruct (format_and_panic_ok 64 512 rows strs (new_array m array 512) x (or_intror eq_refl) ltac:(lia) Hr
    Hf Hg Hsz Hlock Hnone) as (m' & E).
  set (its := concat (row_items 64 strs <$> rows)) in *.
  assert (plain (text its)) as Hp by (unfold its; rewrite rows_text_ok; by apply rows_plain).
  exists m', (take 511 (kept 512 its)). split; [exact E|].
  assert (kept 512 its `prefix_of` rows_text 64 strs rows) as Hpre
    by (rewrite <-rows_text_ok; by apply kept_prefix).
  split; [etrans; [apply prefix_take|done]|]. intros He. pose proof (uwrap_32_range (error_code64 p)).
  rewrite length_take. enough (552 <= length (rows_text 64 strs rows))%nat by lia.
  assert (literal_at err ≠ 0) as Hne.
  { destruct Hf as [_ _ _ _ _ _ _ _ Hv]. destruct (Hv (literal_at err) err Herr) as [Hc _].
    apply cstr_positive in Hc. lia. }
  unfold rows, x64_page_fault_rows, x64_register_rows. cbn [app].
  rewrite !rows_text_cons, !row_pointer_length, (row_string_length _ _ _ err) by done.
  pose proof (row_hex_length strs (NL ++ chars_of "Error Code: 0x") (error_code64 p)) as Hx.
  specialize (Hmin ltac:(lia)). change (length (rows_text 64 strs [])) with 0%nat. literal_lengths. lia.
Qed.

(** The other exceptions: the report ends with the message of the handler. *)
Lemma i386_panic_room b p q strs :
  (sum_list (row_room 32 strs <$> i386_panic_rows b p q) <= 213 + (length (default [] (strs q)) + 0))%nat.
Proof. destruct b; vm_compute; lia. Qed.

Lemma x64_panic_room b p q strs :
  (sum_list (row_room 64 strs <$> x64_panic_rows b p q) <= 733 + (length (default [] (strs q)) + 0))%nat.
Proof. destruct b; vm_compute; lia. Qed.

Lemma row_hex_at_most strs label (x : Z) :
  (length (row_text 64 strs (label, X, x)) <= length label + 10)%nat.
Proof.
  unfold row_text. rewrite length_app. cbn [fst snd].
  change (default [] (field 64 strs X x)) with (Char <$> numeral 16 (uwrap 32 x) digits_lower). rewrite text_chars.
  destruct (numeral_ok 16 (uwrap 32 x) digits_lower) as (_ & Hl & _); [apply table_lower_16|done|apply uwrap_32_range|].
  lia.
Qed.

Lemma x64_panic_length b p q strs cs : q ≠ 0 → strs q = Some cs →
  (length (rows_text 64 strs (x64_panic_rows b p q)) <= 461 + length cs)%nat.
Proof.
  intros Hq E. pose proof (row_hex_at_most strs (NL ++ chars_of "Error Code: 0x") (error_code64 p)) as Hx.
  unfold x64_panic_rows, x64_register_rows. destruct b; cbn [app];
    rewrite !rows_text_cons, !row_pointer_length, (row_string_length _ _ _ cs) by done;
    change (length (rows_text 64 strs [])) with 0%nat; literal_lengths;
    change (length (chars_of "Registers:" ++ NL ++ chars_of "r15 = ")) with 17%nat; lia.
Qed.

Theorem exceptions_reported (b : bool) q msg m x :
  plain msg → (length msg <= 50)%nat → readable m array 1024 →
  PanicKernel.lock_bounded (PanicKernel.irq x) → PanicKernel.g_panic_kernel x = None →
  (∀ p, handler_frame m 1024 (format_of (i386_panic_rows b p q).*1 []) (only q msg) →
     ∃ m', i386_panic_handler b q p m x = reported 32 x (rows_text 32 (only q msg) (i386_panic_rows b p q)) m') ∧
  (∀ p, handler_frame m 1024 (format_of (x64_panic_rows b p q).*1 []) (only q msg) →
     ∃ m', x64_panic_handler b q p m x = reported 64 x (rows_text 64 (only q msg) (x64_panic_rows b p q)) m').
Proof.
  intros Hm Hl Hr Hlock Hnone. assert (only q msg q = Some msg) as Hq by apply only_eq. split; intros p Hf.
  - assert (Forall (good_row (only q msg)) (i386_panic_rows b p q)) as Hg.
    { destruct b; unfold i386_panic_rows; cbn [app].
      - change (_ :: _) with (take 10 (i386_panic_rows true p q) ++ [(NL, STR, q)]).
        by eapply report_rows; [..|apply plain_check].
      - change (_ :: _) with (take 9 (i386_panic_rows false p q) ++ [(NL, STR, q)]).
        by eapply report_rows; [..|apply plain_check]. }
    pose proof (i386_panic_room b p q (only q msg)) as Hroom. rewrite Hq in Hroom. cbn [default from_option id] in Hroom.
    pose proof (rows_text_room 32 (only q msg) _ Hg).
    apply report_whole; [by left|lia|done|done|done|lia|lia|done|done].
  - assert (Forall (good_row (only q msg)) (x64_panic_rows b p q)) as Hg.
    { destruct b; unfold x64_panic_rows; cbn [app x64_register_rows].
      - change (_ :: _) with (take 18 (x64_panic_rows true p q) ++ [(NL, STR, q)]).
        by eapply report_rows; [..|apply plain_check].
      - change (_ :: _) with (take 17 (x64_panic_rows false p q) ++ [(NL, STR, q)]).
        by eapply report_rows; [..|apply plain_check]. }
    assert (q ≠ 0) as Hne.
    { destruct Hf as [_ _ _ _ _ _ _ _ Hv]. destruct (Hv q msg Hq) as [Hc _]. apply cstr_positive in Hc. lia. }
    pose proof (x64_panic_room b p q (only q msg)) as Hroom. rewrite Hq in Hroom. cbn [default from_option id] in Hroom.
    pose proof (x64_panic_length b p q (only q msg) msg Hne Hq).
    apply report_whole; [by right|lia|done|done|done|lia|lia|done|done].
Qed.

End Handlers.

(** ** Properties *)


(** A memory for the witness: the literals one after the other from 0x10000, the arrays
    below. *)
Definition demo_params : i386_params := mk_i386 0xC0101234 2 1 2 3 4 5 6 7 8.

Definition demo_literals : list (list Z) :=
  PanicKernel.literals ++
  [get_page_fault_error_string 2; format_of (i386_page_fault_rows 0 demo_params 0).*1 []].

Fixpoint place (a : Z) (css : list (list Z)) : list (Z * list Z) :=
  match css with [] => [] | cs :: css => (a, cs) :: place (a + Z.of_nat (length cs) + 1) css end.

Definition demo_table : list (Z * list Z) := place 0x10000 demo_literals.

Definition demo_literal_at (cs : list Z) : Z :=
  match filter (λ e : Z * list Z, e.2 = cs) demo_table with e :: _ => e.1 | [] => 1 end.

Definition demo_memory : gmap Z Z :=
  foldr (λ e m, bytes_at e.1 (e.2 ++ [0]) ∪ m) (fill ∅ 0x2000 1 512) demo_table.

Fixpoint cstr_check (m : gmap Z Z) (s : Z) (cs : list Z) : bool :=
  match cs with
  | [] => (0 <? s) && bool_decide (m !! s = Some 0)
  | c :: cs => (0 <? s) && negb (c =? 0) && bool_decide (m !! s = Some c) && cstr_check m (s + 1) cs
  end.

Lemma cstr_check_ok m s cs : cstr_check m s cs = true → cstr m s cs.
Proof.
  revert s. induction cs as [|c cs IH]; intros s; cbn [cstr_check cstr];
    rewrite ?andb_true_iff, ?negb_true_iff, bool_decide_eq_true, Z.ltb_lt, ?Z.eqb_neq; [tauto|].
  intros [[[? ?] ?] ?]. split_and!; [done..|by apply IH].
Qed.

(** The literals that the report needs are all in place, above the arrays. *)
Lemma demo_placed cs : cs ∈ demo_literals → cstr demo_memory (demo_literal_at cs) cs ∧ 0x10000 <= demo_literal_at cs.
Proof.
  intros Hcs. assert (forallb (λ cs, cstr_check demo_memory (demo_literal_at cs) cs &&
    (0x10000 <=? demo_literal_at cs)) demo_literals = true) as Hc by (vm_compute; reflexivity).
  rewrite forallb_forall in Hc. specialize (Hc cs). rewrite andb_true_iff, Z.leb_le in Hc.
  destruct Hc as [Hc ?]; [by apply list_elem_of_In|]. split; [by apply cstr_check_ok|done].
Qed.

Lemma demo_frame :
  let err := get_page_fault_error_string 2 in
  handler_frame demo_literal_at 0x2000 0x3000 [(0xC0100010, 0)] 0x1000 (λ _, None) demo_memory 512
    (format_of (i386_page_fault_rows 0xDEAD0000 demo_params (demo_literal_at err)).*1 [])
    (only (demo_literal_at err) err).
Proof.
  intros err.
  assert (∀ cs a n, cs ∈ demo_literals → a + n <= 0x10000 → string_at demo_memory a n (demo_literal_at cs) cs) as Hs.
  { intros cs a n Hcs Ha. destruct (demo_placed cs Hcs) as [? ?]. split; [done|]. right. lia. }
  split; try lia.
  - intros i Hi. split; [lia|]. assert (forallb (λ a, bool_decide (is_Some (demo_memory !! a))) (seqZ 0x2000 512) = true)
      as Hc by (vm_compute; reflexivity).
    rewrite forallb_forall in Hc. specialize (Hc (0x2000 + i)). rewrite bool_decide_eq_true in Hc.
    unfold PanicKernel.PANIC_BUFFER_SIZE in Hi. apply Hc, list_elem_of_In, elem_of_seqZ. lia.
  - left. lia.
  - left. vm_compute. done.
  - intros p cs [[Hcs ->]|?]; [|done]. assert (cs ∈ demo_literals) as Hd by (unfold demo_literals; apply elem_of_app; by left).
    destruct (Hs cs 0x1000 512 Hd ltac:(lia)) as [? ?].
    destruct (Hs cs 0x2000 512 Hd ltac:(lia)) as [? ?], (Hs cs 0x3000 75 Hd ltac:(lia)) as [? ?]. done.
  - constructor; [|constructor]. exists (chars_of "(null)"). split; [done|]. by vm_compute.
  - assert (format_of (i386_page_fault_rows 0xDEAD0000 demo_params (demo_literal_at err)).*1 []
      = format_of (i386_page_fault_rows 0 demo_params 0).*1 []) as -> by (vm_compute; reflexivity).
    apply Hs; [|lia].
    unfold demo_literals. apply elem_of_app. right. right. left.
  - intros p cs. unfold only. destruct (Z.eqb_spec p (demo_literal_at err)) as [->|]; [|done]. intros [= <-].
    apply Hs; [|lia]. unfold demo_literals. apply elem_of_app. right. left.
Qed.


End Handlers.
