(* ===== verification/FloatingPoint.v ===== *)
(** * FloatingPoint: the control registers and the start of the floating-point unit

    Models the control registers behind platform/i386/creg.hpp and platform/x86_64/creg.hpp,
    the bits of src/Boot/include/creg_bits.h and
    [i386::AbstractFloatingPointFeaturesInitializer] with its two implementations
    (platform/.../floating_point_features_initializer.hpp).

    The initializer is written over the interface [ControlRegisters], its virtual methods,
    which both platforms implement.  What [CPUID] answers and the masks of the compiler's
    cpuid.h are parameters.  [fninit] is the instruction: the processor refuses it (an
    exception without a handler at this time) while CR0 says that there is no unit to
    address.  The messages of [TRACE] are kept in their order; Logging.v says where they go. *)
From S2P Require Import Prelude PageEntries.

(** ** The bits *)
Definition CR0_MP : Z := Z.shiftl 1 1.
Definition CR0_EM : Z := Z.shiftl 1 2.
Definition CR0_TS : Z := Z.shiftl 1 3.
Definition CR0_NE : Z := Z.shiftl 1 5.
Definition CR4_OSFXSR : Z := Z.shiftl 1 9.
Definition CR4_OSXMMEXCPT : Z := Z.shiftl 1 10.

(** ** The interface of the initializer to the registers *)
Class ControlRegisters (R : Type) := {
  uintptr_width : Z;
  get_cr0 : R → Z;
  set_cr0 : R → Z → R;
  get_cr4 : R → Z;
  set_cr4 : R → Z → R;
}.
#[global] Hint Mode ControlRegisters ! : typeclass_instances.
Arguments uintptr_width R {_}.

(** [other] is the rest of the registers. *)
Class ControlRegistersLaws (R : Type) `{ControlRegisters R} := {
  other : R → Z * Z;
  uintptr_wide : 32 <= uintptr_width R;
  get_cr0_fits (r : R) : fits (uintptr_width R) (get_cr0 r);
  get_cr4_fits (r : R) : fits (uintptr_width R) (get_cr4 r);
  get_set_cr0 (r : R) v : fits (uintptr_width R) v → get_cr0 (set_cr0 r v) = v;
  get_set_cr4 (r : R) v : fits (uintptr_width R) v → get_cr4 (set_cr4 r v) = v;
  set_cr0_cr4 (r : R) v : get_cr4 (set_cr0 r v) = get_cr4 r;
  set_cr4_cr0 (r : R) v : get_cr0 (set_cr4 r v) = get_cr0 r;
  set_cr0_other (r : R) v : other (set_cr0 r v) = other r;
  set_cr4_other (r : R) v : other (set_cr4 r v) = other r;
}.

(** ** The registers of each platform

    A register holds a value of its width: the functions take and answer [uint32_t] or
    [uint64_t]. *)
Module I386Creg.

Record t := mk { cr0 : Z; cr2 : Z; cr3 : Z; cr4 : Z }.

Definition get_cr0 (r : t) : Z := uwrap 32 (cr0 r).
Definition set_cr0 (r : t) (value : Z) : t := mk (uwrap 32 value) (cr2 r) (cr3 r) (cr4 r).
Definition get_cr2 (r : t) : Z := uwrap 32 (cr2 r).
Definition get_cr3 (r : t) : Z := uwrap 32 (cr3 r).
Definition set_cr3 (r : t) (value : Z) : t := mk (cr0 r) (cr2 r) (uwrap 32 value) (cr4 r).
Definition get_cr4 (r : t) : Z := uwrap 32 (cr4 r).
Definition set_cr4 (r : t) (value : Z) : t := mk (cr0 r) (cr2 r) (cr3 r) (uwrap 32 value).

End I386Creg.

Module X64Creg.

Record t := mk { cr0 : Z; cr2 : Z; cr3 : Z; cr4 : Z }.

Definition get_cr0 (r : t) : Z := uwrap 64 (cr0 r).
Definition set_cr0 (r : t) (value : Z) : t := mk (uwrap 64 value) (cr2 r) (cr3 r) (cr4 r).
Definition get_cr2 (r : t) : Z := uwrap 64 (cr2 r).
Definition get_cr3 (r : t) : Z := uwrap 64 (cr3 r).
Definition set_cr3 (r : t) (value : Z) : t := mk (cr0 r) (cr2 r) (uwrap 64 value) (cr4 r).
Definition get_cr4 (r : t) : Z := uwrap 64 (cr4 r).
Definition set_cr4 (r : t) (value : Z) : t := mk (cr0 r) (cr2 r) (cr3 r) (uwrap 64 value).

End X64Creg.

(** The overrides of the two final classes. *)
#[global] Instance i386_initializer : ControlRegisters I386Creg.t := {|
  uintptr_width := 32;
  get_cr0 := I386Creg.get_cr0; set_cr0 := I386Creg.set_cr0;
  get_cr4 := I386Creg.get_cr4; set_cr4 := I386Creg.set_cr4;
|}.

#[global] Instance x86_64_initializer : ControlRegisters X64Creg.t := {|
  uintptr_width := 64;
  get_cr0 := X64Creg.get_cr0; set_cr0 := X64Creg.set_cr0;
  get_cr4 := X64Creg.get_cr4; set_cr4 := X64Creg.set_cr4;
|}.

#[global] Instance i386_initializer_laws : ControlRegistersLaws I386Creg.t.
Proof.
  refine {| other := λ r : I386Creg.t, (I386Creg.cr2 r, I386Creg.cr3 r) |};
    try done; intros; [by apply uwrap_fits..| |];
    cbv [get_cr0 set_cr0 get_cr4 set_cr4 i386_initializer x86_64_initializer I386Creg.get_cr0 I386Creg.set_cr0 I386Creg.get_cr4 I386Creg.set_cr4 X64Creg.get_cr0 X64Creg.set_cr0 X64Creg.get_cr4 X64Creg.set_cr4 I386Creg.cr0 I386Creg.cr4 X64Creg.cr0 X64Creg.cr4]; by rewrite !(uwrap_small _ v) by done.
Qed.

#[global] Instance x86_64_initializer_laws : ControlRegistersLaws X64Creg.t.
Proof.
  refine {| other := λ r : X64Creg.t, (X64Creg.cr2 r, X64Creg.cr3 r) |};
    try done; intros; [by apply uwrap_fits..| |];
    cbv [get_cr0 set_cr0 get_cr4 set_cr4 i386_initializer x86_64_initializer I386Creg.get_cr0 I386Creg.set_cr0 I386Creg.get_cr4 I386Creg.set_cr4 X64Creg.get_cr0 X64Creg.set_cr0 X64Creg.get_cr4 X64Creg.set_cr4 I386Creg.cr0 I386Creg.cr4 X64Creg.cr0 X64Creg.cr4]; by rewrite !(uwrap_small _ v) by done.
Qed.

(** ** The initializer *)
Module FloatingPointFeaturesInitializer.

(** The masks of cpuid.h that the code tests. *)
Record cpuid_h := mkcpuid {
  bit_MMX : Z; bit_SSE : Z; bit_SSE2 : Z; bit_SSE3 : Z; bit_SSE4_1 : Z; bit_SSE4_2 : Z;
}.

Definition bit_FPU : Z := Z.shiftl 1 0.

(** The registers, the control word of the x87 unit once it is known, and the messages. *)
Record t (R : Type) := mk { regs : R; control_word : option Z; traced : list string }.
Arguments mk {R} _ _ _.
Arguments regs {R} _.
Arguments control_word {R} _.
Arguments traced {R} _.

Section Methods.
Context {R : Type} `{ControlRegisters R}.
(** [__get_cpuid(leaf, &a, &b, &c, &d)], [None] when it answers 0. *)
Context (get_cpuid : Z → option (Z * Z * Z * Z)) (bits : cpuid_h).
Implicit Types (x : t R).

Definition TRACE (msg : string) x : t R := mk (regs x) (control_word x) (traced x ++ [msg]).

Definition with_regs x (r : R) : t R := mk r (control_word x) (traced x).

(** The control word after the reset of the unit. *)
Definition INITIAL_CONTROL_WORD : Z := 0x37F.

Definition fninit x : result (t R) :=
  if (Z.land (get_cr0 (regs x)) CR0_EM =? 0) && (Z.land (get_cr0 (regs x)) CR0_TS =? 0)
  then mret (mk (regs x) (Some INITIAL_CONTROL_WORD) (traced x))
  else Fault InvalidAccess.

(** The complement is that of an [int], converted to [uintptr_t]. *)
Definition initialize_fpu x : result (t R) :=
  let x := TRACE "CPU supports an FPU. Initializing..." x in
  let cr0 := get_cr0 (regs x) in
  let cr0 := Z.land cr0 (uwrap (uintptr_width R) (Z.lnot (Z.lor (Z.lor CR0_EM CR0_TS) CR0_NE))) in
  let x := with_regs x (set_cr0 (regs x) cr0) in
  fninit x.

Definition initialize_sse x : t R :=
  let x := TRACE "CPU supports SSE. Initializing..." x in
  let cr0 := get_cr0 (regs x) in
  let cr0 := Z.land cr0 (uwrap (uintptr_width R) (Z.lnot CR0_EM)) in
  let cr0 := Z.lor cr0 CR0_MP in
  let x := with_regs x (set_cr0 (regs x) cr0) in
  let cr4 := get_cr4 (regs x) in
  let cr4 := Z.lor cr4 CR4_OSFXSR in
  let cr4 := Z.lor cr4 CR4_OSXMMEXCPT in
  with_regs x (set_cr4 (regs x) cr4).

(** [d & bit] as a condition. *)
Definition has (features bit : Z) : bool := negb (Z.land features bit =? 0).

Definition report (b : bool) (msg : string) x : t R := if b then TRACE msg x else x.

Definition initialize_floating_point_features x : result (t R) :=
  let x := TRACE "Setting up floating point features..." x in
  match get_cpuid 1 with
  | None => mret (TRACE "Unable to get CPU features from CPUID." x)
  | Some (a, b, c, d) =>
      x ← (if has d bit_FPU then initialize_fpu x else mret x);
      let x := report (has d (bit_MMX bits)) "MMX support" x in
      let x := if has d (bit_SSE bits) then initialize_sse x else x in
      let x := report (has d (bit_SSE2 bits)) "SSE2 support" x in
      let x := report (has c (bit_SSE3 bits)) "SSE3 support" x in
      let x := report (has c (bit_SSE4_1 bits)) "SSE4.1 support" x in
      let x := report (has c (bit_SSE4_2 bits)) "SSE4.2 support" x in
      mret x
  end.

End Methods.

(** ** Bits *)
Section Bits.
Context {R : Type} `{ControlRegistersLaws R}.
Notation W := (uintptr_width R).

Lemma clear_mask_bit x m i :
  fits W x → 0 <= i → Z.testbit (Z.land x (uwrap W (Z.lnot m))) i = Z.testbit x i && negb (Z.testbit m i).
Proof.
  intros Hx Hi. pose proof uintptr_wide.
  rewrite Z.land_spec, uwrap_testbit, Z.lnot_spec by lia.
  destruct (Z.ltb_spec i W); [done|]. by rewrite (fits_testbit_high W x).
Qed.

Lemma mask_fits k : 0 <= k < 32 → fits W (Z.shiftl 1 k).
Proof.
  intros Hk. pose proof uintptr_wide. rewrite Z.shiftl_1_l. split; [lia|]. apply Z.pow_lt_mono_r; lia.
Qed.

(** What the two steps do to the bits of the registers. *)
Definition fpu_cr0 (cr0 : Z) : Z := Z.land cr0 (uwrap W (Z.lnot (Z.lor (Z.lor CR0_EM CR0_TS) CR0_NE))).
Definition sse_cr0 (cr0 : Z) : Z := Z.lor (Z.land cr0 (uwrap W (Z.lnot CR0_EM))) CR0_MP.
Definition sse_cr4 (cr4 : Z) : Z := Z.lor (Z.lor cr4 CR4_OSFXSR) CR4_OSXMMEXCPT.

Lemma fpu_cr0_fits cr0 : fits W cr0 → fits W (fpu_cr0 cr0).
Proof. pose proof uintptr_wide. intros. apply fits_land_l; [lia|done]. Qed.

Lemma sse_cr0_fits cr0 : fits W cr0 → fits W (sse_cr0 cr0).
Proof.
  pose proof uintptr_wide. intros. apply fits_lor; [lia|apply fits_land_l; [lia|done]|by apply mask_fits].
Qed.

Lemma sse_cr4_fits cr4 : fits W cr4 → fits W (sse_cr4 cr4).
Proof.
  pose proof uintptr_wide. intros. apply fits_lor; [lia| |by apply mask_fits].
  apply fits_lor; [lia|done|by apply mask_fits].
Qed.

Lemma fpu_cr0_bit cr0 i :
  fits W cr0 → 0 <= i →
  Z.testbit (fpu_cr0 cr0) i = negb ((i =? 2) || (i =? 3) || (i =? 5)) && Z.testbit cr0 i.
Proof.
  intros Hx Hi. unfold fpu_cr0, CR0_EM, CR0_TS, CR0_NE. rewrite clear_mask_bit by done.
  by rewrite !Z.lor_spec, !testbit_shiftl_1, andb_comm by done.
Qed.

Lemma sse_cr0_bit cr0 i :
  fits W cr0 → 0 <= i → Z.testbit (sse_cr0 cr0) i = (i =? 1) || negb (i =? 2) && Z.testbit cr0 i.
Proof.
  intros Hx Hi. unfold sse_cr0, CR0_EM, CR0_MP. rewrite Z.lor_spec, clear_mask_bit by done.
  by rewrite !testbit_shiftl_1, orb_comm, (andb_comm (Z.testbit cr0 i)) by done.
Qed.

Lemma sse_cr4_bit cr4 i :
  0 <= i → Z.testbit (sse_cr4 cr4) i = (i =? 9) || (i =? 10) || Z.testbit cr4 i.
Proof.
  intros Hi. unfold sse_cr4, CR4_OSFXSR, CR4_OSXMMEXCPT. rewrite !Z.lor_spec, !testbit_shiftl_1 by done.
  destruct (Z.testbit cr4 i), (i =? 9), (i =? 10); done.
Qed.

Lemma fninit_ok (x : t R) :
  Z.testbit (get_cr0 (regs x)) 2 = false → Z.testbit (get_cr0 (regs x)) 3 = false →
  fninit x = Ok (mk (regs x) (Some INITIAL_CONTROL_WORD) (traced x)).
Proof. intros E2 E3. unfold fninit, CR0_EM, CR0_TS. by rewrite !land_bit_eqb, E2, E3 by done. Qed.

Lemma initialize_fpu_ok (x : t R) :
  initialize_fpu x = Ok (mk (set_cr0 (regs x) (fpu_cr0 (get_cr0 (regs x)))) (Some INITIAL_CONTROL_WORD)
    (traced x ++ ["CPU supports an FPU. Initializing..."%string])).
Proof.
  unfold initialize_fpu. apply fninit_ok; cbn [regs with_regs TRACE];
    change (Z.land _ _) with (fpu_cr0 (get_cr0 (regs x)));
    rewrite get_set_cr0 by apply fpu_cr0_fits, get_cr0_fits; by rewrite fpu_cr0_bit by (apply get_cr0_fits || done).
Qed.

(** What the processor asks of CR0 and CR4 before it executes x87 and SSE instructions. *)
Definition x87_usable (r : R) : Prop :=
  Z.testbit (get_cr0 r) 2 = false ∧ Z.testbit (get_cr0 r) 3 = false.
Definition sse_usable (r : R) : Prop := x87_usable r ∧ Z.testbit (get_cr4 r) 9 = true.

End Bits.

(** ** The steps *)
Section Correctness.
Context {R : Type} `{ControlRegistersLaws R} (bits : cpuid_h).

Definition said (b : bool) (msg : string) : list string := if b then [msg] else [].

Definition expected_cr0 (fpu sse : bool) (cr0 i : Z) : bool :=
  (sse && (i =? 1))
  || negb (sse && (i =? 2)) && negb (fpu && ((i =? 2) || (i =? 3) || (i =? 5))) && Z.testbit cr0 i.

Definition expected_cr4 (sse : bool) (cr4 i : Z) : bool :=
  sse && ((i =? 9) || (i =? 10)) || Z.testbit cr4 i.

Definition messages (c d : Z) : list string :=
  said (has d bit_FPU) "CPU supports an FPU. Initializing..." ++
  said (has d (bit_MMX bits)) "MMX support" ++
  said (has d (bit_SSE bits)) "CPU supports SSE. Initializing..." ++
  said (has d (bit_SSE2 bits)) "SSE2 support" ++
  said (has c (bit_SSE3 bits)) "SSE3 support" ++
  said (has c (bit_SSE4_1 bits)) "SSE4.1 support" ++
  said (has c (bit_SSE4_2 bits)) "SSE4.2 support".

(** The state after the registers have been set up for the features found. *)
Definition prepared (fpu sse : bool) (x x' : t R) : Prop :=
  (∀ i, 0 <= i → Z.testbit (get_cr0 (regs x')) i = expected_cr0 fpu sse (get_cr0 (regs x)) i) ∧
  (∀ i, 0 <= i → Z.testbit (get_cr4 (regs x')) i = expected_cr4 sse (get_cr4 (regs x)) i) ∧
  other (regs x') = other (regs x) ∧
  control_word x' = if fpu then Some INITIAL_CONTROL_WORD else control_word x.

Lemma report_eq b msg (x : t R) :
  report b msg x = mk (regs x) (control_word x) (traced x ++ said b msg).
Proof. destruct b, x; [done|]. cbn. by rewrite app_nil_r. Qed.

Lemma fpu_step (fpu : bool) (x : t R) :
  ∃ x', (if fpu then initialize_fpu x else mret x) = Ok x' ∧ prepared fpu false x x' ∧
    traced x' = traced x ++ said fpu "CPU supports an FPU. Initializing...".
Proof.
  destruct fpu; [rewrite initialize_fpu_ok|]; eexists; (split; [done|]); cbn [traced said].
  - split; [|done]. unfold prepared. cbn [regs control_word].
    rewrite set_cr0_other, set_cr0_cr4, get_set_cr0 by apply fpu_cr0_fits, get_cr0_fits.
    split_and!; [|done..]. intros i Hi. by rewrite fpu_cr0_bit by (apply get_cr0_fits || done).
  - rewrite app_nil_r. by split.
Qed.

Lemma sse_step (fpu sse : bool) (x x1 : t R) :
  prepared fpu false x x1 →
  let x2 := if sse then initialize_sse x1 else x1 in
  prepared fpu sse x x2 ∧ traced x2 = traced x1 ++ said sse "CPU supports SSE. Initializing...".
Proof.
  intros (Hb0 & H4 & Ho & Hc). destruct sse; cbn zeta; [|by rewrite app_nil_r]. split; [|done].
  unfold prepared. cbn [initialize_sse regs with_regs TRACE control_word].
  change (Z.lor (Z.land _ _) CR0_MP) with (sse_cr0 (R:=R) (get_cr0 (regs x1))).
  rewrite set_cr4_other, set_cr0_other, set_cr4_cr0, set_cr0_cr4.
  change (Z.lor (Z.lor _ _) CR4_OSXMMEXCPT) with (sse_cr4 (get_cr4 (regs x1))).
  rewrite get_set_cr0 by apply sse_cr0_fits, get_cr0_fits.
  rewrite get_set_cr4 by apply sse_cr4_fits, get_cr4_fits.
  split_and!; [..|done|done].
  - intros i Hi. rewrite sse_cr0_bit, Hb0 by (apply get_cr0_fits || done).
    unfold expected_cr0. cbn [andb negb orb]. by rewrite andb_assoc.
  - intros i Hi. rewrite sse_cr4_bit, H4 by done. done.
Qed.

End Correctness.

(** C34: Setting up the floating-point features, on i386 and x86_64 and for every answer of
    CPUID: without an answer only a message is logged.  Otherwise [fninit] never meets a
    unit that is switched off, and exactly these bits change: with an FPU, emulation, task
    switched and numeric error of CR0 are cleared and the unit is reset; with SSE, emulation
    is cleared and monitor coprocessor set in CR0, and the two bits of the operating
    system's support are set in CR4.  The other registers keep their values, each feature
    found is logged, and x87 and SSE instructions are then allowed where the CPU has them. *)
Theorem floating_point_set_up {R : Type} `{ControlRegistersLaws R}
    (get_cpuid : Z → option (Z * Z * Z * Z)) (bits : cpuid_h) (x : t R) :
  ∃ x', initialize_floating_point_features get_cpuid bits x = Ok x' ∧
    let start := traced x ++ ["Setting up floating point features..."%string] in
    match get_cpuid 1 with
    | None => x' = mk (regs x) (control_word x)
                     (start ++ ["Unable to get CPU features from CPUID."%string])
    | Some (a, b, c, d) =>
        let fpu := has d bit_FPU in
        let sse := has d (bit_SSE bits) in
        prepared fpu sse x x' ∧ traced x' = start ++ messages bits c d ∧
        (fpu = true → x87_usable (regs x')) ∧ (fpu = true → sse = true → sse_usable (regs x'))
    end.
Proof.
  unfold initialize_floating_point_features. destruct (get_cpuid 1) as [[[[a b] c] d]|]; [|by eexists].
  destruct (fpu_step (has d bit_FPU) (TRACE "Setting up floating point features..." x))
    as (x1 & -> & Hp & Ht). cbn [mbind result_bind]. cbn zeta. rewrite (report_eq _ "MMX support").
  set (x2 := mk (regs x1) (control_word x1) (traced x1 ++ said (has d (bit_MMX bits)) "MMX support")).
  destruct (sse_step (has d bit_FPU) (has d (bit_SSE bits)) x x2) as [Hs Ht2]; [exact Hp|].
  cbn zeta in Hs, Ht2. set (x3 := if has d (bit_SSE bits) then initialize_sse x2 else x2) in *. clearbody x3.
  rewrite !report_eq. eexists. split; [done|]. cbn [traced regs control_word].
  split; [exact Hs|]. split.
  { rewrite Ht2. unfold x2. cbn [traced]. rewrite Ht. unfold messages. cbn [traced TRACE]. by rewrite <-!app_assoc. }
  destruct Hs as (Hb0 & H4 & _). unfold sse_usable, x87_usable.
  rewrite !Hb0, H4 by done. unfold expected_cr0, expected_cr4.
  split; [intros ->|intros -> ->]; cbn; by rewrite ?andb_false_r.
Qed.

(** A processor with all features but SSE4, started by the boot code with the numeric-error
    bit and emulation set. *)
Definition demo_bits : cpuid_h :=
  mkcpuid (Z.shiftl 1 23) (Z.shiftl 1 25) (Z.shiftl 1 26) (Z.shiftl 1 0) (Z.shiftl 1 19) (Z.shiftl 1 20).

Definition demo_cpuid (leaf : Z) : option (Z * Z * Z * Z) :=
  if leaf =? 1 then Some (0, 0, 1, 0x0783FBFF) else None.

Definition demo_start : t I386Creg.t := mk (I386Creg.mk 0x80000035 0 0x1000 0x10) None [].

Example floating_point_demo :
  initialize_floating_point_features demo_cpuid demo_bits demo_start
  = Ok (mk (I386Creg.mk 0x80000013 0 0x1000 0x610) (Some 0x37F)
        ["Setting up floating point features..."; "CPU supports an FPU. Initializing...";
         "MMX support"; "CPU supports SSE. Initializing..."; "SSE2 support"; "SSE3 support"]%string).
Proof. vm_compute. reflexivity. Qed.

Lemma floating_point_set_up_witness :
  ∃ x', initialize_floating_point_features demo_cpuid demo_bits demo_start = Ok x' ∧ sse_usable (regs x').
Proof.
  destruct (floating_point_set_up demo_cpuid demo_bits demo_start) as (x' & E & _ & _ & _ & Hs).
  exists x'. split; [exact E|]. apply Hs; reflexivity.
Defined.

End FloatingPointFeaturesInitializer.
