(* ===== verification/KernelRun.v ===== *)
(** * KernelRun: what the kernel does once it is up

    Models the demonstration of context switching in [Kernel::try_run] over the scheduler, and
    [Kernel::do_console_loop] (src/Kernel/src/kernel.cpp) over [LineEditor], the terminal and
    the keyboard.  The keyboard is the list of the events it is going to
    deliver, and the loop ends, in the model, where it waits for one that does not come.

    [Console.session] says which lines a user enters and on which row the cursor is; the
    theorems show that the loop keeps exactly these lines, and when it stops the kernel. *)
From S2P Require Import Prelude Storage RingBuffer Vector TextDisplay Terminal LinkedList LineEditor Scheduler Logging.

(** ** Two flows that take turns

    The timer does not interrupt them here.  [task] runs as a thread beside the flow that started it, each giving up the CPU by
    [yield] only.  A turn is what the flow on the CPU does up to its next [yield], or to the
    end of its loop. *)
Module Demonstration.

Section Methods.
Context {T : Type} `{TextOutputStream T}.

(** [scheduler_], the terminal, [g_count], and the loop variable of [task]. *)
Record t := mk { scheduler_ : Scheduler.t; terminal_ : T; g_count : Z; i : Z }.

(** [new Thread(task, &terminal_)] is at [thread], [new ThreadExternalStack] at [external]. *)
Definition start (thread external : Z) (s : Scheduler.t) (terminal : T) : result t :=
  s ← Scheduler.add (Scheduler.new_thread s thread) (UniquePointer.init thread);
  s ← Scheduler.begin (Scheduler.new_thread_external_stack s external) (UniquePointer.init external);
  mret (mk s terminal 1 0).

(** The loop of [try_run]: whether it goes on. *)
Definition main_turn (x : t) : result (bool * t) :=
  if 0 <? g_count x then
    terminal ← put_char (terminal_ x) 98;
    s ← Scheduler.yield (scheduler_ x);
    mret (true, mk s terminal (g_count x) (i x))
  else
    terminal ← put_char (terminal_ x) NEWLINE;
    mret (false, mk (scheduler_ x) terminal (g_count x) (i x)).

(** [task], which returns to [vanish]. *)
Definition task_turn (x : t) : result (bool * t) :=
  if i x <? 20 then
    terminal ← put_char (terminal_ x) 97;
    s ← Scheduler.yield (scheduler_ x);
    mret (true, mk s terminal (g_count x) (i x + 1))
  else
    let x := mk (scheduler_ x) (terminal_ x) (g_count x - 1) (i x) in
    s ← Scheduler.vanish (scheduler_ x);
    mret (true, mk s (terminal_ x) (g_count x) (i x)).

Definition turn (x : t) : result (bool * t) :=
  if cpu (Scheduler.shared (scheduler_ x)) =? BOOT then main_turn x else task_turn x.

Fixpoint turns (n : nat) (x : t) : result t :=
  match n with
  | O => mret x
  | S n => '(goes_on, x) ← turn x; if goes_on : bool then turns n x else mret x
  end.

(** The threads while [main] or [task] has the CPU. *)
Context (thread external : Z) (Hthread : thread ≠ 0).

Definition main_runs (a : Scheduler.queues) : Prop :=
  a = Scheduler.mkqueues [(thread, thread)] [] (Some (external, BOOT)) ∨
  a = Scheduler.mkqueues [] [(thread, thread)] (Some (external, BOOT)).

Definition task_runs : Scheduler.queues :=
  Scheduler.mkqueues [] [(external, BOOT)] (Some (thread, thread)).

Lemma rep_cpu s a : Scheduler.rep s a → cpu (Scheduler.shared s) = Scheduler.running a.
Proof. by intros ((_ & _ & _ & _ & _ & ? & _) & _). Qed.

Lemma main_yields s a :
  Scheduler.rep s a → main_runs a → ∃ s', Scheduler.yield s = Ok s' ∧ Scheduler.rep s' task_runs.
Proof.
  intros Hr Ha. destruct (Scheduler.yield_ok 0 ltac:(lia) s a Hr) as (s' & E & Hr');
    [by destruct Ha as [-> | ->]|]. exists s'. split; [done|]. by destruct Ha as [-> | ->].
Qed.

Lemma task_yields s :
  Scheduler.rep s task_runs → ∃ s' a, Scheduler.yield s = Ok s' ∧ Scheduler.rep s' a ∧ main_runs a.
Proof.
  intros Hr. destruct (Scheduler.yield_ok 0 ltac:(lia) s task_runs Hr) as (s' & E & Hr'); [done|].
  exists s'. eexists. split_and!; [done|done|by right].
Qed.

(** One turn of each flow. *)
Lemma main_turn_ok s a st c k :
  Scheduler.rep s a → main_runs a → 0 < c →
  ∃ s', Scheduler.rep s' task_runs ∧
    turn (mk s st c k) = (st ← put_char st 98; mret (true, mk s' st c k)).
Proof.
  intros Hr Ha Hc. destruct (main_yields s a Hr Ha) as (s' & E & Hr'). exists s'. split; [done|].
  unfold turn. cbn [scheduler_]. rewrite (rep_cpu _ _ Hr).
  assert (Scheduler.running a = BOOT) as -> by (by destruct Ha as [-> | ->]). cbn [Z.eqb BOOT].
  unfold main_turn. cbn [g_count terminal_ scheduler_ i]. rewrite (proj2 (Z.ltb_lt _ _) Hc).
  destruct (put_char st 98); [|done]. cbn [mbind result_bind]. by rewrite E.
Qed.

Lemma task_turn_ok s st c k :
  Scheduler.rep s task_runs → k < 20 →
  ∃ s' a, Scheduler.rep s' a ∧ main_runs a ∧
    turn (mk s st c k) = (st ← put_char st 97; mret (true, mk s' st c (k + 1))).
Proof.
  intros Hr Hk. destruct (task_yields s Hr) as (s' & a & E & Hr' & Ha). exists s', a. split_and!; [done..|].
  unfold turn. cbn [scheduler_]. rewrite (rep_cpu _ _ Hr).
  change (Scheduler.running task_runs =? BOOT) with (thread =? 0). rewrite (proj2 (Z.eqb_neq _ _) Hthread). unfold task_turn. cbn [g_count terminal_ scheduler_ i].
  rewrite (proj2 (Z.ltb_lt _ _) Hk). destruct (put_char st 97); [|done]. cbn [mbind result_bind]. by rewrite E.
Qed.

Lemma task_returns s st c :
  Scheduler.rep s task_runs → turn (mk s st c 20) = Fault InvalidAccess.
Proof.
  intros Hr. unfold turn. cbn [scheduler_]. rewrite (rep_cpu _ _ Hr).
  change (Scheduler.running task_runs =? BOOT) with (thread =? 0). rewrite (proj2 (Z.eqb_neq _ _) Hthread).
  unfold task_turn. cbn [g_count terminal_ scheduler_ i]. change (20 <? 20) with false.
  rewrite (Scheduler.vanish_faults _ _ Hr). by rewrite decide_False by by intros [|].
Qed.

Lemma rounds k : ∀ s a st,
  Scheduler.rep s a → main_runs a → (k <= 20)%nat →
  turns (2 * k + 2) (mk s st 1 (20 - Z.of_nat k))
  = (_ ← put_all st (concat (replicate k [98; 97]) ++ [98]); Fault InvalidAccess).
Proof.
  induction k as [|k IH]; intros s a st Hr Ha Hk.
  - destruct (main_turn_ok s a st 1 (20 - Z.of_nat 0) Hr Ha ltac:(lia)) as (s1 & Hr1 & E1).
    cbn [Nat.mul Nat.add turns]. rewrite E1. cbn [put_all app concat replicate].
    destruct (put_char st 98) as [st1|]; [|done]. cbn [mbind result_bind mret result_ret].
    change (20 - Z.of_nat 0) with 20. by rewrite (task_returns s1 st1 1 Hr1).
  - destruct (main_turn_ok s a st 1 (20 - Z.of_nat (S k)) Hr Ha ltac:(lia)) as (s1 & Hr1 & E1).
    replace (2 * S k + 2)%nat with (S (S (2 * k + 2))) by lia. cbn [turns]. rewrite E1.
    change (concat (replicate (S k) [98; 97]) ++ [98]) with (98 :: 97 :: concat (replicate k [98; 97]) ++ [98]).
    cbn [put_all]. destruct (put_char st 98) as [st1|]; [|done]. cbn [mbind result_bind mret result_ret].
    destruct (task_turn_ok s1 st1 1 (20 - Z.of_nat (S k)) Hr1 ltac:(lia)) as (s2 & a2 & Hr2 & Ha2 & E2).
    rewrite E2. destruct (put_char st1 97) as [st2|]; [|done]. cbn [mbind result_bind mret result_ret].
    replace (20 - Z.of_nat (S k) + 1) with (20 - Z.of_nat k) by lia. apply (IH s2 a2); [done..|lia].
Qed.

End Methods.

(** The demonstration prints a b and an a in turn, twenty times, and then ends the kernel: the
    thread that returns from [task] deletes itself and switches away from the deleted object.
    The loop that waits for [g_count] never sees it become 0. *)
Theorem demonstration_ends_in_deleted_thread {T} `{TextOutputStream T} thread external s (terminal : T) :
  Scheduler.rep s Scheduler.idle → thread ≠ 0 → external ≠ 0 → thread ≠ external →
  (x ← start thread external s terminal; turns 42 x)
  = (_ ← put_all terminal (concat (replicate 20 [98; 97]) ++ [98]); Fault InvalidAccess).
Proof.
  intros Hr Ht He Hne. unfold start.
  destruct (Scheduler.add_ok 0 ltac:(lia) s _ thread Hr) as (s1 & -> & Hr1); [apply not_elem_of_nil|done|done|].
  cbn [mbind result_bind].
  destruct (Scheduler.begin_ok 0 ltac:(lia) s1 _ external Hr1) as (s2 & -> & Hr2);
    [by cbn; intros [->|[]%elem_of_nil]%elem_of_cons|done|].
  cbn [mbind result_bind mret result_ret].
  by apply (rounds thread external Ht 20 s2 _ terminal Hr2); [left|].
Qed.

End Demonstration.

(** ** The console *)
Module Console.
Import TextTerminal.

Notation editor D := (LineEditor.t D).
Notation events := (list LineEditor.KeyboardEvent).

(** The literals of [do_console_loop]. *)
Definition ENTERING : list Z := [NEWLINE; NEWLINE] ++ chars_of "Entering console loop:" ++ [NEWLINE].
Definition GOT : list Z := chars_of "Got: ".

Section Methods.
Context {D : Type} `{TextDisplayDevice D}.
(** Where [operator new] puts a node of the history. *)
Context (new : gmap Z (LinkedList.node (RingBuffer.t Z)) → Z).
Implicit Types (ed : editor D).

(** [terminal_.puts(literal)] *)
Definition print (s : TextTerminal.t D) (literal : list Z) : result (TextTerminal.t D) := puts s (literal ++ [0]).

(** The body of the loop: the events left, or [None] while [getline] waits. *)
Definition turn (evs : events) ed : result (option events * editor D) :=
  '(r, ed) ← LineEditor.getline evs ed;
  match r with
  | None => mret (None, ed)
  | Some (user_input, evs) =>
      s ← print (LineEditor.terminal_ ed) GOT;
      s ← putv LineEditor.LINE_CAPACITY s user_input;
      s ← print s [NEWLINE];
      ed ← LineEditor.add_history new (LineEditor.with_terminal ed s) user_input;
      mret (Some evs, ed)
  end.

(** [while (true)]: each turn consumes an event, so [S (length evs)] turns are enough. *)
Fixpoint loop (fuel : nat) (evs : events) ed : result (editor D) :=
  match fuel with
  | O => Fault OutOfFuel
  | S fuel =>
      '(r, ed) ← turn evs ed;
      match r with Some evs => loop fuel evs ed | None => mret ed end
  end.

Definition do_console_loop (s : TextTerminal.t D) (evs : events) : result (editor D) :=
  s ← print s ENTERING;
  ed ← LineEditor.init s;
  loop (S (length evs)) evs ed.

End Methods.

(** ** The rows of the screen

    Printing scrolls when the cursor is below the last row; a newline does not, and stops
    the kernel when the cursor is there already. *)
Definition row_below (y : Z) : Z := Z.min y (CONSOLE_HEIGHT - 1) + 1.

Definition newline_row (y : Z) : option Z := if y + 1 <=? CONSOLE_HEIGHT then Some (y + 1) else None.

(** The row of the cursor after [n] characters, fewer than two rows of them, and a newline,
    from the start of the empty row [y]. *)
Definition echo_row (y : Z) (n : nat) : option Z :=
  if Z.of_nat n =? 0 then newline_row y
  else if Z.of_nat n <? CONSOLE_WIDTH then Some (row_below y)
  else if Z.of_nat n =? CONSOLE_WIDTH then newline_row (row_below y)
  else Some (row_below (row_below y)).

(** A turn of the loop on a line of [n] characters: its row, and that of "Got: ". *)
Definition turn_row (y : Z) (n : nat) : option Z := echo_row (row_below y) (length GOT + n).

(** The sessions of a user, from the history and the row of the prompt: the history when
    the kernel waits for more input, or [None] when the kernel stops. *)
Inductive session : list (list Z) → Z → events → option (list (list Z)) → Prop :=
| session_waits hist y evs :
    LineEditor.spec_waits hist evs (LineEditor.mks [] 0 [] (-1)) = true →
    session hist y evs (Some hist)
| session_line hist y evs l rest y' out :
    LineEditor.spec_line hist evs (LineEditor.mks [] 0 [] (-1)) = Some (l, rest) →
    turn_row y (length l) = Some y' →
    session (l :: hist) y' rest out → session hist y evs out
| session_stops hist y evs l rest :
    LineEditor.spec_line hist evs (LineEditor.mks [] 0 [] (-1)) = Some (l, rest) →
    turn_row y (length l) = None → session hist y evs None.

(** ** Printing lines *)
Section Correctness.
Context {D : Type} `{TextDisplayDeviceLaws D}.
Implicit Types (s : TextTerminal.t D) (a : text).

Lemma print_literal_ok s cs : Forall (λ c, c ≠ 0) cs → print s cs = put_list s cs.
Proof.
  intros Hcs. unfold print. revert s. induction Hcs as [|c cs Hc _ IH]; intros s; [done|].
  cbn. rewrite (proj2 (Z.eqb_neq c 0)) by done. by destruct (putchar s c); cbn.
Qed.

Definition at_row s (y : Z) : Prop := ∃ a, LineEditor.fresh s a ∧ text_y a = y.

Lemma at_row_bounds s y : at_row s y → 0 <= y <= CONSOLE_HEIGHT.
Proof. intros (a & ([_ (row & E & _)] & _) & <-). by apply row_of_ok in E as (_ & ? & _). Qed.

Lemma make_room_row a : text_y (make_room a) = Z.min (text_y a) (CONSOLE_HEIGHT - 1).
Proof. unfold make_room. destruct (Z.leb_spec CONSOLE_HEIGHT (text_y a)); cbn [text_y]; lia. Qed.

(** A newline at the start of a row. *)
Lemma newline_at_row s y :
  at_row s y →
  match newline_row y with
  | Some y' => ∃ s', putchar s NEWLINE = Ok s' ∧ at_row s' y'
  | None => putchar s NEWLINE = Fault AssertionFailed
  end.
Proof.
  intros Hat. pose proof (at_row_bounds _ _ Hat) as Hb. destruct Hat as (a & (Hr & Hx & Hbelow) & <-).
  pose proof (putchar_refines s a NEWLINE Hr) as Hp. unfold spec_putchar in Hp.
  change (NEWLINE =? 0) with false in Hp. change (NEWLINE =? NEWLINE) with true in Hp.
  cbn [mbind result_bind mret result_ret] in Hp. unfold spec_show in Hp. cbn [text_y] in Hp.
  unfold newline_row. destruct (Z.leb_spec (text_y a + 1) CONSOLE_HEIGHT).
  - destruct (row_of (text_y a + 1)) as [row|f] eqn:E; [|apply row_of_fault in E as [_ E]; lia].
    destruct Hp as (s' & E' & Hr'). destruct (putchar s NEWLINE) as [s1|]; [|done]. injection E' as ->.
    exists s'. split; [done|]. eexists. split; [split_and!; [exact Hr'|done|]|done].
    cbn [text_y text_lines]. intros row' Hrow'. apply Hbelow. lia.
  - destruct (row_of (text_y a + 1)) as [row|f] eqn:E.
    + apply row_of_ok in E. lia.
    + apply row_of_fault in E as [-> _].
      destruct (putchar s NEWLINE); [done|by injection Hp as ->].
Qed.

(** Characters that do not fill a row. *)
Lemma short_line s y cs :
  at_row s y → Forall LineEditor.storable cs → cs ≠ [] → Z.of_nat (length cs) < CONSOLE_WIDTH →
  ∃ s', put_list s (cs ++ [NEWLINE]) = Ok s' ∧ at_row s' (row_below y).
Proof.
  intros (a & Hf & <-) Hcs Hne Hw.
  destruct (LineEditor.start_echo s a cs Hf Hcs Hne Hw) as (s1 & E & Hs).
  destruct (LineEditor.session_newline _ _ _ _ _ _ Hs) as (s2 & E2 & Hfin).
  rewrite LineEditor.put_list_app, E. cbn [mbind result_bind put_list]. rewrite E2.
  exists s2. split; [done|]. destruct Hfin as (a2 & Hr & Hx & Hy & _ & Hb & _).
  exists a2. rewrite make_room_row in *. split; [|unfold row_below; lia].
  split_and!; [done..|]. intros row Hrow. apply Hb. lia.
Qed.

(** Exactly a row of them: the cursor goes to the start of the next row. *)
Lemma full_row s y cs :
  at_row s y → Forall LineEditor.storable cs → Z.of_nat (length cs) = CONSOLE_WIDTH →
  ∃ s', put_list s cs = Ok s' ∧ at_row s' (row_below y).
Proof.
  intros (a & Hf & <-) Hcs Hw. destruct cs as [|c cs _] using rev_ind; [done|].
  rewrite length_app in Hw. cbn in Hw. apply Forall_app in Hcs as [Hcs (Hc & _)%Forall_cons].
  destruct (LineEditor.start_echo s a cs Hf Hcs) as (s1 & E & a1 & Hr1 & He1);
    [by intros ->|lia|]. rewrite LineEditor.put_list_app, E. cbn [mbind result_bind put_list].
  destruct He1 as (Hy & Hrow & Hlen & Hl & Hx & _ & Hb & _). rewrite app_nil_r in Hl.
  destruct Hc as (Hz & Hn & Hbs).
  assert (spec_putchar a1 c = Ok (mkt (set_row (text_lines a1) (text_y a1) (typed cs (text_x a1) c)) 0 (text_y a1 + 1)))
    as Esp.
  { unfold spec_putchar. decide_Z. rewrite spec_normal_eq. unfold make_room. rewrite Hy. decide_Z. cbn zeta.
    rewrite Hy, Hl, Hx. decide_Z. cbn [mbind result_bind mret result_ret]. unfold type_char.
    rewrite Hy, Hl, Hx. decide_Z. unfold spec_show. cbn [text_y].
    destruct (row_of (_ + 1)) as [|f] eqn:Er; [done|]. apply row_of_fault in Er as [_ Er]. lia. }
  destruct (LineEditor.term_put_ok _ _ _ _ Hr1 Esp) as (s2 & -> & Hr2). cbn [mbind result_bind].
  exists s2. split; [done|]. eexists. split; [split_and!; [exact Hr2|done|]|].
  - cbn [text_y text_lines]. intros row Hrow'. rewrite nth_set_row by lia. decide_Z. apply Hb. lia.
  - cbn [text_y]. rewrite Hy, make_room_row. done.
Qed.

(** Fewer than two rows of characters and a newline. *)
Lemma echo_line s y cs :
  at_row s y → Forall LineEditor.storable cs → Z.of_nat (length cs) < 2 * CONSOLE_WIDTH →
  match echo_row y (length cs) with
  | Some y' => ∃ s', put_list s (cs ++ [NEWLINE]) = Ok s' ∧ at_row s' y'
  | None => put_list s (cs ++ [NEWLINE]) = Fault AssertionFailed
  end.
Proof.
  intros Hat Hcs Hlen. unfold echo_row.
  assert (∀ s y, at_row s y →
    match newline_row y with
    | Some y' => ∃ s', put_list s [NEWLINE] = Ok s' ∧ at_row s' y'
    | None => put_list s [NEWLINE] = Fault AssertionFailed
    end) as Hnl.
  { intros s0 y0 H1. pose proof (newline_at_row _ _ H1) as H2. cbn [put_list].
    destruct (newline_row y0); [destruct H2 as (s' & -> & ?); by exists s'|by rewrite H2]. }
  destruct (Z.eqb_spec (Z.of_nat (length cs)) 0); [destruct cs; [by apply Hnl|done]|].
  destruct (Z.ltb_spec (Z.of_nat (length cs)) CONSOLE_WIDTH).
  { by apply short_line; [..|by intros ->|]. }
  set (w := Z.to_nat CONSOLE_WIDTH).
  assert (length (take w cs) = w) as Hw by (rewrite length_take; unfold w, CONSOLE_WIDTH in *; lia).
  rewrite <-(take_drop w cs) in Hcs. apply Forall_app in Hcs as [Hc1 Hc2].
  destruct (full_row s y (take w cs) Hat Hc1) as (s1 & E & Hat1); [by rewrite Hw|].
  replace (cs ++ [NEWLINE]) with (take w cs ++ drop w cs ++ [NEWLINE]) by by rewrite app_assoc, take_drop.
  rewrite LineEditor.put_list_app, E. cbn [mbind result_bind]. destruct (Z.eqb_spec (Z.of_nat (length cs)) CONSOLE_WIDTH).
  - rewrite drop_ge by (unfold w; lia). cbn [app]. by apply Hnl.
  - apply short_line; [done..| |rewrite length_drop; unfold w, CONSOLE_WIDTH in *; lia].
    intros E'. apply (f_equal length) in E'. rewrite length_drop in E'. cbn in E'. unfold w, CONSOLE_WIDTH in *. lia.
Qed.

(** ** A turn of the loop *)
Definition ready (ed : editor D) (hist : list (list Z)) (y : Z) : Prop :=
  at_row (LineEditor.terminal_ ed) y ∧ LineEditor.holds_history ed hist ∧
  RingBuffer.rep LineEditor.MAXPROMPT (LineEditor.prompt_ ed) [62].

Lemma prompt_storable : Forall LineEditor.storable [62].
Proof. by repeat constructor. Qed.

Context (new : gmap Z (LinkedList.node (RingBuffer.t Z)) → Z).
Context (new_fresh : ∀ h, h !! new h = None ∧ new h ≠ 0).

Lemma add_history_ok (ed : editor D) hist r l :
  LineEditor.holds_history ed hist → RingBuffer.rep LineEditor.LINE_CAPACITY r l →
  Forall LineEditor.storable l →
  ∃ ed', LineEditor.add_history new ed r = Ok ed' ∧ LineEditor.holds_history ed' (l :: hist) ∧
    LineEditor.terminal_ ed' = LineEditor.terminal_ ed ∧ LineEditor.prompt_ ed' = LineEditor.prompt_ ed.
Proof.
  intros (Hst & hs & Hrep & Hall) Hr Hl. unfold LineEditor.add_history.
  destruct (LinkedList.ll_push_front_ok new new_fresh _ _ r Hrep) as (h & -> & Hh). cbn.
  eexists. split_and!; [done| |done..]. split; [by constructor|]. exists (r :: hs). split; [done|by constructor].
Qed.

Lemma GOT_storable : Forall LineEditor.storable GOT.
Proof. by repeat constructor. Qed.

Lemma turn_ok evs ed hist y l rest :
  ready ed hist y → LineEditor.spec_line hist evs (LineEditor.mks [] 0 [] (-1)) = Some (l, rest) →
  match turn_row y (length l) with
  | Some y' => ∃ ed', turn new evs ed = Ok (Some rest, ed') ∧ ready ed' (l :: hist) y'
  | None => turn new evs ed = Fault AssertionFailed
  end.
Proof.
  intros (Hat & Hh & Hp) Hspec. destruct Hat as (a & Hf & <-).
  destruct (LineEditor.getline_ok ed a [62] hist evs l rest Hp prompt_storable ltac:(done) Hh Hf Hspec)
    as (r & ed1 & E & Hp1 & Hr & Hl & Hh1 & a1 & Hr1 & Hx1 & Hy1 & _ & Hb1 & _).
  assert (at_row (LineEditor.terminal_ ed1) (row_below (text_y a))) as Hat1.
  { exists a1. rewrite make_room_row in *. split; [|unfold row_below; lia].
    split_and!; [done..|]. intros row Hrow. apply Hb1. lia. }
  unfold turn. rewrite E. cbn [mbind result_bind]. rewrite print_literal_ok by by repeat constructor.
  assert (Forall LineEditor.storable (GOT ++ l)) as Hgl by (apply Forall_app; split; [exact GOT_storable|done]).
  destruct (LineEditor.ring_size_ok _ _ Hr) as [_ Hlen].
  pose proof (echo_line _ _ (GOT ++ l) Hat1 Hgl) as He. rewrite length_app in He.
  specialize (He ltac:(change (length GOT) with 5%nat; unfold LineEditor.LINE_CAPACITY, LineEditor.MAXPROMPT, CONSOLE_WIDTH in *; lia)).
  fold (turn_row (text_y a) (length l)) in He.
  rewrite <-app_assoc, LineEditor.put_list_app in He.
  destruct (put_list (LineEditor.terminal_ ed1) GOT) as [s2|f]; cbn [mbind result_bind] in *;
    [|destruct (turn_row _ _); [by destruct He as (? & ? & _)|by injection He as ->]].
  rewrite (putv_ok _ _ _ l LineEditor.LINE_CAPACITY_pos Hr). rewrite LineEditor.put_list_app in He.
  destruct (put_list s2 l) as [s3|f]; cbn [mbind result_bind] in *;
    [|destruct (turn_row _ _); [by destruct He as (? & ? & _)|by injection He as ->]].
  rewrite print_literal_ok by by repeat constructor.
  destruct (turn_row _ _) as [y'|]; [|by rewrite He]. destruct He as (s4 & -> & Hat4). cbn [mbind result_bind].
  destruct (add_history_ok (LineEditor.with_terminal ed1 s4) hist r l) as (ed2 & -> & Hh2 & Ht2 & Hp2); [done..|].
  cbn. exists ed2. split; [done|]. unfold ready. rewrite Ht2, Hp2. cbn. by rewrite Hp1.
Qed.

Lemma turn_waits evs ed hist y :
  ready ed hist y → LineEditor.spec_waits hist evs (LineEditor.mks [] 0 [] (-1)) = true →
  ∃ ed', turn new evs ed = Ok (None, ed') ∧ LineEditor.holds_history ed' hist.
Proof.
  intros ((a & Hf & <-) & Hh & Hp) Hspec.
  destruct (LineEditor.getline_waits ed a [62] hist evs Hp prompt_storable ltac:(done) Hh Hf Hspec) as (ed1 & E & Hh1).
  unfold turn. rewrite E. by exists ed1.
Qed.

(** ** The loop, by induction on the session *)
Lemma loop_session hist y evs out :
  session hist y evs out → ∀ fuel ed, (length evs < fuel)%nat → ready ed hist y →
  match out with
  | Some hist' => ∃ ed', loop new fuel evs ed = Ok ed' ∧ LineEditor.holds_history ed' hist'
  | None => loop new fuel evs ed = Fault AssertionFailed
  end.
Proof.
  induction 1 as [hist y evs Hw|hist y evs l rest y' out Hl Hrow _ IH|hist y evs l rest Hl Hrow];
    intros [|fuel] ed Hfuel Hready; try lia; cbn [loop].
  - destruct (turn_waits _ _ _ _ Hready Hw) as (ed1 & -> & Hh). by exists ed1.
  - pose proof (turn_ok _ _ _ _ _ _ Hready Hl) as Ht. rewrite Hrow in Ht. destruct Ht as (ed1 & -> & Hr1).
    cbn [mbind result_bind]. apply IH; [|done]. apply LineEditor.spec_line_rest in Hl. lia.
  - pose proof (turn_ok _ _ _ _ _ _ Hready Hl) as Ht. rewrite Hrow in Ht. by rewrite Ht.
Qed.

Lemma entering_ok s y :
  at_row s y →
  if y + 2 <=? CONSOLE_HEIGHT
  then ∃ s', print s ENTERING = Ok s' ∧ at_row s' (row_below (y + 2))
  else print s ENTERING = Fault AssertionFailed.
Proof.
  intros Hat. rewrite print_literal_ok by by repeat constructor. unfold ENTERING. cbn [app put_list].
  pose proof (newline_at_row _ _ Hat) as Hn1. unfold newline_row in Hn1.
  destruct (Z.leb_spec (y + 1) CONSOLE_HEIGHT); [|rewrite Hn1; by decide_Z].
  destruct Hn1 as (s1 & -> & Hat1). cbn [mbind result_bind].
  pose proof (newline_at_row _ _ Hat1) as Hn2. unfold newline_row in Hn2.
  replace (y + 1 + 1) with (y + 2) in Hn2 by lia.
  destruct (Z.leb_spec (y + 2) CONSOLE_HEIGHT); [|by rewrite Hn2].
  destruct Hn2 as (s2 & -> & Hat2). cbn [mbind result_bind].
  apply short_line; [done|by repeat constructor|done|done].
Qed.

Lemma init_ready s y : at_row s y → ∃ ed, LineEditor.init s = Ok ed ∧ ready ed [] y.
Proof.
  intros Hat. unfold LineEditor.init.
  destruct (LineEditor.set_prompt_ok (LineEditor.mk s (RingBuffer.init LineEditor.MAXPROMPT) LinkedList.init) 1 [62; 0] [])
    as (ed & -> & Ht & Hh & Hp); [by apply RingBuffer.rep_init|].
  exists ed. split; [done|]. split_and!; [by rewrite Ht| |done].
  split; [constructor|]. exists []. rewrite Hh. split; [apply LinkedList.ll_rep_init|constructor].
Qed.

End Correctness.

(** The lines that stop the kernel: those of 75 characters, which with "Got: " fill a row,
    entered where the answer comes to stand on the last row. *)
Lemma turn_row_stops y n :
  0 <= y <= CONSOLE_HEIGHT → (n <= Z.to_nat LineEditor.LINE_CAPACITY)%nat →
  turn_row y n = None ↔ n = 75%nat ∧ CONSOLE_HEIGHT - 2 <= y.
Proof.
  change (Z.to_nat LineEditor.LINE_CAPACITY) with 77%nat.
  unfold turn_row, echo_row, newline_row, row_below, CONSOLE_HEIGHT, CONSOLE_WIDTH.
  change (length GOT) with 5%nat. intros Hy Hn. rewrite Nat2Z.inj_add.
  repeat case_Z; split; try done; try (intros; lia); intros [? ?]; lia.
Qed.

End Console.

(** ** The property and its witness *)
Module ConsoleProperties.
Import TextTerminal Console.


Definition type_line (n : nat) : list LineEditor.KeyboardEvent :=
  replicate n (LineEditor.press 0 97) ++ [LineEditor.press 0 NEWLINE].

Lemma blank_row : ∃ s : TextTerminal.t VGA.t, TextTerminal.init demo_display = Ok s ∧ at_row s 0.
Proof.
  destruct (init_view demo_display) as (s & E & Hv). exists s. split; [exact E|].
  exists blank. split; [|done]. split_and!; [|done|intros; apply blank_nth].
  apply rep_view. split; [apply blank_cursor_ok|eauto].
Qed.


End ConsoleProperties.
