(* ===== verification/KernelReports.v ===== *)
(** * KernelReports: what the kernel tells while it starts, and the test of the loader

    Models the messages of [Kernel] (src/Kernel/src/kernel.cpp) on the terminal and in the
    log ([print_welcome_message], [report_installed_memory], [report_free_page_frames] and
    the others of the constructor), and [do_exec_test] with [get_module_data].

    They compose [Logger] and [LockedTerminal] (Logging.v), the enumerator of the boot
    loader's modules (BootMemory.v) and the ELF loader (Elf.v).  The addresses of literals and
    local arrays are parameters, and so is what a loaded program does. *)
From S2P Require Import Prelude TextDisplay Strings Printf Storage RingBuffer Terminal Scheduler Interrupts Logging Panic Paging BootMemory Elf.
Import Strings Printf.

Module Reports.

Section Methods.
Context (W : Z) {T D : Type} `{TextOutputStream T} `{TextDisplayDevice D}.
(** The arrays of [Logger::log] and of [UnlockedTextTerminal::printf]. *)
Context (message log_buffer buffer : Z) (literal_at : list Z → Z).

(** The memory, the global logger and the terminal of the kernel. *)
Record console := mk { mem : gmap Z Z; g_logger : @Logger.t T; terminal_ : @LockedTerminal.t D }.
Implicit Types (c : console) (rows : list row).

(** [TRACE] in the function [fn], and [terminal_.printf]; a format and its arguments are
    given as rows and a tail. *)
Definition trace (fn : list Z) rows (tail : list Z) c : result console :=
  '(m, l) ← Logger.log W message log_buffer (literal_at Logger.log_format) (mem c) (g_logger c)
              (literal_at fn) (literal_at (format_of (fst <$> rows) tail)) (snd <$> rows);
  mret (mk m l (terminal_ c)).

Definition print rows (tail : list Z) c : result console :=
  '(m, _, t) ← LockedTerminal.printf W buffer (mem c) (terminal_ c)
                 (literal_at (format_of (fst <$> rows) tail)) (snd <$> rows);
  mret (mk m (g_logger c) t).

(** [initialize_logger]; the unique pointer leaks the stream ([UniquePointer.leaked_survives]). *)
Definition initialize_logger (stream : T) c : result console :=
  l ← Logger.set_text_output_stream (g_logger c) (Some stream); mret (mk (mem c) l (terminal_ c)).

Definition U : Z := 117.
Definition S_ : Z := 115.

(** The constructor: [TRACE("Flapjack OS (%s)", get_platform())] and
    [TRACE("mb_info=%p ; istack=%p", ..)]. *)
Definition platform_rows (platform : list Z) : list row := [(chars_of "Flapjack OS (", S_, literal_at platform)].

Definition announce (platform : list Z) (mb_info istack : Z) c : result console :=
  c ← trace (chars_of "Kernel") (platform_rows platform) (chars_of ")") c;
  trace (chars_of "Kernel") [(chars_of "mb_info=", 112, mb_info); (chars_of " ; istack=", 112, istack)] [] c.

Definition print_welcome_message (platform : list Z) c : result console :=
  print (platform_rows platform) (chars_of ")" ++ NL) c.

Definition memory_rows (mem_lower mem_upper : Z) : list row :=
  [([], U, mem_lower); (chars_of " KB low memory, ", U, mem_upper / 1024)].

Definition report_installed_memory (mem_lower mem_upper : Z) c : result console :=
  c ← trace (chars_of "report_installed_memory") (memory_rows mem_lower mem_upper) (chars_of " MB high memory") c;
  print (memory_rows mem_lower mem_upper) (chars_of " MB high memory" ++ NL) c.

(** [(unsigned)n*4/1024] *)
Definition frames_rows (n : Z) : list row :=
  [(chars_of "Number of free page frames is ", U, uwrap 32 n);
   (chars_of " (", U, uwrap 32 (uwrap 32 n * 4) / 1024)].

Definition report_free_page_frames (n : Z) c : result console :=
  c ← trace (chars_of "report_free_page_frames") (frames_rows n) (chars_of "MB)") c;
  print (frames_rows n) (chars_of "MB)" ++ NL) c.

(** The message of [initialize_page_frame_allocator] about [sizeof(ConcretePageFrameAllocator)]. *)
Definition allocator_rows (size : Z) : list row :=
  [(chars_of "Page frame allocator will use ", U, size); (chars_of " bytes (", U, size / 1024)].

Definition report_page_frame_allocator (size : Z) c : result console :=
  print (allocator_rows size) (chars_of " KB)" ++ NL) c.

(** ** What they need *)
Definition clear_of (p : Z) (cs : list Z) : Prop :=
  apart p cs message Logger.LOGGER_MESSAGE_SIZE ∧ apart p cs log_buffer Logger.LOGGER_MESSAGE_SIZE ∧
  apart p cs buffer LockedTerminal.BUFFER_SIZE.

(** The arrays do not meet each other, nor the literals and the strings that are printed. *)
Record frame (m : gmap Z Z) (literals : list (list Z)) (strs : Z → option (list Z)) : Prop := {
  fr_positive : 0 < message ∧ 0 < log_buffer ∧ 0 < buffer;
  fr_apart : disjoint message Logger.LOGGER_MESSAGE_SIZE log_buffer Logger.LOGGER_MESSAGE_SIZE;
  fr_format : cstr m (literal_at Logger.log_format) Logger.log_format ∧
              clear_of (literal_at Logger.log_format) Logger.log_format;
  fr_literal : ∀ cs, cs ∈ literals → cstr m (literal_at cs) cs ∧ clear_of (literal_at cs) cs;
  fr_string : ∀ p cs, strs p = Some cs → cstr m p cs ∧ clear_of p cs;
}.

Definition outside_arrays (m m' : gmap Z Z) : Prop :=
  ∀ a, ¬ message <= a < message + Logger.LOGGER_MESSAGE_SIZE →
       ¬ log_buffer <= a < log_buffer + Logger.LOGGER_MESSAGE_SIZE →
       ¬ buffer <= a < buffer + LockedTerminal.BUFFER_SIZE → m' !! a = m !! a.

Lemma outside_trans m m' m'' : outside_arrays m m' → outside_arrays m' m'' → outside_arrays m m''.
Proof. intros H1' H2' a Ha Hb Hc. by rewrite H2', H1' by done. Qed.

Lemma clear_kept m m' p cs : outside_arrays m m' → cstr m p cs → clear_of p cs → cstr m' p cs.
Proof.
  intros Ho Hc (H1' & H2' & H3'). apply (cstr_frame m); [|done]. unfold apart in *.
  intros a Ha. apply Ho; lia.
Qed.

Lemma frame_kept m m' literals strs : outside_arrays m m' → frame m literals strs → frame m' literals strs.
Proof.
  intros Ho [Hp Hd [Hf Hf'] Hl Hs]. split; [done..| | |].
  - split; [by eapply clear_kept|done].
  - intros cs Hin. destruct (Hl cs Hin) as [? ?]. split; [by eapply clear_kept|done].
  - intros p cs E. destruct (Hs p cs E) as [? ?]. split; [by eapply clear_kept|done].
Qed.

(** ** A message *)
Section Message.
Context (HW : W = 32 ∨ W = 64) (strs : Z → option (list Z)) (literals : list (list Z)).

Definition message_text rows (tail : list Z) : list Z := rows_text W strs rows ++ tail.

(** A message that fits in the arrays. *)
Definition short rows (tail : list Z) : Prop :=
  Forall (good_row strs) rows ∧ plain tail ∧
  (sum_list (row_room W strs <$> rows) + length tail < Z.to_nat LockedTerminal.BUFFER_SIZE)%nat.

Definition items rows (tail : list Z) : list item := concat (row_items W strs <$> rows) ++ (Char <$> tail).

Lemma items_text rows tail : text (items rows tail) = message_text rows tail.
Proof. unfold items. by rewrite text_app, rows_text_ok, text_chars. Qed.

Lemma items_plain rows tail : short rows tail → plain (message_text rows tail).
Proof. intros (Hg & Ht & _). apply plain_app; [by apply rows_plain|done]. Qed.

Lemma items_length rows tail : short rows tail → Z.of_nat (length (items rows tail)) < LockedTerminal.BUFFER_SIZE.
Proof.
  intros (Hg & _ & Hr). unfold items. rewrite length_app, length_fmap.
  pose proof (rows_room W strs rows Hg). unfold LockedTerminal.BUFFER_SIZE in *. lia.
Qed.

Lemma items_kept n rows tail :
  short rows tail → LockedTerminal.BUFFER_SIZE <= n → kept n (items rows tail) = message_text rows tail.
Proof.
  intros Hs Hn. pose proof (items_length rows tail Hs). rewrite <-items_text. apply kept_whole; [|lia].
  rewrite items_text. by apply items_plain.
Qed.

Lemma items_expand rows tail :
  short rows tail →
  expand W strs (format_of (fst <$> rows) tail) false (snd <$> rows) = Some (items rows tail).
Proof.
  intros (Hg & Ht & _). rewrite expand_parts; [by apply rows_expand_tail| |by apply plain_literal].
  apply Forall_fmap. eapply Forall_impl; [exact Hg|]. intros r (Hl & _). by apply plain_literal.
Qed.

Definition unlocked_ok (t : @LockedTerminal.t D) : Prop :=
  0 <= InterruptLock.count_ (LockedTerminal.lock_ t) < 2 ^ 31 - 1 ∧
  (InterruptLock.count_ (LockedTerminal.lock_ t) = 0 → InterruptLock.enabled (LockedTerminal.lock_ t) = true).

(** [printf] puts the message on the terminal. *)
Lemma printf_message rows tail m (t : LockedTerminal.t (D := D)) :
  frame m literals strs → format_of (fst <$> rows) tail ∈ literals → short rows tail → unlocked_ok t →
  ∃ m', LockedTerminal.printf W buffer m t (literal_at (format_of (fst <$> rows) tail)) (snd <$> rows)
    = (i ← TextTerminal.put_list (LockedTerminal.impl_ t) (message_text rows tail);
       mret (m', counted LockedTerminal.BUFFER_SIZE (items rows tail), LockedTerminal.mk (LockedTerminal.lock_ t) i)) ∧
    outside_arrays m m'.
Proof.
  intros [(_ & _ & Hb) _ _ Hl Hs] Hin Hsh [Hc He]. destruct (Hl _ Hin) as (Hf & _ & _ & Ha).
  destruct (LockedTerminal.terminal_printf_prints W buffer m t
    (literal_at (format_of (fst <$> rows) tail)) (format_of (fst <$> rows) tail) (snd <$> rows) strs (items rows tail))
    as (m' & E & Ho); try done; [|by apply items_expand|pose proof (items_length _ _ Hsh); unfold LockedTerminal.BUFFER_SIZE in *; lia|].
  { intros p cs Hp. destruct (Hs p cs Hp) as (? & _ & _ & ?). done. }
  exists m'. split; [|intros a _ _; apply Ho]. by rewrite E, (items_kept _ _ _ Hsh) by done.
Qed.

Lemma print_message_ok rows tail c :
  frame (mem c) literals strs → format_of (fst <$> rows) tail ∈ literals → short rows tail →
  unlocked_ok (terminal_ c) →
  ∃ m', print rows tail c
    = (i ← TextTerminal.put_list (LockedTerminal.impl_ (terminal_ c)) (message_text rows tail);
       mret (mk m' (g_logger c) (LockedTerminal.mk (LockedTerminal.lock_ (terminal_ c)) i))) ∧
    outside_arrays (mem c) m'.
Proof.
  intros Hf Hin Hs Hu. destruct (printf_message rows tail _ _ Hf Hin Hs Hu) as (m' & E & Ho).
  exists m'. split; [|done]. unfold print. rewrite E.
  destruct (TextTerminal.put_list (LockedTerminal.impl_ (terminal_ c)) (message_text rows tail)); reflexivity.
Qed.

(** The line of a message in the log. *)
Definition log_text (fn : list Z) rows (tail : list Z) : list Z := fn ++ [58; 32] ++ message_text rows tail ++ [10].

Lemma message_length rows tail : short rows tail → Z.of_nat (length (message_text rows tail)) < LockedTerminal.BUFFER_SIZE.
Proof.
  intros Hs. pose proof (items_length _ _ Hs). rewrite <-items_text. pose proof (text_length (items rows tail)). lia.
Qed.

(** [TRACE] writes the line to the stream. *)
Lemma trace_message_ok fn rows tail c st :
  frame (mem c) literals strs → fn ∈ literals → format_of (fst <$> rows) tail ∈ literals →
  plain fn → Z.of_nat (length fn) < 500 → short rows tail → g_logger c = Logger.mk (Some st) →
  ∃ m', trace fn rows tail c
    = (st ← put_all st (log_text fn rows tail); mret (mk m' (Logger.mk (Some st)) (terminal_ c))) ∧
    outside_arrays (mem c) m'.
Proof.
  intros [(Hm & Hb & _) Hd [Hlf Hlc] Hl Hs] Hfn Hin Hpf Hlen Hsh Hg.
  destruct (Hl _ Hin) as (Hf & Hfc). destruct (Hl _ Hfn) as (Hn & Hnc).
  destruct (Logger.log_ok W message log_buffer (literal_at Logger.log_format) (mem c) st (literal_at fn)
    (literal_at (format_of (fst <$> rows) tail)) fn (format_of (fst <$> rows) tail) (snd <$> rows) strs (items rows tail))
    as (m' & E & Ho); [done| |pose proof (cstr_positive _ _ _ Hn); lia|lia|by apply items_expand
      |pose proof (items_length _ _ Hsh); unfold LockedTerminal.BUFFER_SIZE in *; lia|].
  { split; [done..|]. intros p cs Hp. unfold string_at, clear_of in *.
    destruct Hp as [[= -> ->]|[[= -> ->]|[[= -> ->]|Hp]]]; [tauto..|].
    destruct (Hs p cs Hp) as (? & ? & ? & _). done. }
  exists m'. split; [|intros a H1' H2' _; by apply Ho]. unfold trace. rewrite Hg, E.
  rewrite (items_kept _ _ _ Hsh) by done. unfold Logger.log_line.
  assert (kept Logger.LOGGER_MESSAGE_SIZE (Char <$> fn ++ [58; 32] ++ message_text rows tail ++ [10])
    = log_text fn rows tail) as ->; [|destruct (put_all st (log_text fn rows tail)); reflexivity].
  pose proof (message_length _ _ Hsh). unfold LockedTerminal.BUFFER_SIZE in *.
  rewrite kept_whole, text_chars; [done| |].
  - rewrite text_chars. apply plain_app; [done|]. apply (plain_app [58; 32]); [by repeat constructor|].
    apply plain_app; [by apply items_plain|by repeat constructor].
  - unfold Logger.LOGGER_MESSAGE_SIZE. rewrite length_fmap, !length_app. cbn [length]. lia.
Qed.

(** A message in the log and then on the terminal. *)
Lemma report_ok fn rows log_tail tail c st :
  frame (mem c) literals strs → fn ∈ literals → plain fn → Z.of_nat (length fn) < 500 →
  format_of (fst <$> rows) log_tail ∈ literals → format_of (fst <$> rows) tail ∈ literals →
  short rows log_tail → short rows tail → unlocked_ok (terminal_ c) → g_logger c = Logger.mk (Some st) →
  ∃ m', (c ← trace fn rows log_tail c; print rows tail c)
    = (st ← put_all st (log_text fn rows log_tail);
       i ← TextTerminal.put_list (LockedTerminal.impl_ (terminal_ c)) (message_text rows tail);
       mret (mk m' (Logger.mk (Some st)) (LockedTerminal.mk (LockedTerminal.lock_ (terminal_ c)) i))) ∧
    outside_arrays (mem c) m'.
Proof.
  intros Hf Hfn Hpf Hlen Hin Hin' Hs Hs' Hu Hg.
  destruct (trace_message_ok fn rows log_tail c st Hf Hfn Hin Hpf Hlen Hs Hg) as (m1 & E1 & Ho1).
  assert (∀ st1, ∃ m', print rows tail (mk m1 (Logger.mk (Some st1)) (terminal_ c))
    = (i ← TextTerminal.put_list (LockedTerminal.impl_ (terminal_ c)) (message_text rows tail);
       mret (mk m' (Logger.mk (Some st1)) (LockedTerminal.mk (LockedTerminal.lock_ (terminal_ c)) i))) ∧
    outside_arrays m1 m') as Hp.
  { intros st1. apply (print_message_ok rows tail (mk m1 (Logger.mk (Some st1)) (terminal_ c))); [by eapply frame_kept|done..]. }
  rewrite E1. destruct (put_all st _) as [st1|f].
  - destruct (Hp st1) as (m2 & E2 & Ho2). exists m2. cbn [mbind result_bind mret result_ret]. rewrite E2.
    split; [done|by eapply outside_trans].
  - exists m1. done.
Qed.

End Message.

(** ** The messages of the kernel *)
Definition decimal (n : Z) : list Z := numeral 10 (uwrap 32 n) digits_lower.

Lemma decimal_value n : 0 <= n < 2 ^ 32 → digits_value 10 (decimal n) = n.
Proof.
  intros Hn. unfold decimal. rewrite (uwrap_small 32 n) by done. by apply numeral_ok; [apply table_lower_10|done|].
Qed.

Definition literals_of (fn : list Z) rows (log_tail tail : list Z) : list (list Z) :=
  [fn; format_of (fst <$> rows) log_tail; format_of (fst <$> rows) tail].

Definition unsigned_row (r : row) : Prop := plain r.1.1 ∧ r.1.2 = U ∧ (length r.1.1 <= 40)%nat.

Lemma unsigned_good strs rows : Forall unsigned_row rows → Forall (good_row strs) rows.
Proof. intros Hr. eapply Forall_impl; [exact Hr|]. intros r (Hp & Hu & _). split; [done|]. right; left. by right. Qed.

Lemma unsigned_short strs r r' tail :
  unsigned_row r → unsigned_row r' → plain tail → (length tail <= 40)%nat → short strs [r; r'] tail.
Proof.
  intros Hr Hr' Ht Hl. split; [apply unsigned_good; by rewrite !Forall_cons|]. split; [done|].
  assert (∀ r, unsigned_row r → (row_room W strs r <= 50)%nat) as Hroom.
  { intros x (_ & Hu & Hle). unfold row_room. rewrite Hu. cbn [Z.eqb Pos.eqb U orb]. lia. }
  assert (sum_list (row_room W strs <$> [r; r']) = (row_room W strs r + (row_room W strs r' + 0))%nat) as -> by done.
  pose proof (Hroom r Hr). pose proof (Hroom r' Hr'). change (Z.to_nat LockedTerminal.BUFFER_SIZE) with 512%nat. lia.
Qed.

Lemma logger_ready c st : initialize_logger st c = Ok (mk (mem c) (Logger.mk (Some st)) (terminal_ c)).
Proof. done. Qed.

(** A report of two numbers. *)
Lemma numbers_reported (HW : W = 32 ∨ W = 64) fn r r' log_tail tail c st :
  frame (mem c) (literals_of fn [r; r'] log_tail tail) (λ _, None) →
  plain fn → (length fn <= 40)%nat → unsigned_row r → unsigned_row r' →
  plain log_tail → plain tail → (length log_tail <= 40)%nat → (length tail <= 40)%nat →
  unlocked_ok (terminal_ c) → g_logger c = Logger.mk (Some st) →
  let text := r.1.1 ++ decimal r.2 ++ r'.1.1 ++ decimal r'.2 in
  ∃ m', (c ← trace fn [r; r'] log_tail c; print [r; r'] tail c)
    = (st ← put_all st (fn ++ [58; 32] ++ text ++ log_tail ++ [10]);
       i ← TextTerminal.put_list (LockedTerminal.impl_ (terminal_ c)) (text ++ tail);
       mret (mk m' (Logger.mk (Some st)) (LockedTerminal.mk (LockedTerminal.lock_ (terminal_ c)) i))) ∧
    outside_arrays (mem c) m'.
Proof.
  intros Hf Hpf Hlf Hr Hr' Hlt Ht Hll Hl Hu Hg txt.
  destruct (report_ok HW (λ _, None) _ fn [r; r'] log_tail tail c st Hf) as (m' & E & Ho);
    try done; try by apply unsigned_short.
  - apply list_elem_of_here.
  - lia.
  - apply list_elem_of_further, list_elem_of_here.
  - apply list_elem_of_further, list_elem_of_further, list_elem_of_here.
  - exists m'. split; [|done]. rewrite E. unfold log_text, message_text.
    assert (rows_text W (λ _, None) [r; r'] = txt) as ->; [|by rewrite <-!app_assoc].
    destruct r as [[l u] x], r' as [[l' u'] x']. destruct Hr as (_ & Hu1 & _), Hr' as (_ & Hu2 & _).
    cbn [fst snd] in Hu1, Hu2. subst u u'. unfold txt, rows_text. cbn [fmap list_fmap concat]. unfold row_text.
    cbn [fst snd].
    change (default [] (field W (λ _, None) U x)) with (Char <$> decimal x).
    change (default [] (field W (λ _, None) U x')) with (Char <$> decimal x'). rewrite !text_chars.
    by rewrite app_nil_r, <-!app_assoc.
Qed.

Ltac literal_fact :=
  match goal with
  | |- plain _ => by apply Handlers.plain_check
  | |- (_ <= _)%nat => by apply Nat.leb_le
  | |- unsigned_row _ => split_and!; [by apply Handlers.plain_check|reflexivity|by apply Nat.leb_le]
  end.

(** The amount of memory and of free frames, in the log and on the terminal. *)
Theorem memory_reported (HW : W = 32 ∨ W = 64) mem_lower mem_upper c st :
  frame (mem c) (literals_of (chars_of "report_installed_memory") (memory_rows mem_lower mem_upper)
    (chars_of " MB high memory") (chars_of " MB high memory" ++ NL)) (λ _, None) →
  unlocked_ok (terminal_ c) → g_logger c = Logger.mk (Some st) →
  let text := decimal mem_lower ++ chars_of " KB low memory, " ++ decimal (mem_upper / 1024) ++
              chars_of " MB high memory" in
  ∃ m', report_installed_memory mem_lower mem_upper c
    = (st ← put_all st (chars_of "report_installed_memory: " ++ text ++ NL);
       i ← TextTerminal.put_list (LockedTerminal.impl_ (terminal_ c)) (text ++ NL);
       mret (mk m' (Logger.mk (Some st)) (LockedTerminal.mk (LockedTerminal.lock_ (terminal_ c)) i))) ∧
    outside_arrays (mem c) m'.
Proof.
  intros Hf Hu Hg txt.
  destruct (numbers_reported HW (chars_of "report_installed_memory") ([], U, mem_lower)
    (chars_of " KB low memory, ", U, mem_upper / 1024) (chars_of " MB high memory")
    (chars_of " MB high memory" ++ NL) c st Hf) as (m' & E & Ho);
    [literal_fact..|exact Hu|exact Hg|].
  exists m'. split; [|done]. etransitivity; [exact E|].
  assert (chars_of "report_installed_memory: " = chars_of "report_installed_memory" ++ [58; 32]) as -> by done.
  unfold txt. cbn [fst snd]. rewrite <-!app_assoc. reflexivity.
Qed.

Theorem free_frames_reported (HW : W = 32 ∨ W = 64) n c st :
  0 <= n < 2 ^ 30 →
  frame (mem c) (literals_of (chars_of "report_free_page_frames") (frames_rows n)
    (chars_of "MB)") (chars_of "MB)" ++ NL)) (λ _, None) →
  unlocked_ok (terminal_ c) → g_logger c = Logger.mk (Some st) →
  let text := chars_of "Number of free page frames is " ++ decimal n ++ chars_of " (" ++ decimal (n * 4 / 1024) ++
              chars_of "MB)" in
  ∃ m', report_free_page_frames n c
    = (st ← put_all st (chars_of "report_free_page_frames: " ++ text ++ NL);
       i ← TextTerminal.put_list (LockedTerminal.impl_ (terminal_ c)) (text ++ NL);
       mret (mk m' (Logger.mk (Some st)) (LockedTerminal.mk (LockedTerminal.lock_ (terminal_ c)) i))) ∧
    outside_arrays (mem c) m'.
Proof.
  intros Hn Hf Hu Hg txt.
  destruct (numbers_reported HW (chars_of "report_free_page_frames") (chars_of "Number of free page frames is ", U, uwrap 32 n)
    (chars_of " (", U, uwrap 32 (uwrap 32 n * 4) / 1024) (chars_of "MB)") (chars_of "MB)" ++ NL) c st Hf)
    as (m' & E & Ho); [literal_fact..|exact Hu|exact Hg|].
  exists m'. split; [|done]. etransitivity; [exact E|].
  assert (chars_of "report_free_page_frames: " = chars_of "report_free_page_frames" ++ [58; 32]) as -> by done.
  unfold txt. cbn [fst snd].
  rewrite !(uwrap_small 32 n), !(uwrap_small 32 (n * 4)) by (unfold fits; lia).
  rewrite <-!app_assoc. reflexivity.
Qed.

End Methods.
End Reports.

(** ** The test of the ELF loader *)
Module ExecTest.

Section Methods.
Context (W K : Z) {M D : Type} `{Elf.AddressSpace M} `{TextDisplayDevice D}.
Context (message log_buffer buffer : Z) (literal_at : list Z → Z) (mods : gmap Z module_t).
(** Calling the loaded program at its entry point: the value it returns and the memory. *)
Context (program : Z → M → result (Z * M)).

(** The messages of [TRACE] are kept in their order; [Reports.trace_message_ok] says where they go. *)
Record kernel := mk { phys_map_ : M; terminal_ : LockedTerminal.t (D := D); traced : list string }.
Implicit Types (k : kernel).

Definition TRACE (msg : string) k : kernel := mk (phys_map_ k) (terminal_ k) (traced k ++ [msg]).

(** [terminal_.printf] *)
Definition print (rows : list row) (tail : list Z) k : result kernel :=
  '(m, _, t) ← LockedTerminal.printf W buffer (Elf.as_mem (phys_map_ k)) (terminal_ k)
                 (literal_at (format_of (fst <$> rows) tail)) (snd <$> rows);
  mret (mk (Elf.as_with_mem (phys_map_ k) m) t (traced k)).

(** [InterruptLock lock; LockGuard guard{lock};]: all interrupt locks share their count. *)
Definition with_lock (f : InterruptLock.t → InterruptLock.t) k : kernel :=
  mk (phys_map_ k) (LockedTerminal.mk (f (LockedTerminal.lock_ (terminal_ k))) (LockedTerminal.impl_ (terminal_ k)))
    (traced k).

(** The length and the bytes. *)
Definition get_module_data (m : module_t) : Z * Z :=
  let mod_start := Mmu.convert_physical_to_logical_address W K (mod_start m) in
  let mod_end := Mmu.convert_physical_to_logical_address W K (mod_end m) in
  (uwrap W (mod_end - mod_start + 1), mod_start).

Definition EXPECTED : Z := 0xdeadbeef.
Definition result_rows (r : Z) : list row := [(chars_of "result = 0x", 120, r)].
Definition failed_rows (r : Z) : list row := [(chars_of "Failed to execute program. It returned 0x", 120, r)].
Definition FAILED : list Z := chars_of " and we expected to receive 0xdeadbeef." ++ NL.
Definition FINISHED : list Z := chars_of "Finished executing user program" ++ NL.

(** [ElfLoaderBase::exec]: [load()()]. *)
Definition exec (fmt : Elf.format) (length bytes : Z) (s : M) : result (Z * M) :=
  '(start, s) ← Elf.load fmt length bytes s;
  program start s.

(** An [ElfLoaderException] leaves the function; the guard is destroyed on the way. *)
Inductive outcome := Returned | Thrown (what : string).

Definition NO_LOADER : string := "Failed to find a loader to handle the specified image.".

Definition do_exec_test (mb_info : multiboot_info) k : result (outcome * kernel) :=
  let k := TRACE "begin" k in
  let k := with_lock InterruptLock.lock k in
  let enumerator := Modules.init W K mb_info in
  assert! Modules.has_next enumerator;
  '(module, _) ← Modules.get_next W mods enumerator;
  let '(length, bytes) := get_module_data module in
  loader ← Elf.create_loader length bytes (phys_map_ k);
  match loader with
  | None => mret (Thrown NO_LOADER, with_lock InterruptLock.unlock k)
  | Some fmt =>
      let k := TRACE "exec" k in
      '(returned, s) ← exec fmt length bytes (phys_map_ k);
      let result := uwrap 32 returned in
      k ← print (result_rows result) NL (mk s (terminal_ k) (traced k));
      k ← (if negb (result =? EXPECTED) then print (failed_rows result) FAILED k else mret k);
      k ← print [] FINISHED k;
      mret (Returned, with_lock InterruptLock.unlock k)
  end.

(** ** What it tells *)
Context (HW : W = 32 ∨ W = 64) {Laws : Elf.AddressSpaceLaws M}.

Definition hexadecimal (n : Z) : list Z := numeral 16 n digits_lower.

Definition told (r : Z) : list Z :=
  (chars_of "result = 0x" ++ hexadecimal r ++ NL) ++
  (if r =? EXPECTED then []
   else chars_of "Failed to execute program. It returned 0x" ++ hexadecimal r ++ FAILED) ++ FINISHED.

Definition literals (r : Z) : list (list Z) :=
  [format_of (fst <$> result_rows r) NL; format_of (fst <$> failed_rows r) FAILED; format_of [] FINISHED].

Notation frame := (Reports.frame message log_buffer buffer literal_at).
Notation outside_arrays := (Reports.outside_arrays message log_buffer buffer).

(** A message, on a memory that is like [m] outside the arrays. *)
Lemma message_told r rows tail k m cs :
  frame m (literals r) (λ _, None) → format_of (fst <$> rows) tail ∈ literals r →
  Reports.short W (λ _, None) rows tail → Reports.unlocked_ok (terminal_ k) →
  outside_arrays m (Elf.as_mem (phys_map_ k)) → Reports.message_text W (λ _, None) rows tail = cs →
  ∃ s', print rows tail k
    = (i ← TextTerminal.put_list (LockedTerminal.impl_ (terminal_ k)) cs;
       mret (mk s' (LockedTerminal.mk (LockedTerminal.lock_ (terminal_ k)) i) (traced k))) ∧
    outside_arrays m (Elf.as_mem s') ∧ Elf.as_flags s' = Elf.as_flags (phys_map_ k).
Proof.
  intros Hf Hin Hs Hu Ho <-.
  destruct (Reports.printf_message W message log_buffer buffer literal_at HW (λ _, None) (literals r) rows tail
    (Elf.as_mem (phys_map_ k)) (terminal_ k)) as (m' & E & Ho'); [by eapply Reports.frame_kept|done..|].
  exists (Elf.as_with_mem (phys_map_ k) m'). rewrite Elf.as_mem_with, Elf.as_flags_with.
  split_and!; [|by eapply Reports.outside_trans|done]. unfold print. rewrite E.
  destruct (TextTerminal.put_list (LockedTerminal.impl_ (terminal_ k)) _); reflexivity.
Qed.

Definition hex_row (label : list Z) (r : Z) : list row := [(label, 120, r)].

Lemma hex_row_text label tail r :
  0 <= r < 2 ^ 32 → Reports.message_text W (λ _, None) (hex_row label r) tail = label ++ hexadecimal r ++ tail.
Proof.
  intros Hr. unfold Reports.message_text, rows_text, hex_row. cbn [fmap list_fmap concat]. unfold row_text. cbn [fst snd].
  change (default [] (field W (λ _, None) 120 r)) with (Char <$> numeral 16 (uwrap 32 r) digits_lower).
  rewrite text_chars, uwrap_small by done. by rewrite app_nil_r, <-!app_assoc.
Qed.

Lemma hex_row_short label tail r :
  plain label → plain tail → (length label <= 100)%nat → (length tail <= 100)%nat →
  Reports.short W (λ _, None) (hex_row label r) tail.
Proof.
  intros Hl Ht Hll Hlt. split; [|split; [done|]].
  - apply Forall_singleton. split; [done|]. right; left. by left.
  - assert (sum_list (row_room W (λ _, None) <$> hex_row label r) = (length label + 10 + 0)%nat) as -> by done.
    change (Z.to_nat LockedTerminal.BUFFER_SIZE) with 512%nat. lia.
Qed.

(** Two pieces of output, one after the other. *)
Lemma told_then m k cs cs' (p : result kernel) (q : kernel → result kernel) :
  (∃ s', p = (i ← TextTerminal.put_list (LockedTerminal.impl_ (terminal_ k)) cs;
              mret (mk s' (LockedTerminal.mk (LockedTerminal.lock_ (terminal_ k)) i) (traced k))) ∧
     outside_arrays m (Elf.as_mem s') ∧ Elf.as_flags s' = Elf.as_flags (phys_map_ k)) →
  (∀ k', LockedTerminal.lock_ (terminal_ k') = LockedTerminal.lock_ (terminal_ k) →
     outside_arrays m (Elf.as_mem (phys_map_ k')) →
     ∃ s', q k' = (i ← TextTerminal.put_list (LockedTerminal.impl_ (terminal_ k')) cs';
                   mret (mk s' (LockedTerminal.mk (LockedTerminal.lock_ (terminal_ k')) i) (traced k'))) ∧
       outside_arrays m (Elf.as_mem s') ∧ Elf.as_flags s' = Elf.as_flags (phys_map_ k')) →
  ∃ s', p ≫= q = (i ← TextTerminal.put_list (LockedTerminal.impl_ (terminal_ k)) (cs ++ cs');
                  mret (mk s' (LockedTerminal.mk (LockedTerminal.lock_ (terminal_ k)) i) (traced k))) ∧
    outside_arrays m (Elf.as_mem s') ∧ Elf.as_flags s' = Elf.as_flags (phys_map_ k).
Proof.
  intros (s1 & -> & Ho1 & Hf1) Hq. rewrite PanicKernel.say_list_app.
  destruct (TextTerminal.put_list (LockedTerminal.impl_ (terminal_ k)) cs) as [i1|f]; [|by exists s1].
  cbn [mbind result_bind mret result_ret].
  destruct (Hq (mk s1 (LockedTerminal.mk (LockedTerminal.lock_ (terminal_ k)) i1) (traced k)) eq_refl Ho1)
    as (s2 & E2 & Ho2 & Hf2). exists s2. cbn in E2, Hf2. by rewrite E2, Hf2.
Qed.

Lemma literals_plain :
  plain NL ∧ plain FAILED ∧ plain FINISHED ∧ plain (chars_of "result = 0x") ∧
  plain (chars_of "Failed to execute program. It returned 0x").
Proof. split_and!; by apply Handlers.plain_check. Qed.

(** The three messages of a finished program. *)
Lemma messages_told r k :
  0 <= r < 2 ^ 32 → frame (Elf.as_mem (phys_map_ k)) (literals r) (λ _, None) → Reports.unlocked_ok (terminal_ k) →
  ∃ s', (k ← print (result_rows r) NL k;
         k ← (if negb (r =? EXPECTED) then print (failed_rows r) FAILED k else mret k);
         print [] FINISHED k)
    = (i ← TextTerminal.put_list (LockedTerminal.impl_ (terminal_ k)) (told r);
       mret (mk s' (LockedTerminal.mk (LockedTerminal.lock_ (terminal_ k)) i) (traced k))) ∧
    outside_arrays (Elf.as_mem (phys_map_ k)) (Elf.as_mem s') ∧ Elf.as_flags s' = Elf.as_flags (phys_map_ k).
Proof.
  intros Hr Hf Hu. destruct literals_plain as (PN & PF & PE & PR & PL). unfold told.
  assert (∀ k', LockedTerminal.lock_ (terminal_ k') = LockedTerminal.lock_ (terminal_ k) →
    Reports.unlocked_ok (terminal_ k')) as Hu' by (intros k' E; unfold Reports.unlocked_ok; by rewrite E).
  apply told_then.
  - apply (message_told r); [done| |by apply hex_row_short; [..|by apply Nat.leb_le|by apply Nat.leb_le]|done|done|].
    + apply list_elem_of_here.
    + by apply (hex_row_text _ NL).
  - intros k1 E1 Ho1. destruct (Z.eqb_spec r EXPECTED) as [He|He]; cbn [negb].
    + apply (message_told r []); [done| |by split_and!; [constructor|exact PE|by apply Nat.ltb_lt]|by apply Hu'|done|done].
      by apply list_elem_of_further, list_elem_of_further, list_elem_of_here.
    + apply told_then.
      * apply (message_told r); [done| |by apply hex_row_short; [..|by apply Nat.leb_le|by apply Nat.leb_le]|by apply Hu'|done|].
        -- by apply list_elem_of_further, list_elem_of_here.
        -- by apply (hex_row_text _ FAILED).
      * intros k2 E2 Ho2.
        apply (message_told r []); [done| |by split_and!; [constructor|exact PE|by apply Nat.ltb_lt]| |done|done].
        -- by apply list_elem_of_further, list_elem_of_further, list_elem_of_here.
        -- apply Hu'. by rewrite E2, E1.
Qed.

End Methods.
(** The test of the loader on the first module of the boot loader, whose bytes are those
    from its start up to and including the byte after its last one: when no loader accepts
    the image, the exception for it leaves the function with the terminal, the memory and the
    interrupt lock as they were; otherwise, when the program that has been loaded returns, the
    terminal shows its result in hexadecimal, a complaint exactly when it is not 0xdeadbeef,
    and that the program has finished, the memory changes only in the arrays of [printf], and
    the lock is released. *)
Theorem exec_test_reports (W K : Z) {M D : Type} `{Elf.AddressSpaceLaws M} `{TextDisplayDevice D}
    message log_buffer buffer literal_at mods program mb_info (k : kernel (M := M) (D := D)) module e loader :
  W = 32 ∨ W = 64 → 0 <= InterruptLock.count_ (LockedTerminal.lock_ (terminal_ k)) < 2 ^ 31 - 2 →
  (InterruptLock.count_ (LockedTerminal.lock_ (terminal_ k)) = 0 →
     InterruptLock.enabled (LockedTerminal.lock_ (terminal_ k)) = true) →
  Modules.get_next W mods (Modules.init W K mb_info) = Ok (module, e) →
  let length := (get_module_data W K module).1 in
  let bytes := (get_module_data W K module).2 in
  Elf.create_loader length bytes (phys_map_ k) = Ok loader →
  let test := do_exec_test W K buffer literal_at mods program mb_info k in
  match loader with
  | None => test = Ok (Thrown NO_LOADER, TRACE "begin" k)
  | Some fmt =>
      ∀ start s1 returned s2,
        Elf.load fmt length bytes (phys_map_ k) = Ok (start, s1) → program start s1 = Ok (returned, s2) →
        Reports.frame message log_buffer buffer literal_at (Elf.as_mem s2) (literals (uwrap 32 returned)) (λ _, None) →
        ∃ s3, test = (i ← TextTerminal.put_list (LockedTerminal.impl_ (terminal_ k)) (told (uwrap 32 returned));
                      mret (Returned, mk s3 (LockedTerminal.mk (LockedTerminal.lock_ (terminal_ k)) i)
                                        (traced k ++ ["begin"; "exec"]%string))) ∧
          Reports.outside_arrays message log_buffer buffer (Elf.as_mem s2) (Elf.as_mem s3) ∧
          Elf.as_flags s3 = Elf.as_flags s2
  end.
Proof.
  intros HW Hc He Hm length bytes Hl test. unfold test, do_exec_test.
  assert (Modules.has_next (Modules.init W K mb_info) = true) as ->.
  { unfold Modules.get_next in Hm. by apply assert_ok in Hm as [? _]. }
  cbn [assert_then]. rewrite Hm. cbn [mbind result_bind]. rewrite (surjective_pairing (get_module_data W K module)).
  fold length bytes. cbn [phys_map_ with_lock TRACE]. rewrite Hl. cbn [mbind result_bind].
  pose proof (InterruptLock.lock_unlock (LockedTerminal.lock_ (terminal_ k)) ltac:(lia) He) as Hun.
  destruct loader as [fmt|].
  - intros start s1 returned s2 Hld Hp Hf. cbn [phys_map_ TRACE with_lock]. unfold exec. rewrite Hld. cbn [mbind result_bind].
    rewrite Hp. cbn [mbind result_bind]. set (k1 := mk s2 _ _).
    destruct (messages_told W message log_buffer buffer literal_at HW (uwrap 32 returned) k1) as (s3 & E & Ho & Hfl);
      [apply uwrap_32_range|done| |].
    { split; cbn; unfold InterruptLock.lock; cbn [InterruptLock.count_]; rewrite swrap_small by (cbn; lia); lia. }
    exists s3. split; [|done].
    match type of E with ?p = _ => transitivity (p ≫= λ k, mret (Returned, with_lock InterruptLock.unlock k)) end.
    { destruct (print _ _ _ _ _ k1) as [k2|]; [|done]. cbn [mbind result_bind].
      by destruct (if negb (uwrap 32 returned =? EXPECTED) then _ else _). }
    rewrite E. unfold k1. cbn [terminal_ LockedTerminal.impl_ LockedTerminal.lock_ traced].
    destruct (TextTerminal.put_list _ _) as [i|]; [|done].
    cbn [mbind result_bind mret result_ret TRACE with_lock terminal_ LockedTerminal.lock_ LockedTerminal.impl_ traced phys_map_].
    unfold with_lock. cbn [terminal_ LockedTerminal.lock_ LockedTerminal.impl_ traced phys_map_].
    by rewrite Hun, <-app_assoc.
  - unfold TRACE, with_lock. cbn [mbind result_bind mret result_ret TRACE with_lock terminal_ LockedTerminal.lock_ LockedTerminal.impl_ traced phys_map_].
    rewrite Hun. by destruct (terminal_ k).
Qed.

(** The image of Elf.v as the only module, its bytes up to 0x100057, and a program that
    returns what is expected. *)
Definition demo_texts : list (list Z) := Logger.log_format :: literals EXPECTED.

Definition demo_address_table : list (Z * list Z) := Handlers.place 0x10000 demo_texts.

Definition demo_address (cs : list Z) : Z :=
  match filter (λ e : Z * list Z, e.2 = cs) demo_address_table with e :: _ => e.1 | [] => 1 end.

Definition demo_loader_space : Elf.flat :=
  Elf.mk_flat (foldr (λ e m, bytes_at e.1 (e.2 ++ [0]) ∪ m) (Elf.f_mem Elf.demo_space) demo_address_table) ∅.

Definition demo_loader_mods : gmap Z module_t := {[ 0xC0009000 := mk_module 0x100000 0x100057 ]}.

Definition demo_program (start : Z) (s : Elf.flat) : result (Z * Elf.flat) := Ok (0xdeadbeef, s).

Definition demo_terminal : TextTerminal.t VGA.t :=
  match TextTerminal.init TextTerminal.demo_display with
  | Ok t => t
  | Fault _ => TextTerminal.mk TextTerminal.demo_display (0, 0) (RingBuffer.init CONSOLE_HEIGHT)
  end.

Definition demo_kernel : kernel (M := Elf.flat) (D := VGA.t) :=
  mk demo_loader_space (LockedTerminal.mk InterruptLock.init demo_terminal) [].

(** The literals stay in place while the image is loaded. *)
Lemma demo_texts_placed m cs :
  forallb (λ cs, Handlers.cstr_check m (demo_address cs) cs && (0x10000 <=? demo_address cs)) demo_texts = true →
  cs ∈ demo_texts →
  cstr m (demo_address cs) cs ∧ Reports.clear_of 0x2000 0x3000 0x4000 (demo_address cs) cs.
Proof.
  rewrite forallb_forall. intros Hc Hcs. specialize (Hc cs). rewrite andb_true_iff, Z.leb_le in Hc.
  destruct Hc as [Hc ?]; [by apply list_elem_of_In|]. split; [by apply Handlers.cstr_check_ok|].
  unfold Reports.clear_of, apart, Logger.LOGGER_MESSAGE_SIZE, LockedTerminal.BUFFER_SIZE. lia.
Qed.

Lemma demo_texts_frame m :
  forallb (λ cs, Handlers.cstr_check m (demo_address cs) cs && (0x10000 <=? demo_address cs)) demo_texts = true →
  Reports.frame 0x2000 0x3000 0x4000 demo_address m (literals EXPECTED) (λ _, None).
Proof.
  intros Hm. split; [lia|left; vm_compute; discriminate| | |done].
  - apply (demo_texts_placed m Logger.log_format Hm), list_elem_of_here.
  - intros cs Hcs. by apply (demo_texts_placed m cs Hm), list_elem_of_further.
Qed.

Lemma exec_test_reports_witness :
  ∃ s3, do_exec_test 32 0xC0000000 0x4000 demo_address demo_loader_mods demo_program (mk_info 0x2 1 0x9000 0 0) demo_kernel
    = (i ← TextTerminal.put_list (LockedTerminal.impl_ (terminal_ demo_kernel)) (told EXPECTED);
       mret (Returned, mk s3 (LockedTerminal.mk InterruptLock.init i) ["begin"; "exec"]%string)).
Proof.
  destruct (Elf.load Elf.Parser32 88 0xC0100000 demo_loader_space) as [[start s1]|] eqn:E; [|vm_compute in E; discriminate E].
  destruct (exec_test_reports 32 0xC0000000 0x2000 0x3000 0x4000 demo_address demo_loader_mods demo_program
    (mk_info 0x2 1 0x9000 0 0) demo_kernel (mk_module 0x100000 0x100057)
    (Modules.mk (uwrap 32 (0xC0009000 + sizeof_module)) 1 1) (Some Elf.Parser32)
    ltac:(by left) ltac:(cbn; lia) ltac:(reflexivity) ltac:(vm_compute; reflexivity) ltac:(vm_compute; reflexivity)
    start s1 0xdeadbeef s1) as (s3 & E3 & _).
  - exact E.
  - reflexivity.
  - apply demo_texts_frame. vm_compute in E. injection E as _ <-. vm_compute. reflexivity.
  - exists s3. exact E3.
Defined.

End ExecTest.
